(** * The order-book synchronisation engine of gdax_async/order_book.py

    A shallow embedding of [OrderBook] and [OrderBookManager] and the
    properties of the engine's specification that were checked against it,
    then of the two handlers that feed them, the socket handler of
    websocket.py and the response handler of client.py, and further
    properties of the engine read off the code.

    Modelling conventions.
    - A Python [Decimal] is the exact integer number of hundredths it
      denotes ([10.00] is [1000], [0.5] is [50]); the code only subtracts and
      compares decimals, which is exact on such values.
    - A message is the dict decoded from a stream frame.  A key that is
      missing is [None]; a key that is present holds the value the code
      converts it to ([Decimal(...)] of a decimal string, [strptime] of a
      timestamp).  Frames whose strings do not convert are outside the type.
    - [Order] objects are mutable and shared between the ladders and the two
      indices, so they live in a store ([heap]) and are held by reference.
    - [logging] calls append a record to [log]; the formatted text is
      abstracted to the level, the leading words of the format string and the
      id it is about, but a format that raises in Python raises here.
    - Python exceptions do not roll back the state: a computation returns an
      outcome together with the state reached when it stopped.
    - [json.loads] is not modelled: the handlers take what it makes of a
      text as a parameter. *)

From stdpp Require Import gmap strings list fin_maps.

Local Open Scope string_scope.
Local Open Scope list_scope.
Local Open Scope Z_scope.

(** ** Values *)

Abbreviation Decimal := Z (only parsing).
Abbreviation Time := Z (only parsing).
Abbreviation loc := nat (only parsing).

(** Units of a [Decimal] per one. *)
Definition quantum : Z := 100.

Inductive Side := BUY | SELL.

#[global] Instance Side_eq_dec : EqDecision Side.
Proof. solve_decision. Defined.

(** [Side.BUY.value = 1], [Side.SELL.value = -1]. *)
Definition Side_value (s : Side) : Z :=
  match s with BUY => 1 | SELL => -1 end.

(** [side == 'buy'] where [side] is a [Side]: an [Enum] member compares by
    identity and is never equal to a [str]. *)
Definition Side_eq_str (s : Side) (x : string) : bool := false.

(** [Side.BUY if message['side'] == 'buy' else Side.SELL] *)
Definition Side_of_string (x : string) : Side :=
  if String.eqb x "buy" then BUY else SELL.

Inductive Exn :=
  | KeyError (key : string)
  | TypeError
  | ValueError
  | AssertionError
  | UnboundLocalError
  (** [Exception('Error: {} order book missing {} messages ({} - {}).')] *)
  | Exception_missing (product_id : string) (count sequence last : Z)
  (** any other [Exception(text)] *)
  | Exception_text (text : string)
  (** reading a reference that the store does not hold; Python references
      never dangle, this outcome is there to keep [deref] total *)
  | Dangling.

Inductive Level := DEBUG | INFO | WARNING | ERROR.

Record LogRecord := mkLog { level : Level; text : string; subject : string }.

Module Order.
Record t := mk {
  time : option Time;
  sequence : Z;
  product_id : string;
  order_id : string;
  order_type : string;
  side : Side;
  price : option Decimal;
  size : option Decimal;
  funds : option Decimal;
}.

Definition with_time (v : option Time) (o : t) : t :=
  mk v (sequence o) (product_id o) (order_id o) (order_type o) (side o)
     (price o) (size o) (funds o).
Definition with_sequence (v : Z) (o : t) : t :=
  mk (time o) v (product_id o) (order_id o) (order_type o) (side o)
     (price o) (size o) (funds o).
Definition with_size (v : option Decimal) (o : t) : t :=
  mk (time o) (sequence o) (product_id o) (order_id o) (order_type o) (side o)
     (price o) v (funds o).
End Order.

(** The dict decoded from one stream frame, by key. *)
Module Message.
Record t := mk {
  type : option string;
  sequence : option Z;
  time : option Time;
  product_id : option string;
  order_id : option string;
  order_type : option string;
  side : option string;
  price : option Decimal;
  size : option Decimal;
  funds : option Decimal;
  remaining_size : option Decimal;
  reason : option string;
  maker_order_id : option string;
  taker_order_id : option string;
  trade_id : option Z;
  new_size : option Decimal;
  old_size : option Decimal;
}.
End Message.

(** The [data] of a level-3 book response: [sequence] and rows
    [[price, size, order_id]]. *)
Module Snapshot.
Definition row : Type := Decimal * Decimal * string.
Record t := mk {
  sequence : Z;
  bids : list row;
  asks : list row;
}.
End Snapshot.

(** ** Outcomes *)

Inductive Result (A : Type) :=
  | Ok (a : A)
  | Raise (e : Exn).
Arguments Ok {A} a.
Arguments Raise {A} e.

(** ** [bintrees.RBTree], as the code uses it

    A sorted map from price to the queue at that price.  Keys are compared
    with [<], so a [None] key cannot be ordered against a [Decimal]: the
    comparison raises [TypeError].  An empty tree compares nothing, so it
    accepts a [None] key, and then holds that key alone; [get] and [insert]
    test a key for equality before they order it, [remove] orders it first,
    so it raises on the [None] key even of the tree that holds it. *)
Module RBTree.
Inductive t :=
  | Tree (m : gmap Z (list nat))
  | NoneKey (v : list nat).

Definition empty : t := Tree ∅.

Definition is_empty (m : gmap Z (list nat)) : bool :=
  match map_to_list m with [] => true | _ => false end.

Definition get (key : option Decimal) (tr : t) : Result (option (list loc)) :=
  match tr, key with
  | Tree m, Some p => Ok (m !! p)
  | Tree m, None => if is_empty m then Ok None else Raise TypeError
  | NoneKey v, None => Ok (Some v)
  | NoneKey _, Some _ => Raise TypeError
  end.

Definition insert (key : option Decimal) (v : list loc) (tr : t) : Result t :=
  match tr, key with
  | Tree m, Some p => Ok (Tree (<[p := v]> m))
  | Tree m, None => if is_empty m then Ok (NoneKey v) else Raise TypeError
  | NoneKey _, None => Ok (NoneKey v)
  | NoneKey _, Some _ => Raise TypeError
  end.

Definition remove (key : option Decimal) (tr : t) : Result t :=
  match tr, key with
  | Tree m, Some p =>
      match m !! p with
      | Some _ => Ok (Tree (delete p m))
      | None => Raise (KeyError "price")
      end
  | Tree m, None => if is_empty m then Raise (KeyError "price") else Raise TypeError
  | NoneKey _, None => Raise TypeError
  | NoneKey _, Some _ => Raise TypeError
  end.

Definition keys (m : gmap Z (list nat)) : list Z := (map_to_list m).*1.

(** [min_key()] and [max_key()] raise [ValueError] on an empty tree. *)
Definition min_key (tr : t) : Result (option Decimal) :=
  match tr with
  | Tree m =>
      match keys m with
      | [] => Raise ValueError
      | k :: ks => Ok (Some (foldr Z.min k ks))
      end
  | NoneKey _ => Ok None
  end.

Definition max_key (tr : t) : Result (option Decimal) :=
  match tr with
  | Tree m =>
      match keys m with
      | [] => Raise ValueError
      | k :: ks => Ok (Some (foldr Z.max k ks))
      end
  | NoneKey _ => Ok None
  end.
End RBTree.

(** ** The state of one book *)

Record OrderBook := mkOrderBook {
  product_id : string;
  _asks : RBTree.t;
  _bids : RBTree.t;
  _order_id_to_order : gmap string nat;
  _order_id_to_unreflected_order : gmap string nat;
  pending_order_book_snapshot : bool;
  _sequence : Z;
  snapshots : list Snapshot.t;
  message_queue : list Message.t;
}.

(** [OrderBook.__init__] *)
Definition OrderBook_init (product_id : string) : OrderBook :=
  mkOrderBook product_id RBTree.empty RBTree.empty ∅ ∅ false (-1) [] [].

(** A book together with the objects it refers to and the log. *)
Record Machine := mkMachine {
  self : OrderBook;
  heap : list Order.t;
  log : list LogRecord;
}.

(** State and exceptions: the outcome and the state reached. *)
Definition ST (S A : Type) : Type := S -> Result A * S.

Definition ret {S A} (a : A) : ST S A := fun w => (Ok a, w).

Definition raise {S A} (e : Exn) : ST S A := fun w => (Raise e, w).

Definition bind {S A B} (c : ST S A) (k : A -> ST S B) : ST S B :=
  fun w =>
    match c w with
    | (Ok a, w') => k a w'
    | (Raise e, w') => (Raise e, w')
    end.

Notation "'let!' x ':=' c 'in' k" := (bind c (fun x => k))
  (at level 10, x name, c at level 100, k at level 200).
Notation "c '>>' k" := (bind c (fun _ => k))
  (at level 90, right associativity).

Definition lift {S A} (r : Result A) : ST S A := fun w => (r, w).

Definition M (A : Type) : Type := ST Machine A.

Definition gets {A} (f : OrderBook -> A) : M A :=
  fun w => (Ok (f (self w)), w).

Definition modify (f : OrderBook -> OrderBook) : M unit :=
  fun w => (Ok tt, mkMachine (f (self w)) (heap w) (log w)).

(** [message[key]] raises [KeyError] when the key is missing. *)
Definition getitem {A} (field : option A) (key : string) : M A :=
  match field with
  | Some v => ret v
  | None => raise (KeyError key)
  end.

(** [Decimal(message.get(key))]: [Decimal(None)] raises [TypeError]. *)
Definition Decimal_of_get (field : option Decimal) : M Decimal :=
  match field with
  | Some v => ret v
  | None => raise TypeError
  end.

Definition logging (lv : Level) (txt subj : string) : M unit :=
  fun w => (Ok tt, mkMachine (self w) (heap w) (log w ++ [mkLog lv txt subj])).

(** [Order(...)]: a new object. *)
Definition new_Order (o : Order.t) : M loc :=
  fun w => (Ok (length (heap w)), mkMachine (self w) (heap w ++ [o]) (log w)).

Definition deref (l : loc) : M Order.t :=
  fun w =>
    match heap w !! l with
    | Some o => (Ok o, w)
    | None => (Raise Dangling, w)
    end.

(** An attribute assignment [order.attr = v]. *)
Definition setattr (l : loc) (f : Order.t -> Order.t) : M unit :=
  fun w =>
    match heap w !! l with
    | Some o => (Ok tt, mkMachine (self w) (<[l := f o]> (heap w)) (log w))
    | None => (Raise Dangling, w)
    end.

(** Field updates of the book. *)
Definition set_asks_tree (v : RBTree.t) (b : OrderBook) : OrderBook :=
  mkOrderBook (product_id b) v (_bids b) (_order_id_to_order b)
    (_order_id_to_unreflected_order b) (pending_order_book_snapshot b)
    (_sequence b) (snapshots b) (message_queue b).
Definition set_bids_tree (v : RBTree.t) (b : OrderBook) : OrderBook :=
  mkOrderBook (product_id b) (_asks b) v (_order_id_to_order b)
    (_order_id_to_unreflected_order b) (pending_order_book_snapshot b)
    (_sequence b) (snapshots b) (message_queue b).
Definition set_order_id_to_order (v : gmap string nat) (b : OrderBook) : OrderBook :=
  mkOrderBook (product_id b) (_asks b) (_bids b) v
    (_order_id_to_unreflected_order b) (pending_order_book_snapshot b)
    (_sequence b) (snapshots b) (message_queue b).
Definition set_order_id_to_unreflected_order (v : gmap string nat) (b : OrderBook) : OrderBook :=
  mkOrderBook (product_id b) (_asks b) (_bids b) (_order_id_to_order b)
    v (pending_order_book_snapshot b)
    (_sequence b) (snapshots b) (message_queue b).
Definition set_pending (v : bool) (b : OrderBook) : OrderBook :=
  mkOrderBook (product_id b) (_asks b) (_bids b) (_order_id_to_order b)
    (_order_id_to_unreflected_order b) v
    (_sequence b) (snapshots b) (message_queue b).
Definition set_sequence (v : Z) (b : OrderBook) : OrderBook :=
  mkOrderBook (product_id b) (_asks b) (_bids b) (_order_id_to_order b)
    (_order_id_to_unreflected_order b) (pending_order_book_snapshot b)
    v (snapshots b) (message_queue b).
Definition set_snapshots (v : list Snapshot.t) (b : OrderBook) : OrderBook :=
  mkOrderBook (product_id b) (_asks b) (_bids b) (_order_id_to_order b)
    (_order_id_to_unreflected_order b) (pending_order_book_snapshot b)
    (_sequence b) v (message_queue b).
Definition set_message_queue (v : list Message.t) (b : OrderBook) : OrderBook :=
  mkOrderBook (product_id b) (_asks b) (_bids b) (_order_id_to_order b)
    (_order_id_to_unreflected_order b) (pending_order_book_snapshot b)
    (_sequence b) (snapshots b) v.

(** ** [OrderBook]: the ladders *)

Definition LARGE_THRESHOLD : Z := 50000.

Definition get_asks (price : option Decimal) : M (option (list loc)) :=
  let! tr := gets _asks in lift (RBTree.get price tr).

Definition remove_asks (price : option Decimal) : M unit :=
  let! tr := gets _asks in
  let! tr' := lift (RBTree.remove price tr) in
  modify (set_asks_tree tr').

Definition set_asks (price : option Decimal) (asks : list loc) : M unit :=
  let! tr := gets _asks in
  let! tr' := lift (RBTree.insert price asks tr) in
  modify (set_asks_tree tr').

Definition get_ask : M (option Decimal) :=
  let! tr := gets _asks in lift (RBTree.min_key tr).

Definition get_bids (price : option Decimal) : M (option (list loc)) :=
  let! tr := gets _bids in lift (RBTree.get price tr).

Definition remove_bids (price : option Decimal) : M unit :=
  let! tr := gets _bids in
  let! tr' := lift (RBTree.remove price tr) in
  modify (set_bids_tree tr').

Definition set_bids (price : option Decimal) (bids : list loc) : M unit :=
  let! tr := gets _bids in
  let! tr' := lift (RBTree.insert price bids tr) in
  modify (set_bids_tree tr').

Definition get_bid : M (option Decimal) :=
  let! tr := gets _bids in lift (RBTree.max_key tr).

(** [del d[key]] on the two indices. *)
Definition del_order (order_id : string) : M unit :=
  let! d := gets _order_id_to_order in
  match d !! order_id with
  | Some _ => modify (set_order_id_to_order (delete order_id d))
  | None => raise (KeyError order_id)
  end.

Definition del_unreflected (order_id : string) : M unit :=
  let! d := gets _order_id_to_unreflected_order in
  match d !! order_id with
  | Some _ => modify (set_order_id_to_unreflected_order (delete order_id d))
  | None => raise (KeyError order_id)
  end.

(** ** [OrderBook]: the observer hooks

    The hooks only log, but they format attributes of the order, and a
    format of [None] with a numeric format raises [TypeError]. *)

(** [Order.__repr__] *)
Definition Order_repr (o : Order.t) : M unit :=
  if String.eqb (Order.order_type o) "market" then ret tt
  else
    match Order.size o, Order.price o with
    | Some _, Some _ => ret tt
    | _, _ => raise TypeError
    end.

Definition on_received (order : loc) (order_type : string) : M unit :=
  let! o := deref order in
  if String.eqb order_type "market" then
    logging DEBUG "Received" (Order.order_id o)
  else
    match Order.size o, Order.price o with
    | Some _, Some _ => logging DEBUG "Received" (Order.order_id o)
    | _, _ => raise TypeError
    end.

Definition on_add (order : loc) : M unit :=
  let! o := deref order in
  match Order.size o, Order.price o with
  | Some size, Some price =>
      logging DEBUG "Added" (Order.order_id o) >>
      if size * price >? LARGE_THRESHOLD * quantum * quantum then
        logging INFO "Large order" (Order.order_id o)
      else ret tt
  | _, _ => raise TypeError
  end.

Definition on_remove (order : loc) (remaining_size : Decimal) (reason : string) : M unit :=
  let! o := deref order in
  match Order.size o, Order.price o with
  | Some _, Some price =>
      logging DEBUG "Removed" (Order.order_id o) >>
      if remaining_size * price >? LARGE_THRESHOLD * quantum * quantum then
        logging INFO "Large cancel" (Order.order_id o)
      else ret tt
  | _, _ => raise TypeError
  end.

(** The format evaluates [self.get_bid()] and [self.get_ask()], which raise
    [ValueError] on an empty ladder. *)
Definition on_match (maker_order_id : string) : M unit :=
  let! bid := get_bid in
  let! ask := get_ask in
  match bid, ask with
  | Some _, Some _ => logging INFO "Trade" maker_order_id
  | _, _ => raise TypeError
  end.

(** [for o in level] raises [TypeError] when [level] is [None]; the format
    reads the loop variable [o], which is unbound after a loop over an
    empty list, and prints it with [Order.__repr__]. *)
Definition on_change (order : loc) : M unit :=
  let! o := deref order in
  let! level := (if decide (Order.side o = SELL)
                 then get_asks (Order.price o)
                 else get_bids (Order.price o)) in
  match level with
  | None => raise TypeError
  | Some q =>
      match last q with
      | None => raise UnboundLocalError
      | Some l =>
          let! lo := deref l in
          Order_repr lo >>
          logging DEBUG "Change" (Order.order_id o)
      end
  end.

(** ** [OrderBook]: the five operations *)

Definition received (order : loc) (order_type : string) : M unit :=
  let! o := deref order in
  let! d := gets _order_id_to_unreflected_order in
  modify (set_order_id_to_unreflected_order (<[Order.order_id o := order]> d)) >>
  on_received order order_type.

(** [bids.append(order)] changes the list held by the tree in place; the
    model writes the extended list back under the same key. *)
Definition add (order : loc) : M unit :=
  let! o := deref order in
  (if decide (Order.side o = BUY) then
     let! bids := get_bids (Order.price o) in
     match bids with
     | None => set_bids (Order.price o) [order]
     | Some q => set_bids (Order.price o) (q ++ [order])
     end
   else
     let! asks := get_asks (Order.price o) in
     match asks with
     | None => set_asks (Order.price o) [order]
     | Some q => set_asks (Order.price o) (q ++ [order])
     end) >>
  let! d := gets _order_id_to_order in
  modify (set_order_id_to_order (<[Order.order_id o := order]> d)) >>
  on_add order.

(** [[o for o in q if o.order_id != order_id]] *)
Fixpoint without_id (order_id : string) (q : list loc) : M (list loc) :=
  match q with
  | [] => ret []
  | l :: q' =>
      let! o := deref l in
      let! r := without_id order_id q' in
      ret (if String.eqb (Order.order_id o) order_id then r else l :: r)
  end.

(** The ladder side of [remove], which the code writes once for the bids
    and once for the asks. *)
Definition remove_level (get : option Decimal -> M (option (list loc)))
    (set : option Decimal -> list loc -> M unit)
    (rem : option Decimal -> M unit)
    (price : Decimal) (order_id : string) : M unit :=
  let! level := get (Some price) in
  match level with
  | Some q =>
      let! q' := without_id order_id q in
      if (0 <? length q')%nat then set (Some price) q'
      else rem (Some price)
  | None => ret tt
  end.

Definition remove (order_id : string) (side : Side) (price : Decimal)
    (remaining_size : Decimal) (reason : string) : M unit :=
  let! d := gets _order_id_to_order in
  match d !! order_id with
  | None =>
      let! u := gets _order_id_to_unreflected_order in
      match u !! order_id with
      | Some _ =>
          logging DEBUG "Removing unreflected" order_id >>
          del_unreflected order_id
      | None => logging ERROR "Trying to remove unrecognized" order_id
      end
  | Some order =>
      let! o := deref order in
      (if decide (side = Order.side o) then ret tt
       else logging ERROR "Trying to remove order with inconsistent side" order_id) >>
      (if decide (Some price = Order.price o) then ret tt
       else logging ERROR "Trying to remove order with inconsistent price" order_id) >>
      (if decide (side = BUY)
       then remove_level get_bids set_bids remove_bids price order_id
       else remove_level get_asks set_asks remove_asks price order_id) >>
      del_order order_id >>
      on_remove order remaining_size reason
  end.

(** The maker side of [match] on one ladder; [false] is the early
    [return] taken when the level is missing or empty. *)
Definition match_head (get : option Decimal -> M (option (list loc)))
    (set : option Decimal -> list loc -> M unit)
    (price size : Decimal) (maker_order_id : string) : M bool :=
  let! level := get (Some price) in
  match level with
  | None | Some [] => ret false
  | Some (head :: rest) =>
      let! h := deref head in
      if String.eqb (Order.order_id h) maker_order_id then
        (if decide (Order.size h = Some size) then set (Some price) rest
         else
           match Order.size h with
           | Some s =>
               setattr head (Order.with_size (Some (s - size))) >>
               set (Some price) (head :: rest)
           | None => raise TypeError
           end) >>
        ret true
      else raise AssertionError
  end.

(** The taker side of [match]. *)
Definition match_taker (size : Decimal) (taker_order_id : string) : M unit :=
  let! u := gets _order_id_to_unreflected_order in
  match u !! taker_order_id with
  | Some taker_order =>
      let! t := deref taker_order in
      match Order.size t with
      | Some s =>
          if s =? 0 then
            del_unreflected taker_order_id >>
            logging DEBUG "Taker order with no size removed" taker_order_id
          else
            setattr taker_order (Order.with_size (Some (s - size))) >>
            if s - size <=? 0 then
              del_unreflected taker_order_id >>
              logging DEBUG "Matched taker fully filled" taker_order_id
            else logging DEBUG "Matched taker size" taker_order_id
      | None =>
          del_unreflected taker_order_id >>
          logging DEBUG "Taker order with no size removed" taker_order_id
      end
  | None => logging ERROR "Unable to find taker order for trade" taker_order_id
  end.

Definition match_ (side : Side) (price size : Decimal)
    (maker_order_id taker_order_id : string) : M unit :=
  let! d := gets _order_id_to_order in
  (match d !! maker_order_id with
   | Some _ => ret tt
   | None => logging ERROR "Unable to find maker order for trade" maker_order_id
   end) >>
  match_taker size taker_order_id >>
  let! matched :=
    (if Side_eq_str side "buy"
     then match_head get_bids set_bids price size maker_order_id
     else match_head get_asks set_asks price size maker_order_id) in
  if matched : bool then on_match maker_order_id else ret tt.

Definition change (order_id : string) (old_size new_size : Decimal) : M unit :=
  let! d := gets _order_id_to_order in
  match d !! order_id with
  | None => logging ERROR "Trying to change unrecognized" order_id
  | Some order =>
      let! o := deref order in
      (if decide (Order.size o = Some old_size) then ret tt
       else logging ERROR "Trying to change order but old_size does not match" order_id) >>
      setattr order (Order.with_size (Some new_size)) >>
      on_change order
  end.

(** ** [OrderBook.update_order_book] *)

(** The order an [open] frame puts on the book: the pending order of its
    id, brought up to date, or a new order made from the frame. *)
Definition opened_order (message : Message.t) (time : Time) (sequence : Z)
    (order_id : string) (size : Decimal) : M loc :=
  let! u := gets _order_id_to_unreflected_order in
  match u !! order_id with
  | Some unreflected_order =>
      setattr unreflected_order (Order.with_time (Some time)) >>
      setattr unreflected_order (Order.with_sequence sequence) >>
      setattr unreflected_order (Order.with_size (Some size)) >>
      del_unreflected order_id >>
      ret unreflected_order
  | None =>
      let! product_id := getitem (Message.product_id message) "product_id" in
      let! side := getitem (Message.side message) "side" in
      let! price := getitem (Message.price message) "price" in
      new_Order (Order.mk (Some time) sequence product_id order_id "limit"
                   (Side_of_string side) (Some price) (Some size) None)
  end.

Definition update_open (message : Message.t) : M unit :=
  let! time := getitem (Message.time message) "time" in
  let! sequence := getitem (Message.sequence message) "sequence" in
  let! order_id := getitem (Message.order_id message) "order_id" in
  let! size := getitem (Message.remaining_size message) "remaining_size" in
  let! order := opened_order message time sequence order_id size in
  add order.

Definition update_done (message : Message.t) : M unit :=
  let! order_id := getitem (Message.order_id message) "order_id" in
  let! reason := getitem (Message.reason message) "reason" in
  let! price := getitem (Message.price message) "price" in
  let! side := getitem (Message.side message) "side" in
  let! remaining_size := getitem (Message.remaining_size message) "remaining_size" in
  let! time := getitem (Message.time message) "time" in
  let! sequence := getitem (Message.sequence message) "sequence" in
  remove order_id (Side_of_string side) price remaining_size reason.

Definition update_match (message : Message.t) : M unit :=
  let! time := getitem (Message.time message) "time" in
  let! sequence := getitem (Message.sequence message) "sequence" in
  let! maker_order_id := getitem (Message.maker_order_id message) "maker_order_id" in
  let! taker_order_id := getitem (Message.taker_order_id message) "taker_order_id" in
  let! trade_id := getitem (Message.trade_id message) "trade_id" in
  let! price := getitem (Message.price message) "price" in
  let! side := getitem (Message.side message) "side" in
  let! size := getitem (Message.size message) "size" in
  match_ (Side_of_string side) price size maker_order_id taker_order_id.

Definition update_change (message : Message.t) : M unit :=
  let! time := getitem (Message.time message) "time" in
  let! sequence := getitem (Message.sequence message) "sequence" in
  let! order_id := getitem (Message.order_id message) "order_id" in
  let! price := getitem (Message.price message) "price" in
  let! side := getitem (Message.side message) "side" in
  let! new_size := getitem (Message.new_size message) "new_size" in
  let! old_size := getitem (Message.old_size message) "old_size" in
  change order_id old_size new_size.

Definition update_received (message : Message.t) : M unit :=
  let! order_type := getitem (Message.order_type message) "order_type" in
  let funds := Message.funds message in
  let! price_size :=
    (if String.eqb order_type "market" then
       ret (None, Message.size message)
     else if String.eqb order_type "limit" then
       let! size := getitem (Message.size message) "size" in
       let! price := getitem (Message.price message) "price" in
       ret (Some price, Some size)
     else
       let! size := Decimal_of_get (Message.size message) in
       let! price := Decimal_of_get (Message.price message) in
       ret (Some price, Some size)) in
  let! time := getitem (Message.time message) "time" in
  let! sequence := getitem (Message.sequence message) "sequence" in
  let! product_id := getitem (Message.product_id message) "product_id" in
  let! order_id := getitem (Message.order_id message) "order_id" in
  let! side := getitem (Message.side message) "side" in
  let! order := new_Order (Order.mk (Some time) sequence product_id order_id
                             order_type (Side_of_string side)
                             (fst price_size) (snd price_size) funds) in
  received order order_type.

(** The [if]/[elif] chain on [message['type']]; a type that matches no
    branch falls through it. *)
Definition dispatch (msg_type : string) (message : Message.t) : M unit :=
  if String.eqb msg_type "open" then update_open message
  else if String.eqb msg_type "done" && bool_decide (is_Some (Message.price message))
  then update_done message
  else if String.eqb msg_type "match" then update_match message
  else if String.eqb msg_type "change" then update_change message
  else if String.eqb msg_type "received" then update_received message
  else ret tt.

Definition update_order_book (message : Message.t) : M unit :=
  let! sequence := getitem (Message.sequence message) "sequence" in
  let! last := gets _sequence in
  if sequence <=? last then ret tt
  else if sequence >? last + 1 then
    let! pid := gets product_id in
    raise (Exception_missing pid (sequence - last) sequence last)
  else
    let! msg_type := getitem (Message.type message) "type" in
    dispatch msg_type message >>
    modify (set_sequence sequence).

Definition on_message (message : Message.t) : M unit :=
  let! pending := gets pending_order_book_snapshot in
  if pending : bool then
    let! q := gets message_queue in
    modify (set_message_queue (q ++ [message]))
  else update_order_book message.

(** ** Snapshots *)

Definition set_pending_order_book_snapshot : M unit :=
  modify (set_pending true) >>
  let! pid := gets product_id in
  logging DEBUG "Pending order book snapshot" pid.

Definition parse_snapshot_order (snapshot_order : Snapshot.row) (sequence : Z)
    (side : Side) : M loc :=
  let! pid := gets product_id in
  new_Order (Order.mk None sequence pid (snapshot_order.2) "limit" side
               (Some snapshot_order.1.1) (Some snapshot_order.1.2) None).

Fixpoint add_rows (rows : list Snapshot.row) (sequence : Z) (side : Side) : M unit :=
  match rows with
  | [] => ret tt
  | snapshot_order :: rows' =>
      let! order := parse_snapshot_order snapshot_order sequence side in
      add order >>
      add_rows rows' sequence side
  end.

Definition apply_order_book_snapshot (snapshot : Snapshot.t) : M unit :=
  modify (set_asks_tree RBTree.empty) >>
  modify (set_bids_tree RBTree.empty) >>
  modify (set_order_id_to_order ∅) >>
  let sequence := Snapshot.sequence snapshot in
  add_rows (Snapshot.bids snapshot) sequence BUY >>
  add_rows (Snapshot.asks snapshot) sequence SELL >>
  modify (set_sequence (Snapshot.sequence snapshot)).

(** [while self.message_queue: message = popleft(); update_order_book(message)];
    [update_order_book] never touches the queue, so the loop runs over the
    queue as it stands when the loop starts. *)
Fixpoint drain (queue : list Message.t) : M unit :=
  match queue with
  | [] => ret tt
  | message :: queue' =>
      modify (set_message_queue queue') >>
      update_order_book message >>
      drain queue'
  end.

(** [result['data']] is [None] when the response body did not parse, and
    [None['sequence']] raises [TypeError]. *)
Definition on_order_book_snapshot (data : option Snapshot.t) : M unit :=
  match data with
  | None => raise TypeError
  | Some snapshot =>
      let! pid := gets product_id in
      logging INFO "Order Book Snapshot received" pid >>
      let! ss := gets snapshots in
      modify (set_snapshots (ss ++ [snapshot])) >>
      apply_order_book_snapshot snapshot >>
      let! q := gets message_queue in
      drain q >>
      modify (set_pending false)
  end.

(** ** [OrderBookManager] *)

Record World := mkWorld {
  product_id_to_order_book : gmap string OrderBook;
  (** [ws_client.ws] is set *)
  ws : bool;
  (** snapshot requests handed to the REST client, by product *)
  requests : list string;
  (** subscribe frames written to the socket, by product *)
  subscriptions : list string;
  objects : list Order.t;
  records : list LogRecord;
}.

Definition MM (A : Type) : Type := ST World A.

Module OrderBookManager.

Definition logging_ (lv : Level) (txt subj : string) : MM unit :=
  fun W => (Ok tt, mkWorld (product_id_to_order_book W) (ws W) (requests W)
                     (subscriptions W) (objects W)
                     (records W ++ [mkLog lv txt subj])).

(** A method call on the book object registered under [pid]. *)
Definition call {A} (pid : string) (c : M A) : MM A :=
  fun W =>
    match product_id_to_order_book W !! pid with
    | None => (Raise Dangling, W)
    | Some b =>
        let '(r, w) := c (mkMachine b (objects W) (records W)) in
        (r, mkWorld (<[pid := self w]> (product_id_to_order_book W)) (ws W)
              (requests W) (subscriptions W) (heap w) (log w))
    end.

Definition get_order_book (pid : string) : MM (option OrderBook) :=
  fun W => (Ok (product_id_to_order_book W !! pid), W).

(** [async_gdax_client.request(..., callback=order_book.on_order_book_snapshot)] *)
Definition request (pid : string) : MM unit :=
  fun W => (Ok tt, mkWorld (product_id_to_order_book W) (ws W)
                     (requests W ++ [pid]) (subscriptions W) (objects W)
                     (records W ++ [mkLog INFO "Request" pid])).

Definition fetch_order_book_snapshot (pid : string) : MM unit :=
  logging_ INFO "Requesting Order Book Snapshot" pid >>
  call pid set_pending_order_book_snapshot >>
  request pid.

Definition subscribe (pid : string) : MM unit :=
  fun W =>
    if ws W then
      (Ok tt, mkWorld (product_id_to_order_book W) (ws W) (requests W)
                (subscriptions W ++ [pid]) (objects W)
                (records W ++ [mkLog DEBUG "Subscribing to WS" pid]))
    else (Raise (Exception_text "Cannot subscribe because WS is disconnected"), W).

Definition init_order_book (pid : string) : MM unit :=
  let! b := get_order_book pid in
  match b with
  | Some _ => raise (Exception_text "Product already initialized in OrderBookManager")
  | None =>
      (fun W => (Ok tt, mkWorld (<[pid := OrderBook_init pid]> (product_id_to_order_book W))
                          (ws W) (requests W) (subscriptions W) (objects W) (records W))) >>
      subscribe pid
  end.

Definition on_message (message : Message.t) : MM unit :=
  match Message.product_id message with
  | None => raise (KeyError "product_id")
  | Some pid =>
      let! order_book := get_order_book pid in
      match order_book with
      | Some b =>
          (if bool_decide (snapshots b = []) && negb (pending_order_book_snapshot b)
           then fetch_order_book_snapshot pid
           else ret tt) >>
          call pid (on_message message)
      | None => logging_ WARNING "Received message for unregistered product" pid
      end
  end.

End OrderBookManager.

(** ** The callers

    [QuickWSClient.handle_websocket_message] hands every frame of the
    socket to the callback that the manager registered,
    [OrderBookManager.on_message]; [AsyncGdaxClient.handle_response] hands
    the response to a snapshot request to [on_order_book_snapshot] of the
    book that asked.  What [json.loads] makes of a text is a parameter. *)

(** The value [json.loads] returns: a dict, read by key as a frame, or any
    other JSON value, which raises [TypeError] when subscripted by a key. *)
Inductive Json :=
  | JDict (message : Message.t)
  | JOther.

Record QuickWSClient := mkQuickWSClient {
  url : string;
  reconnect_timeout : Z;
  last_heartbeat : option Time;
  (** [io_loop.add_timeout(time.time()+10, self.connect)], by deadline *)
  timeouts : list Time;
  (** the manager behind [self.callback], with the log *)
  manager : World;
}.

Definition set_manager (W : World) (C : QuickWSClient) : QuickWSClient :=
  mkQuickWSClient (url C) (reconnect_timeout C) (last_heartbeat C) (timeouts C) W.

(** The world after a [logging] call. *)
Definition logged (lv : Level) (txt subj : string) (W : World) : World :=
  snd (OrderBookManager.logging_ lv txt subj W).

Section Callers.
Variable loads : string -> option Json.
Variable loads_book : string -> option Snapshot.t.

(** The [try] block: [data = json.loads(message)], which raises
    [TypeError] on [None] and [ValueError] on a text that is not JSON, then
    [self.callback(data, self)]. *)
Definition try_callback (message : option string) : MM unit :=
  match message with
  | None => raise TypeError
  | Some text =>
      match loads text with
      | None => raise ValueError
      | Some (JDict data) => OrderBookManager.on_message data
      | Some JOther => raise TypeError
      end
  end.

(** [QuickWSClient.handle_websocket_message]; [now] is the clock. *)
Definition handle_websocket_message (now : Time) (message : option string) :
    ST QuickWSClient unit :=
  fun C =>
    match try_callback message (manager C) with
    | (Ok _, W) => (Ok tt, set_manager W C)
    | (Raise _, W) =>
        match message with
        | None =>
            if 0 <? reconnect_timeout C then
              (Ok tt,
               mkQuickWSClient (url C) (reconnect_timeout C) (last_heartbeat C)
                 (timeouts C ++ [now + 10])
                 (logged WARNING "Websocket disconnected. Attempting to reconnect in 10s."
                    (url C) W))
            else (Ok tt, set_manager (logged WARNING "Websocket disconnected." (url C) W) C)
        | Some text =>
            if String.eqb text "HEARTBEAT" then
              (Ok tt,
               mkQuickWSClient (url C) (reconnect_timeout C) (Some now) (timeouts C) W)
            else
              (Ok tt,
               set_manager
                 (logged ERROR "Cannot parse incoming websocket message" text W) C)
        end
    end.

(** The frames of the socket, each with the time it arrives at. *)
Fixpoint receive (frames : list (Time * option string)) : ST QuickWSClient unit :=
  match frames with
  | [] => ret tt
  | (now, message) :: rest => handle_websocket_message now message >> receive rest
  end.

(** [AsyncGdaxClient.handle_response] for the request of the book [pid]:
    the body decoded, [None] when it does not decode, and handed to the
    callback of the request. *)
Definition handle_response (pid : string) (body : option string) : MM unit :=
  let! data :=
    match body ≫= loads_book with
    | Some snapshot => ret (Some snapshot)
    | None =>
        OrderBookManager.logging_ ERROR "Unable to parse response as json"
          (default "" body) >>
        ret None
    end in
  OrderBookManager.call pid (on_order_book_snapshot data).

End Callers.

(** ** Scenario data *)

Definition fresh (pid : string) : Machine := mkMachine (OrderBook_init pid) [] [].

(** [w] with the sequence cursor set to [seq]. *)
Definition advance (seq : Z) (w : Machine) : Machine :=
  mkMachine (set_sequence seq (self w)) (heap w) (log w).

(** Scenario S2; the frames carry the [time] and [product_id] the venue
    sends with every frame. *)
Definition S2_snapshot : Snapshot.t := Snapshot.mk 200 [(1000, 200, "B")] [].

Definition S2_received : Message.t :=
  Message.mk (Some "received") (Some 201) (Some 0) (Some "BTC-USD") (Some "T")
    (Some "limit") (Some "sell") (Some 999) (Some 50) None None None None None
    None None None.

Definition S2_match : Message.t :=
  Message.mk (Some "match") (Some 202) (Some 0) (Some "BTC-USD") None None
    (Some "buy") (Some 1000) (Some 50) None None None (Some "B") (Some "T")
    (Some 77) None None.

Definition S2_done : Message.t :=
  Message.mk (Some "done") (Some 203) (Some 0) (Some "BTC-USD") (Some "T") None
    (Some "sell") (Some 999) None None (Some 0) (Some "filled") None None None
    None None.

Definition S2_run : M unit :=
  on_order_book_snapshot (Some S2_snapshot) >>
  on_message S2_received >>
  on_message S2_match >>
  on_message S2_done.

(** The order [B] of the S2 snapshot, with a given remaining size. *)
Definition S2_order_B (size : Decimal) : Order.t :=
  Order.mk None 200 "BTC-USD" "B" "limit" BUY (Some 1000) (Some size) None.

(** Scenario S4: a live book whose cursor is 300, an event numbered 302,
    and the event numbered 301 arriving after it. *)
Definition S4_book : OrderBook :=
  set_sequence 300 (set_snapshots [Snapshot.mk 300 [] []] (OrderBook_init "BTC-USD")).

Definition S4_world : World :=
  mkWorld {["BTC-USD" := S4_book]} true ["BTC-USD"] ["BTC-USD"] [] [].

Definition S4_received (seq : Z) (id : string) : Message.t :=
  Message.mk (Some "received") (Some seq) (Some 0) (Some "BTC-USD") (Some id)
    (Some "limit") (Some "buy") (Some 1000) (Some 100) None None None None None
    None None None.

(** The claim on gaps, as the specification words it: after the gap the
    events for the product are refused (they change no book) and a snapshot
    is fetched again. *)
Definition refused_after_gap (W : World) (gap next : Message.t) : Prop :=
  let W1 := snd (OrderBookManager.on_message gap W) in
  product_id_to_order_book (snd (OrderBookManager.on_message next W1))
  = product_id_to_order_book W1.

Definition refetched_after_gap (W : World) (gap : Message.t) : Prop :=
  requests (snd (OrderBookManager.on_message gap W)) <> requests W.

(** A [done] frame of a market order: no [price] key. *)
Definition market_done (seq : Z) (id : string) : Message.t :=
  Message.mk (Some "done") (Some seq) (Some 0) (Some "BTC-USD") (Some id) None
    (Some "sell") None None None (Some 0) (Some "filled") None None None
    None None.

(** The S2 book after its [received] frame: [T] is pending. *)
Definition pending_T : Machine :=
  snd ((on_order_book_snapshot (Some S2_snapshot) >> on_message S2_received)
         (fresh "BTC-USD")).

(** The claim on a [done] without price, as the specification words it:
    applying it deletes the pending entry of its order. *)
Definition done_deletes_pending (message : Message.t) (w : Machine) : Prop :=
  forall id, Message.order_id message = Some id ->
    is_Some (_order_id_to_unreflected_order (self w) !! id) ->
    _order_id_to_unreflected_order (self (snd (update_order_book message w))) !! id
    = None.

(** The five kinds of frame the dispatch knows. *)
Definition known_type (ty : string) : Prop :=
  ty = "open" \/ ty = "done" \/ ty = "match" \/ ty = "change" \/ ty = "received".

(** A frame of a type the dispatch does not know, and a [match] frame
    that lacks its [time]. *)
Definition subscriptions_frame (seq : Z) : Message.t :=
  Message.mk (Some "subscriptions") (Some seq) None (Some "BTC-USD") None None
    None None None None None None None None None None None.

Definition match_without_time (seq : Z) : Message.t :=
  Message.mk (Some "match") (Some seq) None (Some "BTC-USD") None None
    (Some "buy") (Some 1000) (Some 50) None None None (Some "B") (Some "T")
    (Some 77) None None.

(** A manager with no book registered. *)
Definition no_books : World := mkWorld ∅ true [] [] [] [].

(** The claim on events of unknown products, as the specification words
    it: the event creates the book of its product. *)
Definition lazily_created (W : World) (message : Message.t) : Prop :=
  forall pid, Message.product_id message = Some pid ->
    product_id_to_order_book W !! pid = None ->
    is_Some (product_id_to_order_book (snd (OrderBookManager.on_message message W)) !! pid).

(** The world after [logging.warning] of an event that was not routed. *)
Definition warned (pid : string) (W : World) : World :=
  mkWorld (product_id_to_order_book W) (ws W) (requests W) (subscriptions W)
    (objects W)
    (records W ++ [mkLog WARNING "Received message for unregistered product" pid]).

(** The world after the first event of a registered book: the snapshot is
    requested and the event waits in the queue of the book. *)
Definition reconciling (pid : string) (b : OrderBook) (message : Message.t)
    (W : World) : World :=
  mkWorld
    (<[pid := set_message_queue (message_queue b ++ [message]) (set_pending true b)]>
       (product_id_to_order_book W))
    (ws W) (requests W ++ [pid]) (subscriptions W) (objects W)
    (records W ++ [mkLog INFO "Requesting Order Book Snapshot" pid;
                   mkLog DEBUG "Pending order book snapshot" (product_id b);
                   mkLog INFO "Request" pid]).

(** The world after [init_order_book] on a connected socket. *)
Definition registered (pid : string) (W : World) : World :=
  mkWorld (<[pid := OrderBook_init pid]> (product_id_to_order_book W)) (ws W)
    (requests W) (subscriptions W ++ [pid]) (objects W)
    (records W ++ [mkLog DEBUG "Subscribing to WS" pid]).

(** The book state proper: ladders, indices, cursor and the order objects,
    without the bookkeeping of the reconciliation (snapshots kept, frames
    queued, the pending flag) and without the log. *)
Definition core (w : Machine) :=
  (product_id (self w), _asks (self w), _bids (self w),
   _order_id_to_order (self w), _order_id_to_unreflected_order (self w),
   _sequence (self w), heap w).

(** Events applied directly, one after the other. *)
Fixpoint apply_all (messages : list Message.t) : M unit :=
  match messages with
  | [] => ret tt
  | message :: rest => update_order_book message >> apply_all rest
  end.

(** "snapshot + apply(51) + apply(52)": the snapshot alone, then the
    events applied directly. *)
Definition snapshot_then (snapshot : Snapshot.t) (messages : list Message.t) : M unit :=
  apply_order_book_snapshot snapshot >> apply_all messages.

(** Scenario S5: five frames queued while the snapshot is awaited. *)
Definition S5_received (seq : Z) (id : string) : Message.t :=
  Message.mk (Some "received") (Some seq) (Some 0) (Some "BTC-USD") (Some id)
    (Some "limit") (Some "buy") (Some 1000) (Some 100) None None None None None
    None None None.

Definition S5_open (seq : Z) (id : string) : Message.t :=
  Message.mk (Some "open") (Some seq) (Some 0) (Some "BTC-USD") (Some id)
    None (Some "buy") (Some 1000) None None (Some 100) None None None
    None None None.

Definition S5_snapshot : Snapshot.t :=
  Snapshot.mk 50 [(1000, 100, "a")] [(1100, 100, "b")].

Definition S5_awaiting : Machine :=
  mkMachine
    (set_message_queue
       [S5_received 48 "a"; S5_open 49 "a"; S5_received 50 "b";
        S5_received 51 "c"; S5_open 52 "c"]
       (set_pending true (OrderBook_init "BTC-USD")))
    [] [].

(** ** Reading a book *)

(** The ladder of a side. *)
Definition ladder (side : Side) (b : OrderBook) : RBTree.t :=
  match side with BUY => _bids b | SELL => _asks b end.

Definition set_ladder (side : Side) (tr : RBTree.t) (b : OrderBook) : OrderBook :=
  match side with BUY => set_bids_tree tr b | SELL => set_asks_tree tr b end.

Definition opposite (side : Side) : Side :=
  match side with BUY => SELL | SELL => BUY end.

(** The queue of a side at a price. *)
Definition queue_at (side : Side) (price : Decimal) (b : OrderBook) : option (list loc) :=
  match ladder side b with
  | RBTree.Tree m => m !! price
  | RBTree.NoneKey _ => None
  end.

(** ** A snapshot, row by row

    The specification of a snapshot speaks of its rows: the order a row
    stands for, and the places where the rows with a given price or id sit,
    when the rows are stored one after the other from [base] on. *)
Definition order_of_row (sequence : Z) (pid : string) (side : Side)
    (r : Snapshot.row) : Order.t :=
  Order.mk None sequence pid (r.2) "limit" side (Some r.1.1) (Some r.1.2) None.

Fixpoint rows_where (P : Snapshot.row -> bool) (base : nat)
    (rows : list Snapshot.row) : list loc :=
  match rows with
  | [] => []
  | r :: rows' => (if P r then [base] else []) ++ rows_where P (S base) rows'
  end.

Definition price_is (p : Decimal) (r : Snapshot.row) : bool := bool_decide (r.1.1 = p).
Definition id_is (id : string) (r : Snapshot.row) : bool := bool_decide (r.2 = id).

(** A queue extended by more orders; nothing to add leaves it as it is,
    absent if it was absent. *)
Definition extend (q : option (list loc)) (more : list loc) : option (list loc) :=
  match more with
  | [] => q
  | _ => Some (default [] q ++ more)
  end.

(** An index entry overwritten by the last of the orders with its id. *)
Definition overwrite (e : option loc) (more : list loc) : option loc :=
  match last more with
  | Some l => Some l
  | None => e
  end.

(** ** The invariants of the specification, on the model *)

(** What the code never changes of an order once it is created, and what
    it never unsets: the id, the side and the price, and the presence of a
    size. *)
Definition same_order (o o' : Order.t) : Prop :=
  Order.order_id o' = Order.order_id o /\
  Order.side o' = Order.side o /\
  Order.price o' = Order.price o /\
  (is_Some (Order.size o) -> is_Some (Order.size o')).

(** The objects of [h] are in [h'], the same orders. *)
Definition heap_le (h h' : list Order.t) : Prop :=
  forall l o, h !! l = Some o -> exists o', h' !! l = Some o' /\ same_order o o'.

(** The consistency of a book with its objects: the ladders hold decimal
    prices; an order queued at a side and a price is an order of that side
    and price, with a size, and is the order the resting index has for its
    id; no queue holds an order twice; the indices name orders by their id,
    and no order is both pending and resting. *)
Record consistent (w : Machine) : Prop := mkConsistent {
  bids_decimal : exists mb, _bids (self w) = RBTree.Tree mb;
  asks_decimal : exists ma, _asks (self w) = RBTree.Tree ma;
  queued_resting : forall side p q l,
    queue_at side p (self w) = Some q -> l ∈ q ->
    exists o, heap w !! l = Some o /\ Order.side o = side /\
              Order.price o = Some p /\ is_Some (Order.size o) /\
              _order_id_to_order (self w) !! Order.order_id o = Some l;
  queued_once : forall side p q,
    queue_at side p (self w) = Some q -> NoDup q;
  resting_named : forall id l,
    _order_id_to_order (self w) !! id = Some l ->
    exists o, heap w !! l = Some o /\ Order.order_id o = id /\
              is_Some (Order.price o) /\ is_Some (Order.size o);
  pending_named : forall id l,
    _order_id_to_unreflected_order (self w) !! id = Some l ->
    exists o, heap w !! l = Some o /\ Order.order_id o = id;
  pending_apart : forall id id' l,
    _order_id_to_unreflected_order (self w) !! id = Some l ->
    _order_id_to_order (self w) !! id' = Some l -> False;
}.

(** The entries of a queue that carry a given id. *)
Definition entries (id : string) (h : list Order.t) (q : list loc) : list loc :=
  filter (fun l => Order.order_id <$> h !! l = Some id) q.

(** I2, from the index to the ladder: for every id of the resting index,
    the ladder of its order's side holds exactly one entry with that id at
    the price of the order. *)
Definition resting_on_ladder (w : Machine) : Prop :=
  forall id l, _order_id_to_order (self w) !! id = Some l ->
    exists o p q, heap w !! l = Some o /\ Order.price o = Some p /\
                  queue_at (Order.side o) p (self w) = Some q /\
                  length (entries id (heap w) q) = 1%nat.

(** I2, from the ladder to the index: every id in a queue is a key of the
    resting index. *)
Definition ladder_in_resting (w : Machine) : Prop :=
  forall side p q l o,
    queue_at side p (self w) = Some q -> l ∈ q -> heap w !! l = Some o ->
    is_Some (_order_id_to_order (self w) !! Order.order_id o).

(** No id has two entries on the ladders. *)
Definition queued_at_most_once (w : Machine) : Prop :=
  forall id side p q, queue_at side p (self w) = Some q ->
    (length (entries id (heap w) q) <= 1)%nat.

(** An [open] names an id that is not resting; a [done] of a resting order
    carries the side and the price of that order. *)
Definition event_fits (message : Message.t) (w : Machine) : Prop :=
  (Message.type message = Some "open" ->
   forall id, Message.order_id message = Some id ->
     _order_id_to_order (self w) !! id = None) /\
  (Message.type message = Some "done" ->
   forall id l o, Message.order_id message = Some id ->
     _order_id_to_order (self w) !! id = Some l ->
     heap w !! l = Some o ->
     Side_of_string <$> Message.side message = Some (Order.side o) /\
     Message.price message = Order.price o).

(** A [match] whose size is the size of the head of the asks queue at its
    price. *)
Definition exact_fill (message : Message.t) (w : Machine) : Prop :=
  Message.type message = Some "match" /\
  exists p s head rest h,
    Message.price message = Some p /\ Message.size message = Some s /\
    queue_at SELL p (self w) = Some (head :: rest) /\
    heap w !! head = Some h /\ Order.size h = Some s.

(** I2 from the index to the ladder, as the proofs use it: the order of a
    resting id is in the queue of its side and price. *)
Definition on_ladder (w : Machine) : Prop :=
  forall id l, _order_id_to_order (self w) !! id = Some l ->
    exists o p q, heap w !! l = Some o /\ Order.price o = Some p /\
                  queue_at (Order.side o) p (self w) = Some q /\ l ∈ q.


(** ** A book built from events *)

Definition open_frame (seq : Z) (id side : string) (price size : Decimal) : Message.t :=
  Message.mk (Some "open") (Some seq) (Some 0) (Some "BTC-USD") (Some id) None
    (Some side) (Some price) None None (Some size) None None None None None None.

Definition received_frame (seq : Z) (id side : string) (price size : Decimal) : Message.t :=
  Message.mk (Some "received") (Some seq) (Some 0) (Some "BTC-USD") (Some id)
    (Some "limit") (Some side) (Some price) (Some size) None None None None None
    None None None.

Definition match_frame (seq : Z) (maker taker side : string) (price size : Decimal) : Message.t :=
  Message.mk (Some "match") (Some seq) (Some 0) (Some "BTC-USD") None None
    (Some side) (Some price) (Some size) None None None (Some maker) (Some taker)
    (Some 1) None None.

Definition done_frame (seq : Z) (id side : string) (price : Decimal) (reason : string) : Message.t :=
  Message.mk (Some "done") (Some seq) (Some 0) (Some "BTC-USD") (Some id) None
    (Some side) (Some price) None None (Some 0) (Some reason) None None None
    None None.

Definition change_frame (seq : Z) (id side : string) (price old new : Decimal) : Message.t :=
  Message.mk (Some "change") (Some seq) (Some 0) (Some "BTC-USD") (Some id) None
    (Some side) (Some price) None None None None None None None
    (Some new) (Some old).

(** The book after the frames are applied to a new book. *)
Definition book_after (messages : list Message.t) : Machine :=
  snd (apply_all messages (fresh "BTC-USD")).

(** A bid [Z] at 9.00 and an ask [X] at 10.00, each of size 1.0, and a
    pending buy [T] of 1.0 at 10.00. *)
Definition one_ask : list Message.t :=
  [open_frame 0 "Z" "buy" 900 100; open_frame 1 "X" "sell" 1000 100;
   received_frame 2 "T" "buy" 1000 100].

(** The same with a second ask [Y] behind [X] at 10.00. *)
Definition two_asks : list Message.t :=
  [open_frame 0 "Z" "buy" 900 100; open_frame 1 "X" "sell" 1000 100;
   open_frame 2 "Y" "sell" 1000 100; received_frame 3 "T" "buy" 1000 100].

(** The claim on inconsistent events, as the specification words it: the
    update completes and the cursor advances. *)
Definition proceeds (message : Message.t) (w : Machine) : Prop :=
  fst (update_order_book message w) = Ok tt /\
  Some (_sequence (self (snd (update_order_book message w))))
  = Message.sequence message.

(** I1: no level of a ladder holds an empty queue. *)
Definition no_empty_queue (w : Machine) : Prop :=
  forall side p, queue_at side p (self w) <> Some [].

(** The match of [T] against [X] for the whole size of [X], and the match
    that names [Y], which is behind [X] in its queue, as the maker. *)
Definition full_fill : Message.t := match_frame 3 "X" "T" "sell" 1000 100.

Definition match_behind_head : Message.t := match_frame 4 "Y" "T" "sell" 1000 100.

(** The order [X] as its [open] frame made it. *)
Definition order_X : Order.t :=
  Order.mk (Some 0) 1 "BTC-USD" "X" "limit" SELL (Some 1000) (Some 100) None.

(** ** What a computation leaves alone *)

(** A computation keeps a projection of the state, whatever its outcome. *)
Definition keeps {X A} (proj : Machine -> X) (c : M A) : Prop :=
  forall w, proj (snd (c w)) = proj w.

(** A computation that reads and writes the book state proper only. *)
Definition respects {A} (c : M A) : Prop :=
  forall w1 w2, core w1 = core w2 ->
    fst (c w1) = fst (c w2) /\ core (snd (c w1)) = core (snd (c w2)).

(** A computation only adds objects and only changes times, sequence
    numbers and sizes. *)
Definition grows {A} (c : M A) : Prop :=
  forall w, heap_le (heap w) (heap (snd (c w))).

(** A computation only appends to the log. *)
Definition appends {A} (c : M A) : Prop :=
  forall w, exists lg, log (snd (c w)) = log w ++ lg.

(** ** Frames, by the keys they carry *)

(** An [open] frame for a new order: every key the [open] branch reads. *)
Definition is_open (message : Message.t) (seq : Z) (id side : string)
    (price size : Decimal) : Prop :=
  Message.type message = Some "open" /\
  Message.sequence message = Some seq /\
  is_Some (Message.time message) /\
  is_Some (Message.product_id message) /\
  Message.order_id message = Some id /\
  Message.side message = Some side /\
  Message.price message = Some price /\
  Message.remaining_size message = Some size.

(** A [done] frame with a price: every key the [done] branch reads. *)
Definition is_done (message : Message.t) (seq : Z) (id side : string)
    (price : Decimal) : Prop :=
  Message.type message = Some "done" /\
  Message.sequence message = Some seq /\
  is_Some (Message.time message) /\
  Message.order_id message = Some id /\
  is_Some (Message.reason message) /\
  Message.side message = Some side /\
  Message.price message = Some price /\
  is_Some (Message.remaining_size message).

(** A [match] frame: every key the [match] branch reads. *)
Definition is_match (message : Message.t) (seq : Z) (maker taker : string)
    (price size : Decimal) : Prop :=
  Message.type message = Some "match" /\
  Message.sequence message = Some seq /\
  is_Some (Message.time message) /\
  Message.maker_order_id message = Some maker /\
  Message.taker_order_id message = Some taker /\
  is_Some (Message.trade_id message) /\
  is_Some (Message.side message) /\
  Message.price message = Some price /\
  Message.size message = Some size.

(** ** A level after a removal *)

(** The orders of a queue whose id is not [id]. *)
Definition others (id : string) (h : list Order.t) (q : list loc) : list loc :=
  filter (fun x => Order.order_id <$> h !! x <> Some id) q.

(** The ladder with the queue [q] at [p], the level evicted when [q] is
    empty. *)
Definition relevel (p : Decimal) (q : list loc) (m : gmap Z (list nat)) :
    gmap Z (list nat) :=
  match q with
  | [] => delete p m
  | _ => <[p := q]> m
  end.

(** ** What a computation maintains *)

(** A computation maintains a property of the state, whatever its
    outcome. *)
Definition preserves {A} (P : Machine -> Prop) (c : M A) : Prop :=
  forall w, P w -> P (snd (c w)).

(** ** What a [match] leaves of the bids *)

(** From [w] to [w']: the bids ladder is the same and so is every order
    queued on it. *)
Definition bids_untouched (w w' : Machine) : Prop :=
  _bids (self w') = _bids (self w) /\
  forall p q l, queue_at BUY p (self w) = Some q -> l ∈ q ->
    heap w' !! l = heap w !! l.

(** ** Missing keys *)

(** A computation that never ends in a [KeyError]. *)
Definition never {A} (c : M A) : Prop :=
  forall w k w', c w <> (Raise (KeyError k), w').

(** A computation that has changed nothing when it ends in a [KeyError]. *)
Definition clean {A} (c : M A) : Prop :=
  forall w k w', c w = (Raise (KeyError k), w') -> w' = w.

(** ** Frames newer than a snapshot *)

(** A queued frame that the replay after a snapshot numbered [s] does not
    skip: one numbered above [s], or one without a sequence number. *)
Definition newer (s : Z) (message : Message.t) : bool :=
  match Message.sequence message with
  | Some seq => bool_decide (s < seq)
  | None => true
  end.

(** ** Frames delivered one after the other *)

(** The frames handed to [OrderBookManager.on_message] in their order; a
    frame that raises ends the run. *)
Fixpoint deliver (messages : list Message.t) : MM unit :=
  match messages with
  | [] => ret tt
  | message :: rest => OrderBookManager.on_message message >> deliver rest
  end.

(** The book of a world, with the objects and the log of the world. *)
Definition book_of (b : OrderBook) (W : World) : Machine :=
  mkMachine b (objects W) (records W).

(** The world with the book [b] under [pid], and the objects and the log
    of [w]. *)
Definition with_book (pid : string) (w : Machine) (W : World) : World :=
  mkWorld (<[pid := self w]> (product_id_to_order_book W)) (ws W) (requests W)
    (subscriptions W) (heap w) (log w).

(** The start of a book as [server.py] and the event loop run it: the
    product is registered, frames arrive, and the response to the snapshot
    request that the first frame triggered is handled. *)
Definition bootstrap (loads_book : string -> option Snapshot.t) (pid : string)
    (messages : list Message.t) (body : option string) : MM unit :=
  OrderBookManager.init_order_book pid >>
  deliver messages >>
  handle_response loads_book pid body.

(** A computation of the manager keeps a projection of the world, whatever
    its outcome. *)
Definition keeps_world {X A} (proj : World -> X) (c : MM A) : Prop :=
  forall W, proj (snd (c W)) = proj W.

(** What a frame of another product leaves alone: the book of [pid], the
    socket and the subscriptions. *)
Definition elsewhere (pid : string) (W : World) :=
  (product_id_to_order_book W !! pid, ws W, subscriptions W).

(** The book after the frames, each applied to the state that the one
    before it reached, whether it returned or raised. *)
Definition absorb (messages : list Message.t) (w : Machine) : Machine :=
  fold_left (fun w message => snd (update_order_book message w)) messages w.

(** ** The objects of a book *)

(** The queues a ladder holds. *)
Definition queues (tr : RBTree.t) : list (list loc) :=
  match tr with
  | RBTree.Tree m => (map_to_list m).*2
  | RBTree.NoneKey v => [v]
  end.

(** The order objects a book refers to: those of its two indices and those
    queued on its two ladders. *)
Definition refs (b : OrderBook) : list loc :=
  (map_to_list (_order_id_to_order b)).*2 ++
  (map_to_list (_order_id_to_unreflected_order b)).*2 ++
  mjoin (queues (_asks b)) ++ mjoin (queues (_bids b)).

(** A state whose book refers to objects of [L] only, where [L] holds every
    object that does not exist yet. *)
Definition within (L : loc -> Prop) (w : Machine) : Prop :=
  (forall l, l ∈ refs (self w) -> L l) /\
  (forall l, (length (heap w) <= l)%nat -> L l).

(** A computation that, run within [L], stays within [L], writes no object
    outside [L], and returns a value that satisfies [Q]. *)
Definition confined (L : loc -> Prop) {A} (Q : A -> Prop) (c : M A) : Prop :=
  forall w, within L w ->
    within L (snd (c w)) /\
    (forall l, ~ L l -> heap (snd (c w)) !! l = heap w !! l) /\
    (forall a, fst (c w) = Ok a -> Q a).

(** Ladders and indices that hold objects of [L] only. *)
Definition queues_in (L : loc -> Prop) (tr : RBTree.t) : Prop :=
  forall q, q ∈ queues tr -> Forall L q.

Definition index_in (L : loc -> Prop) (d : gmap string nat) : Prop :=
  forall id l, d !! id = Some l -> L l.

(** A [change] frame: every key the [change] branch reads. *)
Definition is_change (message : Message.t) (seq : Z) (id : string)
    (old new : Decimal) : Prop :=
  Message.type message = Some "change" /\
  Message.sequence message = Some seq /\
  is_Some (Message.time message) /\
  Message.order_id message = Some id /\
  is_Some (Message.price message) /\
  is_Some (Message.side message) /\
  Message.new_size message = Some new /\
  Message.old_size message = Some old.

(** ** More scenario data *)

(** The pending order [T] of the S2 book. *)
Definition S2_order_T : Order.t :=
  Order.mk (Some 0) 201 "BTC-USD" "T" "limit" SELL (Some 999) (Some 50) None.

(** The pending order [T] of the books built from frames, as the
    [received] frame numbered [seq] made it. *)
Definition order_T (seq : Z) : Order.t :=
  Order.mk (Some 0) seq "BTC-USD" "T" "limit" BUY (Some 1000) (Some 100) None.

(** An ask [X] at 10.00 of size 1.0 and a pending buy [T]: a book without
    a bid. *)
Definition asks_only : list Message.t :=
  [open_frame 0 "X" "sell" 1000 100; received_frame 1 "T" "buy" 1000 100].

Definition order_X0 : Order.t :=
  Order.mk (Some 0) 0 "BTC-USD" "X" "limit" SELL (Some 1000) (Some 100) None.

(** The book [one_ask] after the match that fills [X]: the level 10.00 of
    the asks holds an empty queue, and [X] is still in the resting index. *)
Definition filled : Machine := snd (update_order_book full_fill (book_after one_ask)).




(** A manager whose book of BTC-USD awaits its snapshot, with the five
    frames of S5 queued. *)
Definition awaiting_world : World :=
  mkWorld {["BTC-USD" := self S5_awaiting]} true ["BTC-USD"] ["BTC-USD"] [] [].

(** A manager on a socket that is not connected. *)
Definition disconnected : World := mkWorld ∅ false [] [] [] [].

(** A socket client whose manager holds the live book of S4. *)
Definition live_client : QuickWSClient := mkQuickWSClient "wss" 0 None [] S4_world.

(** Decoders that read every text as one given value. *)
Definition loads_always (data : Json) (text : string) : option Json := Some data.

Definition loads_book_always (data : option Snapshot.t) (text : string) :
    option Snapshot.t := data.

(** A decoder that reads the texts of a table, each as the frame beside
    it. *)
Fixpoint loads_table (table : list (string * Message.t)) (text : string) : option Json :=
  match table with
  | [] => None
  | (name, message) :: rest =>
      if String.eqb name text then Some (JDict message) else loads_table rest text
  end.

(** Three frames for the live book of S4, which has no bid: the open of the
    ask [X], a match of 0.4 against [X], which subtracts the size and then
    raises in [on_match], and a [received] that carries the number of the
    match again, since the cursor did not move. *)
Definition threaded : list (string * Message.t) :=
  [("open X", open_frame 301 "X" "sell" 1000 100);
   ("match X", match_frame 302 "X" "T" "sell" 1000 40);
   ("received Y", received_frame 302 "Y" "buy" 900 100)].

(** A manager with two live books, each after its snapshot: the bid [B] of
    BTC-USD is the object 0 and the bid [E] of ETH-USD the object 1. *)
Definition two_books : World :=
  snd ((OrderBookManager.call "BTC-USD"
          (on_order_book_snapshot (Some (Snapshot.mk 300 [(1000, 200, "B")] []))) >>
        OrderBookManager.call "ETH-USD"
          (on_order_book_snapshot (Some (Snapshot.mk 70 [(2000, 100, "E")] []))))
         (mkWorld {["BTC-USD" := OrderBook_init "BTC-USD";
                    "ETH-USD" := OrderBook_init "ETH-USD"]}
            true [] ["BTC-USD"; "ETH-USD"] [] [])).

(** The book of ETH-USD in [two_books]. *)
Definition ETH_book : OrderBook :=
  mkOrderBook "ETH-USD" RBTree.empty (RBTree.Tree {[2000 := [1%nat]]})
    {["E" := 1%nat]} ∅ false 70 [Snapshot.mk 70 [(2000, 100, "E")] []] [].

(* ================================================================== *)
(** * Properties *)

(** ** Reasoning about computations *)

Lemma bind_inv {S A B} (c : ST S A) (k : A -> ST S B) w r w' :
  bind c k w = (r, w') ->
  (exists a w1, c w = (Ok a, w1) /\ k a w1 = (r, w')) \/
  (exists e, c w = (Raise e, w') /\ r = Raise e).
Proof.
  unfold bind. destruct (c w) as [[a|e] w1]; intros H.
  - left. eauto.
  - right. inversion H; subst. eauto.
Qed.

Lemma bind_Ok {S A B} (c : ST S A) (k : A -> ST S B) w a w1 :
  c w = (Ok a, w1) -> bind c k w = k a w1.
Proof. unfold bind. intros ->. reflexivity. Qed.

Lemma bind_Raise {S A B} (c : ST S A) (k : A -> ST S B) w e w1 :
  c w = (Raise e, w1) -> bind c k w = (Raise e, w1).
Proof. unfold bind. intros ->. reflexivity. Qed.

Section Keeps.
Context {X : Type} (proj : Machine -> X).

Lemma keeps_ret {A} (a : A) : keeps proj (ret a).
Proof. intros w. reflexivity. Qed.

Lemma keeps_raise {A} e : keeps proj (raise (A:=A) e).
Proof. intros w. reflexivity. Qed.

Lemma keeps_lift {A} (r : Result A) : keeps proj (lift r).
Proof. intros w. reflexivity. Qed.

Lemma keeps_gets {A} (f : OrderBook -> A) : keeps proj (gets f).
Proof. intros w. reflexivity. Qed.

Lemma keeps_getitem {A} (field : option A) key : keeps proj (getitem field key).
Proof. intros w. destruct field; reflexivity. Qed.

Lemma keeps_Decimal_of_get field : keeps proj (Decimal_of_get field).
Proof. intros w. destruct field; reflexivity. Qed.

Lemma keeps_deref l : keeps proj (deref l).
Proof. intros w. unfold deref. destruct (heap w !! l); reflexivity. Qed.

Lemma keeps_logging lv txt subj :
  (forall w r, proj (mkMachine (self w) (heap w) (log w ++ [r])) = proj w) ->
  keeps proj (logging lv txt subj).
Proof. intros H w. apply H. Qed.

Lemma keeps_new_Order o :
  (forall w, proj (mkMachine (self w) (heap w ++ [o]) (log w)) = proj w) ->
  keeps proj (new_Order o).
Proof. intros H w. apply H. Qed.

Lemma keeps_setattr l f :
  (forall w o, proj (mkMachine (self w) (<[l := o]> (heap w)) (log w)) = proj w) ->
  keeps proj (setattr l f).
Proof.
  intros H w. unfold setattr. destruct (heap w !! l); [apply H | reflexivity].
Qed.

Lemma keeps_modify f :
  (forall w, proj (mkMachine (f (self w)) (heap w) (log w)) = proj w) ->
  keeps proj (modify f).
Proof. intros H w. apply H. Qed.

Lemma keeps_bind {A B} (c : M A) (k : A -> M B) :
  keeps proj c -> (forall a, keeps proj (k a)) -> keeps proj (bind c k).
Proof.
  intros Hc Hk w. unfold bind. specialize (Hc w).
  destruct (c w) as [[a|e] w1]; simpl in *.
  - rewrite Hk. exact Hc.
  - exact Hc.
Qed.
End Keeps.

Ltac keeps_step :=
  first
    [ apply keeps_ret | apply keeps_raise | apply keeps_lift | apply keeps_gets
    | apply keeps_deref | apply keeps_getitem | apply keeps_Decimal_of_get
    | apply keeps_logging; intros; reflexivity
    | apply keeps_new_Order; intros; reflexivity
    | apply keeps_setattr; intros; reflexivity
    | apply keeps_modify; intros; reflexivity
    | apply keeps_bind; [ | intros ]
    | assumption
    | match goal with
      | |- keeps _ (match ?x with _ => _ end) => destruct x
      end ].

Ltac keeps_tac := intros; repeat keeps_step.

Lemma without_id_keeps {X} (proj : Machine -> X) order_id q :
  keeps proj (without_id order_id q).
Proof. induction q as [|l q IH]; simpl; keeps_tac. Qed.

(** Nothing below the last line of [update_order_book] assigns the cursor. *)
Lemma dispatch_keeps_sequence msg_type message :
  keeps (fun w => _sequence (self w)) (dispatch msg_type message).
Proof.
  unfold dispatch, update_open, update_done, update_match, update_change,
    update_received, opened_order, add, remove, remove_level, match_,
    match_taker, match_head, change, received,
    on_add, on_remove, on_match, on_change, on_received, Order_repr,
    get_bid, get_ask, get_bids, get_asks, set_bids, set_asks, remove_bids,
    remove_asks, del_order, del_unreflected.
  keeps_tac; try apply without_id_keeps; keeps_tac.
Qed.

(** ** The sequence cursor *)

Lemma update_order_book_in_order message w seq ty :
  Message.sequence message = Some seq ->
  seq = _sequence (self w) + 1 ->
  Message.type message = Some ty ->
  update_order_book message w
  = (dispatch ty message >> modify (set_sequence seq)) w.
Proof.
  intros Hs -> Ht. unfold update_order_book. rewrite Hs, Ht.
  unfold bind at 1. simpl. unfold bind at 1. simpl.
  destruct (Z.leb_spec (_sequence (self w) + 1) (_sequence (self w))); [lia|].
  destruct (Z.gtb_spec (_sequence (self w) + 1) (_sequence (self w) + 1)); [lia|].
  reflexivity.
Qed.

Lemma update_order_book_gap message w seq :
  Message.sequence message = Some seq ->
  seq > _sequence (self w) + 1 ->
  update_order_book message w
  = (Raise (Exception_missing (product_id (self w)) (seq - _sequence (self w))
              seq (_sequence (self w))), w).
Proof.
  intros Hs Hgap. unfold update_order_book. rewrite Hs.
  unfold bind at 1. simpl. unfold bind at 1. simpl.
  destruct (Z.leb_spec seq (_sequence (self w))); [lia|].
  destruct (Z.gtb_spec seq (_sequence (self w) + 1)); [|lia].
  reflexivity.
Qed.

Lemma update_order_book_overlap message w seq :
  Message.sequence message = Some seq ->
  seq <= _sequence (self w) ->
  update_order_book message w = (Ok tt, w).
Proof.
  intros Hs Hle. unfold update_order_book. rewrite Hs.
  unfold bind at 1. simpl. unfold bind at 1. simpl.
  destruct (Z.leb_spec seq (_sequence (self w))); [|lia].
  reflexivity.
Qed.

Lemma dispatch_unknown ty message :
  ~ known_type ty -> dispatch ty message = ret tt.
Proof.
  intros Hk. unfold dispatch, known_type in *.
  destruct (String.eqb_spec ty "open") as [->|_]; [tauto|].
  destruct (String.eqb_spec ty "done") as [->|_]; [tauto|]. simpl.
  destruct (String.eqb_spec ty "match") as [->|_]; [tauto|].
  destruct (String.eqb_spec ty "change") as [->|_]; [tauto|].
  destruct (String.eqb_spec ty "received") as [->|_]; [tauto|].
  reflexivity.
Qed.

Lemma dispatch_done_without_price message :
  Message.price message = None -> dispatch "done" message = ret tt.
Proof. intros Hp. unfold dispatch. rewrite Hp. reflexivity. Qed.

(** A [done] without a [price] key only moves the cursor. *)
Lemma done_without_price_only_advances message w seq :
  Message.type message = Some "done" ->
  Message.price message = None ->
  Message.sequence message = Some seq ->
  seq = _sequence (self w) + 1 ->
  update_order_book message w = (Ok tt, advance seq w).
Proof.
  intros Ht Hp Hs Hseq.
  rewrite (update_order_book_in_order _ _ _ _ Hs Hseq Ht).
  rewrite dispatch_done_without_price by exact Hp. reflexivity.
Qed.

Lemma update_order_book_raise_keeps_sequence message w e w' :
  update_order_book message w = (Raise e, w') ->
  _sequence (self w') = _sequence (self w).
Proof.
  unfold update_order_book. intros H.
  apply bind_inv in H as [(seq & w1 & H1 & H)|(e' & H1 & _)]; cycle 1.
  { destruct (Message.sequence message); inversion H1; subst; reflexivity. }
  destruct (Message.sequence message); inversion H1; subst; clear H1.
  apply bind_inv in H as [(last & w2 & H1 & H)|(e' & H1 & _)];
    [|inversion H1]. inversion H1; subst; clear H1.
  destruct (seq <=? _sequence (self w2)); [inversion H|].
  destruct (seq >? _sequence (self w2) + 1).
  { inversion H; subst. reflexivity. }
  apply bind_inv in H as [(ty & w3 & H1 & H)|(e' & H1 & _)]; cycle 1.
  { destruct (Message.type message); inversion H1; subst; reflexivity. }
  destruct (Message.type message); inversion H1; subst; clear H1.
  apply bind_inv in H as [(u & w4 & H1 & H)|(e' & H1 & _)].
  - inversion H.
  - pose proof (dispatch_keeps_sequence ty message w3) as K.
    rewrite H1 in K. exact K.
Qed.

(** C10: a message numbered [last_seq + 1] that is processed without
    raising leaves the cursor at its number; a message of an unknown type,
    and a [done] without a [price] key, change nothing but the cursor; a
    message that raises leaves the cursor where it was. *)
Theorem update_order_book_cursor :
  (forall message w seq w',
     Message.sequence message = Some seq ->
     seq = _sequence (self w) + 1 ->
     update_order_book message w = (Ok tt, w') ->
     _sequence (self w') = seq) /\
  (forall message w seq ty,
     Message.sequence message = Some seq ->
     seq = _sequence (self w) + 1 ->
     Message.type message = Some ty ->
     ~ known_type ty ->
     update_order_book message w = (Ok tt, advance seq w)) /\
  (forall message w seq,
     Message.sequence message = Some seq ->
     seq = _sequence (self w) + 1 ->
     Message.type message = Some "done" ->
     Message.price message = None ->
     update_order_book message w = (Ok tt, advance seq w)) /\
  (forall message w e w',
     update_order_book message w = (Raise e, w') ->
     _sequence (self w') = _sequence (self w)).
Proof.
  repeat split.
  - intros message w seq w' Hs Hseq H.
    destruct (Message.type message) as [ty|] eqn:Ht.
    + rewrite (update_order_book_in_order _ _ _ _ Hs Hseq Ht) in H.
      apply bind_inv in H as [(u & w1 & _ & H)|(e & _ & H)]; [|inversion H].
      inversion H; subst. reflexivity.
    + unfold update_order_book in H. rewrite Hs, Ht in H.
      unfold bind in H. simpl in H.
      destruct (seq <=? _sequence (self w)) eqn:E1; [lia|].
      destruct (seq >? _sequence (self w) + 1) eqn:E2; [lia|].
      inversion H.
  - intros message w seq ty Hs Hseq Ht Hk.
    rewrite (update_order_book_in_order _ _ _ _ Hs Hseq Ht).
    rewrite dispatch_unknown by exact Hk. reflexivity.
  - intros message w seq Hs Hseq Ht Hp.
    apply done_without_price_only_advances; assumption.
  - apply update_order_book_raise_keeps_sequence.
Qed.

Lemma update_order_book_cursor_witness :
  _sequence (self (advance 202 pending_T)) = 202 /\
  update_order_book (subscriptions_frame 202) pending_T
  = (Ok tt, advance 202 pending_T) /\
  update_order_book (market_done 202 "T") pending_T
  = (Ok tt, advance 202 pending_T) /\
  _sequence (self pending_T) = _sequence (self pending_T).
Proof.
  destruct update_order_book_cursor as (H1 & H2 & H3 & H4).
  split; [|split; [|split]].
  - apply (H1 (market_done 202 "T") pending_T 202);
      [reflexivity | reflexivity | vm_compute; reflexivity].
  - apply (H2 (subscriptions_frame 202) pending_T 202 "subscriptions");
      [reflexivity | reflexivity | reflexivity |].
    unfold known_type. intros [H|[H|[H|[H|H]]]]; discriminate H.
  - apply H3; reflexivity.
  - apply (H4 (match_without_time 202) pending_T (KeyError "time") pending_T).
    vm_compute. reflexivity.
Defined.

(** ** Scenario S2 *)

(** C1: what the code does on scenario S2.  The three frames are applied
    without raising, [T] leaves the pending index, [B] alone is resting and
    the cursor is 203, but [B] stays on the bids ladder at 10.00 with its
    size 2.0: [match] compares its [Side] with the string ['buy'], takes the
    asks branch, finds no level at 10.00 there and returns. *)
Theorem S2_on_the_code :
  let w := snd (S2_run (fresh "BTC-USD")) in
  fst (S2_run (fresh "BTC-USD")) = Ok tt /\
  _bids (self w) = RBTree.Tree {[1000 := [0%nat]]} /\
  _asks (self w) = RBTree.Tree ∅ /\
  heap w !! 0%nat = Some (S2_order_B 200) /\
  heap w !! 0%nat <> Some (S2_order_B 150) /\
  _order_id_to_unreflected_order (self w) !! "T" = None /\
  _order_id_to_order (self w) = {["B" := 0%nat]} /\
  _sequence (self w) = 203.
Proof. vm_compute. repeat split; try reflexivity. discriminate. Qed.

(** ** [done] without a price *)

Lemma done_without_price_counterexample :
  ~ done_deletes_pending (market_done 202 "T") pending_T.
Proof.
  intros H. specialize (H "T" eq_refl).
  assert (is_Some (_order_id_to_unreflected_order (self pending_T) !! "T")) as Hs.
  { vm_compute. eauto. }
  specialize (H Hs). vm_compute in H. discriminate H.
Qed.

(** C5: a [done] without a [price] key, applied at [last_seq + 1] to a book
    where its order is pending, is applied without raising and moves the
    cursor; the order stays in the pending index, and neither the ladders,
    the resting index nor any order object changes. *)
Theorem done_without_price_keeps_pending message w seq id l :
  Message.type message = Some "done" ->
  Message.price message = None ->
  Message.order_id message = Some id ->
  Message.sequence message = Some seq ->
  seq = _sequence (self w) + 1 ->
  _order_id_to_unreflected_order (self w) !! id = Some l ->
  exists w',
    update_order_book message w = (Ok tt, w') /\
    _order_id_to_unreflected_order (self w') !! id = Some l /\
    _order_id_to_unreflected_order (self w') = _order_id_to_unreflected_order (self w) /\
    _bids (self w') = _bids (self w) /\
    _asks (self w') = _asks (self w) /\
    _order_id_to_order (self w') = _order_id_to_order (self w) /\
    heap w' = heap w /\
    _sequence (self w') = seq.
Proof.
  intros Ht Hp Hid Hs Hseq Hl. exists (advance seq w).
  split; [apply done_without_price_only_advances; assumption|].
  repeat split; try reflexivity. exact Hl.
Qed.

Lemma done_without_price_keeps_pending_witness :
  exists w',
    update_order_book (market_done 202 "T") pending_T = (Ok tt, w') /\
    _order_id_to_unreflected_order (self w') !! "T" = Some 1%nat /\
    _order_id_to_unreflected_order (self w')
    = _order_id_to_unreflected_order (self pending_T) /\
    _bids (self w') = _bids (self pending_T) /\
    _asks (self w') = _asks (self pending_T) /\
    _order_id_to_order (self w') = _order_id_to_order (self pending_T) /\
    heap w' = heap pending_T /\
    _sequence (self w') = 202.
Proof.
  apply (done_without_price_keeps_pending (market_done 202 "T") pending_T 202 "T" 1%nat);
    vm_compute; reflexivity.
Defined.

(** ** Gaps *)

Lemma gap_counterexample :
  ~ refused_after_gap S4_world (S4_received 302 "X") (S4_received 301 "Y") /\
  ~ refetched_after_gap S4_world (S4_received 302 "X").
Proof.
  split.
  - unfold refused_after_gap. intros H.
    apply (f_equal (fun m => _sequence <$> m !! "BTC-USD")) in H.
    vm_compute in H. discriminate H.
  - unfold refetched_after_gap. intros H. apply H. vm_compute. reflexivity.
Qed.

Lemma World_eta W :
  mkWorld (product_id_to_order_book W) (ws W) (requests W) (subscriptions W)
    (objects W) (records W) = W.
Proof. destruct W; reflexivity. Qed.

(** C2: on a live book (a snapshot was applied, none is pending) an event
    numbered above [last_seq + 1] raises the exception that names the gap,
    and that is all: the manager, its books, the orders and the log are as
    before, so the book is not marked, a later event numbered
    [last_seq + 1] is applied as usual, and no snapshot is requested. *)
Theorem gap_raises_and_changes_nothing W message pid b seq :
  Message.product_id message = Some pid ->
  product_id_to_order_book W !! pid = Some b ->
  snapshots b <> [] ->
  pending_order_book_snapshot b = false ->
  Message.sequence message = Some seq ->
  seq > _sequence b + 1 ->
  OrderBookManager.on_message message W
  = (Raise (Exception_missing (product_id b) (seq - _sequence b) seq (_sequence b)), W).
Proof.
  intros Hpid Hb Hsnap Hpend Hs Hgap.
  unfold OrderBookManager.on_message. rewrite Hpid.
  unfold bind at 1. unfold OrderBookManager.get_order_book at 1. rewrite Hb.
  rewrite bool_decide_eq_false_2 by exact Hsnap. simpl.
  unfold bind at 1. simpl. unfold OrderBookManager.call. rewrite Hb.
  unfold on_message. unfold bind at 1. simpl. rewrite Hpend.
  rewrite (update_order_book_gap message _ seq Hs) by exact Hgap.
  simpl. rewrite insert_id by exact Hb. rewrite World_eta. reflexivity.
Qed.

Lemma gap_raises_and_changes_nothing_witness :
  OrderBookManager.on_message (S4_received 302 "X") S4_world
  = (Raise (Exception_missing "BTC-USD" 2 302 300), S4_world).
Proof.
  apply (gap_raises_and_changes_nothing S4_world (S4_received 302 "X")
           "BTC-USD" S4_book 302);
    [reflexivity | reflexivity | discriminate | reflexivity | reflexivity
    | vm_compute; reflexivity].
Defined.

(** ** Routing *)

Lemma lazily_created_counterexample : ~ lazily_created no_books S2_received.
Proof.
  intros H. specialize (H "BTC-USD" eq_refl eq_refl).
  vm_compute in H. destruct H as [b H]. discriminate H.
Qed.

(** C9: an event of a product that has no book is logged with a warning
    and dropped: no book is created and nothing is requested.  Books are
    created by [init_order_book] alone.  The first event of a registered
    book that has neither a snapshot nor a request in flight triggers the
    snapshot request and waits in the queue of the book. *)
Theorem unregistered_product_is_dropped :
  (forall W message pid,
     Message.product_id message = Some pid ->
     product_id_to_order_book W !! pid = None ->
     OrderBookManager.on_message message W = (Ok tt, warned pid W)) /\
  (forall W pid,
     product_id_to_order_book W !! pid = None ->
     ws W = true ->
     OrderBookManager.init_order_book pid W = (Ok tt, registered pid W)) /\
  (forall W message pid b,
     Message.product_id message = Some pid ->
     product_id_to_order_book W !! pid = Some b ->
     snapshots b = [] ->
     pending_order_book_snapshot b = false ->
     OrderBookManager.on_message message W = (Ok tt, reconciling pid b message W)).
Proof.
  split; [|split].
  - intros W message pid Hpid Hb.
    unfold OrderBookManager.on_message. rewrite Hpid.
    unfold bind, OrderBookManager.get_order_book. rewrite Hb. reflexivity.
  - intros W pid Hb Hws.
    unfold OrderBookManager.init_order_book, bind, OrderBookManager.get_order_book. rewrite Hb.
    unfold OrderBookManager.subscribe, registered. simpl. rewrite Hws. reflexivity.
  - intros W message pid b Hpid Hb Hsnap Hpend.
    unfold OrderBookManager.on_message. rewrite Hpid.
    unfold bind at 1. unfold OrderBookManager.get_order_book at 1. rewrite Hb.
    rewrite Hsnap, Hpend. simpl.
    unfold OrderBookManager.fetch_order_book_snapshot, bind, OrderBookManager.logging_,
      OrderBookManager.call, OrderBookManager.request. simpl.
    rewrite Hb. simpl. rewrite lookup_insert_eq. simpl.
    rewrite insert_insert_eq. unfold reconciling.
    rewrite <- !(assoc_L (++)). reflexivity.
Qed.

Lemma unregistered_product_is_dropped_witness :
  OrderBookManager.on_message S2_received no_books = (Ok tt, warned "BTC-USD" no_books) /\
  OrderBookManager.init_order_book "BTC-USD" no_books = (Ok tt, registered "BTC-USD" no_books) /\
  OrderBookManager.on_message S2_received (registered "BTC-USD" no_books)
  = (Ok tt, reconciling "BTC-USD" (OrderBook_init "BTC-USD") S2_received
              (registered "BTC-USD" no_books)).
Proof.
  destruct unregistered_product_is_dropped as (H1 & H2 & H3).
  split; [|split].
  - apply H1; reflexivity.
  - apply H2; reflexivity.
  - apply H3; reflexivity.
Defined.

(** ** The replay after a snapshot *)

Ltac core_tac :=
  let H := fresh in
  intros [[] ? ?] [[] ? ?] H; unfold core in *; simpl in *;
  inversion H; subst; reflexivity.

Lemma respects_ret {A} (a : A) : respects (ret a).
Proof. intros w1 w2 H. split; [reflexivity | exact H]. Qed.

Lemma respects_raise {A} e : respects (raise (A:=A) e).
Proof. intros w1 w2 H. split; [reflexivity | exact H]. Qed.

Lemma respects_lift {A} (r : Result A) : respects (lift r).
Proof. intros w1 w2 H. split; [reflexivity | exact H]. Qed.

Lemma respects_getitem {A} (field : option A) key : respects (getitem field key).
Proof. destruct field; [apply respects_ret | apply respects_raise]. Qed.

Lemma respects_Decimal_of_get field : respects (Decimal_of_get field).
Proof. destruct field; [apply respects_ret | apply respects_raise]. Qed.

Lemma respects_gets {A} (f : OrderBook -> A) :
  (forall w1 w2, core w1 = core w2 -> f (self w1) = f (self w2)) ->
  respects (gets f).
Proof. intros Hf w1 w2 H. simpl. split; [f_equal; auto | exact H]. Qed.

Lemma respects_modify f :
  (forall w1 w2, core w1 = core w2 ->
     core (mkMachine (f (self w1)) (heap w1) (log w1))
     = core (mkMachine (f (self w2)) (heap w2) (log w2))) ->
  respects (modify f).
Proof. intros Hf w1 w2 H. simpl. split; [reflexivity | auto]. Qed.

Lemma core_heap w1 w2 : core w1 = core w2 -> heap w1 = heap w2.
Proof. unfold core. intros H. inversion H. reflexivity. Qed.

Lemma core_with_heap w1 w2 h l1 l2 :
  core w1 = core w2 ->
  core (mkMachine (self w1) h l1) = core (mkMachine (self w2) h l2).
Proof. unfold core. simpl. intros H. inversion H. congruence. Qed.

Lemma respects_logging lv txt subj : respects (logging lv txt subj).
Proof.
  intros w1 w2 H. simpl. split; [reflexivity|].
  rewrite (core_heap _ _ H). apply core_with_heap, H.
Qed.

Lemma respects_new_Order o : respects (new_Order o).
Proof.
  intros w1 w2 H. simpl. rewrite (core_heap _ _ H).
  split; [reflexivity | apply core_with_heap, H].
Qed.

Lemma respects_deref l : respects (deref l).
Proof.
  intros w1 w2 H. unfold deref. rewrite (core_heap _ _ H).
  destruct (heap w2 !! l); simpl; split; auto.
Qed.

Lemma respects_setattr l f : respects (setattr l f).
Proof.
  intros w1 w2 H. unfold setattr. rewrite (core_heap _ _ H).
  destruct (heap w2 !! l); simpl; split; auto.
  apply core_with_heap, H.
Qed.

Lemma respects_bind {A B} (c : M A) (k : A -> M B) :
  respects c -> (forall a, respects (k a)) -> respects (bind c k).
Proof.
  intros Hc Hk w1 w2 H. unfold bind.
  destruct (Hc w1 w2 H) as [Hr Hw].
  destruct (c w1) as [[a1|e1] w1'], (c w2) as [[a2|e2] w2'];
    simpl in *; try discriminate Hr.
  - inversion Hr; subst. apply Hk, Hw.
  - inversion Hr; subst. split; [reflexivity | exact Hw].
Qed.

Ltac respects_step :=
  first
    [ apply respects_ret | apply respects_raise | apply respects_lift
    | apply respects_getitem | apply respects_Decimal_of_get
    | apply respects_logging | apply respects_new_Order | apply respects_deref
    | apply respects_setattr
    | apply respects_gets; core_tac
    | apply respects_modify; core_tac
    | apply respects_bind; [ | intros ]
    | assumption
    | match goal with
      | |- respects (match ?x with _ => _ end) => destruct x
      end ].

Ltac respects_tac := intros; repeat respects_step.

Lemma without_id_respects order_id q : respects (without_id order_id q).
Proof. induction q as [|l q IH]; simpl; respects_tac. Qed.

Lemma add_respects order : respects (add order).
Proof.
  unfold add, on_add, get_bids, get_asks, set_bids, set_asks. respects_tac.
Qed.

Lemma update_order_book_respects message : respects (update_order_book message).
Proof.
  unfold update_order_book, dispatch, update_open, update_done, update_match,
    update_change, update_received, opened_order, remove, remove_level, match_,
    match_taker, match_head, change,
    received, on_remove, on_match, on_change, on_received, Order_repr,
    get_bid, get_ask, get_bids, get_asks, set_bids, set_asks, remove_bids,
    remove_asks, del_order, del_unreflected.
  respects_tac;
    try apply without_id_respects; try apply add_respects; respects_tac.
Qed.

Lemma add_rows_respects rows sequence side : respects (add_rows rows sequence side).
Proof.
  induction rows as [|r rows IH]; simpl; unfold parse_snapshot_order;
    respects_tac; apply add_respects.
Qed.

Lemma apply_order_book_snapshot_respects snapshot :
  respects (apply_order_book_snapshot snapshot).
Proof.
  unfold apply_order_book_snapshot. respects_tac; apply add_rows_respects.
Qed.

Lemma add_keeps_message_queue order :
  keeps (fun w => message_queue (self w)) (add order).
Proof.
  unfold add, on_add, get_bids, get_asks, set_bids, set_asks. keeps_tac.
Qed.

Lemma update_order_book_keeps_message_queue message :
  keeps (fun w => message_queue (self w)) (update_order_book message).
Proof.
  unfold update_order_book, dispatch, update_open, update_done, update_match,
    update_change, update_received, opened_order, remove, remove_level, match_,
    match_taker, match_head, change,
    received, on_remove, on_match, on_change, on_received, Order_repr,
    get_bid, get_ask, get_bids, get_asks, set_bids, set_asks, remove_bids,
    remove_asks, del_order, del_unreflected.
  keeps_tac;
    try apply without_id_keeps; try apply add_keeps_message_queue; keeps_tac.
Qed.

Lemma add_rows_keeps_message_queue rows sequence side :
  keeps (fun w => message_queue (self w)) (add_rows rows sequence side).
Proof.
  induction rows as [|r rows IH]; simpl; unfold parse_snapshot_order;
    keeps_tac; apply add_keeps_message_queue.
Qed.

Lemma apply_order_book_snapshot_keeps_message_queue snapshot :
  keeps (fun w => message_queue (self w)) (apply_order_book_snapshot snapshot).
Proof.
  unfold apply_order_book_snapshot.
  keeps_tac; apply add_rows_keeps_message_queue.
Qed.

Lemma apply_order_book_snapshot_sequence snapshot w w' :
  apply_order_book_snapshot snapshot w = (Ok tt, w') ->
  _sequence (self w') = Snapshot.sequence snapshot.
Proof.
  unfold apply_order_book_snapshot. intros H.
  repeat (apply bind_inv in H as [(? & ? & _ & H)|(? & _ & H)]; [|discriminate H]).
  inversion H; subst. reflexivity.
Qed.

Lemma drain_cons m queue w :
  drain (m :: queue) w
  = (update_order_book m >> drain queue)
      (mkMachine (set_message_queue queue (self w)) (heap w) (log w)).
Proof. reflexivity. Qed.

(** Draining the queue is applying its frames in order. *)
Lemma drain_apply_all queue w1 w2 :
  core w1 = core w2 ->
  fst (drain queue w1) = fst (apply_all queue w2) /\
  core (snd (drain queue w1)) = core (snd (apply_all queue w2)).
Proof.
  revert w1 w2. induction queue as [|m queue IH]; intros w1 w2 H.
  - split; [reflexivity | exact H].
  - rewrite drain_cons.
    set (w1' := mkMachine (set_message_queue queue (self w1)) (heap w1) (log w1)).
    assert (core w1' = core w2) as H'.
    { rewrite <- H. unfold core. reflexivity. }
    destruct (update_order_book_respects m w1' w2 H') as [Hr Hw].
    change (apply_all (m :: queue)) with (update_order_book m >> apply_all queue).
    unfold bind.
    destruct (update_order_book m w1') as [[[]|e1] w1''],
             (update_order_book m w2) as [[[]|e2] w2''];
      simpl in *; try discriminate Hr.
    + apply IH, Hw.
    + inversion Hr; subst. split; [reflexivity | exact Hw].
Qed.

Lemma drain_empties queue w :
  fst (drain queue w) = Ok tt ->
  message_queue (self w) = queue ->
  message_queue (self (snd (drain queue w))) = [].
Proof.
  revert w. induction queue as [|m queue IH]; intros w Hok Hq.
  - exact Hq.
  - rewrite drain_cons in *.
    set (w' := mkMachine (set_message_queue queue (self w)) (heap w) (log w)) in *.
    pose proof (update_order_book_keeps_message_queue m w') as K.
    unfold bind in *.
    destruct (update_order_book m w') as [[[]|e] w''].
    + apply IH; [exact Hok | exact K].
    + discriminate Hok.
Qed.

Lemma on_order_book_snapshot_eq snapshot w :
  on_order_book_snapshot (Some snapshot) w
  = (apply_order_book_snapshot snapshot >>
     let! q := gets message_queue in
     drain q >>
     modify (set_pending false))
      (mkMachine (set_snapshots (snapshots (self w) ++ [snapshot]) (self w))
         (heap w)
         (log w ++ [mkLog INFO "Order Book Snapshot received" (product_id (self w))])).
Proof. reflexivity. Qed.

(** Replaying the queue after the snapshot gives the book state of the
    snapshot followed by the queued frames applied directly. *)
Lemma replay_is_snapshot_then snapshot w :
  let replay := on_order_book_snapshot (Some snapshot) w in
  let direct := snapshot_then snapshot (message_queue (self w)) w in
  fst replay = fst direct /\
  core (snd replay) = core (snd direct) /\
  (fst direct = Ok tt ->
   message_queue (self (snd replay)) = [] /\
   pending_order_book_snapshot (self (snd replay)) = false).
Proof.
  cbv zeta. rewrite on_order_book_snapshot_eq. unfold snapshot_then.
  set (w1 := mkMachine _ (heap w) _).
  assert (core w1 = core w) as H1 by reflexivity.
  destruct (apply_order_book_snapshot_respects snapshot w1 w H1) as [Hr Hw].
  assert (message_queue (self (snd (apply_order_book_snapshot snapshot w1)))
          = message_queue (self w)) as K
    by apply (apply_order_book_snapshot_keeps_message_queue snapshot w1).
  destruct (apply_order_book_snapshot snapshot w1) as [[[]|e1] w2] eqn:E1,
           (apply_order_book_snapshot snapshot w) as [[[]|e2] wd] eqn:E2;
    simpl in Hr, Hw, K; try discriminate Hr.
  - rewrite !(bind_Ok _ _ _ _ _ E1), !(bind_Ok _ _ _ _ _ E2).
    assert (forall (k : list Message.t -> M unit),
              (let! q := gets message_queue in k q) w2 = k (message_queue (self w)) w2)
      as G by (intros k; unfold bind; simpl; rewrite K; reflexivity).
    rewrite !G. clear G.
    destruct (drain_apply_all (message_queue (self w)) w2 wd Hw) as [Hr' Hw'].
    pose proof (drain_empties (message_queue (self w)) w2) as E.
    destruct (drain (message_queue (self w)) w2) as [[[]|e1] w3] eqn:E3,
             (apply_all (message_queue (self w)) wd) as [[[]|e2] wd'] eqn:E4;
      simpl in Hr', Hw', E; try discriminate Hr'.
    + rewrite !(bind_Ok _ _ _ _ _ E3). simpl.
      split; [reflexivity|]. split; [exact Hw'|]. intros _. split; [|reflexivity].
      apply E; [reflexivity | exact K].
    + rewrite !(bind_Raise _ _ _ _ _ E3). simpl.
      inversion Hr'; subst. split; [reflexivity|]. split; [exact Hw'|].
      intros Habs; discriminate Habs.
  - rewrite !(bind_Raise _ _ _ _ _ E1), !(bind_Raise _ _ _ _ _ E2). simpl.
    inversion Hr; subst. split; [reflexivity|]. split; [exact Hw|].
    intros Habs; discriminate Habs.
Qed.

Lemma update_order_book_Ok_sequence message w seq w' :
  Message.sequence message = Some seq ->
  seq = _sequence (self w) + 1 ->
  update_order_book message w = (Ok tt, w') ->
  _sequence (self w') = seq.
Proof.
  intros Hs Hseq H.
  destruct (Message.type message) as [ty|] eqn:Ht.
  - rewrite (update_order_book_in_order _ _ _ _ Hs Hseq Ht) in H.
    apply bind_inv in H as [(u & w1 & _ & H)|(e & _ & H)]; [|discriminate H].
    inversion H; subst. reflexivity.
  - unfold update_order_book in H. rewrite Hs, Ht in H.
    unfold bind in H. simpl in H.
    destruct (seq <=? _sequence (self w)) eqn:E1; [lia|].
    destruct (seq >? _sequence (self w) + 1) eqn:E2; [lia|].
    discriminate H.
Qed.

Lemma apply_all_overlap m messages w seq :
  Message.sequence m = Some seq ->
  seq <= _sequence (self w) ->
  apply_all (m :: messages) w = apply_all messages w.
Proof.
  intros Hs Hle. simpl.
  rewrite (bind_Ok _ _ _ _ _ (update_order_book_overlap m w seq Hs Hle)).
  reflexivity.
Qed.




(** ** [add] *)

Lemma deref_Some l o w : heap w !! l = Some o -> deref l w = (Ok o, w).
Proof. unfold deref. intros ->. reflexivity. Qed.

Lemma get_ladder side p w m :
  ladder side (self w) = RBTree.Tree m ->
  (match side with BUY => get_bids | SELL => get_asks end) (Some p) w
  = (Ok (m !! p), w).
Proof.
  destruct side; simpl; intros H; unfold get_bids, get_asks, bind; simpl;
    rewrite H; reflexivity.
Qed.

Lemma set_ladder_Tree side p q w m :
  ladder side (self w) = RBTree.Tree m ->
  (match side with BUY => set_bids | SELL => set_asks end) (Some p) q w
  = (Ok tt, mkMachine (set_ladder side (RBTree.Tree (<[p := q]> m)) (self w))
              (heap w) (log w)).
Proof.
  destruct side; simpl; intros H; unfold set_bids, set_asks, bind; simpl;
    rewrite H; reflexivity.
Qed.

(** The book after [add] of a priced order on a ladder of decimals. *)
Definition added (l : loc) (o : Order.t) (p : Decimal) (m : gmap Z (list nat))
    (b : OrderBook) : OrderBook :=
  set_order_id_to_order (<[Order.order_id o := l]> (_order_id_to_order b))
    (set_ladder (Order.side o)
       (RBTree.Tree (<[p := default [] (m !! p) ++ [l]]> m)) b).

Lemma add_Tree l o p s w m :
  heap w !! l = Some o ->
  Order.price o = Some p ->
  Order.size o = Some s ->
  ladder (Order.side o) (self w) = RBTree.Tree m ->
  exists lg,
    add l w = (Ok tt, mkMachine (added l o p m (self w)) (heap w) (log w ++ lg)).
Proof.
  intros Hl Hp Hs Hm. unfold add.
  rewrite (bind_Ok _ _ _ _ _ (deref_Some _ _ _ Hl)). rewrite Hp.
  assert ((if decide (Order.side o = BUY)
           then let! bids := get_bids (Some p) in
                match bids with
                | None => set_bids (Some p) [l]
                | Some q => set_bids (Some p) (q ++ [l])
                end
           else let! asks := get_asks (Some p) in
                match asks with
                | None => set_asks (Some p) [l]
                | Some q => set_asks (Some p) (q ++ [l])
                end) w
          = (Ok tt, mkMachine
                      (set_ladder (Order.side o)
                         (RBTree.Tree (<[p := default [] (m !! p) ++ [l]]> m)) (self w))
                      (heap w) (log w))) as E.
  { destruct (Order.side o) eqn:Hside; simpl.
    - rewrite (bind_Ok _ _ _ _ _ (get_ladder BUY p w m Hm)).
      destruct (m !! p); apply (set_ladder_Tree BUY); exact Hm.
    - rewrite (bind_Ok _ _ _ _ _ (get_ladder SELL p w m Hm)).
      destruct (m !! p); apply (set_ladder_Tree SELL); exact Hm. }
  rewrite (bind_Ok _ _ _ _ _ E). clear E.
  unfold bind at 1. simpl. unfold bind at 1. simpl.
  unfold on_add, bind, deref. simpl. rewrite Hl, Hs, Hp. simpl.
  destruct (s * p >? LARGE_THRESHOLD * quantum * quantum);
    [exists [mkLog DEBUG "Added" (Order.order_id o);
             mkLog INFO "Large order" (Order.order_id o)]
    |exists [mkLog DEBUG "Added" (Order.order_id o)]];
    unfold added, logging; destruct (Order.side o); cbn;
    rewrite <- ?(assoc_L (++)); reflexivity.
Qed.

(** ** Snapshots *)

Lemma extend_step (m : gmap Z (list nat)) p p' base more :
  extend (<[p := default [] (m !! p) ++ [base]]> m !! p') more
  = extend (m !! p') ((if bool_decide (p = p') then [base] else []) ++ more).
Proof.
  case_bool_decide as Hp.
  - subst p'. rewrite lookup_insert_eq. unfold extend. simpl.
    destruct more; [reflexivity|]. simpl. rewrite <- (assoc_L (++)). reflexivity.
  - rewrite lookup_insert_ne by exact Hp. reflexivity.
Qed.

Lemma overwrite_step (d : gmap string nat) id id' base more :
  overwrite (<[id := base]> d !! id') more
  = overwrite (d !! id') ((if bool_decide (id = id') then [base] else []) ++ more).
Proof.
  unfold overwrite. case_bool_decide as Hid.
  - subst id'. rewrite lookup_insert_eq. simpl.
    destruct more as [|x more]; [reflexivity|].
    change (last (base :: x :: more)) with (last (x :: more)).
    destruct (last (x :: more)) eqn:E; [reflexivity|].
    apply last_None in E. discriminate E.
  - rewrite lookup_insert_ne by exact Hid. reflexivity.
Qed.

Lemma ladder_added_same l o p m b :
  ladder (Order.side o) (added l o p m b)
  = RBTree.Tree (<[p := default [] (m !! p) ++ [l]]> m).
Proof. unfold added. destruct (Order.side o); reflexivity. Qed.

Lemma ladder_added_opposite l o p m b :
  ladder (opposite (Order.side o)) (added l o p m b)
  = ladder (opposite (Order.side o)) b.
Proof. unfold added. destruct (Order.side o); reflexivity. Qed.

Lemma added_frame l o p m b :
  _order_id_to_order (added l o p m b) = <[Order.order_id o := l]> (_order_id_to_order b) /\
  _order_id_to_unreflected_order (added l o p m b) = _order_id_to_unreflected_order b /\
  product_id (added l o p m b) = product_id b /\
  _sequence (added l o p m b) = _sequence b.
Proof. unfold added. destruct (Order.side o); repeat split. Qed.

Lemma rows_where_app P base rows1 rows2 :
  rows_where P base (rows1 ++ rows2)
  = rows_where P base rows1 ++ rows_where P (base + length rows1) rows2.
Proof.
  revert base. induction rows1 as [|r rows1 IH]; intros base; simpl.
  - rewrite Nat.add_0_r. reflexivity.
  - rewrite IH, <- Nat.add_succ_comm, <- (assoc_L (++)). reflexivity.
Qed.

Lemma overwrite_app e more1 more2 :
  overwrite (overwrite e more1) more2 = overwrite e (more1 ++ more2).
Proof.
  unfold overwrite. rewrite last_app.
  destruct (last more2); [reflexivity|]. destruct (last more1); reflexivity.
Qed.

(** The rows of one side, added one after the other. *)
Lemma add_rows_spec rows sequence side :
  forall w m,
    ladder side (self w) = RBTree.Tree m ->
    exists w' m',
      add_rows rows sequence side w = (Ok tt, w') /\
      heap w' = heap w ++ (order_of_row sequence (product_id (self w)) side <$> rows) /\
      ladder side (self w') = RBTree.Tree m' /\
      (forall p, m' !! p = extend (m !! p) (rows_where (price_is p) (length (heap w)) rows)) /\
      ladder (opposite side) (self w') = ladder (opposite side) (self w) /\
      (forall id, _order_id_to_order (self w') !! id
                  = overwrite (_order_id_to_order (self w) !! id)
                      (rows_where (id_is id) (length (heap w)) rows)) /\
      product_id (self w') = product_id (self w) /\
      _order_id_to_unreflected_order (self w') = _order_id_to_unreflected_order (self w) /\
      _sequence (self w') = _sequence (self w).
Proof.
  induction rows as [|r rows IH]; intros w m Hm.
  - exists w, m. simpl. rewrite (right_id_L [] (++)).
    repeat split; try assumption; reflexivity.
  - set (o := order_of_row sequence (product_id (self w)) side r).
    set (base := length (heap w)).
    set (w0 := mkMachine (self w) (heap w ++ [o]) (log w)).
    assert (parse_snapshot_order r sequence side w = (Ok base, w0)) as E0
      by reflexivity.
    assert (heap w0 !! base = Some o) as Hl
      by (apply list_lookup_middle; reflexivity).
    destruct (add_Tree base o (r.1.1) (r.1.2) w0 m Hl eq_refl eq_refl Hm)
      as [lg E1].
    set (w1 := mkMachine (added base o (r.1.1) m (self w0)) (heap w0) (log w0 ++ lg)) in E1.
    destruct (IH w1 _ (ladder_added_same base o (r.1.1) m (self w0)))
      as (w' & m' & E2 & Hheap & Hlad & Hm' & Hopp & Hres & Hpid & Hpend & Hseq).
    destruct (added_frame base o (r.1.1) m (self w0)) as (Fres & Fpend & Fpid & Fseq).
    assert (heap w1 = heap w ++ [o]) as Hh1 by reflexivity.
    assert (length (heap w1) = S base) as Hlen1
      by (rewrite Hh1, length_app; simpl; unfold base; lia).
    change (self w1) with (added base o (r.1.1) m (self w0)) in *.
    change (self w0) with (self w) in *.
    change (Order.order_id o) with (r.2) in *.
    exists w', m'. split; [|split; [|split; [|split; [|split; [|split; [|split; [|split]]]]]]].
    + simpl. rewrite (bind_Ok _ _ _ _ _ E0), (bind_Ok _ _ _ _ _ E1). exact E2.
    + rewrite Hheap, Hh1, Fpid. rewrite fmap_cons.
      rewrite <- (assoc_L (++)). reflexivity.
    + exact Hlad.
    + intros p. rewrite Hm', Hlen1. apply extend_step.
    + rewrite Hopp. apply (ladder_added_opposite base o (r.1.1) m (self w)).
    + intros id. rewrite Hres, Fres, Hlen1. apply overwrite_step.
    + rewrite Hpid. exact Fpid.
    + rewrite Hpend. exact Fpend.
    + rewrite Hseq. exact Fseq.
Qed.

(** C6: applying a snapshot never raises.  It stores one new order object
    per row, bids first, and leaves the objects there were untouched; each
    ladder holds, at each price, the rows of its side with that price in
    row order, and no other level; the resting index maps each id of a row
    to the last row with that id, and holds no other id; the cursor is the
    sequence of the snapshot; the pending index is unchanged. *)
Theorem apply_order_book_snapshot_exact snapshot w :
  let base := length (heap w) in
  let pid := product_id (self w) in
  let sequence := Snapshot.sequence snapshot in
  let bids := Snapshot.bids snapshot in
  let asks := Snapshot.asks snapshot in
  exists w' mb ma,
    apply_order_book_snapshot snapshot w = (Ok tt, w') /\
    heap w' = heap w ++ (order_of_row sequence pid BUY <$> bids)
                     ++ (order_of_row sequence pid SELL <$> asks) /\
    _bids (self w') = RBTree.Tree mb /\
    _asks (self w') = RBTree.Tree ma /\
    (forall p, mb !! p = extend None (rows_where (price_is p) base bids)) /\
    (forall p, ma !! p
               = extend None (rows_where (price_is p) (base + length bids) asks)) /\
    (forall id, _order_id_to_order (self w') !! id
                = overwrite None (rows_where (id_is id) base (bids ++ asks))) /\
    _sequence (self w') = sequence /\
    _order_id_to_unreflected_order (self w') = _order_id_to_unreflected_order (self w).
Proof.
  cbv zeta. unfold apply_order_book_snapshot.
  set (w0 := mkMachine
               (set_order_id_to_order ∅
                  (set_bids_tree RBTree.empty (set_asks_tree RBTree.empty (self w))))
               (heap w) (log w)).
  destruct (add_rows_spec (Snapshot.bids snapshot) (Snapshot.sequence snapshot) BUY
              w0 ∅ eq_refl)
    as (w1 & mb & E1 & Hheap1 & Hb1 & Hmb & Ha1 & Hres1 & Hpid1 & Hpend1 & Hseq1).
  simpl in Ha1.
  destruct (add_rows_spec (Snapshot.asks snapshot) (Snapshot.sequence snapshot) SELL
              w1 ∅ Ha1)
    as (w2 & ma & E2 & Hheap2 & Ha2 & Hma & Hb2 & Hres2 & Hpid2 & Hpend2 & Hseq2).
  simpl in Hb2, Ha2, Hb1.
  exists (mkMachine (set_sequence (Snapshot.sequence snapshot) (self w2)) (heap w2) (log w2)),
    mb, ma.
  split; [|split; [|split; [|split; [|split; [|split; [|split; [|split]]]]]]].
  - unfold bind at 1. simpl. unfold bind at 1. simpl. unfold bind at 1. simpl.
    fold w0. rewrite (bind_Ok _ _ _ _ _ E1), (bind_Ok _ _ _ _ _ E2). reflexivity.
  - simpl. rewrite Hheap2, Hheap1, Hpid1. simpl.
    rewrite <- (assoc_L (++)). reflexivity.
  - simpl. rewrite Hb2. exact Hb1.
  - exact Ha2.
  - intros p. rewrite Hmb. rewrite lookup_empty. reflexivity.
  - intros p. rewrite Hma. rewrite lookup_empty. rewrite Hheap1, length_app, length_fmap.
    reflexivity.
  - intros id. simpl. rewrite Hres2, Hres1. simpl. rewrite lookup_empty.
    rewrite Hheap1, length_app, length_fmap. simpl.
    rewrite overwrite_app, rows_where_app. reflexivity.
  - reflexivity.
  - simpl. rewrite Hpend2, Hpend1. reflexivity.
Qed.

(** ** Orders are never unmade *)

Lemma same_order_refl o : same_order o o.
Proof. repeat split; auto. Qed.

Lemma same_order_trans o1 o2 o3 :
  same_order o1 o2 -> same_order o2 o3 -> same_order o1 o3.
Proof.
  intros (A1 & A2 & A3 & A4) (B1 & B2 & B3 & B4).
  repeat split; try congruence. auto.
Qed.

Lemma heap_le_refl h : heap_le h h.
Proof. intros l o H. exists o. split; [exact H | apply same_order_refl]. Qed.

Lemma heap_le_trans h1 h2 h3 : heap_le h1 h2 -> heap_le h2 h3 -> heap_le h1 h3.
Proof.
  intros H12 H23 l o H. destruct (H12 l o H) as (o2 & H2 & S2).
  destruct (H23 l o2 H2) as (o3 & H3 & S3).
  exists o3. split; [exact H3 | eapply same_order_trans; eassumption].
Qed.

Lemma heap_le_app h o : heap_le h (h ++ [o]).
Proof.
  intros l o0 H. exists o0. split; [|apply same_order_refl].
  apply lookup_app_l_Some. exact H.
Qed.

Lemma heap_le_insert h l o o' :
  h !! l = Some o -> same_order o o' -> heap_le h (<[l := o']> h).
Proof.
  intros Hl Hs l0 o0 H. destruct (decide (l0 = l)) as [->|Hne].
  - exists o'. split.
    + apply list_lookup_insert_eq. eapply lookup_lt_Some; eassumption.
    + congruence.
  - exists o0. split; [|apply same_order_refl].
    rewrite list_lookup_insert_ne by congruence. exact H.
Qed.

Lemma heap_le_length h h' : heap_le h h' -> (length h <= length h')%nat.
Proof.
  intros H. destruct (decide (length h = 0%nat)) as [E|E]; [lia|].
  destruct (lookup_lt_is_Some_2 h (length h - 1)) as [o Ho]; [lia|].
  destruct (H _ _ Ho) as (o' & Ho' & _). apply lookup_lt_Some in Ho'. lia.
Qed.

Lemma grows_of_keeps {A} (c : M A) : keeps heap c -> grows c.
Proof. intros K w. rewrite K. apply heap_le_refl. Qed.

Lemma grows_new_Order o : grows (new_Order o).
Proof. intros w. apply heap_le_app. Qed.

Lemma grows_setattr l f :
  (forall o, same_order o (f o)) -> grows (setattr l f).
Proof.
  intros Hf w. unfold setattr. destruct (heap w !! l) as [o|] eqn:E; simpl.
  - eapply heap_le_insert; [exact E | apply Hf].
  - apply heap_le_refl.
Qed.

Lemma grows_bind {A B} (c : M A) (k : A -> M B) :
  grows c -> (forall a, grows (k a)) -> grows (bind c k).
Proof.
  intros Hc Hk w. unfold bind. specialize (Hc w).
  destruct (c w) as [[a|e] w1]; simpl in *.
  - eapply heap_le_trans; [exact Hc | apply Hk].
  - exact Hc.
Qed.

Ltac grows_step :=
  first
    [ apply grows_new_Order
    | apply grows_setattr; intros; repeat split; simpl; eauto; fail
    | apply grows_bind; [ | intros ]
    | assumption
    | apply grows_of_keeps; solve [keeps_tac]
    | match goal with
      | |- grows (match ?x with _ => _ end) => destruct x
      end ].

Ltac grows_tac := intros; repeat grows_step.

Lemma without_id_grows order_id q : grows (without_id order_id q).
Proof. apply grows_of_keeps, without_id_keeps. Qed.

Lemma add_keeps_heap order : keeps heap (add order).
Proof.
  unfold add, on_add, get_bids, get_asks, set_bids, set_asks. keeps_tac.
Qed.

Lemma update_order_book_grows message : grows (update_order_book message).
Proof.
  unfold update_order_book, dispatch, update_open, update_done, update_match,
    update_change, update_received, opened_order, remove, remove_level, match_,
    match_taker, match_head, change,
    received, on_remove, on_match, on_change, on_received, Order_repr,
    get_bid, get_ask, get_bids, get_asks, set_bids, set_asks, remove_bids,
    remove_asks, del_order, del_unreflected.
  grows_tac;
    try apply without_id_grows;
    try (apply grows_of_keeps, add_keeps_heap); grows_tac.
Qed.

(** ** Consistency is kept *)

Lemma bind_Ok_inv {S A B} (c : ST S A) (k : A -> ST S B) w b w' :
  bind c k w = (Ok b, w') ->
  exists a w1, c w = (Ok a, w1) /\ k a w1 = (Ok b, w').
Proof.
  intros H. apply bind_inv in H as [H|(e & _ & H)]; [exact H | discriminate H].
Qed.

Lemma keeps_Ok {X A} (proj : Machine -> X) (c : M A) w a w' :
  keeps proj c -> c w = (Ok a, w') -> proj w' = proj w.
Proof. intros K H. specialize (K w). rewrite H in K. exact K. Qed.

Lemma grows_Ok {A} (c : M A) w a w' :
  grows c -> c w = (Ok a, w') -> heap_le (heap w) (heap w').
Proof. intros K H. specialize (K w). rewrite H in K. exact K. Qed.

Lemma queue_at_set_ladder s side p m b :
  queue_at s p (set_ladder side (RBTree.Tree m) b)
  = if decide (s = side) then m !! p else queue_at s p b.
Proof. destruct s, side; reflexivity. Qed.

Lemma queue_at_ladder side p b m :
  ladder side b = RBTree.Tree m -> queue_at side p b = m !! p.
Proof. unfold queue_at. intros ->. reflexivity. Qed.

Lemma queue_at_Some side p b q :
  queue_at side p b = Some q ->
  exists m, ladder side b = RBTree.Tree m /\ m !! p = Some q.
Proof.
  unfold queue_at. destruct (ladder side b) as [m|v]; [eauto | discriminate].
Qed.

Lemma ladder_decimal w side :
  consistent w -> exists m, ladder side (self w) = RBTree.Tree m.
Proof. intros C. destruct side; [apply (bids_decimal w C) | apply (asks_decimal w C)]. Qed.

(** The book as it is, the objects grown. *)
Lemma consistent_frame w w' :
  consistent w -> self w' = self w -> heap_le (heap w) (heap w') ->
  consistent w'.
Proof.
  intros C Hself Hle. constructor; rewrite Hself.
  - apply (bids_decimal w C).
  - apply (asks_decimal w C).
  - intros side p q l Hq Hin.
    destruct (queued_resting w C side p q l Hq Hin) as (o & Ho & Hs & Hp & Hz & Hr).
    destruct (Hle l o Ho) as (o' & Ho' & S1 & S2 & S3 & S4).
    exists o'. rewrite S1, S2, S3. repeat split; auto.
  - apply (queued_once w C).
  - intros id l Hr.
    destruct (resting_named w C id l Hr) as (o & Ho & Hid & Hp & Hz).
    destruct (Hle l o Ho) as (o' & Ho' & S1 & S2 & S3 & S4).
    exists o'. rewrite S1, S3. repeat split; auto.
  - intros id l Hr.
    destruct (pending_named w C id l Hr) as (o & Ho & Hid).
    destruct (Hle l o Ho) as (o' & Ho' & S1 & S2 & S3 & S4).
    exists o'. rewrite S1. repeat split; auto.
  - apply (pending_apart w C).
Qed.

(** The pending index replaced by one whose orders are named by their id
    and are not resting. *)
Lemma consistent_pending w w' d :
  consistent w -> heap w' = heap w ->
  self w' = set_order_id_to_unreflected_order d (self w) ->
  (forall id l, d !! id = Some l ->
     (exists o, heap w !! l = Some o /\ Order.order_id o = id) /\
     forall id', _order_id_to_order (self w) !! id' <> Some l) ->
  consistent w'.
Proof.
  intros C Hheap Hself Hd. constructor; rewrite Hself, ?Hheap; simpl.
  - apply (bids_decimal w C).
  - apply (asks_decimal w C).
  - apply (queued_resting w C).
  - apply (queued_once w C).
  - apply (resting_named w C).
  - intros id l Hl. apply (Hd id l Hl).
  - intros id id' l Hl Hr. apply (proj2 (Hd id l Hl) id' Hr).
Qed.

Lemma consistent_pending_delete w w' id :
  consistent w -> heap w' = heap w ->
  self w' = set_order_id_to_unreflected_order
              (delete id (_order_id_to_unreflected_order (self w))) (self w) ->
  consistent w'.
Proof.
  intros C Hheap Hself. eapply consistent_pending; try eassumption.
  intros id0 l Hl. apply lookup_delete_Some in Hl as [_ Hl]. split.
  - apply (pending_named w C id0 l Hl).
  - intros id' Hr. apply (pending_apart w C id0 id' l Hl Hr).
Qed.

(** A queue replaced by a part of itself. *)
Lemma consistent_queue_shrink w w' side m p q q' :
  consistent w -> heap w' = heap w ->
  ladder side (self w) = RBTree.Tree m -> m !! p = Some q -> sublist q' q ->
  self w' = set_ladder side (RBTree.Tree (<[p := q']> m)) (self w) ->
  consistent w'.
Proof.
  intros C Hheap Hm Hq Hsub Hself.
  assert (forall s p0 q0, queue_at s p0 (self w') = Some q0 ->
            exists q1, queue_at s p0 (self w) = Some q1 /\ sublist q0 q1) as Hshrink.
  { intros s p0 q0. rewrite Hself, queue_at_set_ladder.
    destruct (decide (s = side)) as [->|Hs]; [|eauto].
    rewrite (queue_at_ladder side p0 _ m Hm).
    destruct (decide (p = p0)) as [->|Hp].
    - rewrite lookup_insert_eq. intros [= <-]. eauto.
    - rewrite lookup_insert_ne by exact Hp. eauto. }
  constructor; rewrite ?Hheap.
  - rewrite Hself. destruct side; simpl; [eauto | apply (bids_decimal w C)].
  - rewrite Hself. destruct side; simpl; [apply (asks_decimal w C) | eauto].
  - intros s p0 q0 l H0 Hin. destruct (Hshrink s p0 q0 H0) as (q1 & H1 & Hs1).
    assert (_order_id_to_order (self w') = _order_id_to_order (self w)) as ->
      by (rewrite Hself; destruct side; reflexivity).
    apply (queued_resting w C s p0 q1 l H1). eapply elem_of_sublist; eassumption.
  - intros s p0 q0 H0. destruct (Hshrink s p0 q0 H0) as (q1 & H1 & Hs1).
    eapply sublist_NoDup; [apply (queued_once w C s p0 q1 H1) | exact Hs1].
  - assert (_order_id_to_order (self w') = _order_id_to_order (self w)) as ->
      by (rewrite Hself; destruct side; reflexivity).
    apply (resting_named w C).
  - assert (_order_id_to_unreflected_order (self w') = _order_id_to_unreflected_order (self w)) as ->
      by (rewrite Hself; destruct side; reflexivity).
    apply (pending_named w C).
  - assert (_order_id_to_order (self w') = _order_id_to_order (self w)) as ->
      by (rewrite Hself; destruct side; reflexivity).
    assert (_order_id_to_unreflected_order (self w') = _order_id_to_unreflected_order (self w)) as ->
      by (rewrite Hself; destruct side; reflexivity).
    apply (pending_apart w C).
Qed.

(** A level taken off a ladder. *)
Lemma consistent_level_delete w w' side m p :
  consistent w -> heap w' = heap w ->
  ladder side (self w) = RBTree.Tree m ->
  self w' = set_ladder side (RBTree.Tree (delete p m)) (self w) ->
  consistent w'.
Proof.
  intros C Hheap Hm Hself.
  assert (forall s p0 q0, queue_at s p0 (self w') = Some q0 ->
            queue_at s p0 (self w) = Some q0) as Hshrink.
  { intros s p0 q0. rewrite Hself, queue_at_set_ladder.
    destruct (decide (s = side)) as [->|Hs]; [|eauto].
    rewrite (queue_at_ladder side p0 _ m Hm).
    intros H. apply lookup_delete_Some in H as [_ H]. exact H. }
  constructor; rewrite ?Hheap.
  - rewrite Hself. destruct side; simpl; [eauto | apply (bids_decimal w C)].
  - rewrite Hself. destruct side; simpl; [apply (asks_decimal w C) | eauto].
  - intros s p0 q0 l H0 Hin.
    assert (_order_id_to_order (self w') = _order_id_to_order (self w)) as ->
      by (rewrite Hself; destruct side; reflexivity).
    apply (queued_resting w C s p0 q0 l (Hshrink s p0 q0 H0) Hin).
  - intros s p0 q0 H0. apply (queued_once w C s p0 q0 (Hshrink s p0 q0 H0)).
  - assert (_order_id_to_order (self w') = _order_id_to_order (self w)) as ->
      by (rewrite Hself; destruct side; reflexivity).
    apply (resting_named w C).
  - assert (_order_id_to_unreflected_order (self w') = _order_id_to_unreflected_order (self w)) as ->
      by (rewrite Hself; destruct side; reflexivity).
    apply (pending_named w C).
  - assert (_order_id_to_order (self w') = _order_id_to_order (self w)) as ->
      by (rewrite Hself; destruct side; reflexivity).
    assert (_order_id_to_unreflected_order (self w') = _order_id_to_unreflected_order (self w)) as ->
      by (rewrite Hself; destruct side; reflexivity).
    apply (pending_apart w C).
Qed.

(** An id taken off the resting index, when no queued order carries it. *)
Lemma consistent_resting_delete w w' id :
  consistent w -> heap w' = heap w ->
  self w' = set_order_id_to_order (delete id (_order_id_to_order (self w))) (self w) ->
  (forall side p q l o, queue_at side p (self w) = Some q -> l ∈ q ->
     heap w !! l = Some o -> Order.order_id o <> id) ->
  consistent w'.
Proof.
  intros C Hheap Hself Hfree. constructor; rewrite Hself, ?Hheap; simpl.
  - apply (bids_decimal w C).
  - apply (asks_decimal w C).
  - intros side p q l Hq Hin.
    destruct (queued_resting w C side p q l Hq Hin) as (o & Ho & Hs & Hp & Hz & Hr).
    exists o. repeat split; try assumption.
    rewrite lookup_delete_ne; [exact Hr|].
    intros E. apply (Hfree side p q l o Hq Hin Ho). congruence.
  - apply (queued_once w C).
  - intros id0 l Hl. apply lookup_delete_Some in Hl as [_ Hl].
    apply (resting_named w C id0 l Hl).
  - apply (pending_named w C).
  - intros id0 id' l Hl Hr. apply lookup_delete_Some in Hr as [_ Hr].
    apply (pending_apart w C id0 id' l Hl Hr).
Qed.

(** An order put at the tail of its queue and in the resting index, when
    its id is not resting and the order is neither resting nor pending. *)
Lemma consistent_added w w' l o p m :
  consistent w -> heap w' = heap w ->
  heap w !! l = Some o -> Order.price o = Some p -> is_Some (Order.size o) ->
  ladder (Order.side o) (self w) = RBTree.Tree m ->
  _order_id_to_order (self w) !! Order.order_id o = None ->
  (forall id, _order_id_to_order (self w) !! id <> Some l) ->
  (forall id, _order_id_to_unreflected_order (self w) !! id <> Some l) ->
  self w' = added l o p m (self w) ->
  consistent w'.
Proof.
  intros C Hheap Hl Hp Hz Hm Hfresh Hnr Hnp Hself.
  destruct (added_frame l o p m (self w)) as (Fres & Fpend & _ & _).
  assert (forall s p0 q0, queue_at s p0 (self w') = Some q0 ->
            queue_at s p0 (self w) = Some q0 \/
            (s = Order.side o /\ p0 = p /\ q0 = default [] (m !! p) ++ [l])) as Hq.
  { intros s p0 q0. rewrite Hself. unfold added.
    assert (forall b t, queue_at s p0 (set_order_id_to_order t b) = queue_at s p0 b) as E
      by (intros; destruct s; reflexivity).
    rewrite E, queue_at_set_ladder.
    destruct (decide (s = Order.side o)) as [->|Hs]; [|auto].
    rewrite (queue_at_ladder _ p0 _ m Hm).
    destruct (decide (p = p0)) as [->|Hne].
    - rewrite lookup_insert_eq. intros [= <-]. auto.
    - rewrite lookup_insert_ne by exact Hne. auto. }
  assert (forall q, m !! p = Some q -> l ∉ q) as Hnotin.
  { intros q Hqp Hin.
    destruct (queued_resting w C (Order.side o) p q l) as (o' & Ho' & _ & _ & _ & Hr');
      [rewrite (queue_at_ladder _ p _ m Hm); exact Hqp | exact Hin |].
    apply (Hnr _ Hr'). }
  constructor; rewrite ?Hheap.
  - rewrite Hself. unfold added. destruct (Order.side o); simpl in *;
      [eauto | apply (bids_decimal w C)].
  - rewrite Hself. unfold added. destruct (Order.side o); simpl in *;
      [apply (asks_decimal w C) | eauto].
  - intros s p0 q0 l0 H0 Hin. rewrite Hself, Fres.
    destruct (Hq s p0 q0 H0) as [H1|(-> & -> & ->)].
    + destruct (queued_resting w C s p0 q0 l0 H1 Hin) as (o0 & Ho0 & Hs0 & Hp0 & Hz0 & Hr0).
      exists o0. repeat split; try assumption.
      rewrite lookup_insert_ne; [exact Hr0|]. intros E. rewrite <- E in Hr0. congruence.
    + apply elem_of_app in Hin as [Hin|Hin].
      * destruct (m !! p) as [q|] eqn:Hqp; simpl in Hin; [|inversion Hin].
        destruct (queued_resting w C (Order.side o) p q l0) as (o0 & Ho0 & Hs0 & Hp0 & Hz0 & Hr0);
          [rewrite (queue_at_ladder _ p _ m Hm); exact Hqp | exact Hin |].
        exists o0. repeat split; try assumption.
        rewrite lookup_insert_ne; [exact Hr0|]. intros E. rewrite <- E in Hr0. congruence.
      * apply list_elem_of_singleton in Hin as ->.
        exists o. repeat split; try assumption. apply lookup_insert_eq.
  - intros s p0 q0 H0. destruct (Hq s p0 q0 H0) as [H1|(-> & -> & ->)].
    + apply (queued_once w C s p0 q0 H1).
    + apply NoDup_app. split; [|split].
      * destruct (m !! p) as [q|] eqn:Hqp; simpl; [|constructor].
        apply (queued_once w C (Order.side o) p q).
        rewrite (queue_at_ladder _ p _ m Hm). exact Hqp.
      * intros x Hx Hx'. apply list_elem_of_singleton in Hx' as ->.
        destruct (m !! p) as [q|] eqn:Hqp; simpl in Hx; [|inversion Hx].
        apply (Hnotin q eq_refl Hx).
      * apply NoDup_singleton.
  - intros id l0. rewrite Hself, Fres. intros Hr.
    apply lookup_insert_Some in Hr as [[<- <-]|[Hne Hr]].
    + exists o. repeat split; try assumption. rewrite Hp. eauto.
    + apply (resting_named w C id l0 Hr).
  - rewrite Hself, Fpend. apply (pending_named w C).
  - intros id id' l0. rewrite Hself, Fres, Fpend. intros Hpd Hr.
    apply lookup_insert_Some in Hr as [[<- <-]|[Hne Hr]].
    + apply (Hnp id Hpd).
    + apply (pending_apart w C id id' l0 Hpd Hr).
Qed.

Lemma add_Ok l w w' :
  add l w = (Ok tt, w') ->
  exists o p m,
    heap w !! l = Some o /\ Order.price o = Some p /\ is_Some (Order.size o) /\
    ladder (Order.side o) (self w) = RBTree.Tree m /\
    self w' = added l o p m (self w) /\ heap w' = heap w.
Proof.
  intros H.
  destruct (heap w !! l) as [o|] eqn:Hl; cycle 1.
  { unfold add, bind, deref in H. rewrite Hl in H. discriminate H. }
  assert (exists p s, Order.price o = Some p /\ Order.size o = Some s)
    as (p & s & Hp & Hs).
  { unfold add in H. rewrite (bind_Ok _ _ _ _ _ (deref_Some _ _ _ Hl)) in H.
    apply bind_Ok_inv in H as (u & w1 & H1 & H).
    assert (heap w1 = heap w) as Hh1.
    { change w1 with (snd (Ok u, w1)). rewrite <- H1.
      destruct (decide (Order.side o = BUY));
        unfold get_bids, get_asks, set_bids, set_asks; keeps_tac. }
    apply bind_Ok_inv in H as (d & w2 & H2 & H). inversion H2; subst; clear H2.
    apply bind_Ok_inv in H as (u2 & w3 & H2 & H). inversion H2; subst; clear H2.
    unfold on_add, bind, deref in H. simpl in H. rewrite Hh1, Hl in H.
    destruct (Order.size o), (Order.price o); try discriminate H. eauto. }
  destruct (ladder (Order.side o) (self w)) as [m|v] eqn:Hm; cycle 1.
  { unfold add in H. rewrite (bind_Ok _ _ _ _ _ (deref_Some _ _ _ Hl)) in H.
    rewrite Hp in H.
    destruct (Order.side o); simpl in Hm, H;
      unfold get_bids, get_asks, bind in H; simpl in H; rewrite Hm in H;
      discriminate H. }
  destruct (add_Tree l o p s w m Hl Hp Hs Hm) as [lg E].
  rewrite E in H. inversion H; subst. exists o, p, m. simpl.
  repeat split; eauto.
Qed.

(** ** I2 in the terms of the model *)

Lemma filter_none {A} (P : A -> Prop) `{forall x, Decision (P x)} (q : list A) :
  (forall x, x ∈ q -> ~ P x) -> filter P q = [].
Proof.
  induction q as [|x q IH]; intros HP; [reflexivity|].
  rewrite filter_cons, decide_False by (apply HP; left).
  apply IH. intros y Hy. apply HP. right. exact Hy.
Qed.

Lemma filter_unique {A} (P : A -> Prop) `{forall x, Decision (P x)} (q : list A) l :
  NoDup q -> l ∈ q -> P l -> (forall x, x ∈ q -> P x -> x = l) -> filter P q = [l].
Proof.
  induction q as [|x q IH]; intros Hnd Hin Hl HP; [inversion Hin|].
  apply NoDup_cons in Hnd as [Hx Hnd]. rewrite filter_cons.
  destruct (decide (P x)) as [HPx|HPx].
  - assert (x = l) as -> by (apply HP; [left | exact HPx]). f_equal.
    apply filter_none. intros y Hy HPy.
    assert (y = l) as -> by (apply HP; [right|]; assumption).
    apply Hx, Hy.
  - apply IH; try assumption.
    + apply elem_of_cons in Hin as [->|Hin]; [contradiction | exact Hin].
    + intros y Hy. apply HP. right. exact Hy.
Qed.

Lemma filter_at_most_one {A} (P : A -> Prop) `{forall x, Decision (P x)} (q : list A) :
  NoDup q -> (forall x y, x ∈ q -> y ∈ q -> P x -> P y -> x = y) ->
  (length (filter P q) <= 1)%nat.
Proof.
  induction q as [|x q IH]; intros Hnd HP; [simpl; lia|].
  apply NoDup_cons in Hnd as [Hx Hnd]. rewrite filter_cons.
  destruct (decide (P x)) as [HPx|HPx].
  - rewrite filter_none; [simpl; lia|].
    intros y Hy HPy. apply Hx.
    rewrite (HP x y); [exact Hy | left | right; exact Hy | exact HPx | exact HPy].
  - apply IH; [exact Hnd|]. intros y z Hy Hz. apply HP; right; assumption.
Qed.

Lemma consistent_ladder_in_resting w : consistent w -> ladder_in_resting w.
Proof.
  intros C side p q l o Hq Hin Ho.
  destruct (queued_resting w C side p q l Hq Hin) as (o' & Ho' & _ & _ & _ & Hr).
  rewrite Ho in Ho'. inversion Ho'; subst o'. eauto.
Qed.

Lemma entry_resting w side p q x id :
  consistent w -> queue_at side p (self w) = Some q -> x ∈ q ->
  Order.order_id <$> heap w !! x = Some id ->
  _order_id_to_order (self w) !! id = Some x.
Proof.
  intros C Hq Hx Hid.
  destruct (queued_resting w C side p q x Hq Hx) as (o & Ho & _ & _ & _ & Hr).
  rewrite Ho in Hid. simpl in Hid. inversion Hid; subst id. exact Hr.
Qed.

Lemma consistent_at_most_once w : consistent w -> queued_at_most_once w.
Proof.
  intros C id side p q Hq. unfold entries.
  apply filter_at_most_one; [apply (queued_once w C side p q Hq)|].
  intros x y Hx Hy Px Py.
  pose proof (entry_resting w side p q x id C Hq Hx Px) as Rx.
  pose proof (entry_resting w side p q y id C Hq Hy Py) as Ry.
  congruence.
Qed.

Lemma on_ladder_exactly_one w : consistent w -> on_ladder w -> resting_on_ladder w.
Proof.
  intros C L id l Hr. destruct (L id l Hr) as (o & p & q & Ho & Hp & Hq & Hin).
  exists o, p, q. repeat split; try assumption.
  unfold entries. rewrite (filter_unique _ q l); [reflexivity | | exact Hin | |].
  - apply (queued_once w C _ p q Hq).
  - destruct (resting_named w C id l Hr) as (o' & Ho' & Hid & _).
    rewrite Ho'. simpl. congruence.
  - intros x Hx Px.
    pose proof (entry_resting w _ p q x id C Hq Hx Px) as Rx. congruence.
Qed.

Lemma exactly_one_on_ladder w : consistent w -> resting_on_ladder w -> on_ladder w.
Proof.
  intros C L id l Hr. destruct (L id l Hr) as (o & p & q & Ho & Hp & Hq & Hlen).
  exists o, p, q. repeat split; try assumption.
  unfold entries in Hlen.
  destruct (filter (fun l0 => Order.order_id <$> heap w !! l0 = Some id) q)
    as [|x xs] eqn:E; [discriminate Hlen|].
  assert (x ∈ filter (fun l0 => Order.order_id <$> heap w !! l0 = Some id) q) as Hx
    by (rewrite E; left).
  apply list_elem_of_filter in Hx as [Px Hx].
  pose proof (entry_resting w _ p q x id C Hq Hx Px) as Rx.
  assert (x = l) as -> by congruence. exact Hx.
Qed.

(** ** The operations keep the book consistent *)

Lemma bind_pure_Ok {A B} (c : M A) (k : A -> M B) w b w' :
  keeps (fun w => w) c ->
  bind c k w = (Ok b, w') -> exists a, c w = (Ok a, w) /\ k a w = (Ok b, w').
Proof.
  intros K H. apply bind_Ok_inv in H as (a & w1 & H1 & H).
  pose proof (keeps_Ok _ _ _ _ _ K H1) as E. simpl in E. subst w1. eauto.
Qed.

Lemma getitem_Ok {A} (field : option A) key w v w' :
  getitem field key w = (Ok v, w') -> field = Some v /\ w' = w.
Proof. destruct field; intros H; inversion H; auto. Qed.

Lemma deref_Ok l w o w' :
  deref l w = (Ok o, w') -> heap w !! l = Some o /\ w' = w.
Proof. unfold deref. destruct (heap w !! l); intros H; inversion H; auto. Qed.

Lemma consistent_set_sequence seq w :
  consistent w ->
  consistent (mkMachine (set_sequence seq (self w)) (heap w) (log w)).
Proof.
  intros C. constructor.
  - apply (bids_decimal w C).
  - apply (asks_decimal w C).
  - apply (queued_resting w C).
  - apply (queued_once w C).
  - apply (resting_named w C).
  - apply (pending_named w C).
  - apply (pending_apart w C).
Qed.

(** The queues may gain orders, the objects may grow. *)
Lemma on_ladder_frame w w' :
  on_ladder w ->
  _order_id_to_order (self w') = _order_id_to_order (self w) ->
  (forall s p q, queue_at s p (self w) = Some q ->
     exists q', queue_at s p (self w') = Some q' /\ q ⊆ q') ->
  heap_le (heap w) (heap w') ->
  on_ladder w'.
Proof.
  intros L Hres Hq Hle id l Hr. rewrite Hres in Hr.
  destruct (L id l Hr) as (o & p & q & Ho & Hp & Hqa & Hin).
  destruct (Hle l o Ho) as (o' & Ho' & S1 & S2 & S3 & S4).
  destruct (Hq _ _ _ Hqa) as (q' & Hq' & Hsub).
  exists o', p, q'. rewrite S2, S3. repeat split; auto.
Qed.

Lemma on_ladder_same_book w w' :
  on_ladder w -> self w' = self w -> heap_le (heap w) (heap w') -> on_ladder w'.
Proof.
  intros L Hself Hle. apply (on_ladder_frame w w' L); [rewrite Hself; reflexivity | | exact Hle].
  intros s p q Hq. exists q. rewrite Hself. split; [exact Hq | reflexivity].
Qed.

(** *** [change] *)

Lemma update_change_keeps_self message : keeps self (update_change message).
Proof.
  unfold update_change, change, on_change, Order_repr, get_asks, get_bids.
  keeps_tac.
Qed.

Lemma update_change_grows message : grows (update_change message).
Proof.
  unfold update_change, change, on_change, Order_repr, get_asks, get_bids.
  grows_tac.
Qed.

Lemma update_change_consistent message w w' :
  consistent w -> update_change message w = (Ok tt, w') ->
  consistent w' /\ (on_ladder w -> on_ladder w').
Proof.
  intros C H.
  pose proof (keeps_Ok _ _ _ _ _ (update_change_keeps_self message) H) as Hself.
  pose proof (grows_Ok _ _ _ _ (update_change_grows message) H) as Hle.
  split.
  - apply (consistent_frame w w' C Hself Hle).
  - intros L. apply (on_ladder_same_book w w' L Hself Hle).
Qed.

(** *** [received] *)

Lemma on_received_keeps order order_type :
  keeps (fun w => (self w, heap w)) (on_received order order_type).
Proof. unfold on_received. keeps_tac. Qed.

Lemma update_received_effect message w w' :
  update_received message w = (Ok tt, w') ->
  exists o,
    heap w' = heap w ++ [o] /\
    self w' = set_order_id_to_unreflected_order
                (<[Order.order_id o := length (heap w)]>
                   (_order_id_to_unreflected_order (self w))) (self w).
Proof.
  unfold update_received. intros H.
  apply bind_pure_Ok in H as (order_type & _ & H); [|keeps_tac].
  apply bind_pure_Ok in H as (ps & _ & H); [|keeps_tac].
  apply bind_pure_Ok in H as (time & _ & H); [|keeps_tac].
  apply bind_pure_Ok in H as (sequence & _ & H); [|keeps_tac].
  apply bind_pure_Ok in H as (pid & _ & H); [|keeps_tac].
  apply bind_pure_Ok in H as (order_id & _ & H); [|keeps_tac].
  apply bind_pure_Ok in H as (side & _ & H); [|keeps_tac].
  apply bind_Ok_inv in H as (l & w1 & H1 & H). inversion H1; subst l w1; clear H1.
  match type of H with
  | received _ _ (mkMachine _ (_ ++ [?x]) _) = _ => set (o := x) in *
  end.
  exists o. unfold received in H.
  apply bind_pure_Ok in H as (o' & Ho' & H); [|keeps_tac].
  apply deref_Ok in Ho' as [Ho' _]. simpl in Ho'.
  rewrite list_lookup_middle in Ho' by reflexivity. inversion Ho'; subst o'.
  apply bind_pure_Ok in H as (d & Hd & H); [|keeps_tac].
  inversion Hd; subst d; clear Hd.
  apply bind_Ok_inv in H as (u & w2 & H2 & H). inversion H2; subst u w2; clear H2.
  pose proof (keeps_Ok _ _ _ _ _ (on_received_keeps _ _) H) as E.
  simpl in E. inversion E. split; [reflexivity | assumption].
Qed.

Lemma update_received_consistent message w w' :
  consistent w -> update_received message w = (Ok tt, w') ->
  consistent w' /\ (on_ladder w -> on_ladder w').
Proof.
  intros C H. destruct (update_received_effect message w w' H) as (o & Hheap & Hself).
  set (w1 := mkMachine (self w) (heap w ++ [o]) (log w)).
  assert (consistent w1) as C1
    by (apply (consistent_frame w w1 C eq_refl); apply heap_le_app).
  split.
  - apply (consistent_pending w1 w' _ C1 Hheap Hself).
    intros id l Hl. apply lookup_insert_Some in Hl as [[<- <-]|[Hne Hl]].
    + split.
      * exists o. split; [apply list_lookup_middle; reflexivity | reflexivity].
      * intros id' Hr. destruct (resting_named w C id' _ Hr) as (o' & Ho' & _).
        apply lookup_lt_Some in Ho'. lia.
    + split.
      * apply (pending_named w1 C1 id l Hl).
      * intros id' Hr. apply (pending_apart w C id id' l Hl Hr).
  - intros L. apply (on_ladder_frame w w' L).
    + rewrite Hself. reflexivity.
    + intros s p q Hq. exists q. rewrite Hself. split; [exact Hq | reflexivity].
    + rewrite Hheap. apply heap_le_app.
Qed.

(** *** Running a computation that ended well *)

Lemma setattr_Ok l f w u w' :
  setattr l f w = (Ok u, w') ->
  exists o, heap w !! l = Some o /\
            w' = mkMachine (self w) (<[l := f o]> (heap w)) (log w).
Proof.
  unfold setattr. destruct (heap w !! l) as [o|]; intros H; inversion H; eauto.
Qed.

Lemma lift_Ok {A} (r : Result A) (w : Machine) a w' :
  lift r w = (Ok a, w') -> r = Ok a /\ w' = w.
Proof. unfold lift. intros H. inversion H. auto. Qed.

Ltac exec_prim H :=
  lazymatch type of H with
  | ret _ _ = (Ok _, _) => inversion H; subst; clear H
  | raise _ _ = (Ok _, _) => discriminate H
  | gets _ _ = (Ok _, _) => inversion H; subst; clear H
  | modify _ _ = (Ok _, _) => inversion H; subst; clear H
  | logging _ _ _ _ = (Ok _, _) => inversion H; subst; clear H
  | new_Order _ _ = (Ok _, _) => inversion H; subst; clear H
  | lift _ _ = (Ok _, _) => apply lift_Ok in H as [H ->]
  | getitem _ _ _ = (Ok _, _) => apply getitem_Ok in H as [H ->]
  | deref _ _ = (Ok _, _) => apply deref_Ok in H as [H ->]
  | setattr _ _ _ = (Ok _, _) =>
      let o := fresh "o" in apply setattr_Ok in H as (o & H & ->)
  end.

Ltac exec H :=
  cbn [self heap log] in H;
  lazymatch type of H with
  | bind _ _ _ = (Ok _, _) =>
      let H1 := fresh "X" in
      let a := fresh "a" in
      let w1 := fresh "w" in
      apply bind_Ok_inv in H as (a & w1 & H1 & H);
      exec H1; exec H
  | (match ?x with _ => _ end) _ = (Ok _, _) =>
      let E := fresh "E" in destruct x eqn:E; exec H
  | _ => first [ exec_prim H | idtac ]
  end.

(** *** [match] *)

Lemma match_taker_effect size taker w w' :
  match_taker size taker w = (Ok tt, w') ->
  (self w' = self w \/
   self w' = set_order_id_to_unreflected_order
               (delete taker (_order_id_to_unreflected_order (self w))) (self w)) /\
  (heap w' = heap w \/
   exists tl t s',
     _order_id_to_unreflected_order (self w) !! taker = Some tl /\
     heap w !! tl = Some t /\
     heap w' = <[tl := Order.with_size (Some s') t]> (heap w)).
Proof.
  unfold match_taker, del_unreflected. intros H.
  exec H; cbn [self heap log]; split; eauto 10.
Qed.

Lemma RBTree_get_Ok p tr a :
  RBTree.get (Some p) tr = Ok a -> exists m, tr = RBTree.Tree m /\ a = m !! p.
Proof. destruct tr; simpl; intros H; inversion H; eauto. Qed.

Lemma RBTree_insert_Ok p v tr tr' :
  RBTree.insert (Some p) v tr = Ok tr' ->
  exists m, tr = RBTree.Tree m /\ tr' = RBTree.Tree (<[p := v]> m).
Proof. destruct tr; simpl; intros H; inversion H; eauto. Qed.

Lemma RBTree_remove_Ok p tr tr' :
  RBTree.remove (Some p) tr = Ok tr' ->
  exists m, tr = RBTree.Tree m /\ is_Some (m !! p) /\ tr' = RBTree.Tree (delete p m).
Proof.
  destruct tr as [m|v]; simpl; [|discriminate].
  destruct (m !! p) eqn:E; intros H; inversion H; eauto.
Qed.

Ltac tree_inv :=
  repeat match goal with
    | X : RBTree.get (Some _) _ = Ok _ |- _ =>
        apply RBTree_get_Ok in X as (? & ? & ?)
    | X : RBTree.insert (Some _) _ _ = Ok _ |- _ =>
        apply RBTree_insert_Ok in X as (? & ? & ?)
    | X : RBTree.remove (Some _) _ = Ok _ |- _ =>
        apply RBTree_remove_Ok in X as (? & ? & ? & ?)
    | H1 : ?t = RBTree.Tree ?m1, H2 : ?t = RBTree.Tree ?m2 |- _ =>
        rewrite H1 in H2; injection H2 as <-
    end.

Lemma set_asks_tree_id b : set_asks_tree (_asks b) b = b.
Proof. destruct b; reflexivity. Qed.

Lemma set_bids_tree_id b : set_bids_tree (_bids b) b = b.
Proof. destruct b; reflexivity. Qed.

Lemma set_ladder_id side b : set_ladder side (ladder side b) b = b.
Proof. destruct side; [apply set_bids_tree_id | apply set_asks_tree_id]. Qed.

Lemma match_taker_consistent size taker w w' :
  consistent w -> match_taker size taker w = (Ok tt, w') ->
  consistent w' /\
  (on_ladder w -> on_ladder w') /\
  _asks (self w') = _asks (self w) /\
  _bids (self w') = _bids (self w) /\
  _order_id_to_order (self w') = _order_id_to_order (self w) /\
  (forall l, (forall id, _order_id_to_unreflected_order (self w) !! id <> Some l) ->
             heap w' !! l = heap w !! l).
Proof.
  intros C H.
  assert (grows (match_taker size taker)) as G
    by (unfold match_taker, del_unreflected; grows_tac).
  pose proof (grows_Ok _ _ _ _ G H) as Hle.
  destruct (match_taker_effect size taker w w' H) as [Hself Hheap].
  set (w1 := mkMachine (self w) (heap w') (log w')).
  assert (consistent w1) as C1 by (apply (consistent_frame w w1 C eq_refl Hle)).
  assert (_asks (self w') = _asks (self w) /\ _bids (self w') = _bids (self w) /\
          _order_id_to_order (self w') = _order_id_to_order (self w)) as (Ea & Eb & Er)
    by (destruct Hself as [->| ->]; repeat split).
  split; [|split; [|split; [|split; [|split]]]]; try assumption.
  - destruct Hself as [Hself|Hself].
    + apply (consistent_frame w1 w' C1 Hself). apply heap_le_refl.
    + apply (consistent_pending_delete w1 w' taker C1 eq_refl Hself).
  - intros L. apply (on_ladder_frame w w' L Er); [|exact Hle].
    intros s p q Hq. exists q. split; [|reflexivity].
    unfold queue_at in *. destruct s; simpl in *; rewrite ?Ea, ?Eb; exact Hq.
  - intros l Hl. destruct Hheap as [->|(tl & t & s' & Htl & Ht & ->)]; [reflexivity|].
    apply list_lookup_insert_ne. intros ->. apply (Hl taker Htl).
Qed.

Lemma match_head_asks_effect p s maker w b w' :
  match_head get_asks set_asks p s maker w = (Ok b, w') ->
  (self w' = self w /\ heap w' = heap w /\ b = false) \/
  (exists m head rest h,
     _asks (self w) = RBTree.Tree m /\ m !! p = Some (head :: rest) /\
     heap w !! head = Some h /\ b = true /\
     ((Order.size h = Some s /\ heap w' = heap w /\
       self w' = set_asks_tree (RBTree.Tree (<[p := rest]> m)) (self w)) \/
      (Order.size h <> Some s /\ self w' = self w /\
       exists s0, heap w' = <[head := Order.with_size (Some s0) h]> (heap w)))).
Proof.
  unfold match_head, get_asks, set_asks. intros H. exec H;
    cbn [self heap log] in *; tree_inv; simplify_eq; try (left; auto; fail);
    right; do 4 eexists; (split; [eassumption|]); (split; [eauto|]);
    (split; [eassumption|]); (split; [reflexivity|]).
  - left. auto.
  - right. split; [congruence|]. split; [|eauto].
    rewrite insert_id by eauto.
    match goal with Hm : _asks _ = RBTree.Tree _ |- _ => rewrite <- Hm end.
    apply set_asks_tree_id.
Qed.

Lemma on_match_keeps maker : keeps (fun w => (self w, heap w)) (on_match maker).
Proof. unfold on_match, get_bid, get_ask. keeps_tac. Qed.

Lemma same_book_consistent w w' :
  consistent w -> (self w', heap w') = (self w, heap w) -> consistent w'.
Proof.
  intros C E. inversion E as [[Hs Hh]].
  apply (consistent_frame w w' C Hs). rewrite Hh. apply heap_le_refl.
Qed.

Lemma same_book_on_ladder w w' :
  on_ladder w -> (self w', heap w') = (self w, heap w) -> on_ladder w'.
Proof.
  intros L E. inversion E as [[Hs Hh]].
  apply (on_ladder_same_book w w' L Hs). rewrite Hh. apply heap_le_refl.
Qed.

Lemma match_consistent side p s maker taker w w' :
  consistent w -> match_ side p s maker taker w = (Ok tt, w') ->
  consistent w' /\
  (on_ladder w ->
   ~ (exists head rest h,
        queue_at SELL p (self w) = Some (head :: rest) /\
        heap w !! head = Some h /\ Order.size h = Some s) ->
   on_ladder w').
Proof.
  intros C H. unfold match_ in H.
  apply bind_pure_Ok in H as (d & _ & H); [|keeps_tac].
  apply bind_Ok_inv in H as (u1 & w1 & H1 & H).
  assert ((self w1, heap w1) = (self w, heap w)) as E1.
  { apply (keeps_Ok (fun w => (self w, heap w)) _ _ _ _) in H1; [exact H1|].
    keeps_tac. }
  apply bind_Ok_inv in H as (u2 & w2 & H2 & H).
  apply bind_Ok_inv in H as (b & w3 & H3 & H).
  unfold Side_eq_str in H3.
  assert ((self w', heap w') = (self w3, heap w3)) as E4.
  { destruct b.
    - apply (keeps_Ok _ _ _ _ _ (on_match_keeps maker) H).
    - inversion H. reflexivity. }
  clear H H1. destruct u2.
  pose proof (same_book_consistent w w1 C E1) as C1.
  destruct (match_taker_consistent s taker w1 w2 C1 H2)
    as (C2 & L2 & Ea & Eb & Er & Hheap2).
  inversion E1 as [[Es1 Eh1]].
  destruct (match_head_asks_effect p s maker w2 b w3 H3)
    as [(Es & Eh & _)|(m & head & rest & h & Hm & Hq & Hh & _ & [(Hz & Eh & Es)|(Hz & Es & s0 & Eh)])].
  - assert (consistent w3) as C3
      by (apply (consistent_frame w2 w3 C2 Es); rewrite Eh; apply heap_le_refl).
    split; [apply (same_book_consistent w3 w' C3 E4)|].
    intros L _. apply (same_book_on_ladder w3 w'); [|exact E4].
    apply (on_ladder_same_book w2 w3); [|exact Es | rewrite Eh; apply heap_le_refl].
    apply L2. apply (same_book_on_ladder w w1 L E1).
  - assert (consistent w3) as C3.
    { apply (consistent_queue_shrink w2 w3 SELL m p (head :: rest) rest C2 Eh Hm Hq);
        [apply sublist_cons; reflexivity | exact Es]. }
    split; [apply (same_book_consistent w3 w' C3 E4)|].
    intros _ Hne. exfalso. apply Hne. exists head, rest, h.
    assert (queue_at SELL p (self w1) = Some (head :: rest)) as Hqa.
    { unfold queue_at. simpl. rewrite <- Ea, Hm. exact Hq. }
    split; [exact Hqa|]. split; [|exact Hz].
    rewrite <- Hheap2; [exact Hh|].
    intros id Hp.
    destruct (queued_resting w1 C1 SELL p (head :: rest) head Hqa) as (o & _ & _ & _ & _ & Hr).
    { left. }
    apply (pending_apart w1 C1 id _ head Hp Hr).
  - assert (heap_le (heap w2) (heap w3)) as Hle.
    { rewrite Eh. apply (heap_le_insert _ _ h); [exact Hh|]. repeat split. eauto. }
    assert (consistent w3) as C3 by (apply (consistent_frame w2 w3 C2 Es Hle)).
    split; [apply (same_book_consistent w3 w' C3 E4)|].
    intros L _. apply (same_book_on_ladder w3 w'); [|exact E4].
    apply (on_ladder_same_book w2 w3); [|exact Es | exact Hle].
    apply L2. apply (same_book_on_ladder w w1 L E1).
Qed.

(** *** [done] *)

Lemma without_id_Ok id q w r w' :
  without_id id q w = (Ok r, w') ->
  w' = w /\ r = filter (fun l => Order.order_id <$> heap w !! l <> Some id) q.
Proof.
  revert r w'. induction q as [|x q IH]; intros r w' H; simpl in H.
  - inversion H. auto.
  - apply bind_pure_Ok in H as (o & Ho & H); [|keeps_tac].
    apply deref_Ok in Ho as [Ho _].
    apply bind_Ok_inv in H as (r0 & w1 & H1 & H).
    destruct (IH _ _ H1) as [-> ->]. inversion H; subst; clear H.
    split; [reflexivity|]. rewrite filter_cons, Ho. simpl.
    destruct (String.eqb_spec (Order.order_id o) id) as [->|Hne].
    + rewrite decide_False by (intros E; apply E; reflexivity). reflexivity.
    + rewrite decide_True by congruence. reflexivity.
Qed.

Ltac remove_level_tac H p :=
  let lv := fresh "lv" in
  let w1 := fresh "w" in
  let H1 := fresh "H" in
  let Hq := fresh "Hq" in
  let Hlen := fresh "Hlen" in
  apply bind_Ok_inv in H as (lv & w1 & H1 & H); exec H1; tree_inv; subst lv;
  match goal with
  | Hm : _ = RBTree.Tree ?m |- _ => destruct (m !! p) eqn:Hq
  end;
  [ let q' := fresh "q" in
    let w2 := fresh "w" in
    let H2 := fresh "H" in
    apply bind_Ok_inv in H as (q' & w2 & H2 & H);
    apply without_id_Ok in H2 as [-> ->];
    match type of H with
    | (if ?c then _ else _) _ = _ => destruct c eqn:Hlen
    end; exec H; tree_inv; cbn [self heap log];
    (split; [reflexivity|]); eexists; (split; [eassumption|]);
    rewrite Hq; cbv zeta;
    match goal with
    | |- context [filter ?P ?qq] =>
        destruct (filter P qq); simpl in Hlen; try discriminate Hlen; subst; reflexivity
    end
  | inversion H; subst; split; [reflexivity|]; eexists;
    (split; [eassumption|]); rewrite Hq; reflexivity ].

Lemma remove_level_effect side p id w w' :
  (match side with
   | BUY => remove_level get_bids set_bids remove_bids
   | SELL => remove_level get_asks set_asks remove_asks
   end) p id w = (Ok tt, w') ->
  heap w' = heap w /\
  exists m, ladder side (self w) = RBTree.Tree m /\
    match m !! p with
    | None => self w' = self w
    | Some q =>
        let q' := filter (fun l => Order.order_id <$> heap w !! l <> Some id) q in
        self w' = set_ladder side
                    (RBTree.Tree (match q' with
                                  | [] => delete p m
                                  | _ => <[p := q']> m
                                  end)) (self w)
    end.
Proof.
  intros H.
  destruct side; unfold remove_level, get_bids, set_bids, remove_bids,
    get_asks, set_asks, remove_asks in H.
  - remove_level_tac H p.
  - remove_level_tac H p.
Qed.

Lemma set_ladder_frame side tr b :
  _order_id_to_order (set_ladder side tr b) = _order_id_to_order b /\
  _order_id_to_unreflected_order (set_ladder side tr b)
  = _order_id_to_unreflected_order b.
Proof. destruct side; split; reflexivity. Qed.

(** What [remove] does to the ladders. *)
Lemma remove_level_consistent side p id w w' :
  consistent w ->
  (match side with
   | BUY => remove_level get_bids set_bids remove_bids
   | SELL => remove_level get_asks set_asks remove_asks
   end) p id w = (Ok tt, w') ->
  consistent w' /\
  heap w' = heap w /\
  _order_id_to_order (self w') = _order_id_to_order (self w) /\
  (forall s p0, (s, p0) <> (side, p) ->
     queue_at s p0 (self w') = queue_at s p0 (self w)) /\
  (forall q' x, queue_at side p (self w') = Some q' -> x ∈ q' ->
     Order.order_id <$> heap w !! x <> Some id) /\
  (forall q x, queue_at side p (self w) = Some q -> x ∈ q ->
     Order.order_id <$> heap w !! x <> Some id ->
     exists q', queue_at side p (self w') = Some q' /\ x ∈ q').
Proof.
  intros C H. destruct (remove_level_effect side p id w w' H) as (Hheap & m & Hm & Hcase).
  pose proof (queue_at_ladder side p (self w) m Hm) as Hqa.
  destruct (m !! p) as [q|] eqn:Hq.
  - cbv zeta in Hcase.
    set (q' := filter (fun l => Order.order_id <$> heap w !! l <> Some id) q) in *.
    assert (forall x, x ∈ q' <-> Order.order_id <$> heap w !! x <> Some id /\ x ∈ q) as Hq'
      by (intros x; unfold q'; rewrite list_elem_of_filter; reflexivity).
    destruct (set_ladder_frame side
                (RBTree.Tree (match q' with [] => delete p m | _ => <[p := q']> m end))
                (self w)) as [Fr Fp].
    assert (forall s p0, (s, p0) <> (side, p) ->
              queue_at s p0 (self w') = queue_at s p0 (self w)) as Hother.
    { intros s p0 Hne. rewrite Hcase, queue_at_set_ladder.
      destruct (decide (s = side)) as [->|Hs]; [|reflexivity].
      rewrite (queue_at_ladder side p0 _ m Hm).
      assert (p <> p0) by congruence.
      destruct q'; [apply lookup_delete_ne | apply lookup_insert_ne]; assumption. }
    assert (queue_at side p (self w') = match q' with [] => None | _ => Some q' end) as Hthis.
    { rewrite Hcase, queue_at_set_ladder, decide_True by reflexivity.
      destruct q'; [apply lookup_delete_eq | apply lookup_insert_eq]. }
    split; [|split; [|split; [|split; [|split]]]].
    + destruct q' as [|x0 q0] eqn:Eq'.
      * apply (consistent_level_delete w w' side m p C Hheap Hm Hcase).
      * apply (consistent_queue_shrink w w' side m p q (x0 :: q0) C Hheap Hm Hq);
          [|exact Hcase].
        rewrite <- Eq'. apply sublist_filter.
    + exact Hheap.
    + rewrite Hcase. exact Fr.
    + exact Hother.
    + intros q0 x. rewrite Hthis. destruct q' eqn:Eq'; [discriminate|].
      intros [= <-] Hx. apply Hq' in Hx. tauto.
    + intros q0 x. rewrite Hqa. intros [= <-] Hx Hid.
      assert (x ∈ q') as Hx' by (apply Hq'; auto).
      rewrite Hthis. destruct q' eqn:Eq'; [inversion Hx'|]. eauto.
  - assert ((self w', heap w') = (self w, heap w)) as E by congruence.
    split; [apply (same_book_consistent w w' C E)|].
    rewrite Hcase. repeat split; auto.
    + intros q' x. rewrite Hqa. discriminate.
    + intros q x. rewrite Hqa. discriminate.
Qed.

Lemma del_order_Ok id w u w' :
  del_order id w = (Ok u, w') ->
  w' = mkMachine
         (set_order_id_to_order (delete id (_order_id_to_order (self w))) (self w))
         (heap w) (log w).
Proof. unfold del_order. intros H. exec H. reflexivity. Qed.

Lemma on_remove_keeps order rs reason :
  keeps (fun w => (self w, heap w)) (on_remove order rs reason).
Proof. unfold on_remove. keeps_tac. Qed.

Lemma remove_consistent id side p rs reason w w' :
  consistent w ->
  (forall l o, _order_id_to_order (self w) !! id = Some l ->
     heap w !! l = Some o -> side = Order.side o /\ Order.price o = Some p) ->
  remove id side p rs reason w = (Ok tt, w') ->
  consistent w' /\ (on_ladder w -> on_ladder w').
Proof.
  intros C Hfit H. unfold remove in H.
  apply bind_pure_Ok in H as (d & Hd & H); [|keeps_tac].
  inversion Hd; subst d; clear Hd.
  destruct (_order_id_to_order (self w) !! id) as [l|] eqn:Hr.
  - apply bind_pure_Ok in H as (o & Ho & H); [|keeps_tac].
    apply deref_Ok in Ho as [Ho _].
    destruct (Hfit l o eq_refl Ho) as [Hside Hprice].
    apply bind_Ok_inv in H as (u1 & w1 & H1 & H).
    apply bind_Ok_inv in H as (u2 & w2 & H2 & H).
    assert ((self w2, heap w2) = (self w, heap w)) as E2.
    { apply (keeps_Ok (fun w => (self w, heap w)) _ _ _ _) in H1; [|keeps_tac].
      apply (keeps_Ok (fun w => (self w, heap w)) _ _ _ _) in H2; [|keeps_tac].
      congruence. }
    apply bind_Ok_inv in H as (u3 & w3 & H3 & H).
    apply bind_Ok_inv in H as (u4 & w4 & H4 & H).
    pose proof (keeps_Ok _ _ _ _ _ (on_remove_keeps _ _ _) H) as E5.
    cbn beta in E5. clear H H1 H2.
    assert ((match side with
             | BUY => remove_level get_bids set_bids remove_bids
             | SELL => remove_level get_asks set_asks remove_asks
             end) p id w2 = (Ok tt, w3)) as H3'
      by (destruct u3, side; exact H3).
    clear H3.
    pose proof (same_book_consistent w w2 C E2) as C2.
    inversion E2 as [[Es2 Eh2]].
    destruct (remove_level_consistent side p id w2 w3 C2 H3')
      as (C3 & Eh3 & Er3 & Hother & Hgone & Hkept).
    apply del_order_Ok in H4.
    assert (Order.order_id o = id) as Hid.
    { destruct (resting_named w C id l Hr) as (o' & Ho' & Hid' & _). congruence. }
    assert (consistent w4) as C4.
    { apply (consistent_resting_delete w3 w4 id C3); [rewrite H4; reflexivity..|].
      intros s p0 q x ox Hq Hx Hox Hxid.
      destruct (queued_resting w3 C3 s p0 q x Hq Hx) as (ox' & Hox' & Hs & Hp & _ & Hrx).
      rewrite Hox in Hox'. inversion Hox'; subst ox'; clear Hox'.
      rewrite Hxid, Er3, Es2, Hr in Hrx. inversion Hrx; subst x; clear Hrx.
      rewrite Eh3, Eh2, Ho in Hox. inversion Hox; subst ox; clear Hox.
      assert (s = side) as -> by congruence.
      assert (p0 = p) as -> by congruence.
      apply (Hgone q l Hq Hx). rewrite Eh2, Ho. simpl. congruence. }
    split; [apply (same_book_consistent w4 w' C4 E5)|].
    intros L. apply (same_book_on_ladder w4 w'); [|exact E5].
    intros id0 l0 Hr0. rewrite H4 in Hr0 |- *. cbn [self heap log] in Hr0.
    change (_order_id_to_order (set_order_id_to_order ?d ?b)) with d in Hr0.
    apply lookup_delete_Some in Hr0 as [Hne Hr0].
    rewrite Er3, Es2 in Hr0.
    destruct (L id0 l0 Hr0) as (o0 & p0 & q0 & Ho0 & Hp0 & Hq0 & Hin0).
    assert (Order.order_id o0 = id0) as Hid0.
    { destruct (resting_named w C id0 l0 Hr0) as (o' & Ho' & Hid' & _). congruence. }
    exists o0, p0. cbn [self heap log].
    change (queue_at ?s ?pp (set_order_id_to_order ?d ?b)) with (queue_at s pp b).
    rewrite Eh3, Eh2.
    destruct (decide ((Order.side o0, p0) = (side, p))) as [E|E].
    + inversion E; subst p0. rewrite H0 in *.
      destruct (Hkept q0 l0) as (q' & Hq' & Hin'); [rewrite Es2; exact Hq0 | exact Hin0 | |].
      * rewrite Eh2, Ho0. simpl. congruence.
      * exists q'. auto.
    + exists q0. rewrite (Hother _ _ E), Es2. auto.
  - apply bind_pure_Ok in H as (u & Hu & H); [|keeps_tac].
    inversion Hu; subst u; clear Hu.
    destruct (_order_id_to_unreflected_order (self w) !! id) as [l|] eqn:Hp.
    + unfold del_unreflected in H. exec H.
      split.
      * apply (consistent_pending_delete w _ id C); reflexivity.
      * intros L. apply (on_ladder_frame w _ L); [reflexivity | | apply heap_le_refl].
        intros s p0 q Hq. exists q. split; [exact Hq | reflexivity].
    + exec H. split.
      * apply (same_book_consistent w _ C); reflexivity.
      * intros L. apply (same_book_on_ladder w _ L); reflexivity.
Qed.

(** *** [open] *)

Lemma queue_at_added s p0 l o p m b :
  queue_at s p0 (added l o p m b)
  = if decide (s = Order.side o)
    then <[p := default [] (m !! p) ++ [l]]> m !! p0
    else queue_at s p0 b.
Proof.
  unfold added.
  change (queue_at s p0 (set_order_id_to_order ?d ?b')) with (queue_at s p0 b').
  apply queue_at_set_ladder.
Qed.

Lemma on_ladder_added w w' l o p m :
  on_ladder w -> heap w' = heap w -> heap w !! l = Some o ->
  Order.price o = Some p ->
  ladder (Order.side o) (self w) = RBTree.Tree m ->
  self w' = added l o p m (self w) ->
  on_ladder w'.
Proof.
  intros L Hheap Hl Hp Hm Hself id0 l0 Hr0.
  rewrite Hself in Hr0 |- *. rewrite Hheap.
  destruct (added_frame l o p m (self w)) as (Fres & _). rewrite Fres in Hr0.
  apply lookup_insert_Some in Hr0 as [[<- <-]|[Hne Hr0]].
  - exists o, p, (default [] (m !! p) ++ [l]). repeat split; try assumption.
    + rewrite queue_at_added, decide_True by reflexivity. apply lookup_insert_eq.
    + apply elem_of_app. right. left.
  - destruct (L id0 l0 Hr0) as (o0 & p0 & q0 & Ho0 & Hp0 & Hq0 & Hin0).
    exists o0, p0. rewrite queue_at_added.
    destruct (decide (Order.side o0 = Order.side o)) as [Es|Es]; [|eauto 10].
    rewrite Es in Hq0. rewrite (queue_at_ladder _ p0 _ m Hm) in Hq0.
    destruct (decide (p = p0)) as [->|Hpp].
    + rewrite lookup_insert_eq, Hq0. simpl. exists (q0 ++ [l]).
      repeat split; try assumption. apply elem_of_app. left. exact Hin0.
    + rewrite lookup_insert_ne by exact Hpp. eauto 10.
Qed.

Lemma opened_order_effect message time seq id size w l w' :
  opened_order message time seq id size w = (Ok l, w') ->
  (_order_id_to_unreflected_order (self w) !! id = Some l /\
   self w' = set_order_id_to_unreflected_order
               (delete id (_order_id_to_unreflected_order (self w))) (self w)) \/
  (_order_id_to_unreflected_order (self w) !! id = None /\
   l = length (heap w) /\ self w' = self w /\
   exists o, heap w' = heap w ++ [o] /\ Order.order_id o = id).
Proof.
  unfold opened_order, del_unreflected. intros H. exec H; cbn [self heap log].
  - left. auto.
  - right. repeat split; auto. eexists. split; reflexivity.
Qed.

Lemma update_open_consistent message w w' :
  consistent w ->
  (forall id, Message.order_id message = Some id ->
     _order_id_to_order (self w) !! id = None) ->
  update_open message w = (Ok tt, w') ->
  consistent w' /\ (on_ladder w -> on_ladder w').
Proof.
  intros C Hfit H. unfold update_open in H.
  apply bind_pure_Ok in H as (time & _ & H); [|keeps_tac].
  apply bind_pure_Ok in H as (seq & _ & H); [|keeps_tac].
  apply bind_pure_Ok in H as (id & Hid & H); [|keeps_tac].
  apply getitem_Ok in Hid as [Hid _]. specialize (Hfit id Hid).
  apply bind_pure_Ok in H as (size & _ & H); [|keeps_tac].
  apply bind_Ok_inv in H as (l & w1 & H1 & H).
  assert (grows (opened_order message time seq id size)) as G
    by (unfold opened_order, del_unreflected; grows_tac).
  pose proof (grows_Ok _ _ _ _ G H1) as Hle.
  destruct (add_Ok l w1 w' H) as (o & p & m & Hl & Hp & Hz & Hm & Hself & Hheap).
  set (w0 := mkMachine (self w) (heap w1) (log w1)).
  assert (consistent w0) as C0 by (apply (consistent_frame w w0 C eq_refl Hle)).
  assert (consistent w1 /\
          (on_ladder w -> on_ladder w1) /\
          _order_id_to_order (self w1) = _order_id_to_order (self w) /\
          Order.order_id o = id /\
          (forall id', _order_id_to_order (self w1) !! id' <> Some l) /\
          (forall id', _order_id_to_unreflected_order (self w1) !! id' <> Some l))
    as (C1 & L1 & Er & Hoid & Hnr & Hnp).
  { destruct (opened_order_effect _ _ _ _ _ _ _ _ H1)
      as [(Hpl & Es)|(Hpl & -> & Es & o' & Eh & Hoid)].
    - destruct (pending_named w C id l Hpl) as (o0 & Ho0 & Hid0).
      destruct (Hle l o0 Ho0) as (o1 & Ho1 & S1 & _).
      split; [apply (consistent_pending_delete w0 w1 id C0 eq_refl Es)|].
      split.
      { intros L. apply (on_ladder_frame w w1 L); [rewrite Es; reflexivity | | exact Hle].
        intros s p0 q Hq. exists q. rewrite Es. split; [exact Hq | reflexivity]. }
      split; [rewrite Es; reflexivity|].
      split; [congruence|].
      split.
      + intros id' Hr. rewrite Es in Hr. apply (pending_apart w C id id' l Hpl Hr).
      + intros id' Hp'. rewrite Es in Hp'. simpl in Hp'.
        change (_order_id_to_unreflected_order (set_order_id_to_unreflected_order ?d ?b))
          with d in Hp'.
        apply lookup_delete_Some in Hp' as [Hne Hp'].
        destruct (pending_named w C id' l Hp') as (o2 & Ho2 & Hid2). congruence.
    - split; [apply (consistent_frame w0 w1 C0 Es); apply heap_le_refl|].
      split; [intros L; apply (on_ladder_same_book w w1 L Es Hle)|].
      split; [rewrite Es; reflexivity|].
      split.
      { rewrite Eh in Hl. rewrite list_lookup_middle in Hl by reflexivity. congruence. }
      split.
      + intros id' Hr. rewrite Es in Hr.
        destruct (resting_named w C id' _ Hr) as (o2 & Ho2 & _).
        apply lookup_lt_Some in Ho2. lia.
      + intros id' Hp'. rewrite Es in Hp'.
        destruct (pending_named w C id' _ Hp') as (o2 & Ho2 & _).
        apply lookup_lt_Some in Ho2. lia. }
  split.
  - apply (consistent_added w1 w' l o p m C1 Hheap Hl Hp Hz Hm); try assumption.
    rewrite Hoid, Er. exact Hfit.
  - intros L. apply (on_ladder_added w1 w' l o p m (L1 L) Hheap Hl Hp Hm Hself).
Qed.

(** *** Every event *)

Lemma update_done_consistent message w w' :
  consistent w ->
  (forall id l o, Message.order_id message = Some id ->
     _order_id_to_order (self w) !! id = Some l -> heap w !! l = Some o ->
     Side_of_string <$> Message.side message = Some (Order.side o) /\
     Message.price message = Order.price o) ->
  update_done message w = (Ok tt, w') ->
  consistent w' /\ (on_ladder w -> on_ladder w').
Proof.
  intros C Hfit H. unfold update_done in H.
  apply bind_pure_Ok in H as (id & Hid & H); [|keeps_tac].
  apply getitem_Ok in Hid as [Hid _].
  apply bind_pure_Ok in H as (reason & _ & H); [|keeps_tac].
  apply bind_pure_Ok in H as (price & Hprice & H); [|keeps_tac].
  apply getitem_Ok in Hprice as [Hprice _].
  apply bind_pure_Ok in H as (side & Hside & H); [|keeps_tac].
  apply getitem_Ok in Hside as [Hside _].
  apply bind_pure_Ok in H as (rs & _ & H); [|keeps_tac].
  apply bind_pure_Ok in H as (time & _ & H); [|keeps_tac].
  apply bind_pure_Ok in H as (seq & _ & H); [|keeps_tac].
  apply (remove_consistent id (Side_of_string side) price rs reason w w' C); [|exact H].
  intros l o Hr Ho. destruct (Hfit id l o Hid Hr Ho) as [F1 F2].
  rewrite Hside in F1. rewrite Hprice in F2. simpl in F1. split; congruence.
Qed.

Lemma update_match_consistent message w w' :
  consistent w ->
  update_match message w = (Ok tt, w') ->
  consistent w' /\
  (on_ladder w ->
   ~ (exists p s head rest h,
        Message.price message = Some p /\ Message.size message = Some s /\
        queue_at SELL p (self w) = Some (head :: rest) /\
        heap w !! head = Some h /\ Order.size h = Some s) ->
   on_ladder w').
Proof.
  intros C H. unfold update_match in H.
  apply bind_pure_Ok in H as (time & _ & H); [|keeps_tac].
  apply bind_pure_Ok in H as (seq & _ & H); [|keeps_tac].
  apply bind_pure_Ok in H as (maker & _ & H); [|keeps_tac].
  apply bind_pure_Ok in H as (taker & _ & H); [|keeps_tac].
  apply bind_pure_Ok in H as (trade & _ & H); [|keeps_tac].
  apply bind_pure_Ok in H as (price & Hprice & H); [|keeps_tac].
  apply getitem_Ok in Hprice as [Hprice _].
  apply bind_pure_Ok in H as (side & _ & H); [|keeps_tac].
  apply bind_pure_Ok in H as (size & Hsize & H); [|keeps_tac].
  apply getitem_Ok in Hsize as [Hsize _].
  destruct (match_consistent _ _ _ _ _ _ _ C H) as [C' L'].
  split; [exact C'|]. intros L Hne. apply (L' L).
  intros (head & rest & h & Hq & Hh & Hz). apply Hne.
  exists price, size, head, rest, h. auto.
Qed.

(** Consistency is kept by every event that is applied, and with it the
    orders of the resting ids stay on the ladder, but for an exact fill. *)
Lemma update_order_book_consistent message w w' :
  consistent w -> event_fits message w ->
  update_order_book message w = (Ok tt, w') ->
  consistent w' /\ (on_ladder w -> ~ exact_fill message w -> on_ladder w').
Proof.
  intros C [Fopen Fdone] H. unfold update_order_book in H.
  apply bind_pure_Ok in H as (seq & _ & H); [|keeps_tac].
  apply bind_pure_Ok in H as (last & _ & H); [|keeps_tac].
  destruct (seq <=? last); [inversion H; subst; auto|].
  destruct (seq >? last + 1).
  { apply bind_Ok_inv in H as (? & ? & _ & H). discriminate H. }
  apply bind_pure_Ok in H as (ty & Hty & H); [|keeps_tac].
  apply getitem_Ok in Hty as [Hty _].
  apply bind_Ok_inv in H as (u & w1 & H1 & H). destruct u.
  inversion H; subst w'; clear H.
  assert (consistent w1 /\ (on_ladder w -> ~ exact_fill message w -> on_ladder w1))
    as [C1 L1].
  { unfold dispatch in H1.
    destruct (String.eqb_spec ty "open") as [->|_].
    { destruct (update_open_consistent message w w1 C (Fopen Hty) H1). tauto. }
    destruct (String.eqb_spec ty "done") as [->|_]; simpl in H1.
    { destruct (bool_decide (is_Some (Message.price message))).
      - destruct (update_done_consistent message w w1 C (Fdone Hty) H1). tauto.
      - inversion H1; subst. tauto. }
    destruct (String.eqb_spec ty "match") as [->|_].
    { destruct (update_match_consistent message w w1 C H1) as [C1 L1].
      split; [exact C1|]. intros L Hne. apply (L1 L).
      intros Hex. apply Hne. split; [exact Hty | exact Hex]. }
    destruct (String.eqb_spec ty "change") as [->|_].
    { destruct (update_change_consistent message w w1 C H1). tauto. }
    destruct (String.eqb_spec ty "received") as [->|_].
    { destruct (update_received_consistent message w w1 C H1). tauto. }
    inversion H1; subst. tauto. }
  split; [apply (consistent_set_sequence seq w1 C1)|].
  intros L Hne. apply (on_ladder_frame w1); [auto | reflexivity | | apply heap_le_refl].
  intros s p q Hq. exists q. split; [exact Hq | reflexivity].
Qed.

(** C4: on a consistent book, an event that fits it and is applied leaves
    the book consistent: every id in a queue is a key of the resting index
    and no id has two entries on the ladders.  If every resting id had its
    one entry before, it has it after, unless the event is a match that
    exactly fills the head of its asks queue: that match takes the maker off
    the ladder and leaves it in the resting index. *)
Theorem I2_after_event message w w' :
  consistent w -> event_fits message w ->
  update_order_book message w = (Ok tt, w') ->
  consistent w' /\ ladder_in_resting w' /\ queued_at_most_once w' /\
  (resting_on_ladder w -> ~ exact_fill message w -> resting_on_ladder w').
Proof.
  intros C F H.
  destruct (update_order_book_consistent message w w' C F H) as [C' L'].
  split; [exact C'|].
  split; [apply consistent_ladder_in_resting, C'|].
  split; [apply consistent_at_most_once, C'|].
  intros L Hne. apply (on_ladder_exactly_one w' C').
  apply L'; [|exact Hne]. apply (exactly_one_on_ladder w C L).
Qed.

(** ** Inconsistent events *)

Lemma appends_of_keeps {A} (c : M A) : keeps log c -> appends c.
Proof. intros K w. exists []. rewrite K, (right_id_L [] (++)). reflexivity. Qed.

Lemma appends_logging lv txt subj : appends (logging lv txt subj).
Proof. intros w. eexists. reflexivity. Qed.

Lemma appends_bind {A B} (c : M A) (k : A -> M B) :
  appends c -> (forall a, appends (k a)) -> appends (bind c k).
Proof.
  intros Hc Hk w. unfold bind. destruct (Hc w) as [lg1 E1].
  destruct (c w) as [[a|e] w1]; simpl in *.
  - destruct (Hk a w1) as [lg2 E2]. exists (lg1 ++ lg2).
    rewrite E2, E1, (assoc_L (++)). reflexivity.
  - eauto.
Qed.

Ltac appends_step :=
  first
    [ apply appends_logging
    | apply appends_bind; [ | intros ]
    | assumption
    | apply appends_of_keeps; solve [keeps_tac]
    | match goal with
      | |- appends (match ?x with _ => _ end) => destruct x
      end ].

Ltac appends_tac := intros; repeat appends_step.

Lemma appends_Ok {A} (c : M A) w a w' :
  appends c -> c w = (Ok a, w') -> exists lg, log w' = log w ++ lg.
Proof. intros K H. specialize (K w). rewrite H in K. exact K. Qed.

Lemma without_id_total id q w :
  (forall x, x ∈ q -> is_Some (heap w !! x)) ->
  exists r, without_id id q w = (Ok r, w).
Proof.
  induction q as [|x q IH]; intros Hq; simpl.
  - eexists. reflexivity.
  - destruct (Hq x) as [o Ho]; [left|].
    destruct IH as [r Hr]; [intros y Hy; apply Hq; right; exact Hy|].
    rewrite (bind_Ok _ _ _ _ _ (deref_Some _ _ _ Ho)).
    rewrite (bind_Ok _ _ _ _ _ Hr). eexists. reflexivity.
Qed.

Lemma remove_level_total side p id w :
  consistent w ->
  exists w',
    (match side with
     | BUY => remove_level get_bids set_bids remove_bids
     | SELL => remove_level get_asks set_asks remove_asks
     end) p id w = (Ok tt, w').
Proof.
  intros C. destruct (ladder_decimal w side C) as [m Hm].
  assert (forall q, m !! p = Some q ->
            exists r, without_id id q w = (Ok r, w)) as Hw.
  { intros q Hq. apply without_id_total. intros x Hx.
    destruct (queued_resting w C side p q x) as (o & Ho & _); [|exact Hx | eauto].
    rewrite (queue_at_ladder side p _ m Hm). exact Hq. }
  destruct side; simpl in Hm;
    unfold remove_level, get_bids, get_asks, set_bids, set_asks, remove_bids,
      remove_asks;
    unfold bind at 1; simpl; rewrite Hm; simpl;
    (destruct (m !! p) as [q|] eqn:Hq; [|eexists; reflexivity]);
    destruct (Hw q eq_refl) as [r Hr]; rewrite (bind_Ok _ _ _ _ _ Hr);
    (destruct (0 <? length r)%nat;
     unfold bind; simpl; rewrite Hm; simpl; rewrite ?Hq; eexists; reflexivity).
Qed.

Lemma on_remove_total l o rs reason w :
  heap w !! l = Some o -> is_Some (Order.price o) -> is_Some (Order.size o) ->
  exists w', on_remove l rs reason w = (Ok tt, w').
Proof.
  intros Ho [p Hp] [s Hs]. unfold on_remove.
  rewrite (bind_Ok _ _ _ _ _ (deref_Some _ _ _ Ho)). rewrite Hs, Hp.
  unfold bind, logging. simpl.
  destruct (rs * p >? LARGE_THRESHOLD * quantum * quantum); eexists; reflexivity.
Qed.

Lemma remove_inconsistent id side p rs reason w l o :
  consistent w ->
  _order_id_to_order (self w) !! id = Some l ->
  heap w !! l = Some o ->
  side <> Order.side o \/ Some p <> Order.price o ->
  exists w' lg,
    remove id side p rs reason w = (Ok tt, w') /\
    _order_id_to_order (self w') !! id = None /\
    _sequence (self w') = _sequence (self w) /\
    log w' = log w ++ lg /\
    (mkLog ERROR "Trying to remove order with inconsistent side" id ∈ lg \/
     mkLog ERROR "Trying to remove order with inconsistent price" id ∈ lg).
Proof.
  intros C Hr Ho Hbad. unfold remove.
  rewrite (bind_Ok _ _ _ _ _ (eq_refl : gets _order_id_to_order w = (Ok _, w))).
  rewrite Hr. rewrite (bind_Ok _ _ _ _ _ (deref_Some _ _ _ Ho)).
  set (cA := if decide (side = Order.side o) then ret tt
             else logging ERROR "Trying to remove order with inconsistent side" id).
  set (cB := if decide (Some p = Order.price o) then ret tt
             else logging ERROR "Trying to remove order with inconsistent price" id).
  assert (exists wB lgB,
            (cA >> cB) w = (Ok tt, wB) /\ self wB = self w /\ heap wB = heap w /\
            log wB = log w ++ lgB /\
            (mkLog ERROR "Trying to remove order with inconsistent side" id ∈ lgB \/
             mkLog ERROR "Trying to remove order with inconsistent price" id ∈ lgB))
    as (wB & lgB & EB & EsB & EhB & ElB & Herr).
  { unfold cA, cB.
    destruct (decide (side = Order.side o)) as [Es|Es];
      destruct (decide (Some p = Order.price o)) as [Ep|Ep];
      try (exfalso; tauto);
      unfold bind, ret, logging; simpl; eexists; eexists;
      (split; [reflexivity|]); (split; [reflexivity|]); (split; [reflexivity|]);
      simpl; rewrite <- ?(assoc_L (++)); (split; [reflexivity|]).
    - right. left.
    - left. left.
    - left. left. }
  assert (forall k : M unit, (cA >> cB >> k) w = k wB) as Hstep.
  { intros k. unfold bind in *. destruct (cA w) as [[[]|e] wA]; [|discriminate EB].
    rewrite EB. reflexivity. }
  rewrite Hstep. clear Hstep.
  assert (consistent wB) as CB
    by (apply (same_book_consistent w wB C); congruence).
  destruct (remove_level_total side p id wB CB) as [w3 E3].
  destruct (remove_level_consistent side p id wB w3 CB E3)
    as (C3 & Eh3 & Er3 & _).
  assert (log w3 = log wB /\ _sequence (self w3) = _sequence (self wB)) as [El3 Eq3].
  { split.
    - apply (keeps_Ok log _ _ _ _) in E3; [exact E3|].
      destruct side; unfold remove_level, get_bids, get_asks, set_bids, set_asks,
        remove_bids, remove_asks; keeps_tac; apply without_id_keeps.
    - apply (keeps_Ok (fun w => _sequence (self w)) _ _ _ _) in E3; [exact E3|].
      destruct side; unfold remove_level, get_bids, get_asks, set_bids, set_asks,
        remove_bids, remove_asks; keeps_tac; apply without_id_keeps. }
  assert ((if decide (side = BUY)
           then remove_level get_bids set_bids remove_bids p id
           else remove_level get_asks set_asks remove_asks p id) wB = (Ok tt, w3)) as E3'
    by (destruct side; exact E3).
  rewrite (bind_Ok _ _ _ _ _ E3').
  set (w4 := mkMachine
               (set_order_id_to_order (delete id (_order_id_to_order (self w3))) (self w3))
               (heap w3) (log w3)).
  assert (del_order id w3 = (Ok tt, w4)) as E4.
  { assert (_order_id_to_order (self w3) !! id = Some l) as Hr3
      by (rewrite Er3, EsB; exact Hr).
    unfold del_order, bind. simpl. rewrite Hr3. reflexivity. }
  rewrite (bind_Ok _ _ _ _ _ E4).
  destruct (resting_named w C id l Hr) as (o' & Ho' & _ & Hp' & Hz').
  rewrite Ho in Ho'. inversion Ho'; subst o'; clear Ho'.
  assert (heap w4 !! l = Some o) as Ho4 by (simpl; rewrite Eh3, EhB; exact Ho).
  destruct (on_remove_total l o rs reason w4 Ho4 Hp' Hz') as [w' E5].
  pose proof (keeps_Ok _ _ _ _ _ (on_remove_keeps l rs reason) E5) as K5.
  simpl in K5. inversion K5 as [[Ks Kh]].
  assert (appends (on_remove l rs reason)) as A5
    by (unfold on_remove; appends_tac).
  destruct (appends_Ok _ _ _ _ A5 E5) as [lg5 El5].
  exists w', (lgB ++ lg5). split; [exact E5|].
  split; [rewrite Ks; apply lookup_delete_eq|].
  split; [rewrite Ks; simpl; rewrite Eq3, EsB; reflexivity|].
  split.
  - rewrite El5. simpl. rewrite El3, ElB, (assoc_L (++)). reflexivity.
  - destruct Herr as [Herr|Herr]; [left | right]; apply elem_of_app; left; exact Herr.
Qed.

Lemma change_inconsistent id old new w l o p q :
  consistent w ->
  _order_id_to_order (self w) !! id = Some l ->
  heap w !! l = Some o ->
  Order.price o = Some p ->
  queue_at (Order.side o) p (self w) = Some q -> l ∈ q ->
  Order.size o <> Some old ->
  exists w' lg,
    change id old new w = (Ok tt, w') /\
    self w' = self w /\
    heap w' = <[l := Order.with_size (Some new) o]> (heap w) /\
    log w' = log w ++ lg /\
    mkLog ERROR "Trying to change order but old_size does not match" id ∈ lg.
Proof.
  intros C Hr Ho Hp Hq Hin Hbad. unfold change.
  rewrite (bind_Ok _ _ _ _ _ (eq_refl : gets _order_id_to_order w = (Ok _, w))).
  rewrite Hr. rewrite (bind_Ok _ _ _ _ _ (deref_Some _ _ _ Ho)).
  rewrite decide_False by exact Hbad.
  set (err := mkLog ERROR "Trying to change order but old_size does not match" id).
  set (w1 := mkMachine (self w) (heap w) (log w ++ [err])).
  rewrite (bind_Ok _ _ _ _ _ (eq_refl : logging _ _ _ w = (Ok tt, w1))).
  set (o' := Order.with_size (Some new) o).
  set (w2 := mkMachine (self w) (<[l := o']> (heap w)) (log w ++ [err])).
  assert (setattr l (Order.with_size (Some new)) w1 = (Ok tt, w2)) as E2
    by (unfold setattr; simpl; rewrite Ho; reflexivity).
  rewrite (bind_Ok _ _ _ _ _ E2).
  assert (heap w2 !! l = Some o') as Ho2
    by (apply list_lookup_insert_eq; eapply lookup_lt_Some; exact Ho).
  unfold on_change. rewrite (bind_Ok _ _ _ _ _ (deref_Some _ _ _ Ho2)).
  destruct (queue_at_Some _ _ _ _ Hq) as (m & Hm & Hmq).
  assert ((if decide (Order.side o' = SELL)
           then get_asks (Order.price o') else get_bids (Order.price o')) w2
          = (Ok (Some q), w2)) as E3.
  { change (Order.price o') with (Order.price o). rewrite Hp.
    change (Order.side o') with (Order.side o).
    rewrite <- Hmq. destruct (Order.side o); simpl.
    - apply (get_ladder BUY p w2 m Hm).
    - apply (get_ladder SELL p w2 m Hm). }
  rewrite (bind_Ok _ _ _ _ _ E3).
  destruct (last q) as [x|] eqn:Hlast;
    [|apply last_None in Hlast; subst q; inversion Hin].
  pose proof (last_Some_elem_of _ _ Hlast) as Hx.
  destruct (queued_resting w C _ p q x Hq Hx) as (ox & Hox & _ & Hpx & Hzx & _).
  assert (exists ox', heap w2 !! x = Some ox' /\
                      is_Some (Order.price ox') /\ is_Some (Order.size ox'))
    as (ox' & Hox' & Hpx' & Hzx').
  { destruct (decide (x = l)) as [->|Hne].
    - exists o'. split; [exact Ho2|]. split; [exists p; exact Hp | simpl; eauto].
    - exists ox. split; [|split; [rewrite Hpx; eauto | exact Hzx]].
      simpl. rewrite list_lookup_insert_ne by congruence. exact Hox. }
  rewrite (bind_Ok _ _ _ _ _ (deref_Some _ _ _ Hox')).
  assert (Order_repr ox' w2 = (Ok tt, w2)) as E4.
  { unfold Order_repr. destruct (String.eqb (Order.order_type ox') "market");
      [reflexivity|].
    destruct Hpx' as [? ->], Hzx' as [? ->]. reflexivity. }
  rewrite (bind_Ok _ _ _ _ _ E4).
  eexists. exists [err; mkLog DEBUG "Change" (Order.order_id o')].
  split; [reflexivity|]. simpl.
  split; [reflexivity|]. split; [reflexivity|].
  split; [rewrite <- (assoc_L (++)); reflexivity | left].
Qed.

Lemma match_taker_total size taker w :
  consistent w -> exists w', match_taker size taker w = (Ok tt, w').
Proof.
  intros C. unfold match_taker.
  rewrite (bind_Ok _ _ _ _ _
             (eq_refl : gets _order_id_to_unreflected_order w = (Ok _, w))).
  destruct (_order_id_to_unreflected_order (self w) !! taker) as [tl|] eqn:Hp;
    [|eexists; reflexivity].
  destruct (pending_named w C taker tl Hp) as (t & Ht & _).
  rewrite (bind_Ok _ _ _ _ _ (deref_Some _ _ _ Ht)).
  unfold del_unreflected, setattr, bind, logging, gets, modify. simpl.
  destruct (Order.size t) as [s|]; [destruct (s =? 0)|];
    simpl; rewrite ?Ht, ?Hp; simpl; [| destruct (s - size <=? 0); simpl; rewrite ?Hp |];
    eexists; reflexivity.
Qed.

Lemma match_mismatched_maker side p s maker taker w head rest h :
  consistent w ->
  queue_at SELL p (self w) = Some (head :: rest) ->
  heap w !! head = Some h ->
  Order.order_id h <> maker ->
  exists w',
    match_ side p s maker taker w = (Raise AssertionError, w') /\
    _asks (self w') = _asks (self w) /\
    _bids (self w') = _bids (self w) /\
    _order_id_to_order (self w') = _order_id_to_order (self w).
Proof.
  intros C Hq Hh Hne. unfold match_.
  rewrite (bind_Ok _ _ _ _ _ (eq_refl : gets _order_id_to_order w = (Ok _, w))).
  set (cM := match _order_id_to_order (self w) !! maker with
             | Some _ => ret tt
             | None => logging ERROR "Unable to find maker order for trade" maker
             end).
  assert (exists w1, cM w = (Ok tt, w1) /\ (self w1, heap w1) = (self w, heap w))
    as (w1 & E1 & K1).
  { unfold cM. destruct (_order_id_to_order (self w) !! maker);
      eexists; split; reflexivity. }
  rewrite (bind_Ok _ _ _ _ _ E1).
  pose proof (same_book_consistent w w1 C K1) as C1.
  inversion K1 as [[Ks1 Kh1]].
  destruct (match_taker_total s taker w1 C1) as [w2 E2].
  rewrite (bind_Ok _ _ _ _ _ E2).
  destruct (match_taker_consistent s taker w1 w2 C1 E2) as (C2 & _ & Ea & Eb & Er & _).
  assert (grows (match_taker s taker)) as G
    by (unfold match_taker, del_unreflected; grows_tac).
  pose proof (grows_Ok _ _ _ _ G E2) as Hle.
  destruct (Hle head h) as (h2 & Hh2 & Hid & _); [rewrite Kh1; exact Hh|].
  exists w2. split; [|rewrite Ea, Eb, Er, Ks1; auto].
  unfold Side_eq_str.
  assert (match_head get_asks set_asks p s maker w2 = (Raise AssertionError, w2)) as E3.
  { unfold match_head.
    destruct (queue_at_Some _ _ _ _ Hq) as (m & Hm & Hmq). simpl in Hm.
    assert (get_asks (Some p) w2 = (Ok (Some (head :: rest)), w2)) as Eg.
    { rewrite <- Hmq. apply (get_ladder SELL p w2 m). simpl.
      rewrite Ea, Ks1. exact Hm. }
    rewrite (bind_Ok _ _ _ _ _ Eg).
    rewrite (bind_Ok _ _ _ _ _ (deref_Some _ _ _ Hh2)).
    rewrite Hid. destruct (String.eqb_spec (Order.order_id h) maker); [contradiction|].
    reflexivity. }
  rewrite (bind_Raise _ _ _ _ _ E3). reflexivity.
Qed.

(** ** Books built from events *)

Lemma consistent_fresh pid : consistent (fresh pid).
Proof.
  constructor; simpl.
  - eexists. reflexivity.
  - eexists. reflexivity.
  - intros side p q l Hq. destruct side; unfold queue_at in Hq; simpl in Hq;
      rewrite lookup_empty in Hq; discriminate Hq.
  - intros side p q Hq. destruct side; unfold queue_at in Hq; simpl in Hq;
      rewrite lookup_empty in Hq; discriminate Hq.
  - intros id l H. rewrite lookup_empty in H. discriminate H.
  - intros id l H. rewrite lookup_empty in H. discriminate H.
  - intros id id' l H. rewrite lookup_empty in H. discriminate H.
Qed.

Lemma on_ladder_fresh pid : on_ladder (fresh pid).
Proof. intros id l H. simpl in H. rewrite lookup_empty in H. discriminate H. Qed.

Lemma book_after_nil :
  consistent (book_after []) /\ on_ladder (book_after []).
Proof.
  split; [apply (consistent_fresh "BTC-USD") | apply (on_ladder_fresh "BTC-USD")].
Qed.

(** One more frame on a book built from frames. *)
Lemma book_after_snoc messages message :
  consistent (book_after messages) /\ on_ladder (book_after messages) ->
  event_fits message (book_after messages) ->
  ~ exact_fill message (book_after messages) ->
  update_order_book message (book_after messages)
  = (Ok tt, book_after (messages ++ [message])) ->
  consistent (book_after (messages ++ [message])) /\
  on_ladder (book_after (messages ++ [message])).
Proof.
  intros [C L] F X E.
  destruct (update_order_book_consistent message _ _ C F E) as [C' L'].
  auto.
Qed.

Ltac snoc_open H m :=
  apply (book_after_snoc _ m) in H;
  [ simpl app in H
  | split; intros Hty;
    [ intros ? [= <-]; vm_compute; reflexivity | discriminate Hty ]
  | intros [Hty _]; discriminate Hty
  | vm_compute; reflexivity ].

Ltac snoc_received H m :=
  apply (book_after_snoc _ m) in H;
  [ simpl app in H
  | split; intros Hty; discriminate Hty
  | intros [Hty _]; discriminate Hty
  | vm_compute; reflexivity ].

Lemma one_ask_consistent :
  consistent (book_after one_ask) /\ on_ladder (book_after one_ask).
Proof.
  pose proof book_after_nil as H.
  snoc_open H (open_frame 0 "Z" "buy" 900 100).
  snoc_open H (open_frame 1 "X" "sell" 1000 100).
  snoc_received H (received_frame 2 "T" "buy" 1000 100).
  exact H.
Qed.

Lemma two_asks_consistent :
  consistent (book_after two_asks) /\ on_ladder (book_after two_asks).
Proof.
  pose proof book_after_nil as H.
  snoc_open H (open_frame 0 "Z" "buy" 900 100).
  snoc_open H (open_frame 1 "X" "sell" 1000 100).
  snoc_open H (open_frame 2 "Y" "sell" 1000 100).
  snoc_received H (received_frame 3 "T" "buy" 1000 100).
  exact H.
Qed.

(** ** Books after a snapshot

    A snapshot whose rows carry distinct ids leaves a consistent book in
    which every resting id has its one entry on the ladder. *)

Lemma add_rows_consistent rows sequence side :
  forall w,
    consistent w -> on_ladder w ->
    NoDup (rows.*2) ->
    (forall r, r ∈ rows -> _order_id_to_order (self w) !! r.2 = None) ->
    exists w',
      add_rows rows sequence side w = (Ok tt, w') /\
      consistent w' /\ on_ladder w' /\
      (forall id, id ∉ rows.*2 ->
         _order_id_to_order (self w') !! id = _order_id_to_order (self w) !! id).
Proof.
  induction rows as [|r rows IH]; intros w C L Hnd Hfree.
  - exists w. split; [reflexivity|]. split; [exact C|]. split; [exact L|]. reflexivity.
  - set (o := order_of_row sequence (product_id (self w)) side r).
    set (base := length (heap w)).
    set (w0 := mkMachine (self w) (heap w ++ [o]) (log w)).
    assert (parse_snapshot_order r sequence side w = (Ok base, w0)) as E0
      by reflexivity.
    assert (heap w0 !! base = Some o) as Hl
      by (apply list_lookup_middle; reflexivity).
    assert (consistent w0) as C0
      by (apply (consistent_frame w w0 C eq_refl); apply heap_le_app).
    assert (on_ladder w0) as L0
      by (apply (on_ladder_same_book w w0 L eq_refl); apply heap_le_app).
    destruct (ladder_decimal w0 side C0) as [m Hm].
    destruct (add_Tree base o (r.1.1) (r.1.2) w0 m Hl eq_refl eq_refl Hm)
      as [lg E1].
    set (w1 := mkMachine (added base o (r.1.1) m (self w0)) (heap w0) (log w0 ++ lg)) in E1.
    apply NoDup_cons in Hnd as [Hr Hnd].
    assert (consistent w1) as C1.
    { apply (consistent_added w0 w1 base o (r.1.1) m C0 eq_refl Hl eq_refl);
        [eexists; reflexivity | exact Hm | | | | reflexivity].
      - apply (Hfree r). left.
      - intros id Hid. destruct (resting_named w C id base Hid) as (o' & Ho' & _).
        apply lookup_lt_Some in Ho'. unfold base in Ho'. lia.
      - intros id Hid. destruct (pending_named w C id base Hid) as (o' & Ho' & _).
        apply lookup_lt_Some in Ho'. unfold base in Ho'. lia. }
    assert (on_ladder w1) as L1
      by (apply (on_ladder_added w0 w1 base o (r.1.1) m L0 eq_refl Hl eq_refl Hm eq_refl)).
    destruct (added_frame base o (r.1.1) m (self w0)) as (Fres & _).
    change (self w0) with (self w) in Fres.
    change (Order.order_id o) with (r.2) in Fres.
    destruct (IH w1 C1 L1 Hnd) as (w' & E2 & C' & L' & Hsame).
    { intros r' Hr'. change (self w1) with (added base o (r.1.1) m (self w)).
      rewrite Fres, lookup_insert_ne; [apply Hfree; right; exact Hr'|].
      intros E. apply Hr. rewrite E. apply list_elem_of_fmap. eauto. }
    exists w'. split; [|split; [exact C'|split; [exact L'|]]].
    + simpl. rewrite (bind_Ok _ _ _ _ _ E0), (bind_Ok _ _ _ _ _ E1). exact E2.
    + intros id Hid. rewrite fmap_cons in Hid. apply not_elem_of_cons in Hid as [Hne Hid].
      rewrite (Hsame id Hid). change (self w1) with (added base o (r.1.1) m (self w)).
      rewrite Fres. apply lookup_insert_ne. congruence.
Qed.

Lemma snapshot_consistent snapshot w :
  (forall id l, _order_id_to_unreflected_order (self w) !! id = Some l ->
     exists o, heap w !! l = Some o /\ Order.order_id o = id) ->
  NoDup ((Snapshot.bids snapshot ++ Snapshot.asks snapshot).*2) ->
  exists w',
    apply_order_book_snapshot snapshot w = (Ok tt, w') /\
    consistent w' /\ resting_on_ladder w'.
Proof.
  intros Hpend Hnd. unfold apply_order_book_snapshot.
  set (w0 := mkMachine
               (set_order_id_to_order ∅
                  (set_bids_tree RBTree.empty (set_asks_tree RBTree.empty (self w))))
               (heap w) (log w)).
  assert (consistent w0) as C0.
  { constructor; simpl.
    - eexists. reflexivity.
    - eexists. reflexivity.
    - intros side p q l Hq. destruct side; unfold queue_at in Hq; simpl in Hq;
        rewrite lookup_empty in Hq; discriminate Hq.
    - intros side p q Hq. destruct side; unfold queue_at in Hq; simpl in Hq;
        rewrite lookup_empty in Hq; discriminate Hq.
    - intros id l H. rewrite lookup_empty in H. discriminate H.
    - exact Hpend.
    - intros id id' l _ H. rewrite lookup_empty in H. discriminate H. }
  assert (on_ladder w0) as L0
    by (intros id l H; simpl in H; rewrite lookup_empty in H; discriminate H).
  rewrite fmap_app in Hnd. apply NoDup_app in Hnd as (Hb & Hba & Ha).
  destruct (add_rows_consistent (Snapshot.bids snapshot) (Snapshot.sequence snapshot)
              BUY w0 C0 L0 Hb) as (w1 & E1 & C1 & L1 & S1).
  { intros r _. apply lookup_empty. }
  destruct (add_rows_consistent (Snapshot.asks snapshot) (Snapshot.sequence snapshot)
              SELL w1 C1 L1 Ha) as (w2 & E2 & C2 & L2 & S2).
  { intros r Hr. rewrite S1; [apply lookup_empty|].
    intros Hin. apply (Hba _ Hin). apply list_elem_of_fmap. eauto. }
  set (w3 := mkMachine (set_sequence (Snapshot.sequence snapshot) (self w2))
               (heap w2) (log w2)).
  assert (consistent w3) as C3 by (apply consistent_set_sequence, C2).
  exists w3. split; [|split; [exact C3|]].
  - unfold bind at 1. simpl. unfold bind at 1. simpl. unfold bind at 1. simpl.
    fold w0. rewrite (bind_Ok _ _ _ _ _ E1), (bind_Ok _ _ _ _ _ E2). reflexivity.
  - apply (on_ladder_exactly_one w3 C3).
    apply (on_ladder_frame w2 w3 L2); [reflexivity | | apply heap_le_refl].
    intros s p q Hq. exists q. split; [exact Hq | reflexivity].
Qed.

(** ** An exact fill *)

(** C3: what the code does when a match fills the only order of a level.
    Before the match no level is empty.  The match is applied, the cursor
    moves, and the asks ladder keeps the level 10.00 with an empty queue:
    [match] stores [asks[1:]] without looking at its length, where [remove]
    deletes the level.  The [done] of the maker then deletes it. *)
Theorem full_fill_leaves_empty_queue :
  let w := book_after one_ask in
  let r := update_order_book full_fill w in
  let r' := update_order_book (done_frame 4 "X" "sell" 1000 "filled") (snd r) in
  no_empty_queue w /\
  fst r = Ok tt /\
  _sequence (self (snd r)) = 3 /\
  _asks (self (snd r)) = RBTree.Tree {[1000 := []]} /\
  ~ no_empty_queue (snd r) /\
  fst r' = Ok tt /\
  _asks (self (snd r')) = RBTree.Tree ∅.
Proof.
  cbv zeta. split; [|split; [|split; [|split; [|split; [|split]]]]].
  - intros side p. unfold queue_at.
    assert (_bids (self (book_after one_ask)) = RBTree.Tree {[900 := [0%nat]]}) as Eb
      by (vm_compute; reflexivity).
    assert (_asks (self (book_after one_ask)) = RBTree.Tree {[1000 := [1%nat]]}) as Ea
      by (vm_compute; reflexivity).
    destruct side; unfold ladder; rewrite ?Eb, ?Ea; intros H;
      apply lookup_singleton_Some in H as [_ H]; discriminate H.
  - vm_compute. reflexivity.
  - vm_compute. reflexivity.
  - vm_compute. reflexivity.
  - intros H. apply (H SELL 1000). vm_compute. reflexivity.
  - vm_compute. reflexivity.
  - vm_compute. reflexivity.
Qed.

Lemma exact_fill_counterexample :
  let w := book_after one_ask in
  let r := update_order_book full_fill w in
  resting_on_ladder w /\ fst r = Ok tt /\ ~ resting_on_ladder (snd r).
Proof.
  cbv zeta. split; [|split].
  - destruct one_ask_consistent as [C L]. apply (on_ladder_exactly_one _ C L).
  - vm_compute. reflexivity.
  - intros H.
    destruct (H "X" 1%nat) as (o & p & q & Ho & Hp & Hq & Hlen);
      [vm_compute; reflexivity|].
    vm_compute in Ho. inversion Ho; subst o; clear Ho.
    vm_compute in Hp. inversion Hp; subst p; clear Hp.
    vm_compute in Hq. inversion Hq; subst q; clear Hq.
    vm_compute in Hlen. discriminate Hlen.
Qed.

Lemma I2_after_event_witness :
  let w := book_after one_ask in
  let w' := snd (update_order_book (done_frame 3 "Z" "buy" 900 "canceled") w) in
  consistent w' /\ ladder_in_resting w' /\ queued_at_most_once w' /\
  (resting_on_ladder w ->
   ~ exact_fill (done_frame 3 "Z" "buy" 900 "canceled") w ->
   resting_on_ladder w').
Proof.
  cbv zeta.
  apply (I2_after_event (done_frame 3 "Z" "buy" 900 "canceled") (book_after one_ask)).
  - apply one_ask_consistent.
  - split; intros Hty; [discriminate Hty|].
    intros id l o [= <-] Hl Ho.
    vm_compute in Hl. inversion Hl; subst l; clear Hl.
    vm_compute in Ho. inversion Ho; subst o; clear Ho.
    split; reflexivity.
  - vm_compute. reflexivity.
Defined.

(** ** Inconsistent events, at [update_order_book] *)

Lemma inconsistent_counterexample :
  ~ proceeds match_behind_head (book_after two_asks).
Proof. intros [H _]. vm_compute in H. discriminate H. Qed.

(** C8: on a consistent book, at [last_seq + 1].  A [done] whose side or
    price differs from the resting order it names logs the error, takes the
    order off the resting index and moves the cursor.  A [change] whose
    [old_size] differs from the size of the resting order it names logs the
    error, sets the new size and moves the cursor.  A [match] whose maker is
    not the head of the asks queue at its price fails the assertion of
    [match]: the update raises, the ladders and the resting index stay as
    they were and the cursor does not move. *)
Theorem inconsistent_events :
  (forall message w seq id reason price side rs time l o,
     consistent w ->
     Message.type message = Some "done" ->
     Message.sequence message = Some seq ->
     seq = _sequence (self w) + 1 ->
     Message.order_id message = Some id ->
     Message.reason message = Some reason ->
     Message.price message = Some price ->
     Message.side message = Some side ->
     Message.remaining_size message = Some rs ->
     Message.time message = Some time ->
     _order_id_to_order (self w) !! id = Some l ->
     heap w !! l = Some o ->
     Side_of_string side <> Order.side o \/ Some price <> Order.price o ->
     exists w' lg,
       update_order_book message w = (Ok tt, w') /\
       _sequence (self w') = seq /\
       _order_id_to_order (self w') !! id = None /\
       log w' = log w ++ lg /\
       (mkLog ERROR "Trying to remove order with inconsistent side" id ∈ lg \/
        mkLog ERROR "Trying to remove order with inconsistent price" id ∈ lg)) /\
  (forall message w seq id price side new old time l o p q,
     consistent w ->
     Message.type message = Some "change" ->
     Message.sequence message = Some seq ->
     seq = _sequence (self w) + 1 ->
     Message.order_id message = Some id ->
     Message.price message = Some price ->
     Message.side message = Some side ->
     Message.new_size message = Some new ->
     Message.old_size message = Some old ->
     Message.time message = Some time ->
     _order_id_to_order (self w) !! id = Some l ->
     heap w !! l = Some o ->
     Order.price o = Some p ->
     queue_at (Order.side o) p (self w) = Some q -> l ∈ q ->
     Order.size o <> Some old ->
     exists w' lg,
       update_order_book message w = (Ok tt, w') /\
       _sequence (self w') = seq /\
       heap w' !! l = Some (Order.with_size (Some new) o) /\
       log w' = log w ++ lg /\
       mkLog ERROR "Trying to change order but old_size does not match" id ∈ lg) /\
  (forall message w seq time maker taker trade price side size head rest h,
     consistent w ->
     Message.type message = Some "match" ->
     Message.sequence message = Some seq ->
     seq = _sequence (self w) + 1 ->
     Message.time message = Some time ->
     Message.maker_order_id message = Some maker ->
     Message.taker_order_id message = Some taker ->
     Message.trade_id message = Some trade ->
     Message.price message = Some price ->
     Message.side message = Some side ->
     Message.size message = Some size ->
     queue_at SELL price (self w) = Some (head :: rest) ->
     heap w !! head = Some h ->
     Order.order_id h <> maker ->
     exists w',
       update_order_book message w = (Raise AssertionError, w') /\
       _sequence (self w') = _sequence (self w) /\
       _asks (self w') = _asks (self w) /\
       _bids (self w') = _bids (self w) /\
       _order_id_to_order (self w') = _order_id_to_order (self w)).
Proof.
  split; [|split].
  - intros message w seq id reason price side rs time l o
      C Ht Hs Hseq Hid Hreason Hprice Hside Hrs Htime Hr Ho Hbad.
    rewrite (update_order_book_in_order _ _ _ _ Hs Hseq Ht).
    assert (dispatch "done" message w
            = remove id (Side_of_string side) price rs reason w) as E.
    { unfold dispatch. rewrite Hprice. simpl.
      unfold update_done. rewrite Hid, Hreason, Hprice, Hside, Hrs, Htime, Hs.
      reflexivity. }
    destruct (remove_inconsistent id (Side_of_string side) price rs reason w l o
                C Hr Ho Hbad) as (w1 & lg & E1 & Hgone & Hq & Hlog & Herr).
    rewrite <- E in E1. rewrite (bind_Ok _ _ _ _ _ E1).
    eexists. exists lg. split; [reflexivity|]. simpl. auto.
  - intros message w seq id price side new old time l o p q
      C Ht Hs Hseq Hid Hprice Hside Hnew Hold Htime Hr Ho Hp Hq Hin Hbad.
    rewrite (update_order_book_in_order _ _ _ _ Hs Hseq Ht).
    assert (dispatch "change" message w = change id old new w) as E.
    { unfold dispatch. simpl.
      unfold update_change. rewrite Htime, Hs, Hid, Hprice, Hside, Hnew, Hold.
      reflexivity. }
    destruct (change_inconsistent id old new w l o p q C Hr Ho Hp Hq Hin Hbad)
      as (w1 & lg & E1 & Hself & Hheap & Hlog & Herr).
    rewrite <- E in E1. rewrite (bind_Ok _ _ _ _ _ E1).
    eexists. exists lg. split; [reflexivity|]. simpl.
    split; [reflexivity|]. split; [|auto].
    rewrite Hheap. apply list_lookup_insert_eq. eapply lookup_lt_Some; exact Ho.
  - intros message w seq time maker taker trade price side size head rest h
      C Ht Hs Hseq Htime Hmaker Htaker Htrade Hprice Hside Hsize Hq Hh Hne.
    rewrite (update_order_book_in_order _ _ _ _ Hs Hseq Ht).
    assert (dispatch "match" message w
            = match_ (Side_of_string side) price size maker taker w) as E.
    { unfold dispatch. simpl.
      unfold update_match.
      rewrite Htime, Hs, Hmaker, Htaker, Htrade, Hprice, Hside, Hsize.
      reflexivity. }
    destruct (match_mismatched_maker (Side_of_string side) price size maker taker
                w head rest h C Hq Hh Hne) as (w1 & E1 & Ea & Eb & Er).
    rewrite <- E in E1. rewrite (bind_Raise _ _ _ _ _ E1).
    exists w1. split; [reflexivity|]. split; [|auto].
    pose proof (dispatch_keeps_sequence "match" message w) as K.
    rewrite E1 in K. exact K.
Qed.

Lemma inconsistent_events_witness :
  (exists w' lg,
     update_order_book (done_frame 3 "X" "buy" 1000 "canceled") (book_after one_ask)
     = (Ok tt, w') /\
     _sequence (self w') = 3 /\
     _order_id_to_order (self w') !! "X" = None /\
     log w' = log (book_after one_ask) ++ lg /\
     (mkLog ERROR "Trying to remove order with inconsistent side" "X" ∈ lg \/
      mkLog ERROR "Trying to remove order with inconsistent price" "X" ∈ lg)) /\
  (exists w' lg,
     update_order_book (change_frame 3 "X" "sell" 1000 50 70) (book_after one_ask)
     = (Ok tt, w') /\
     _sequence (self w') = 3 /\
     heap w' !! 1%nat = Some (Order.with_size (Some 70) order_X) /\
     log w' = log (book_after one_ask) ++ lg /\
     mkLog ERROR "Trying to change order but old_size does not match" "X" ∈ lg) /\
  (exists w',
     update_order_book match_behind_head (book_after two_asks)
     = (Raise AssertionError, w') /\
     _sequence (self w') = _sequence (self (book_after two_asks)) /\
     _asks (self w') = _asks (self (book_after two_asks)) /\
     _bids (self w') = _bids (self (book_after two_asks)) /\
     _order_id_to_order (self w') = _order_id_to_order (self (book_after two_asks))).
Proof.
  destruct inconsistent_events as (Hdone & Hchange & Hmatch).
  split; [|split].
  - apply (Hdone (done_frame 3 "X" "buy" 1000 "canceled") (book_after one_ask)
             3 "X" "canceled" 1000 "buy" 0 0 1%nat order_X);
      try (vm_compute; reflexivity).
    + apply one_ask_consistent.
    + left. vm_compute. discriminate.
  - apply (Hchange (change_frame 3 "X" "sell" 1000 50 70) (book_after one_ask)
             3 "X" 1000 "sell" 70 50 0 1%nat order_X 1000 [1%nat]);
      try (vm_compute; reflexivity).
    + apply one_ask_consistent.
    + left.
    + vm_compute. discriminate.
  - apply (Hmatch match_behind_head (book_after two_asks)
             4 0 "Y" "T" 1 1000 "sell" 100 1%nat [2%nat] order_X);
      try (vm_compute; reflexivity).
    + apply two_asks_consistent.
    + vm_compute. discriminate.
Defined.

(** * More of the engine *)

(** ** Running a computation forward *)

Lemma setattr_Some l f o w :
  heap w !! l = Some o ->
  setattr l f w = (Ok tt, mkMachine (self w) (<[l := f o]> (heap w)) (log w)).
Proof. unfold setattr. intros ->. reflexivity. Qed.

Lemma del_unreflected_Some id l w :
  _order_id_to_unreflected_order (self w) !! id = Some l ->
  del_unreflected id w
  = (Ok tt, mkMachine
              (set_order_id_to_unreflected_order
                 (delete id (_order_id_to_unreflected_order (self w))) (self w))
              (heap w) (log w)).
Proof. unfold del_unreflected, bind, gets. simpl. intros ->. reflexivity. Qed.

Lemma del_order_Some id l w :
  _order_id_to_order (self w) !! id = Some l ->
  del_order id w
  = (Ok tt, mkMachine
              (set_order_id_to_order (delete id (_order_id_to_order (self w))) (self w))
              (heap w) (log w)).
Proof. unfold del_order, bind, gets. simpl. intros ->. reflexivity. Qed.

Lemma bind_ret {S A B} (a : A) (k : A -> ST S B) w : bind (ret a) k w = k a w.
Proof. reflexivity. Qed.

(** ** A pending order that opens *)

Lemma opened_order_pending message time seq id size w l o :
  _order_id_to_unreflected_order (self w) !! id = Some l ->
  heap w !! l = Some o ->
  opened_order message time seq id size w
  = (Ok l, mkMachine
             (set_order_id_to_unreflected_order
                (delete id (_order_id_to_unreflected_order (self w))) (self w))
             (<[l := Order.with_size (Some size)
                       (Order.with_sequence seq (Order.with_time (Some time) o))]>
                (heap w))
             (log w)).
Proof.
  intros Hu Ho. unfold opened_order.
  rewrite (bind_Ok _ _ _ _ _ (eq_refl : gets _order_id_to_unreflected_order w = (Ok _, w))).
  rewrite Hu.
  pose proof (lookup_lt_Some _ _ _ Ho) as Hlt.
  rewrite (bind_Ok _ _ _ _ _ (setattr_Some l _ o w Ho)).
  erewrite bind_Ok; [|apply setattr_Some; simpl; apply list_lookup_insert_eq; exact Hlt].
  erewrite bind_Ok;
    [|apply setattr_Some; simpl; apply list_lookup_insert_eq;
      rewrite length_insert; exact Hlt].
  erewrite bind_Ok; [|apply (del_unreflected_Some id l); exact Hu].
  simpl. rewrite !list_insert_insert_eq. reflexivity.
Qed.

(** X1.  An [open] frame, applied at [last_seq + 1], for a pending id whose
    order carries a price (a limit order), on a ladder of the order's side
    that has no [None] key, puts the pending order itself on the book: the
    object takes the frame's time, sequence number and remaining size and
    keeps its own side and price, it is queued last at that price on the
    ladder of that side, it leaves the pending index and enters the resting
    index under its own id.  The frame's [side], [price] and [product_id]
    are not read. *)
Theorem open_promotes_pending message w seq time id size l o p m :
  Message.type message = Some "open" ->
  Message.sequence message = Some seq ->
  seq = _sequence (self w) + 1 ->
  Message.time message = Some time ->
  Message.order_id message = Some id ->
  Message.remaining_size message = Some size ->
  _order_id_to_unreflected_order (self w) !! id = Some l ->
  heap w !! l = Some o ->
  Order.price o = Some p ->
  ladder (Order.side o) (self w) = RBTree.Tree m ->
  exists w',
    update_order_book message w = (Ok tt, w') /\
    heap w' = <[l := Order.mk (Some time) seq (Order.product_id o) (Order.order_id o)
                       (Order.order_type o) (Order.side o) (Some p) (Some size)
                       (Order.funds o)]> (heap w) /\
    _order_id_to_unreflected_order (self w')
    = delete id (_order_id_to_unreflected_order (self w)) /\
    _order_id_to_order (self w') = <[Order.order_id o := l]> (_order_id_to_order (self w)) /\
    ladder (Order.side o) (self w')
    = RBTree.Tree (<[p := default [] (m !! p) ++ [l]]> m) /\
    ladder (opposite (Order.side o)) (self w')
    = ladder (opposite (Order.side o)) (self w) /\
    _sequence (self w') = seq.
Proof.
  intros Hty Hseq Hnext Htime Hid Hsize Hu Ho Hp Hm.
  rewrite (update_order_book_in_order message w seq "open" Hseq Hnext Hty).
  change (dispatch "open" message) with (update_open message).
  set (o' := Order.with_size (Some size)
               (Order.with_sequence seq (Order.with_time (Some time) o))).
  pose proof (opened_order_pending message time seq id size w l o Hu Ho) as E1.
  fold o' in E1.
  match type of E1 with _ = (_, ?st) => set (w1 := st) in E1 end.
  assert (heap w1 !! l = Some o') as Ho'
    by (apply list_lookup_insert_eq; apply (lookup_lt_Some _ _ _ Ho)).
  destruct (add_Tree l o' p size w1 m Ho' Hp eq_refl Hm) as [lg E2].
  exists (mkMachine (set_sequence seq (added l o' p m (self w1))) (heap w1) (log w1 ++ lg)).
  assert (update_open message w
          = (Ok tt, mkMachine (added l o' p m (self w1)) (heap w1) (log w1 ++ lg))) as E.
  { unfold update_open. rewrite Htime, Hseq, Hid, Hsize. cbn [getitem].
    rewrite !bind_ret, (bind_Ok _ _ _ _ _ E1). exact E2. }
  split; [rewrite (bind_Ok _ _ _ _ _ E); reflexivity|].
  cbn [self heap log].
  destruct (added_frame l o' p m (self w1)) as (Fres & Fpend & _ & _).
  split; [unfold o'; rewrite <- Hp; reflexivity|].
  split; [exact Fpend|].
  split; [exact Fres|].
  split; [apply (ladder_added_same l o' p m)|].
  split; [apply (ladder_added_opposite l o' p m (self w1))|reflexivity].
Qed.

(** ** [open] and [done] of a resting order, forward *)

Lemma update_open_fresh message w seq id side price size m :
  is_open message seq id side price size ->
  _order_id_to_unreflected_order (self w) !! id = None ->
  ladder (Side_of_string side) (self w) = RBTree.Tree m ->
  exists time pid lg,
    Message.time message = Some time /\
    Message.product_id message = Some pid /\
    update_open message w
    = (Ok tt,
       mkMachine
         (added (length (heap w))
            (Order.mk (Some time) seq pid id "limit" (Side_of_string side)
               (Some price) (Some size) None) price m (self w))
         (heap w ++ [Order.mk (Some time) seq pid id "limit" (Side_of_string side)
                       (Some price) (Some size) None])
         (log w ++ lg)).
Proof.
  intros (Hty & Hseq & [time Htime] & [pid Hpid] & Hid & Hside & Hprice & Hsize) Hu Hm.
  set (o := Order.mk (Some time) seq pid id "limit" (Side_of_string side)
              (Some price) (Some size) None).
  set (w1 := mkMachine (self w) (heap w ++ [o]) (log w)).
  assert (opened_order message time seq id size w = (Ok (length (heap w)), w1)) as E1.
  { unfold opened_order.
    rewrite (bind_Ok _ _ _ _ _ (eq_refl : gets _order_id_to_unreflected_order w = (Ok _, w))).
    rewrite Hu, Hpid, Hside, Hprice. cbn [getitem]. rewrite !bind_ret. reflexivity. }
  assert (heap w1 !! length (heap w) = Some o) as Ho
    by (apply list_lookup_middle; reflexivity).
  destruct (add_Tree (length (heap w)) o price size w1 m Ho eq_refl eq_refl Hm) as [lg E2].
  exists time, pid, lg. split; [exact Htime|]. split; [exact Hpid|].
  unfold update_open. rewrite Htime, Hseq, Hid, Hsize. cbn [getitem].
  rewrite !bind_ret, (bind_Ok _ _ _ _ _ E1). exact E2.
Qed.

Lemma remove_level_keeps {X} (proj : Machine -> X) side p id :
  (forall w tr, proj (mkMachine (set_ladder side tr (self w)) (heap w) (log w)) = proj w) ->
  keeps proj
    (match side with
     | BUY => remove_level get_bids set_bids remove_bids
     | SELL => remove_level get_asks set_asks remove_asks
     end p id).
Proof.
  intros Hproj.
  destruct side; unfold remove_level, get_bids, get_asks, set_bids, set_asks,
    remove_bids, remove_asks; keeps_tac; try apply without_id_keeps;
    apply keeps_modify; intros; apply (Hproj _ _).
Qed.

Lemma remove_resting id side p rs reason w l o :
  consistent w ->
  _order_id_to_order (self w) !! id = Some l ->
  heap w !! l = Some o ->
  exists w' m lg,
    remove id side p rs reason w = (Ok tt, w') /\
    ladder side (self w) = RBTree.Tree m /\
    heap w' = heap w /\
    log w' = log w ++ lg /\
    self w'
    = set_order_id_to_order (delete id (_order_id_to_order (self w)))
        (match m !! p with
         | None => self w
         | Some q =>
             set_ladder side (RBTree.Tree (relevel p (others id (heap w) q) m)) (self w)
         end).
Proof.
  intros C Hr Ho. unfold remove.
  rewrite (bind_Ok _ _ _ _ _ (eq_refl : gets _order_id_to_order w = (Ok _, w))).
  rewrite Hr. rewrite (bind_Ok _ _ _ _ _ (deref_Some _ _ _ Ho)).
  set (cA := if decide (side = Order.side o) then ret tt
             else logging ERROR "Trying to remove order with inconsistent side" id).
  set (cB := if decide (Some p = Order.price o) then ret tt
             else logging ERROR "Trying to remove order with inconsistent price" id).
  assert (exists lgB,
            (cA >> cB) w = (Ok tt, mkMachine (self w) (heap w) (log w ++ lgB)))
    as (lgB & EB).
  { unfold cA, cB.
    destruct (decide (side = Order.side o)); destruct (decide (Some p = Order.price o));
      unfold bind, ret, logging; simpl.
    - exists []. rewrite app_nil_r. destruct w; reflexivity.
    - eexists. reflexivity.
    - eexists. reflexivity.
    - eexists. rewrite <- (assoc_L (++)). reflexivity. }
  set (wB := mkMachine (self w) (heap w) (log w ++ lgB)) in EB.
  assert (forall k : M unit, (cA >> cB >> k) w = k wB) as Hstep.
  { intros k. unfold bind in *. destruct (cA w) as [[[]|e] wA]; [|discriminate EB].
    rewrite EB. reflexivity. }
  rewrite Hstep. clear Hstep.
  assert (consistent wB) as CB by (apply (same_book_consistent w wB C); reflexivity).
  destruct (remove_level_total side p id wB CB) as [w3 E3].
  destruct (remove_level_effect side p id wB w3 E3) as (Eh3 & m & Hm & Es3).
  cbn [self heap log wB] in Hm, Es3, Eh3.
  assert (log w3 = log wB) as El3.
  { apply (keeps_Ok log _ _ _ _) in E3; [exact E3|].
    apply remove_level_keeps. reflexivity. }
  assert ((if decide (side = BUY)
           then remove_level get_bids set_bids remove_bids p id
           else remove_level get_asks set_asks remove_asks p id) wB = (Ok tt, w3)) as E3'
    by (destruct side; exact E3).
  rewrite (bind_Ok _ _ _ _ _ E3').
  assert (_order_id_to_order (self w3) = _order_id_to_order (self w)) as Er3.
  { destruct (m !! p); rewrite Es3; [apply set_ladder_frame | reflexivity]. }
  assert (_order_id_to_order (self w3) !! id = Some l) as Hr3 by (rewrite Er3; exact Hr).
  rewrite (bind_Ok _ _ _ _ _ (del_order_Some id l w3 Hr3)).
  destruct (resting_named w C id l Hr) as (o' & Ho' & _ & Hp' & Hz').
  rewrite Ho in Ho'. inversion Ho'; subst o'; clear Ho'.
  match goal with |- context [on_remove l rs reason ?st] => set (w4 := st) end.
  assert (heap w4 !! l = Some o) as Ho4 by (simpl; rewrite Eh3; exact Ho).
  destruct (on_remove_total l o rs reason w4 Ho4 Hp' Hz') as [w' E5].
  pose proof (keeps_Ok _ _ _ _ _ (on_remove_keeps l rs reason) E5) as K5.
  simpl in K5. inversion K5 as [[Ks Kh]].
  assert (appends (on_remove l rs reason)) as A5 by (unfold on_remove; appends_tac).
  destruct (appends_Ok _ _ _ _ A5 E5) as [lg5 El5].
  exists w', m, (lgB ++ lg5).
  split; [exact E5|]. split; [exact Hm|]. split; [rewrite Kh; exact Eh3|].
  split; [rewrite El5; simpl; rewrite El3; simpl; rewrite (assoc_L (++)); reflexivity|].
  rewrite Ks. subst w4. cbn [self]. rewrite Er3.
  destruct (m !! p); rewrite Es3; reflexivity.
Qed.

Lemma event_fits_open message w id :
  Message.type message = Some "open" ->
  Message.order_id message = Some id ->
  _order_id_to_order (self w) !! id = None ->
  event_fits message w.
Proof.
  intros Hty Hid Hfree. split.
  - intros _ id' Hid'. rewrite Hid in Hid'. inversion Hid'; subst. exact Hfree.
  - rewrite Hty. discriminate.
Qed.

(** X2.  An [open] of a new id followed by the [done] of that order, with
    the side and the price of the [open], restores the book: both ladders
    and both indices are what they were before the [open] (the level is
    evicted again if the order was alone at its price), and the cursor has
    advanced by two.  The order object stays in the store, unreferenced. *)
Theorem open_then_done_restores m1 m2 w seq id side price size :
  consistent w ->
  is_open m1 seq id side price size ->
  seq = _sequence (self w) + 1 ->
  is_done m2 (seq + 1) id side price ->
  _order_id_to_order (self w) !! id = None ->
  _order_id_to_unreflected_order (self w) !! id = None ->
  queue_at (Side_of_string side) price (self w) <> Some [] ->
  exists w1 w2 o,
    update_order_book m1 w = (Ok tt, w1) /\
    _order_id_to_order (self w1) !! id = Some (length (heap w)) /\
    update_order_book m2 w1 = (Ok tt, w2) /\
    self w2 = set_sequence (seq + 1) (self w) /\
    heap w2 = heap w ++ [o] /\
    Order.order_id o = id.
Proof.
  intros C Hopen Hnext Hdone Hfree Hnp Hne.
  destruct (ladder_decimal w (Side_of_string side) C) as [m Hm].
  destruct (update_open_fresh m1 w seq id side price size m Hopen Hnp Hm)
    as (time & pid & lg & Htime & Hpid & E1).
  set (o := Order.mk (Some time) seq pid id "limit" (Side_of_string side)
              (Some price) (Some size) None) in *.
  set (l := length (heap w)) in *.
  destruct Hopen as (Hty1 & Hseq1 & _ & _ & Hid1 & _).
  set (w1 := mkMachine (set_sequence seq (added l o price m (self w)))
               (heap w ++ [o]) (log w ++ lg)).
  assert (update_order_book m1 w = (Ok tt, w1)) as U1.
  { rewrite (update_order_book_in_order m1 w seq "open" Hseq1 Hnext Hty1).
    change (dispatch "open" m1) with (update_open m1).
    rewrite (bind_Ok _ _ _ _ _ E1). reflexivity. }
  assert (consistent w1) as C1.
  { apply (update_order_book_consistent m1 w w1 C); [|exact U1].
    apply (event_fits_open m1 w id Hty1 Hid1 Hfree). }
  destruct (added_frame l o price m (self w)) as (Fres & Fpend & Fpid & Fseq).
  assert (_order_id_to_order (self w1) !! id = Some l) as Hr1.
  { change (_order_id_to_order (self w1))
      with (_order_id_to_order (added l o price m (self w))).
    rewrite Fres. apply lookup_insert_eq. }
  assert (heap w1 !! l = Some o) as Ho1 by (apply list_lookup_middle; reflexivity).
  destruct Hdone as (Hty2 & Hseq2 & [t2 Ht2] & Hid2 & [reason Hreason] & Hside2
                     & Hprice2 & [rs Hrs]).
  destruct (remove_resting id (Side_of_string side) price rs reason w1 l o C1 Hr1 Ho1)
    as (w2 & m' & lg2 & E2 & Hm' & Eh2 & El2 & Es2).
  assert (m' = <[price := default [] (m !! price) ++ [l]]> m) as ->.
  { pose proof (ladder_added_same l o price m (self w)) as Hl.
    change (Order.side o) with (Side_of_string side) in Hl.
    assert (ladder (Side_of_string side) (self w1)
            = ladder (Side_of_string side) (added l o price m (self w))) as Hl1
      by (destruct (Side_of_string side); reflexivity).
    rewrite Hl1, Hl in Hm'. inversion Hm'. reflexivity. }
  rewrite lookup_insert_eq in Es2.
  assert (others id (heap w1) (default [] (m !! price) ++ [l]) = default [] (m !! price))
    as Hothers.
  { unfold others. rewrite filter_app, filter_cons, filter_nil.
    rewrite decide_False by (rewrite Ho1; intros E; apply E; reflexivity).
    rewrite app_nil_r.
    destruct (m !! price) as [q0|] eqn:Hq0; [|reflexivity]. simpl.
    assert (forall x, x ∈ q0 -> Order.order_id <$> heap w1 !! x <> Some id) as Hall.
    { intros x Hx.
      destruct (queued_resting w C (Side_of_string side) price q0 x) as (ox & Hox & _ & _ & _ & Hrx);
        [rewrite (queue_at_ladder _ _ _ m Hm); exact Hq0 | exact Hx |].
      simpl. rewrite (lookup_app_l_Some _ _ _ _ Hox). simpl.
      intros E. inversion E as [E']. rewrite E' in Hrx. rewrite Hfree in Hrx.
      discriminate Hrx. }
    clear - Hall. induction q0 as [|x q0 IH]; [reflexivity|].
    rewrite filter_cons, decide_True by (apply Hall; left).
    f_equal. apply IH. intros y Hy. apply Hall. right. exact Hy. }
  rewrite Hothers in Es2.
  assert (relevel price (default [] (m !! price))
            (<[price := default [] (m !! price) ++ [l]]> m) = m) as Hre.
  { destruct (m !! price) as [q0|] eqn:Hq0; simpl.
    - destruct q0 as [|x q0].
      + exfalso. apply Hne. rewrite (queue_at_ladder _ _ _ m Hm). exact Hq0.
      + simpl. rewrite insert_insert_eq. apply insert_id. exact Hq0.
    - apply delete_insert_id. exact Hq0. }
  rewrite Hre in Es2.
  set (w2' := mkMachine (set_sequence (seq + 1) (self w2)) (heap w2) (log w2)).
  assert (update_order_book m2 w1 = (Ok tt, w2')) as U2.
  { rewrite (update_order_book_in_order m2 w1 (seq + 1) "done" Hseq2 eq_refl Hty2).
    assert (dispatch "done" m2 = update_done m2) as ->
      by (unfold dispatch; rewrite Hprice2; reflexivity).
    assert (update_done m2 w1 = (Ok tt, w2)) as Ed.
    { unfold update_done. rewrite Hid2, Hreason, Hprice2, Hside2, Hrs, Ht2, Hseq2.
      cbn [getitem]. rewrite !bind_ret. exact E2. }
    rewrite (bind_Ok _ _ _ _ _ Ed). reflexivity. }
  exists w1, w2', o. split; [exact U1|]. split; [exact Hr1|]. split; [exact U2|].
  split; [|split; [exact Eh2 | reflexivity]].
  unfold w2'. cbn [self]. rewrite Es2.
  change (_order_id_to_order (self w1))
    with (_order_id_to_order (added l o price m (self w))).
  rewrite Fres. change (Order.order_id o) with id.
  rewrite (delete_insert_id _ _ _ Hfree).
  unfold w1. cbn [self]. unfold added. change (Order.side o) with (Side_of_string side).
  clear - Hm.
  destruct (self w) as [pid0 asks0 bids0 d0 u0 pend0 seq0 ss0 mq0].
  destruct (Side_of_string side); simpl in *; rewrite Hm; reflexivity.
Qed.

(** ** No empty queue *)

Lemma preserves_bind {A B} (P : Machine -> Prop) (c : M A) (k : A -> M B) :
  preserves P c -> (forall a, preserves P (k a)) -> preserves P (bind c k).
Proof.
  intros Hc Hk w HP. unfold bind. specialize (Hc w HP).
  destruct (c w) as [[a|e] w1]; simpl in *; [apply Hk; exact Hc | exact Hc].
Qed.

Lemma ladders_kept_preserves {A} (c : M A) :
  keeps (fun w => (_asks (self w), _bids (self w))) c ->
  preserves no_empty_queue c.
Proof.
  intros K w HP side p. specialize (K w). simpl in K. inversion K as [[Ka Kb]].
  specialize (HP side p). unfold queue_at, ladder in *.
  destruct side; [rewrite Kb | rewrite Ka]; exact HP.
Qed.

Ltac quiet := solve [apply ladders_kept_preserves; keeps_tac].

Lemma no_empty_queue_set side tr w :
  (forall m p, tr = RBTree.Tree m -> m !! p <> Some []) ->
  no_empty_queue w ->
  no_empty_queue (mkMachine (set_ladder side tr (self w)) (heap w) (log w)).
Proof.
  intros Htr HP s p. specialize (HP s p). unfold queue_at in *.
  destruct side, s; simpl in *; try exact HP;
    (destruct tr as [m|v]; [apply (Htr m p eq_refl) | discriminate]).
Qed.

Lemma RBTree_insert_no_empty key q tr tr' m p :
  q <> [] ->
  (forall m0 p0, tr = RBTree.Tree m0 -> m0 !! p0 <> Some []) ->
  RBTree.insert key q tr = Ok tr' -> tr' = RBTree.Tree m -> m !! p <> Some [].
Proof.
  intros Hq Htr Hi ->. destruct tr as [m0|v], key as [p0|]; simpl in Hi;
    try discriminate Hi.
  - inversion Hi; subst. destruct (decide (p0 = p)) as [->|Hne].
    + rewrite lookup_insert_eq. congruence.
    + rewrite lookup_insert_ne by exact Hne. apply (Htr m0 p eq_refl).
  - destruct (RBTree.is_empty m0); discriminate Hi.
Qed.

Lemma RBTree_remove_no_empty key tr tr' m p :
  (forall m0 p0, tr = RBTree.Tree m0 -> m0 !! p0 <> Some []) ->
  RBTree.remove key tr = Ok tr' -> tr' = RBTree.Tree m -> m !! p <> Some [].
Proof.
  intros Htr Hi ->. destruct tr as [m0|v], key as [p0|]; simpl in Hi;
    try discriminate Hi.
  - destruct (m0 !! p0) eqn:E; inversion Hi; subst.
    destruct (decide (p0 = p)) as [->|Hne].
    + rewrite lookup_delete_eq. discriminate.
    + rewrite lookup_delete_ne by exact Hne. apply (Htr m0 p eq_refl).
  - destruct (RBTree.is_empty m0); discriminate Hi.
Qed.

Lemma no_empty_queue_ladder side w m p :
  no_empty_queue w -> ladder side (self w) = RBTree.Tree m -> m !! p <> Some [].
Proof.
  intros HP Hm. specialize (HP side p). unfold queue_at in HP.
  rewrite Hm in HP. exact HP.
Qed.

Lemma set_ladder_preserves side key q :
  q <> [] ->
  preserves no_empty_queue
    (match side with BUY => set_bids | SELL => set_asks end key q).
Proof.
  intros Hq w HP.
  destruct side; unfold set_bids, set_asks, bind, gets, lift; simpl.
  - destruct (RBTree.insert key q (_bids (self w))) as [tr'|e] eqn:E; simpl; [|exact HP].
    apply (no_empty_queue_set BUY tr' w); [|exact HP].
    intros m p Htr. eapply (RBTree_insert_no_empty key q); [exact Hq| |exact E|exact Htr].
    intros m0 p0. apply (no_empty_queue_ladder BUY w m0 p0 HP).
  - destruct (RBTree.insert key q (_asks (self w))) as [tr'|e] eqn:E; simpl; [|exact HP].
    apply (no_empty_queue_set SELL tr' w); [|exact HP].
    intros m p Htr. eapply (RBTree_insert_no_empty key q); [exact Hq| |exact E|exact Htr].
    intros m0 p0. apply (no_empty_queue_ladder SELL w m0 p0 HP).
Qed.

Lemma remove_ladder_preserves side key :
  preserves no_empty_queue
    (match side with BUY => remove_bids | SELL => remove_asks end key).
Proof.
  intros w HP.
  destruct side; unfold remove_bids, remove_asks, bind, gets, lift; simpl.
  - destruct (RBTree.remove key (_bids (self w))) as [tr'|e] eqn:E; simpl; [|exact HP].
    apply (no_empty_queue_set BUY tr' w); [|exact HP].
    intros m p Htr. eapply (RBTree_remove_no_empty key); [|exact E|exact Htr].
    intros m0 p0. apply (no_empty_queue_ladder BUY w m0 p0 HP).
  - destruct (RBTree.remove key (_asks (self w))) as [tr'|e] eqn:E; simpl; [|exact HP].
    apply (no_empty_queue_set SELL tr' w); [|exact HP].
    intros m p Htr. eapply (RBTree_remove_no_empty key); [|exact E|exact Htr].
    intros m0 p0. apply (no_empty_queue_ladder SELL w m0 p0 HP).
Qed.

Lemma add_preserves order : preserves no_empty_queue (add order).
Proof.
  unfold add. apply preserves_bind; [quiet|intros o].
  apply preserves_bind.
  - destruct (decide (Order.side o = BUY));
      (apply preserves_bind; [unfold get_bids, get_asks; quiet|]);
      intros [q|];
      first [ apply (set_ladder_preserves BUY) | apply (set_ladder_preserves SELL) ];
      try discriminate;
      intros E; apply app_eq_nil in E as [_ E]; discriminate E.
  - intros _. unfold on_add. quiet.
Qed.

Lemma remove_level_preserves side p id :
  preserves no_empty_queue
    (match side with
     | BUY => remove_level get_bids set_bids remove_bids
     | SELL => remove_level get_asks set_asks remove_asks
     end p id).
Proof.
  destruct side; unfold remove_level;
    (apply preserves_bind; [unfold get_bids, get_asks; quiet|]);
    intros [q|]; try (intros w HP; exact HP);
    (apply preserves_bind;
     [apply ladders_kept_preserves; apply without_id_keeps|]);
    intros [|x q']; simpl.
  - apply (remove_ladder_preserves BUY).
  - apply (set_ladder_preserves BUY). discriminate.
  - apply (remove_ladder_preserves SELL).
  - apply (set_ladder_preserves SELL). discriminate.
Qed.

Lemma remove_preserves id side p rs reason :
  preserves no_empty_queue (remove id side p rs reason).
Proof.
  unfold remove. apply preserves_bind; [quiet|intros d].
  destruct (d !! id) as [order|]; [|unfold del_unreflected; quiet].
  apply preserves_bind; [quiet|intros o].
  apply preserves_bind; [quiet|intros _].
  apply preserves_bind; [quiet|intros _].
  apply preserves_bind.
  - destruct (decide (side = BUY));
      [apply (remove_level_preserves BUY) | apply (remove_level_preserves SELL)].
  - intros _. unfold del_order, on_remove. quiet.
Qed.

Lemma preserves_ret_bind {A B} (P : Machine -> Prop) (a : A) (k : A -> M B) :
  preserves P (k a) -> preserves P (bind (ret a) k).
Proof. intros H w. rewrite bind_ret. apply H. Qed.

Lemma dispatch_preserves ty message :
  ty <> "match" -> preserves no_empty_queue (dispatch ty message).
Proof.
  intros Hty. unfold dispatch.
  destruct (String.eqb ty "open").
  { unfold update_open.
    do 4 (apply preserves_bind; [quiet|intros ?]).
    apply preserves_bind; [unfold opened_order, del_unreflected; quiet|intros order].
    apply add_preserves. }
  destruct (String.eqb ty "done" && bool_decide (is_Some (Message.price message))).
  { unfold update_done.
    do 7 (apply preserves_bind; [quiet|intros ?]).
    apply remove_preserves. }
  destruct (String.eqb_spec ty "match") as [->|_]; [contradiction|].
  destruct (String.eqb ty "change").
  { unfold update_change, change, on_change, Order_repr, get_asks, get_bids. quiet. }
  destruct (String.eqb ty "received").
  { unfold update_received, received, on_received. quiet. }
  quiet.
Qed.

(** X3.  Every event other than a [match] keeps the ladders free of
    empty queues, whatever the outcome of the update: [add] stores a queue
    that ends with the order it adds, and [remove] deletes the level when
    no order is left at it. *)
Theorem no_empty_queue_kept message w :
  Message.type message <> Some "match" ->
  no_empty_queue w ->
  no_empty_queue (snd (update_order_book message w)).
Proof.
  intros Hty. revert w. change (preserves no_empty_queue (update_order_book message)).
  unfold update_order_book.
  apply preserves_bind; [quiet|intros seq].
  apply preserves_bind; [quiet|intros last].
  destruct (seq <=? last); [quiet|].
  destruct (seq >? last + 1); [quiet|].
  destruct (Message.type message) as [ty|]; [|quiet]. cbn [getitem].
  apply preserves_ret_bind.
  apply preserves_bind; [|intros _; quiet].
  apply dispatch_preserves. congruence.
Qed.

(** ** [match], stage by stage *)

Lemma match_taker_filled size taker w tl t s0 :
  _order_id_to_unreflected_order (self w) !! taker = Some tl ->
  heap w !! tl = Some t ->
  Order.size t = Some s0 ->
  s0 <> 0 ->
  exists lg,
    match_taker size taker w
    = (Ok tt,
       mkMachine
         (if s0 - size <=? 0
          then set_order_id_to_unreflected_order
                 (delete taker (_order_id_to_unreflected_order (self w))) (self w)
          else self w)
         (<[tl := Order.with_size (Some (s0 - size)) t]> (heap w))
         (log w ++ lg)).
Proof.
  intros Hu Ht Hs Hnz. unfold match_taker.
  rewrite (bind_Ok _ _ _ _ _ (eq_refl : gets _order_id_to_unreflected_order w = (Ok _, w))).
  rewrite Hu, (bind_Ok _ _ _ _ _ (deref_Some _ _ _ Ht)), Hs.
  destruct (Z.eqb_spec s0 0) as [E|_]; [contradiction|].
  rewrite (bind_Ok _ _ _ _ _ (setattr_Some tl _ t w Ht)).
  destruct (s0 - size <=? 0).
  - erewrite bind_Ok; [|apply (del_unreflected_Some taker tl); exact Hu].
    eexists. reflexivity.
  - eexists. reflexivity.
Qed.

(** The maker side raises before it changes anything. *)
Lemma match_head_asks_Raise p s maker w e w' :
  match_head get_asks set_asks p s maker w = (Raise e, w') -> w' = w.
Proof.
  unfold match_head.
  destruct (_asks (self w)) as [m|v] eqn:Hm.
  2:{ unfold get_asks, bind, gets, lift. simpl. rewrite Hm. simpl.
      intros H. inversion H. reflexivity. }
  rewrite (bind_Ok _ _ _ _ _ (get_ladder SELL p w m Hm)).
  destruct (m !! p) as [[|head rest]|]; try discriminate.
  destruct (heap w !! head) as [h|] eqn:Hh.
  2:{ unfold bind, deref. rewrite Hh. intros H. inversion H. reflexivity. }
  rewrite (bind_Ok _ _ _ _ _ (deref_Some _ _ _ Hh)).
  destruct (String.eqb (Order.order_id h) maker);
    [|intros H; inversion H; reflexivity].
  destruct (decide (Order.size h = Some s)).
  - rewrite (bind_Ok _ _ _ _ _ (set_ladder_Tree SELL p rest w m Hm)). discriminate.
  - destruct (Order.size h) as [s0|].
    + erewrite bind_Ok;
        [|erewrite bind_Ok; [|apply (setattr_Some head _ h w Hh)];
          apply (set_ladder_Tree SELL p (head :: rest) _ m); exact Hm].
      discriminate.
    + intros H. inversion H. reflexivity.
Qed.

Lemma match_unfold side p s maker taker w :
  exists lg,
    match_ side p s maker taker w
    = (match_taker s taker >>
       let! matched := match_head get_asks set_asks p s maker in
       if matched : bool then on_match maker else ret tt)
        (mkMachine (self w) (heap w) (log w ++ lg)).
Proof.
  unfold match_.
  rewrite (bind_Ok _ _ _ _ _ (eq_refl : gets _order_id_to_order w = (Ok _, w))).
  destruct (_order_id_to_order (self w) !! maker).
  - exists []. rewrite app_nil_r. destruct w. reflexivity.
  - eexists. reflexivity.
Qed.

Lemma match_head_asks_forward p s maker w m head rest h s0 :
  _asks (self w) = RBTree.Tree m ->
  m !! p = Some (head :: rest) ->
  heap w !! head = Some h ->
  Order.order_id h = maker ->
  Order.size h = Some s0 ->
  match_head get_asks set_asks p s maker w
  = (Ok true,
     if decide (s0 = s)
     then mkMachine (set_asks_tree (RBTree.Tree (<[p := rest]> m)) (self w))
            (heap w) (log w)
     else mkMachine (self w) (<[head := Order.with_size (Some (s0 - s)) h]> (heap w))
            (log w)).
Proof.
  intros Hm Hq Hh Hid Hs. unfold match_head.
  rewrite (bind_Ok _ _ _ _ _ (get_ladder SELL p w m Hm)), Hq.
  rewrite (bind_Ok _ _ _ _ _ (deref_Some _ _ _ Hh)).
  rewrite Hid, String.eqb_refl, Hs.
  destruct (decide (s0 = s)) as [->|Hne].
  - rewrite decide_True by reflexivity.
    rewrite (bind_Ok _ _ _ _ _ (set_ladder_Tree SELL p rest w m Hm)). reflexivity.
  - rewrite decide_False by congruence.
    erewrite bind_Ok;
      [|erewrite bind_Ok; [|apply (setattr_Some head _ h w Hh)];
        apply (set_ladder_Tree SELL p (head :: rest) _ m); exact Hm].
    simpl. rewrite (insert_id _ _ _ Hq), <- Hm, set_asks_tree_id. reflexivity.
Qed.

Lemma RBTree_keys_nonempty (m : gmap Z (list nat)) p q :
  m !! p = Some q -> RBTree.keys m <> [].
Proof.
  intros Hq E. apply elem_of_map_to_list in Hq.
  unfold RBTree.keys in E. apply fmap_nil_inv in E. rewrite E in Hq.
  inversion Hq.
Qed.

Lemma on_match_Ok maker w mb pb qb ma pa qa :
  _bids (self w) = RBTree.Tree mb -> mb !! pb = Some qb ->
  _asks (self w) = RBTree.Tree ma -> ma !! pa = Some qa ->
  on_match maker w
  = (Ok tt, mkMachine (self w) (heap w) (log w ++ [mkLog INFO "Trade" maker])).
Proof.
  intros Hb Hqb Ha Hqa. unfold on_match, get_bid, get_ask, bind, gets, lift. simpl.
  rewrite Hb, Ha. simpl.
  pose proof (RBTree_keys_nonempty mb pb qb Hqb) as Nb.
  pose proof (RBTree_keys_nonempty ma pa qa Hqa) as Na.
  destruct (RBTree.keys mb); [contradiction|].
  destruct (RBTree.keys ma); [contradiction|]. reflexivity.
Qed.

Lemma on_match_no_bids maker w :
  _bids (self w) = RBTree.Tree ∅ -> on_match maker w = (Raise ValueError, w).
Proof.
  intros Hb. unfold on_match, get_bid, bind, gets, lift. simpl. rewrite Hb.
  reflexivity.
Qed.

Lemma update_match_in_order message w seq maker taker price size :
  is_match message seq maker taker price size ->
  seq = _sequence (self w) + 1 ->
  exists side,
    update_order_book message w
    = (match_ side price size maker taker >> modify (set_sequence seq)) w.
Proof.
  intros (Hty & Hseq & [t Ht] & Hmk & Htk & [tr Htr] & [sd Hsd] & Hp & Hs) Hnext.
  exists (Side_of_string sd).
  rewrite (update_order_book_in_order message w seq "match" Hseq Hnext Hty).
  change (dispatch "match" message) with (update_match message).
  unfold update_match. rewrite Ht, Hseq, Hmk, Htk, Htr, Hp, Hsd, Hs. reflexivity.
Qed.

(** ** A [match] and the bids *)

Lemma bids_untouched_refl w : bids_untouched w w.
Proof. split; [reflexivity | intros; reflexivity]. Qed.

Lemma bids_untouched_same w w1 w2 :
  bids_untouched w w1 -> _bids (self w2) = _bids (self w1) -> heap w2 = heap w1 ->
  bids_untouched w w2.
Proof.
  intros [Hb Hh] Eb Eh. split; [rewrite Eb; exact Hb|].
  intros p q l Hq Hl. rewrite Eh. apply (Hh p q l Hq Hl).
Qed.

Lemma match_bids_untouched side p s maker taker w :
  consistent w -> bids_untouched w (snd (match_ side p s maker taker w)).
Proof.
  intros C. destruct (match_unfold side p s maker taker w) as [lg0 ->].
  set (w0 := mkMachine (self w) (heap w) (log w ++ lg0)).
  assert (consistent w0) as C0 by (apply (same_book_consistent w w0 C); reflexivity).
  destruct (match_taker_total s taker w0 C0) as [w1 E1].
  destruct (match_taker_consistent s taker w0 w1 C0 E1) as (C1 & _ & Ea & Eb & Er & Eh).
  rewrite (bind_Ok _ _ _ _ _ E1).
  assert (bids_untouched w w1) as U1.
  { split; [exact Eb|]. intros p0 q l Hq Hl. apply (Eh l).
    intros id Hid.
    destruct (queued_resting w C BUY p0 q l Hq Hl) as (o & _ & _ & _ & _ & Hr).
    apply (pending_apart w C id (Order.order_id o) l Hid Hr). }
  destruct (match_head get_asks set_asks p s maker w1) as [[b|e] w2] eqn:E2.
  2:{ rewrite (bind_Raise _ _ _ _ _ E2). simpl.
      apply match_head_asks_Raise in E2. subst w2. exact U1. }
  rewrite (bind_Ok _ _ _ _ _ E2).
  assert (bids_untouched w w2) as U2.
  { destruct (match_head_asks_effect p s maker w1 b w2 E2)
      as [(Es & Eh2 & _)|(m & head & rest & h & Hm & Hq & Hh & _ & Hcase)].
    - apply (bids_untouched_same w w1 w2 U1); [rewrite Es; reflexivity | exact Eh2].
    - destruct Hcase as [(_ & Eh2 & Es)|(_ & Es & s0 & Eh2)].
      + apply (bids_untouched_same w w1 w2 U1); [rewrite Es; reflexivity | exact Eh2].
      + destruct U1 as [Hb1 Hh1]. split; [rewrite Es; exact Hb1|].
        intros p0 q l Hq0 Hl. rewrite <- (Hh1 p0 q l Hq0 Hl), Eh2.
        apply list_lookup_insert_ne. intros <-.
        assert (queue_at BUY p0 (self w1) = Some q) as Hq1
          by (unfold queue_at, ladder in *; rewrite Hb1; exact Hq0).
        destruct (queued_resting w1 C1 BUY p0 q head Hq1 Hl) as (o & Ho & Hside & _).
        assert (queue_at SELL p (self w1) = Some (head :: rest)) as Hqa
          by (unfold queue_at, ladder; rewrite Hm; exact Hq).
        destruct (queued_resting w1 C1 SELL p (head :: rest) head Hqa)
          as (o' & Ho' & Hside' & _); [left|].
        rewrite Ho in Ho'. inversion Ho'; subst o'. rewrite Hside in Hside'.
        discriminate Hside'. }
  destruct b.
  - pose proof (on_match_keeps maker w2) as K. simpl in K. inversion K as [[Ks Kh]].
    apply (bids_untouched_same w w2 _ U2); [rewrite Ks; reflexivity | exact Kh].
  - exact U2.
Qed.

Lemma bids_untouched_then_sequence {A} (c : M A) seq w w0 :
  bids_untouched w0 (snd (c w)) ->
  bids_untouched w0 (snd ((c >> modify (set_sequence seq)) w)).
Proof.
  intros U. unfold bind. destruct (c w) as [[a|e] w1]; simpl in *; [|exact U].
  apply (bids_untouched_same w0 w1 _ U); reflexivity.
Qed.

(** X4.  A [match] never fills a resting bid.  Whatever the frame carries
    and whatever the outcome of the update, the bids ladder and every order
    queued on it are after the update what they were before: the maker is
    only ever looked for on the asks ladder, because [match] compares its
    [Side] with the string ['buy']. *)
Theorem match_never_fills_a_bid message w :
  Message.type message = Some "match" ->
  consistent w ->
  bids_untouched w (snd (update_order_book message w)).
Proof.
  intros Hty C. unfold update_order_book.
  destruct (Message.sequence message) as [seq|] eqn:Hseq; [|apply bids_untouched_refl].
  cbn [getitem]. rewrite bind_ret.
  rewrite (bind_Ok _ _ _ _ _ (eq_refl : gets _sequence w = (Ok _, w))).
  destruct (seq <=? _sequence (self w)); [apply bids_untouched_refl|].
  destruct (seq >? _sequence (self w) + 1); [apply bids_untouched_refl|].
  rewrite Hty. cbn [getitem]. rewrite bind_ret.
  change (dispatch "match" message) with (update_match message).
  apply bids_untouched_then_sequence. unfold update_match. rewrite Hseq.
  destruct (Message.time message);
    cbn [getitem]; rewrite ?bind_ret; [|apply bids_untouched_refl].
  destruct (Message.maker_order_id message) as [maker|];
    cbn [getitem]; rewrite ?bind_ret; [|apply bids_untouched_refl].
  destruct (Message.taker_order_id message) as [taker|];
    cbn [getitem]; rewrite ?bind_ret; [|apply bids_untouched_refl].
  destruct (Message.trade_id message);
    cbn [getitem]; rewrite ?bind_ret; [|apply bids_untouched_refl].
  destruct (Message.price message) as [price|];
    cbn [getitem]; rewrite ?bind_ret; [|apply bids_untouched_refl].
  destruct (Message.side message) as [side|];
    cbn [getitem]; rewrite ?bind_ret; [|apply bids_untouched_refl].
  destruct (Message.size message) as [size|];
    cbn [getitem]; rewrite ?bind_ret; [|apply bids_untouched_refl].
  apply (match_bids_untouched _ _ _ _ _ w C).
Qed.

(** ** A [match] against the head of its asks queue *)

Lemma match_taker_keeps_cursor size taker :
  keeps (fun w => (_sequence (self w), product_id (self w))) (match_taker size taker).
Proof. unfold match_taker, del_unreflected. keeps_tac. Qed.

Lemma match_on_head side p s maker taker w head rest h s0 :
  consistent w ->
  queue_at SELL p (self w) = Some (head :: rest) ->
  heap w !! head = Some h ->
  Order.order_id h = maker ->
  Order.size h = Some s0 ->
  exists w1 ma,
    _asks (self w1) = _asks (self w) /\
    _bids (self w1) = _bids (self w) /\
    _order_id_to_order (self w1) = _order_id_to_order (self w) /\
    _sequence (self w1) = _sequence (self w) /\
    product_id (self w1) = product_id (self w) /\
    (forall l, (forall id, _order_id_to_unreflected_order (self w) !! id <> Some l) ->
       heap w1 !! l = heap w !! l) /\
    _asks (self w) = RBTree.Tree ma /\
    match_ side p s maker taker w
    = on_match maker
        (if decide (s0 = s)
         then mkMachine (set_asks_tree (RBTree.Tree (<[p := rest]> ma)) (self w1))
                (heap w1) (log w1)
         else mkMachine (self w1)
                (<[head := Order.with_size (Some (s0 - s)) h]> (heap w1)) (log w1)).
Proof.
  intros C Hq Hh Hid Hs.
  destruct (match_unfold side p s maker taker w) as [lg0 ->].
  set (w0 := mkMachine (self w) (heap w) (log w ++ lg0)).
  assert (consistent w0) as C0 by (apply (same_book_consistent w w0 C); reflexivity).
  destruct (match_taker_total s taker w0 C0) as [w1 E1].
  destruct (match_taker_consistent s taker w0 w1 C0 E1) as (C1 & _ & Ea & Eb & Er & Eh).
  pose proof (keeps_Ok _ _ _ _ _ (match_taker_keeps_cursor s taker) E1) as K.
  simpl in K. injection K as Kseq Kpid.
  destruct (queue_at_Some SELL p (self w) _ Hq) as (ma & Hma & Hqa). simpl in Hma.
  exists w1, ma.
  split; [exact Ea|]. split; [exact Eb|]. split; [exact Er|].
  split; [exact Kseq|]. split; [exact Kpid|]. split; [exact Eh|].
  split; [exact Hma|].
  rewrite (bind_Ok _ _ _ _ _ E1).
  assert (heap w1 !! head = Some h) as Hh1.
  { rewrite (Eh head); [exact Hh|]. intros id Hid'.
    destruct (queued_resting w C SELL p _ head Hq) as (o & _ & _ & _ & _ & Hr); [left|].
    apply (pending_apart w C id (Order.order_id o) head Hid' Hr). }
  assert (_asks (self w1) = RBTree.Tree ma) as Hma1 by (rewrite Ea; exact Hma).
  rewrite (bind_Ok _ _ _ _ _
             (match_head_asks_forward p s maker w1 ma head rest h s0 Hma1 Hqa Hh1 Hid Hs)).
  reflexivity.
Qed.

(** X5.  A [match] against the head of its asks queue, on a book whose
    bids ladder is empty, raises [ValueError]: the trade line formats
    [get_bid()], and [max_key()] of an empty tree raises.  The fill is
    already applied (an exact fill has popped the maker, any other has
    reduced its size), the cursor is not advanced, and so the frame with
    the next sequence number is refused as a gap. *)
Theorem match_without_bids_raises message w seq maker taker price size head rest h s0 next :
  consistent w ->
  is_match message seq maker taker price size ->
  seq = _sequence (self w) + 1 ->
  _bids (self w) = RBTree.Tree ∅ ->
  queue_at SELL price (self w) = Some (head :: rest) ->
  heap w !! head = Some h ->
  Order.order_id h = maker ->
  Order.size h = Some s0 ->
  Message.sequence next = Some (seq + 1) ->
  exists w',
    update_order_book message w = (Raise ValueError, w') /\
    _sequence (self w') = _sequence (self w) /\
    (s0 = size -> queue_at SELL price (self w') = Some rest) /\
    (s0 <> size ->
     heap w' !! head = Some (Order.with_size (Some (s0 - size)) h)) /\
    update_order_book next w'
    = (Raise (Exception_missing (product_id (self w)) 2 (seq + 1) (seq - 1)), w').
Proof.
  intros C Hmatch Hnext Hb Hq Hh Hid Hs Hseq'.
  destruct (update_match_in_order message w seq maker taker price size Hmatch Hnext)
    as [side U].
  destruct (match_on_head side price size maker taker w head rest h s0 C Hq Hh Hid Hs)
    as (w1 & ma & Ea & Eb & Er & Kseq & Kpid & Eh & Hma & E).
  match type of E with _ = on_match _ ?st => set (w2 := st) in E end.
  assert (_bids (self w2) = RBTree.Tree ∅) as Hb2
    by (unfold w2; destruct (decide (s0 = size)); simpl; rewrite Eb; exact Hb).
  rewrite (on_match_no_bids maker w2 Hb2) in E.
  exists w2. split; [rewrite U; apply (bind_Raise _ _ _ _ _ E)|].
  assert (_sequence (self w2) = _sequence (self w)) as Hseq2
    by (unfold w2; destruct (decide (s0 = size)); simpl; exact Kseq).
  assert (product_id (self w2) = product_id (self w)) as Hpid2
    by (unfold w2; destruct (decide (s0 = size)); simpl; exact Kpid).
  split; [exact Hseq2|].
  split; [|split].
  - intros ->. unfold w2. rewrite decide_True by reflexivity.
    unfold queue_at. simpl. apply lookup_insert_eq.
  - intros Hne. unfold w2. rewrite decide_False by exact Hne. simpl.
    apply list_lookup_insert_eq.
    assert (heap w1 !! head = Some h) as Hh1.
    { rewrite (Eh head); [exact Hh|]. intros id Hid'.
      destruct (queued_resting w C SELL price _ head Hq) as (o & _ & _ & _ & _ & Hr); [left|].
      apply (pending_apart w C id (Order.order_id o) head Hid' Hr). }
    apply (lookup_lt_Some _ _ _ Hh1).
  - rewrite (update_order_book_gap next w2 (seq + 1) Hseq') by (rewrite Hseq2; lia).
    rewrite Hseq2, Hpid2. repeat f_equal; lia.
Qed.

(** X6.  A [match] against the head of its asks queue, on a book that has
    a bid: the update completes and the cursor advances.  A match for the
    whole size of the maker pops it from its queue (the level stays, even
    when empty); any other match leaves the queue as it is and reduces the
    maker's size by the match size, without comparing the two, so that a
    match larger than the maker leaves a negative size.  The maker stays in
    the resting index in both cases, and the bids are not touched. *)
Theorem match_fills_the_maker message w seq maker taker price size head rest h s0 pb qb :
  consistent w ->
  is_match message seq maker taker price size ->
  seq = _sequence (self w) + 1 ->
  queue_at SELL price (self w) = Some (head :: rest) ->
  heap w !! head = Some h ->
  Order.order_id h = maker ->
  Order.size h = Some s0 ->
  queue_at BUY pb (self w) = Some qb ->
  exists w',
    update_order_book message w = (Ok tt, w') /\
    queue_at SELL price (self w')
    = Some (if decide (s0 = size) then rest else head :: rest) /\
    heap w' !! head
    = Some (if decide (s0 = size) then h else Order.with_size (Some (s0 - size)) h) /\
    (forall p, p <> price -> queue_at SELL p (self w') = queue_at SELL p (self w)) /\
    _bids (self w') = _bids (self w) /\
    _order_id_to_order (self w') = _order_id_to_order (self w) /\
    _sequence (self w') = seq.
Proof.
  intros C Hmatch Hnext Hq Hh Hid Hs Hqb.
  destruct (update_match_in_order message w seq maker taker price size Hmatch Hnext)
    as [side U].
  destruct (match_on_head side price size maker taker w head rest h s0 C Hq Hh Hid Hs)
    as (w1 & ma & Ea & Eb & Er & Kseq & Kpid & Eh & Hma & E).
  match type of E with _ = on_match _ ?st => set (w2 := st) in E end.
  destruct (queue_at_Some BUY pb (self w) _ Hqb) as (mb & Hmb & Hqb'). simpl in Hmb.
  assert (heap w1 !! head = Some h) as Hh1.
  { rewrite (Eh head); [exact Hh|]. intros id Hid'.
    destruct (queued_resting w C SELL price _ head Hq) as (o & _ & _ & _ & _ & Hr); [left|].
    apply (pending_apart w C id (Order.order_id o) head Hid' Hr). }
  assert (ma !! price = Some (head :: rest)) as Hqa
    by (unfold queue_at, ladder in Hq; rewrite Hma in Hq; exact Hq).
  assert (_bids (self w2) = RBTree.Tree mb) as Hb2
    by (unfold w2; destruct (decide (s0 = size)); simpl; rewrite Eb; exact Hmb).
  assert (exists ma2 q2, _asks (self w2) = RBTree.Tree ma2 /\ ma2 !! price = Some q2)
    as (ma2 & q2 & Ha2 & Hq2).
  { unfold w2. destruct (decide (s0 = size)); simpl.
    - eexists _, _. split; [reflexivity | apply lookup_insert_eq].
    - eexists _, _. rewrite Ea. split; [exact Hma | exact Hqa]. }
  rewrite (on_match_Ok maker w2 mb pb qb ma2 price q2 Hb2 Hqb' Ha2 Hq2) in E.
  eexists. split; [rewrite U, (bind_Ok _ _ _ _ _ E); reflexivity|].
  cbn [self heap log]. unfold queue_at, ladder. cbn [_asks _bids set_sequence].
  unfold w2. destruct (decide (s0 = size)) as [->|Hne]; cbn [self heap log].
  - cbn [_asks set_asks_tree].
    split; [apply lookup_insert_eq|]. split; [exact Hh1|].
    split; [intros p Hp; rewrite Hma; apply lookup_insert_ne; congruence|].
    split; [exact Eb|]. split; [exact Er | reflexivity].
  - rewrite Ea, Hma.
    split; [exact Hqa|].
    split; [apply list_lookup_insert_eq; apply (lookup_lt_Some _ _ _ Hh1)|].
    split; [reflexivity|].
    split; [exact Eb|]. split; [exact Er | reflexivity].
Qed.

(** ** The taker of a [match] *)

Lemma maker_stage_keeps_pending p s maker :
  keeps (fun w => _order_id_to_unreflected_order (self w))
    (let! matched := match_head get_asks set_asks p s maker in
     if matched : bool then on_match maker else ret tt).
Proof.
  unfold match_head, get_asks, set_asks, on_match, get_bid, get_ask. keeps_tac.
Qed.

Lemma maker_stage_heap p s maker w l :
  (forall rest, queue_at SELL p (self w) <> Some (l :: rest)) ->
  heap (snd ((let! matched := match_head get_asks set_asks p s maker in
              if matched : bool then on_match maker else ret tt) w)) !! l
  = heap w !! l.
Proof.
  intros Hl.
  destruct (match_head get_asks set_asks p s maker w) as [[b|e] w2] eqn:E2.
  2:{ rewrite (bind_Raise _ _ _ _ _ E2). simpl.
      apply match_head_asks_Raise in E2. subst w2. reflexivity. }
  rewrite (bind_Ok _ _ _ _ _ E2).
  assert (heap w2 !! l = heap w !! l) as H2.
  { destruct (match_head_asks_effect p s maker w b w2 E2)
      as [(_ & Eh2 & _)|(m & head & rest & h & Hm & Hq & _ & _ & Hcase)].
    - rewrite Eh2. reflexivity.
    - destruct Hcase as [(_ & Eh2 & _)|(_ & _ & s0 & Eh2)]; rewrite Eh2; [reflexivity|].
      apply list_lookup_insert_ne. intros <-. apply (Hl rest).
      unfold queue_at, ladder. rewrite Hm. exact Hq. }
  destruct b; [|exact H2].
  pose proof (on_match_keeps maker w2) as K. simpl in K. injection K as _ Kh.
  rewrite Kh. exact H2.
Qed.

(** X7.  A [match] settles its taker first: the pending order of the
    taker id, when it has a size other than zero, has that size reduced by
    the match size, and leaves the pending index when nothing is left of it.
    This holds whatever the maker side of the update then does, also when it
    raises. *)
Theorem match_fills_the_taker message w seq maker taker price size tl t s0 :
  consistent w ->
  is_match message seq maker taker price size ->
  seq = _sequence (self w) + 1 ->
  _order_id_to_unreflected_order (self w) !! taker = Some tl ->
  heap w !! tl = Some t ->
  Order.size t = Some s0 ->
  s0 <> 0 ->
  let w' := snd (update_order_book message w) in
  heap w' !! tl = Some (Order.with_size (Some (s0 - size)) t) /\
  _order_id_to_unreflected_order (self w')
  = if s0 - size <=? 0
    then delete taker (_order_id_to_unreflected_order (self w))
    else _order_id_to_unreflected_order (self w).
Proof.
  intros C Hmatch Hnext Hu Ht Hs Hnz. cbv zeta.
  destruct (update_match_in_order message w seq maker taker price size Hmatch Hnext)
    as [side ->].
  destruct (match_unfold side price size maker taker w) as [lg0 E0].
  set (w0 := mkMachine (self w) (heap w) (log w ++ lg0)) in E0.
  destruct (match_taker_filled size taker w0 tl t s0 Hu Ht Hs Hnz) as [lg1 E1].
  match type of E1 with _ = (_, ?st) => set (w1 := st) in E1 end.
  set (c := let! matched := match_head get_asks set_asks price size maker in
            if matched : bool then on_match maker else ret tt) in *.
  assert (heap (snd (c w1)) !! tl = heap w1 !! tl) as Hh.
  { apply maker_stage_heap. intros rest Hq.
    assert (queue_at SELL price (self w) = Some (tl :: rest)) as Hq'.
    { unfold w1 in Hq. destruct (s0 - size <=? 0); exact Hq. }
    destruct (queued_resting w C SELL price _ tl Hq') as (o & _ & _ & _ & _ & Hr); [left|].
    apply (pending_apart w C taker (Order.order_id o) tl Hu Hr). }
  pose proof (maker_stage_keeps_pending price size maker w1) as Hp. fold c in Hp.
  assert (heap w1 !! tl = Some (Order.with_size (Some (s0 - size)) t)) as Ht1
    by (apply list_lookup_insert_eq; apply (lookup_lt_Some _ _ _ Ht)).
  assert (_order_id_to_unreflected_order (self w1)
          = if s0 - size <=? 0
            then delete taker (_order_id_to_unreflected_order (self w))
            else _order_id_to_unreflected_order (self w)) as Hu1
    by (unfold w1; destruct (s0 - size <=? 0); reflexivity).
  assert (match_ side price size maker taker w = c w1) as Em
    by (rewrite E0, (bind_Ok _ _ _ _ _ E1); reflexivity).
  cbv beta in Hp. rewrite <- Hh in Ht1. rewrite <- Hp in Hu1.
  assert (heap (snd ((match_ side price size maker taker >> modify (set_sequence seq)) w))
          = heap (snd (c w1)) /\
          _order_id_to_unreflected_order
            (self (snd ((match_ side price size maker taker
                         >> modify (set_sequence seq)) w)))
          = _order_id_to_unreflected_order (self (snd (c w1)))) as [-> ->].
  { unfold bind. rewrite Em. destruct (c w1) as [[[]|e] w2]; split; reflexivity. }
  split; assumption.
Qed.

(** ** Missing keys *)

Lemma never_ret {A} (a : A) : never (ret a).
Proof. intros w k w' H. discriminate H. Qed.

Lemma never_raise {A} e : (forall k, e <> KeyError k) -> never (raise (A:=A) e).
Proof. intros He w k w' H. inversion H. apply (He k). assumption. Qed.

Lemma never_lift {A} (r : Result A) :
  (forall k, r <> Raise (KeyError k)) -> never (lift r).
Proof. intros Hr w k w' H. inversion H. apply (Hr k). assumption. Qed.

Lemma never_gets {A} (f : OrderBook -> A) : never (gets f).
Proof. intros w k w' H. discriminate H. Qed.

Lemma never_modify f : never (modify f).
Proof. intros w k w' H. discriminate H. Qed.

Lemma never_logging lv txt subj : never (logging lv txt subj).
Proof. intros w k w' H. discriminate H. Qed.

Lemma never_new_Order o : never (new_Order o).
Proof. intros w k w' H. discriminate H. Qed.

Lemma never_deref l : never (deref l).
Proof. intros w k w' H. unfold deref in H. destruct (heap w !! l); discriminate H. Qed.

Lemma never_setattr l f : never (setattr l f).
Proof. intros w k w' H. unfold setattr in H. destruct (heap w !! l); discriminate H. Qed.

Lemma never_Decimal_of_get field : never (Decimal_of_get field).
Proof. intros w k w' H. destruct field; discriminate H. Qed.

Lemma never_bind {A B} (c : M A) (k : A -> M B) :
  never c -> (forall a, never (k a)) -> never (bind c k).
Proof.
  intros Hc Hk w key w' H. apply bind_inv in H as [(a & w1 & _ & H)|(e & H & He)].
  - apply (Hk a w1 key w' H).
  - inversion He; subst. apply (Hc w key w' H).
Qed.

Lemma RBTree_get_never key tr k : RBTree.get key tr <> Raise (KeyError k).
Proof.
  destruct tr as [m|v], key as [p|]; simpl; try discriminate.
  destruct (RBTree.is_empty m); discriminate.
Qed.

Lemma RBTree_insert_never key q tr k : RBTree.insert key q tr <> Raise (KeyError k).
Proof.
  destruct tr as [m|v], key as [p|]; simpl; try discriminate.
  destruct (RBTree.is_empty m); discriminate.
Qed.

Lemma RBTree_min_key_never tr k : RBTree.min_key tr <> Raise (KeyError k).
Proof. destruct tr as [m|v]; simpl; [destruct (RBTree.keys m)|]; discriminate. Qed.

Lemma RBTree_max_key_never tr k : RBTree.max_key tr <> Raise (KeyError k).
Proof. destruct tr as [m|v]; simpl; [destruct (RBTree.keys m)|]; discriminate. Qed.

Ltac never_step :=
  first
    [ apply never_ret | apply never_gets | apply never_modify | apply never_logging
    | apply never_new_Order | apply never_deref | apply never_setattr
    | apply never_Decimal_of_get
    | apply never_raise; intros; discriminate
    | apply never_lift; intros;
      first [ apply RBTree_get_never | apply RBTree_insert_never
            | apply RBTree_min_key_never | apply RBTree_max_key_never ]
    | apply never_bind; [ | intros ]
    | assumption
    | match goal with
      | |- never (match ?x with _ => _ end) => destruct x
      end ].

Ltac never_tac := intros; repeat never_step.

Lemma never_add order : never (add order).
Proof. unfold add, get_bids, get_asks, set_bids, set_asks, on_add. never_tac. Qed.

Lemma never_without_id id q : never (without_id id q).
Proof. induction q as [|x q IH]; simpl; never_tac. Qed.

Lemma never_remove_level side p id :
  never (match side with
         | BUY => remove_level get_bids set_bids remove_bids
         | SELL => remove_level get_asks set_asks remove_asks
         end p id).
Proof.
  intros w k w' H.
  assert (exists m, ladder side (self w) = RBTree.Tree m) as [m Hm].
  { destruct side; simpl; unfold remove_level, get_bids, get_asks, bind, gets, lift in H;
      simpl in H.
    - destruct (_bids (self w)); [eauto | discriminate H].
    - destruct (_asks (self w)); [eauto | discriminate H]. }
  assert ((let! level := ret (m !! p) in
           match level with
           | Some q =>
               let! q' := without_id id q in
               if (0 <? length q')%nat
               then match side with BUY => set_bids | SELL => set_asks end (Some p) q'
               else match side with BUY => remove_bids | SELL => remove_asks end (Some p)
           | None => ret tt
           end) w = (Raise (KeyError k), w')) as H'.
  { rewrite <- H. destruct side; unfold remove_level;
      rewrite (bind_Ok _ _ _ _ _ (get_ladder _ p w m Hm)); reflexivity. }
  clear H. rewrite bind_ret in H'.
  destruct (m !! p) as [q|] eqn:Hq; [|discriminate H'].
  apply bind_inv in H' as [(q' & w1 & Hw & H)|(e & H & He)].
  2:{ inversion He; subst. apply (never_without_id id q w k w' H). }
  apply without_id_Ok in Hw as [-> _].
  destruct (0 <? length q')%nat.
  - pose proof (set_ladder_Tree side p q' w m Hm) as E. rewrite E in H. discriminate H.
  - destruct side; unfold remove_bids, remove_asks, bind, gets, lift in H;
      simpl in H, Hm; rewrite Hm in H; simpl in H; rewrite Hq in H; discriminate H.
Qed.

Lemma never_del_unreflected id l w k w' :
  _order_id_to_unreflected_order (self w) !! id = Some l ->
  del_unreflected id w <> (Raise (KeyError k), w').
Proof. intros Hu. rewrite (del_unreflected_Some id l w Hu). discriminate. Qed.

Lemma never_remove id side p rs reason : never (remove id side p rs reason).
Proof.
  intros w k w' H. unfold remove in H.
  rewrite (bind_Ok _ _ _ _ _ (eq_refl : gets _order_id_to_order w = (Ok _, w))) in H.
  destruct (_order_id_to_order (self w) !! id) as [order|] eqn:Hr.
  2:{ rewrite (bind_Ok _ _ _ _ _
                 (eq_refl : gets _order_id_to_unreflected_order w = (Ok _, w))) in H.
      destruct (_order_id_to_unreflected_order (self w) !! id) as [l|] eqn:Hu;
        [|discriminate H].
      apply bind_inv in H as [(a & w1 & Hl & H)|(e & H & He)]; [|discriminate H].
      inversion Hl; subst. refine (never_del_unreflected id l _ k w' _ H). exact Hu. }
  apply bind_inv in H as [(o & w1 & Ho & H)|(e & H & He)].
  2:{ inversion He; subst. apply (never_deref order w k w' H). }
  apply deref_Ok in Ho as [_ ->].
  apply bind_inv in H as [([] & w1 & H1 & H)|(e & H & He)].
  2:{ inversion He; subst. destruct (decide (side = Order.side o)); discriminate H. }
  assert (self w1 = self w) as Es1.
  { destruct (decide (side = Order.side o)); inversion H1; reflexivity. }
  apply bind_inv in H as [([] & w2 & H2 & H)|(e & H & He)].
  2:{ inversion He; subst. destruct (decide (Some p = Order.price o)); discriminate H. }
  assert (self w2 = self w) as Es2.
  { destruct (decide (Some p = Order.price o)); inversion H2; subst; exact Es1. }
  apply bind_inv in H as [([] & w3 & H3 & H)|(e & H & He)].
  2:{ inversion He; subst.
      destruct (decide (side = BUY)).
      - apply (never_remove_level BUY p id w2 k w' H).
      - apply (never_remove_level SELL p id w2 k w' H). }
  assert (_order_id_to_order (self w3) = _order_id_to_order (self w)) as Er3.
  { rewrite <- Es2.
    destruct (decide (side = BUY)).
    - apply (keeps_Ok (fun w => _order_id_to_order (self w)) _ _ _ _
               (remove_level_keeps (fun w => _order_id_to_order (self w)) BUY p id
                  (fun _ _ => eq_refl)) H3).
    - apply (keeps_Ok (fun w => _order_id_to_order (self w)) _ _ _ _
               (remove_level_keeps (fun w => _order_id_to_order (self w)) SELL p id
                  (fun _ _ => eq_refl)) H3). }
  assert (_order_id_to_order (self w3) !! id = Some order) as Hr3
    by (rewrite Er3; exact Hr).
  rewrite (bind_Ok _ _ _ _ _ (del_order_Some id order w3 Hr3)) in H.
  revert H. apply (never_bind (ret tt) (fun _ => on_remove order rs reason));
    [apply never_ret | intros _; unfold on_remove; never_tac].
Qed.

Lemma never_match_taker size taker : never (match_taker size taker).
Proof.
  intros w k w' H. unfold match_taker in H.
  rewrite (bind_Ok _ _ _ _ _
             (eq_refl : gets _order_id_to_unreflected_order w = (Ok _, w))) in H.
  destruct (_order_id_to_unreflected_order (self w) !! taker) as [tl|] eqn:Hu;
    [|discriminate H].
  apply bind_inv in H as [(t & w1 & Ht & H)|(e & H & He)].
  2:{ inversion He; subst. apply (never_deref tl w k w' H). }
  apply deref_Ok in Ht as [Ht ->].
  assert (forall txt w0,
            _order_id_to_unreflected_order (self w0) !! taker = Some tl ->
            (del_unreflected taker >> logging DEBUG txt taker) w0
            <> (Raise (KeyError k), w')) as Hdel.
  { intros txt w0 Hu0 H0.
    rewrite (bind_Ok _ _ _ _ _ (del_unreflected_Some taker tl w0 Hu0)) in H0.
    discriminate H0. }
  destruct (Order.size t) as [s|]; [|apply (Hdel _ w Hu H)].
  destruct (s =? 0); [apply (Hdel _ w Hu H)|].
  rewrite (bind_Ok _ _ _ _ _ (setattr_Some tl _ t w Ht)) in H.
  destruct (s - size <=? 0); [|discriminate H].
  refine (Hdel _ _ _ H). exact Hu.
Qed.

Lemma never_match side p s maker taker : never (match_ side p s maker taker).
Proof.
  unfold match_. apply never_bind; [never_tac|intros d].
  apply never_bind; [never_tac|intros _].
  apply never_bind; [apply never_match_taker|intros _].
  unfold Side_eq_str, match_head, get_asks, set_asks, on_match, get_bid, get_ask.
  never_tac.
Qed.

Lemma never_change id old new : never (change id old new).
Proof. unfold change, on_change, Order_repr, get_asks, get_bids. never_tac. Qed.

Lemma never_received order order_type : never (received order order_type).
Proof. unfold received, on_received. never_tac. Qed.

Lemma clean_of_never {A} (c : M A) : never c -> clean c.
Proof. intros N w k w' H. exfalso. apply (N w k w' H). Qed.

Lemma clean_pure_bind {A B} (c : M A) (k : A -> M B) :
  keeps (fun w => w) c -> (forall a, clean (k a)) -> clean (bind c k).
Proof.
  intros Hc Hk w key w' H. apply bind_inv in H as [(a & w1 & Ha & H)|(e & H & He)].
  - pose proof (Hc w) as K. rewrite Ha in K. simpl in K. subst w1.
    apply (Hk a w key w' H).
  - pose proof (Hc w) as K. rewrite H in K. exact K.
Qed.

Lemma clean_bind_never {A B} (c : M A) (k : A -> M B) :
  clean c -> (forall a, never (k a)) -> clean (bind c k).
Proof.
  intros Hc Hk w key w' H. apply bind_inv in H as [(a & w1 & Ha & H)|(e & H & He)].
  - exfalso. apply (Hk a w1 key w' H).
  - inversion He; subst. apply (Hc w key w' H).
Qed.

Lemma clean_opened_order message time seq id size :
  clean (opened_order message time seq id size).
Proof.
  intros w k w' H. unfold opened_order in H.
  rewrite (bind_Ok _ _ _ _ _
             (eq_refl : gets _order_id_to_unreflected_order w = (Ok _, w))) in H.
  destruct (_order_id_to_unreflected_order (self w) !! id) as [l|] eqn:Hu.
  - exfalso.
    apply bind_inv in H as [([] & w1 & H1 & H)|(e & H & He)];
      [|inversion He; subst; apply (never_setattr _ _ _ _ _ H)].
    apply setattr_Ok in H1 as (o1 & _ & ->).
    apply bind_inv in H as [([] & w2 & H2 & H)|(e & H & He)];
      [|inversion He; subst; apply (never_setattr _ _ _ _ _ H)].
    apply setattr_Ok in H2 as (o2 & _ & ->).
    apply bind_inv in H as [([] & w3 & H3 & H)|(e & H & He)];
      [|inversion He; subst; apply (never_setattr _ _ _ _ _ H)].
    apply setattr_Ok in H3 as (o3 & _ & ->).
    erewrite bind_Ok in H; [|apply (del_unreflected_Some id l); exact Hu].
    discriminate H.
  - revert w k w' H Hu.
    assert (clean (let! product_id := getitem (Message.product_id message) "product_id" in
                   let! side := getitem (Message.side message) "side" in
                   let! price := getitem (Message.price message) "price" in
                   new_Order (Order.mk (Some time) seq product_id id "limit"
                                (Side_of_string side) (Some price) (Some size) None)))
      as Hc.
    { repeat (apply clean_pure_bind; [keeps_tac|intros ?]).
      apply clean_of_never. never_tac. }
    intros w k w' H _. apply (Hc w k w' H).
Qed.

Lemma clean_dispatch ty message : clean (dispatch ty message).
Proof.
  unfold dispatch.
  destruct (String.eqb ty "open").
  { unfold update_open.
    do 4 (apply clean_pure_bind; [keeps_tac|intros ?]).
    apply clean_bind_never; [apply clean_opened_order | intros; apply never_add]. }
  destruct (String.eqb ty "done" && bool_decide (is_Some (Message.price message))).
  { unfold update_done.
    do 7 (apply clean_pure_bind; [keeps_tac|intros ?]).
    apply clean_of_never, never_remove. }
  destruct (String.eqb ty "match").
  { unfold update_match.
    do 8 (apply clean_pure_bind; [keeps_tac|intros ?]).
    apply clean_of_never, never_match. }
  destruct (String.eqb ty "change").
  { unfold update_change.
    do 7 (apply clean_pure_bind; [keeps_tac|intros ?]).
    apply clean_of_never, never_change. }
  destruct (String.eqb ty "received").
  { unfold update_received.
    do 7 (apply clean_pure_bind; [keeps_tac|intros ?]).
    apply clean_of_never. apply never_bind; [never_tac | intros; apply never_received]. }
  apply clean_of_never. never_tac.
Qed.

(** X8.  A frame that lacks a key its branch reads raises [KeyError]
    before anything is changed: when [update_order_book] ends in a
    [KeyError], the book, the order objects and the log are what they were.
    Every key is read before the operation starts, and the operations
    themselves delete from an index or a ladder only what they have just
    found there. *)
Theorem KeyError_changes_nothing message w k w' :
  update_order_book message w = (Raise (KeyError k), w') -> w' = w.
Proof.
  revert w k w'. change (clean (update_order_book message)). unfold update_order_book.
  apply clean_pure_bind; [keeps_tac|intros seq].
  apply clean_pure_bind; [keeps_tac|intros last].
  destruct (seq <=? last); [apply clean_of_never; never_tac|].
  destruct (seq >? last + 1); [apply clean_of_never; never_tac|].
  apply clean_pure_bind; [keeps_tac|intros ty].
  apply clean_bind_never; [apply clean_dispatch | intros; never_tac].
Qed.

(** ** Snapshots and the invariants *)

Lemma add_rows_preserves rows sequence side :
  preserves no_empty_queue (add_rows rows sequence side).
Proof.
  induction rows as [|r rows IH]; simpl.
  - intros w H. exact H.
  - apply preserves_bind; [unfold parse_snapshot_order; quiet|intros order].
    apply preserves_bind; [apply add_preserves | intros _; exact IH].
Qed.

Lemma snapshot_no_empty_queue snapshot w :
  no_empty_queue (snd (apply_order_book_snapshot snapshot w)).
Proof.
  unfold apply_order_book_snapshot.
  rewrite (bind_Ok _ _ _ _ _ (eq_refl : modify (set_asks_tree RBTree.empty) w = (Ok _, _))).
  erewrite bind_Ok; [|reflexivity].
  erewrite bind_Ok; [|reflexivity].
  match goal with |- no_empty_queue (snd (?c ?st)) => set (w0 := st); revert w0 end.
  intros w0.
  assert (no_empty_queue w0) as H0.
  { intros side p. unfold queue_at. destruct side; simpl; rewrite lookup_empty; discriminate. }
  revert H0. generalize w0. clear w0 w.
  change (preserves no_empty_queue
            (add_rows (Snapshot.bids snapshot) (Snapshot.sequence snapshot) BUY >>
             add_rows (Snapshot.asks snapshot) (Snapshot.sequence snapshot) SELL >>
             modify (set_sequence (Snapshot.sequence snapshot)))).
  apply preserves_bind; [apply add_rows_preserves|intros _].
  apply preserves_bind; [apply add_rows_preserves|intros _]. quiet.
Qed.

(** X9.  A snapshot whose rows carry distinct order ids yields a book that
    satisfies the invariants of the engine: every id of the resting index
    has exactly one entry on the ladder of its side, at its price; every
    queued order is in the resting index; no id is queued twice; and no
    level holds an empty queue.  Pending orders are kept as they are. *)
Theorem snapshot_establishes_invariants snapshot w :
  (forall id l, _order_id_to_unreflected_order (self w) !! id = Some l ->
     exists o, heap w !! l = Some o /\ Order.order_id o = id) ->
  NoDup ((Snapshot.bids snapshot ++ Snapshot.asks snapshot).*2) ->
  exists w',
    apply_order_book_snapshot snapshot w = (Ok tt, w') /\
    consistent w' /\
    resting_on_ladder w' /\
    ladder_in_resting w' /\
    queued_at_most_once w' /\
    no_empty_queue w'.
Proof.
  intros Hpend Hnd.
  destruct (snapshot_consistent snapshot w Hpend Hnd) as (w' & E & C & L).
  exists w'. split; [exact E|]. split; [exact C|]. split; [exact L|].
  split; [apply (consistent_ladder_in_resting w' C)|].
  split; [apply (consistent_at_most_once w' C)|].
  pose proof (snapshot_no_empty_queue snapshot w) as N. rewrite E in N. exact N.
Qed.

(** ** The replay, in general *)

Lemma update_order_book_monotone message w :
  _sequence (self w) <= _sequence (self (snd (update_order_book message w))).
Proof.
  destruct (update_order_book message w) as [[[]|e] w1] eqn:E; simpl.
  2:{ rewrite (update_order_book_raise_keeps_sequence message w e w1 E). lia. }
  destruct (Message.sequence message) as [seq|] eqn:Hseq.
  2:{ unfold update_order_book in E. rewrite Hseq in E. discriminate E. }
  destruct (Z_le_gt_dec seq (_sequence (self w))) as [Hle|Hgt].
  { rewrite (update_order_book_overlap message w seq Hseq Hle) in E.
    inversion E; subst. lia. }
  destruct (Z_le_gt_dec seq (_sequence (self w) + 1)) as [Hle'|Hgt'].
  - assert (seq = _sequence (self w) + 1) as Hnext by lia.
    rewrite (update_order_book_Ok_sequence message w seq w1 Hseq Hnext E). lia.
  - rewrite (update_order_book_gap message w seq Hseq Hgt') in E. discriminate E.
Qed.

Lemma apply_all_newer s queue :
  forall w, s <= _sequence (self w) ->
    apply_all queue w = apply_all (List.filter (newer s) queue) w.
Proof.
  induction queue as [|m queue IH]; intros w Hs; [reflexivity|].
  simpl List.filter. destruct (newer s m) eqn:Hn.
  - simpl. unfold bind.
    pose proof (update_order_book_monotone m w) as Hmono.
    destruct (update_order_book m w) as [[[]|e] w1]; [|reflexivity].
    simpl in Hmono. apply IH. lia.
  - unfold newer in Hn. destruct (Message.sequence m) as [seq|] eqn:Hseq;
      [|discriminate Hn].
    apply bool_decide_eq_false in Hn.
    rewrite (apply_all_overlap m queue w seq Hseq) by lia.
    apply IH. exact Hs.
Qed.

(** X10.  The replay after a snapshot, for any queue: receiving the
    snapshot has the outcome and leaves the book state of applying the
    snapshot and then, in their order, exactly the queued frames that are
    numbered above the snapshot's sequence (or carry no number); the others
    are skipped.  When that completes, the queue is empty and the book is no
    longer pending. *)
Theorem replay_skips_the_stale snapshot w :
  let replay := on_order_book_snapshot (Some snapshot) w in
  let direct :=
    snapshot_then snapshot
      (List.filter (newer (Snapshot.sequence snapshot)) (message_queue (self w))) w in
  fst replay = fst direct /\
  core (snd replay) = core (snd direct) /\
  (fst direct = Ok tt ->
   message_queue (self (snd replay)) = [] /\
   pending_order_book_snapshot (self (snd replay)) = false).
Proof.
  cbv zeta.
  assert (snapshot_then snapshot
            (List.filter (newer (Snapshot.sequence snapshot)) (message_queue (self w))) w
          = snapshot_then snapshot (message_queue (self w)) w) as ->.
  { unfold snapshot_then, bind.
    destruct (apply_order_book_snapshot snapshot w) as [[[]|e] w1] eqn:E; [|reflexivity].
    symmetry. apply apply_all_newer.
    rewrite (apply_order_book_snapshot_sequence snapshot w w1 E). lia. }
  apply (replay_is_snapshot_then snapshot w).
Qed.

(** ** The manager and a book that waits *)

Lemma call_run {A} pid (c : M A) W b :
  product_id_to_order_book W !! pid = Some b ->
  OrderBookManager.call pid c W
  = (fst (c (book_of b W)), with_book pid (snd (c (book_of b W))) W).
Proof.
  intros Hb. unfold OrderBookManager.call. rewrite Hb.
  unfold book_of, with_book. destruct (c _) as [r w]. reflexivity.
Qed.

Lemma on_message_routed W message pid b :
  Message.product_id message = Some pid ->
  product_id_to_order_book W !! pid = Some b ->
  snapshots b <> [] \/ pending_order_book_snapshot b = true ->
  OrderBookManager.on_message message W
  = OrderBookManager.call pid (on_message message) W.
Proof.
  intros Hpid Hb Hlive. unfold OrderBookManager.on_message. rewrite Hpid.
  unfold bind at 1. unfold OrderBookManager.get_order_book at 1. rewrite Hb.
  assert (bool_decide (snapshots b = []) && negb (pending_order_book_snapshot b) = false)
    as ->.
  { destruct Hlive as [Hs|Hp].
    - rewrite bool_decide_eq_false_2 by exact Hs. reflexivity.
    - rewrite Hp. apply andb_false_r. }
  reflexivity.
Qed.

Lemma with_book_same pid b W : 
  product_id_to_order_book W !! pid = Some b ->
  with_book pid (book_of b W) W = W.
Proof.
  intros Hb. unfold with_book, book_of. simpl. rewrite (insert_id _ _ _ Hb).
  apply World_eta.
Qed.

Lemma on_message_pending W message pid b :
  Message.product_id message = Some pid ->
  product_id_to_order_book W !! pid = Some b ->
  pending_order_book_snapshot b = true ->
  OrderBookManager.on_message message W
  = (Ok tt,
     mkWorld (<[pid := set_message_queue (message_queue b ++ [message]) b]>
                (product_id_to_order_book W))
       (ws W) (requests W) (subscriptions W) (objects W) (records W)).
Proof.
  intros Hpid Hb Hp.
  rewrite (on_message_routed W message pid b Hpid Hb (or_intror Hp)).
  rewrite (call_run pid _ W b Hb). unfold on_message, bind, gets, book_of. simpl.
  rewrite Hp. reflexivity.
Qed.

Lemma deliver_pending messages : forall W pid b,
  product_id_to_order_book W !! pid = Some b ->
  pending_order_book_snapshot b = true ->
  Forall (fun message => Message.product_id message = Some pid) messages ->
  deliver messages W
  = (Ok tt,
     mkWorld (<[pid := set_message_queue (message_queue b ++ messages) b]>
                (product_id_to_order_book W))
       (ws W) (requests W) (subscriptions W) (objects W) (records W)).
Proof.
  induction messages as [|m messages IH]; intros W pid b Hb Hp Hall.
  - simpl. rewrite app_nil_r.
    assert (set_message_queue (message_queue b) b = b) as -> by (destruct b; reflexivity).
    rewrite (insert_id _ _ _ Hb), World_eta. reflexivity.
  - apply Forall_cons in Hall as [Hm Hall]. simpl.
    rewrite (bind_Ok _ _ _ _ _ (on_message_pending W m pid b Hm Hb Hp)).
    erewrite IH; [|apply lookup_insert_eq | exact Hp | exact Hall].
    simpl. rewrite insert_insert_eq, <- (assoc_L (++)). reflexivity.
Qed.

(** X11.  While the snapshot of a book is awaited, the manager only
    queues: every frame of the product goes to the end of the queue of the
    book, in arrival order, whatever it carries; nothing is applied, no
    snapshot is requested again and nothing is logged.  Only the response to
    the request ends this. *)
Theorem pending_book_only_queues messages W pid b :
  product_id_to_order_book W !! pid = Some b ->
  pending_order_book_snapshot b = true ->
  Forall (fun message => Message.product_id message = Some pid) messages ->
  exists W',
    deliver messages W = (Ok tt, W') /\
    product_id_to_order_book W' !! pid
    = Some (set_message_queue (message_queue b ++ messages) b) /\
    (forall other, other <> pid ->
       product_id_to_order_book W' !! other = product_id_to_order_book W !! other) /\
    requests W' = requests W /\
    objects W' = objects W /\
    records W' = records W.
Proof.
  intros Hb Hp Hall.
  rewrite (deliver_pending messages W pid b Hb Hp Hall).
  eexists. split; [reflexivity|]. cbn [product_id_to_order_book requests objects records].
  split; [apply lookup_insert_eq|].
  split; [|repeat split].
  intros other Hother. apply lookup_insert_ne. congruence.
Qed.

(** ** The bookkeeping of the reconciliation *)

Lemma add_keeps_bookkeeping order :
  keeps (fun w => (product_id (self w), pending_order_book_snapshot (self w),
                   snapshots (self w)))
    (add order).
Proof. unfold add, on_add, get_bids, get_asks, set_bids, set_asks. keeps_tac. Qed.

Lemma update_order_book_keeps_bookkeeping message :
  keeps (fun w => (product_id (self w), pending_order_book_snapshot (self w),
                   snapshots (self w)))
    (update_order_book message).
Proof.
  unfold update_order_book, dispatch, update_open, update_done, update_match,
    update_change, update_received, opened_order, remove, remove_level, match_,
    match_taker, match_head, change,
    received, on_remove, on_match, on_change, on_received, Order_repr,
    get_bid, get_ask, get_bids, get_asks, set_bids, set_asks, remove_bids,
    remove_asks, del_order, del_unreflected.
  keeps_tac;
    try apply without_id_keeps; try apply add_keeps_bookkeeping; keeps_tac.
Qed.

Lemma add_rows_keeps_bookkeeping rows sequence side :
  keeps (fun w => (product_id (self w), pending_order_book_snapshot (self w),
                   snapshots (self w)))
    (add_rows rows sequence side).
Proof.
  induction rows as [|r rows IH]; simpl; unfold parse_snapshot_order;
    keeps_tac; apply add_keeps_bookkeeping.
Qed.

Lemma apply_order_book_snapshot_keeps_bookkeeping snapshot :
  keeps (fun w => (product_id (self w), pending_order_book_snapshot (self w),
                   snapshots (self w)))
    (apply_order_book_snapshot snapshot).
Proof.
  unfold apply_order_book_snapshot. keeps_tac; apply add_rows_keeps_bookkeeping.
Qed.

Lemma drain_keeps_bookkeeping queue :
  keeps (fun w => (product_id (self w), pending_order_book_snapshot (self w),
                   snapshots (self w)))
    (drain queue).
Proof.
  induction queue as [|m queue IH]; cbn [drain]; [apply keeps_ret|].
  apply keeps_bind; [keeps_tac|intros _].
  apply keeps_bind; [apply update_order_book_keeps_bookkeeping | intros _; exact IH].
Qed.

Lemma apply_order_book_snapshot_Ok snapshot w :
  exists w', apply_order_book_snapshot snapshot w = (Ok tt, w').
Proof.
  unfold apply_order_book_snapshot.
  rewrite (bind_Ok _ _ _ _ _ (eq_refl : modify (set_asks_tree RBTree.empty) w = (Ok _, _))).
  erewrite bind_Ok; [|reflexivity].
  erewrite bind_Ok; [|reflexivity].
  match goal with |- context [bind _ _ ?st] => set (w0 := st) end.
  destruct (add_rows_spec (Snapshot.bids snapshot) (Snapshot.sequence snapshot) BUY
              w0 ∅ eq_refl) as (w1 & mb & E1 & _ & _ & _ & Ha1 & _).
  rewrite (bind_Ok _ _ _ _ _ E1).
  destruct (add_rows_spec (Snapshot.asks snapshot) (Snapshot.sequence snapshot) SELL
              w1 ∅ Ha1) as (w2 & ma & E2 & _).
  rewrite (bind_Ok _ _ _ _ _ E2). eexists. reflexivity.
Qed.

(** X12.  A snapshot that is older than the queue: when the first queued
    frame is numbered above the sequence of the snapshot plus one, receiving
    the snapshot raises the gap exception of that frame.  The snapshot is
    recorded and applied, the frame is dropped from the queue, and the
    pending flag is left as it was: a book that was waiting goes on
    waiting. *)
Theorem stale_snapshot_leaves_pending snapshot w m rest seq :
  message_queue (self w) = m :: rest ->
  Message.sequence m = Some seq ->
  seq > Snapshot.sequence snapshot + 1 ->
  exists w',
    on_order_book_snapshot (Some snapshot) w
    = (Raise (Exception_missing (product_id (self w)) (seq - Snapshot.sequence snapshot)
                seq (Snapshot.sequence snapshot)), w') /\
    pending_order_book_snapshot (self w') = pending_order_book_snapshot (self w) /\
    snapshots (self w') = snapshots (self w) ++ [snapshot] /\
    message_queue (self w') = rest /\
    _sequence (self w') = Snapshot.sequence snapshot.
Proof.
  intros Hq Hseq Hgap. rewrite on_order_book_snapshot_eq.
  match goal with |- context [bind _ _ ?st] => set (w0 := st) end.
  destruct (apply_order_book_snapshot_Ok snapshot w0) as [w1 E1].
  pose proof (apply_order_book_snapshot_sequence snapshot w0 w1 E1) as Hs1.
  pose proof (keeps_Ok _ _ _ _ _ (apply_order_book_snapshot_keeps_bookkeeping snapshot) E1)
    as K1. simpl in K1. injection K1 as Kpid Kpend Ksnap.
  pose proof (keeps_Ok _ _ _ _ _ (apply_order_book_snapshot_keeps_message_queue snapshot) E1)
    as Kq. simpl in Kq.
  rewrite (bind_Ok _ _ _ _ _ E1).
  rewrite (bind_Ok _ _ _ _ _ (eq_refl : gets message_queue w1 = (Ok _, w1))).
  rewrite Kq, Hq.
  set (w2 := mkMachine (set_message_queue rest (self w1)) (heap w1) (log w1)).
  assert (update_order_book m w2
          = (Raise (Exception_missing (product_id (self w))
                      (seq - Snapshot.sequence snapshot) seq (Snapshot.sequence snapshot)),
             w2)) as E2.
  { rewrite (update_order_book_gap m w2 seq Hseq) by (simpl; rewrite Hs1; exact Hgap).
    simpl. rewrite Hs1, Kpid. reflexivity. }
  exists w2. split.
  { apply bind_Raise. rewrite drain_cons. apply bind_Raise. exact E2. }
  simpl. split; [exact Kpend|]. split; [exact Ksnap|]. split; [reflexivity | exact Hs1].
Qed.

(** ** The start of a book, end to end *)

Lemma init_order_book_connected W pid :
  product_id_to_order_book W !! pid = None ->
  ws W = true ->
  OrderBookManager.init_order_book pid W
  = (Ok tt,
     mkWorld (<[pid := OrderBook_init pid]> (product_id_to_order_book W)) (ws W)
       (requests W) (subscriptions W ++ [pid]) (objects W)
       (records W ++ [mkLog DEBUG "Subscribing to WS" pid])).
Proof.
  intros Hb Hws.
  unfold OrderBookManager.init_order_book, bind, OrderBookManager.get_order_book.
  rewrite Hb. unfold OrderBookManager.subscribe. simpl. rewrite Hws. reflexivity.
Qed.

Lemma first_message_requests W message pid b :
  Message.product_id message = Some pid ->
  product_id_to_order_book W !! pid = Some b ->
  snapshots b = [] ->
  pending_order_book_snapshot b = false ->
  exists lg,
    OrderBookManager.on_message message W
    = (Ok tt,
       mkWorld
         (<[pid := set_message_queue (message_queue b ++ [message]) (set_pending true b)]>
            (product_id_to_order_book W))
         (ws W) (requests W ++ [pid]) (subscriptions W) (objects W) (records W ++ lg)).
Proof.
  intros Hpid Hb Hsnap Hpend.
  unfold OrderBookManager.on_message. rewrite Hpid.
  unfold bind at 1. unfold OrderBookManager.get_order_book at 1. rewrite Hb.
  rewrite Hsnap, Hpend. simpl.
  unfold OrderBookManager.fetch_order_book_snapshot, bind, OrderBookManager.logging_,
    OrderBookManager.call, OrderBookManager.request. simpl.
  rewrite Hb. simpl. rewrite lookup_insert_eq. simpl.
  rewrite insert_insert_eq. eexists. rewrite <- !(assoc_L (++)). reflexivity.
Qed.

Lemma apply_all_respects messages : respects (apply_all messages).
Proof.
  induction messages as [|m messages IH]; cbn [apply_all].
  - apply respects_ret.
  - apply respects_bind; [apply update_order_book_respects | intros _; exact IH].
Qed.

Lemma snapshot_then_respects snapshot messages :
  respects (snapshot_then snapshot messages).
Proof.
  unfold snapshot_then.
  apply respects_bind;
    [apply apply_order_book_snapshot_respects | intros _; apply apply_all_respects].
Qed.

Lemma on_order_book_snapshot_snapshots snapshot w :
  snapshots (self (snd (on_order_book_snapshot (Some snapshot) w)))
  = snapshots (self w) ++ [snapshot].
Proof.
  rewrite on_order_book_snapshot_eq.
  match goal with |- context [bind ?c0 ?k0 ?st] => set (w0 := st); set (c := bind c0 k0) end.
  assert (keeps (fun w => snapshots (self w)) c) as K.
  { unfold c. apply keeps_bind; [|intros _].
    - intros w1. pose proof (apply_order_book_snapshot_keeps_bookkeeping snapshot w1) as H.
      simpl in H. injection H as _ _ H. exact H.
    - apply keeps_bind; [keeps_tac|intros q].
      apply keeps_bind; [|intros _; keeps_tac].
      intros w1. pose proof (drain_keeps_bookkeeping q w1) as H.
      simpl in H. injection H as _ _ H. exact H. }
  rewrite (K w0). reflexivity.
Qed.

(** X13.  The start of a book, end to end.  A product is registered on a
    connected socket, frames of the product arrive, and the snapshot
    response is handled: the product is subscribed once, the snapshot is
    requested once (by the first frame), and the outcome and the book are
    those of applying the snapshot to a new book and then the frames, in
    arrival order.  When that completes the queue is empty and the book is
    live. *)
Theorem bootstrap_is_snapshot_then loads_book W pid m ms body snapshot :
  product_id_to_order_book W !! pid = None ->
  ws W = true ->
  Forall (fun message => Message.product_id message = Some pid) (m :: ms) ->
  body ≫= loads_book = Some snapshot ->
  let run := bootstrap loads_book pid (m :: ms) body W in
  let direct :=
    snapshot_then snapshot (m :: ms) (mkMachine (OrderBook_init pid) (objects W) []) in
  fst run = fst direct /\
  requests (snd run) = requests W ++ [pid] /\
  subscriptions (snd run) = subscriptions W ++ [pid] /\
  exists b,
    product_id_to_order_book (snd run) !! pid = Some b /\
    core (book_of b (snd run)) = core (snd direct) /\
    snapshots b = [snapshot] /\
    (fst direct = Ok tt ->
     message_queue b = [] /\ pending_order_book_snapshot b = false).
Proof.
  intros Hnone Hws Hall Hbody. cbv zeta.
  apply Forall_cons in Hall as [Hm Hall].
  unfold bootstrap.
  rewrite (bind_Ok _ _ _ _ _ (init_order_book_connected W pid Hnone Hws)).
  match goal with |- context [bind _ _ ?st] => set (W1 := st) end.
  destruct (first_message_requests W1 m pid (OrderBook_init pid) Hm
              (lookup_insert_eq _ _ _) eq_refl eq_refl) as [lg E1].
  match type of E1 with _ = (_, ?st) => set (W2 := st) in E1 end.
  set (b2 := set_message_queue ([] ++ [m]) (set_pending true (OrderBook_init pid))) in *.
  pose proof (deliver_pending ms W2 pid b2 (lookup_insert_eq _ _ _) eq_refl Hall) as E2.
  match type of E2 with _ = (_, ?st) => set (W3 := st) in E2 end.
  set (b3 := set_message_queue (message_queue b2 ++ ms) b2) in *.
  assert (deliver (m :: ms) W1 = (Ok tt, W3)) as Ed
    by (cbn [deliver]; rewrite (bind_Ok _ _ _ _ _ E1); exact E2).
  rewrite (bind_Ok _ _ _ _ _ Ed).
  unfold handle_response. rewrite Hbody, bind_ret.
  assert (product_id_to_order_book W3 !! pid = Some b3) as Hb3
    by apply lookup_insert_eq.
  rewrite (call_run pid _ W3 b3 Hb3).
  set (w3 := book_of b3 W3).
  destruct (replay_is_snapshot_then snapshot w3) as (Hf & Hc & Hok).
  change (message_queue (self w3)) with (m :: ms) in Hf, Hc, Hok.
  assert (core w3 = core (mkMachine (OrderBook_init pid) (objects W) [])) as Hcore
    by reflexivity.
  destruct (snapshot_then_respects snapshot (m :: ms) w3 _ Hcore) as [Hf' Hc'].
  cbn [fst snd].
  split; [rewrite Hf; exact Hf'|].
  split; [reflexivity|]. split; [reflexivity|].
  exists (self (snd (on_order_book_snapshot (Some snapshot) w3))).
  split; [apply lookup_insert_eq|].
  split.
  { rewrite <- Hc', <- Hc. unfold book_of, with_book, core. reflexivity. }
  split; [apply on_order_book_snapshot_snapshots|].
  intros Hd. apply Hok. rewrite Hf'. exact Hd.
Qed.

(** ** What a frame can write *)

Lemma elem_of_queues_Tree (m : gmap Z (list nat)) q :
  q ∈ queues (RBTree.Tree m) <-> exists p, m !! p = Some q.
Proof.
  unfold queues. rewrite list_elem_of_fmap. split.
  - intros [[p q'] [-> H]]. apply elem_of_map_to_list in H. eauto.
  - intros [p H]. exists (p, q). split; [reflexivity|]. apply elem_of_map_to_list. exact H.
Qed.

Lemma elem_of_values (d : gmap string nat) l :
  l ∈ (map_to_list d).*2 <-> exists id, d !! id = Some l.
Proof.
  rewrite list_elem_of_fmap. split.
  - intros [[id l'] [-> H]]. apply elem_of_map_to_list in H. eauto.
  - intros [id H]. exists (id, l). split; [reflexivity|]. apply elem_of_map_to_list. exact H.
Qed.

Lemma elem_of_refs b l :
  l ∈ refs b <->
  (exists id, _order_id_to_order b !! id = Some l) \/
  (exists id, _order_id_to_unreflected_order b !! id = Some l) \/
  (exists q, q ∈ queues (_asks b) /\ l ∈ q) \/
  (exists q, q ∈ queues (_bids b) /\ l ∈ q).
Proof.
  unfold refs. rewrite !elem_of_app, !elem_of_values, !list_elem_of_join.
  split.
  - intros [H|[H|[(q & H1 & H2)|(q & H1 & H2)]]]; eauto 7.
  - intros [H|[H|[(q & H1 & H2)|(q & H1 & H2)]]]; eauto 7.
Qed.

Lemma RBTree_get_queues key tr q :
  RBTree.get key tr = Ok (Some q) -> q ∈ queues tr.
Proof.
  destruct tr as [m|v], key as [p|]; simpl; intros H; try discriminate H.
  - inversion H. apply elem_of_queues_Tree. eauto.
  - destruct (RBTree.is_empty m); discriminate H.
  - inversion H; subst. apply list_elem_of_singleton. reflexivity.
Qed.

Lemma RBTree_insert_queues key v tr tr' q :
  RBTree.insert key v tr = Ok tr' -> q ∈ queues tr' -> q = v \/ q ∈ queues tr.
Proof.
  destruct tr as [m|v0], key as [p|]; simpl; intros H Hq; try discriminate H.
  - inversion H; subst. apply elem_of_queues_Tree in Hq as [p0 Hq].
    destruct (decide (p = p0)) as [->|Hne].
    + rewrite lookup_insert_eq in Hq. left. congruence.
    + rewrite lookup_insert_ne in Hq by exact Hne. right.
      apply elem_of_queues_Tree. eauto.
  - destruct (RBTree.is_empty m); inversion H; subst.
    apply list_elem_of_singleton in Hq. left. exact Hq.
  - inversion H; subst. apply list_elem_of_singleton in Hq. left. exact Hq.
Qed.

Lemma RBTree_remove_queues key tr tr' q :
  RBTree.remove key tr = Ok tr' -> q ∈ queues tr' -> q ∈ queues tr.
Proof.
  destruct tr as [m|v0], key as [p|]; simpl; intros H Hq; try discriminate H.
  - destruct (m !! p) eqn:E; inversion H; subst.
    apply elem_of_queues_Tree in Hq as [p0 Hq].
    apply lookup_delete_Some in Hq as [_ Hq]. apply elem_of_queues_Tree. eauto.
  - destruct (RBTree.is_empty m); discriminate H.
Qed.

Section Footprint.
Variable L : loc -> Prop.

Lemma confined_bind {A B} (Q : A -> Prop) (R : B -> Prop) (c : M A) (k : A -> M B) :
  confined L Q c -> (forall a, Q a -> confined L R (k a)) -> confined L R (bind c k).
Proof.
  intros Hc Hk w Hw. unfold bind. destruct (Hc w Hw) as (Hw1 & Hh1 & Hq1).
  destruct (c w) as [[a|e] w1]; simpl in *.
  - destruct (Hk a (Hq1 a eq_refl) w1 Hw1) as (Hw2 & Hh2 & Hq2).
    split; [exact Hw2|]. split; [|exact Hq2].
    intros l Hl. rewrite (Hh2 l Hl). apply Hh1. exact Hl.
  - split; [exact Hw1|]. split; [exact Hh1|]. intros a H. discriminate H.
Qed.

Lemma confined_weaken {A} (Q Q' : A -> Prop) (c : M A) :
  confined L Q c -> (forall a, Q a -> Q' a) -> confined L Q' c.
Proof.
  intros Hc HQ w Hw. destruct (Hc w Hw) as (H1 & H2 & H3).
  split; [exact H1|]. split; [exact H2|]. intros a Ha. apply HQ, H3, Ha.
Qed.

Lemma confined_ret {A} (Q : A -> Prop) a : Q a -> confined L Q (ret a).
Proof.
  intros Ha w Hw. simpl. split; [exact Hw|]. split; [reflexivity|].
  intros a' H. inversion H; subst. exact Ha.
Qed.

Lemma confined_raise {A} (Q : A -> Prop) e : confined L Q (raise e).
Proof.
  intros w Hw. simpl. split; [exact Hw|]. split; [reflexivity|].
  intros a' H. discriminate H.
Qed.

Lemma confined_lift {A} (Q : A -> Prop) (r : Result A) :
  (forall a, r = Ok a -> Q a) -> confined L Q (lift r).
Proof.
  intros Hr w Hw. simpl. split; [exact Hw|]. split; [reflexivity|]. exact Hr.
Qed.

Lemma confined_getitem {A} (field : option A) key :
  confined L (fun _ => True) (getitem field key).
Proof. destruct field; [apply confined_ret; exact I | apply confined_raise]. Qed.

Lemma confined_Decimal_of_get field :
  confined L (fun _ => True) (Decimal_of_get field).
Proof. destruct field; [apply confined_ret; exact I | apply confined_raise]. Qed.

Lemma confined_logging lv txt subj : confined L (fun _ => True) (logging lv txt subj).
Proof.
  intros w Hw. simpl. split; [exact Hw|]. split; [reflexivity|]. intros; exact I.
Qed.

Lemma confined_deref l : confined L (fun _ => True) (deref l).
Proof.
  intros w Hw. unfold deref. destruct (heap w !! l); simpl;
    (split; [exact Hw|]; split; [reflexivity|]; intros; exact I).
Qed.

Lemma confined_new_Order o : confined L L (new_Order o).
Proof.
  intros w [Hw1 Hw2]. unfold new_Order. simpl. split; [split|split].
  - exact Hw1.
  - intros l Hl. apply Hw2. simpl in Hl. rewrite length_app in Hl. simpl in Hl. lia.
  - intros l Hl. apply lookup_app_l.
    destruct (decide (l < length (heap w))%nat) as [H|H]; [exact H|].
    exfalso. apply Hl, Hw2. lia.
  - intros a H. inversion H; subst. apply Hw2. lia.
Qed.

Lemma confined_setattr l f : L l -> confined L (fun _ => True) (setattr l f).
Proof.
  intros Hl w [Hw1 Hw2]. unfold setattr. destruct (heap w !! l) as [o|] eqn:E; simpl.
  - split; [split|split].
    + exact Hw1.
    + intros l' Hl'. apply Hw2. simpl in Hl'. rewrite length_insert in Hl'. exact Hl'.
    + intros l' Hl'. apply list_lookup_insert_ne. congruence.
    + intros; exact I.
  - split; [split; assumption|]. split; [reflexivity|]. intros; exact I.
Qed.

(** Reading the book. *)
Lemma confined_gets {A} (Q : A -> Prop) (f : OrderBook -> A) :
  (forall b, (forall l, l ∈ refs b -> L l) -> Q (f b)) -> confined L Q (gets f).
Proof.
  intros Hf w Hw. simpl. split; [exact Hw|]. split; [reflexivity|].
  intros a H. inversion H; subst. apply Hf. apply Hw.
Qed.

(** Writing the book. *)
Lemma confined_modify (f : OrderBook -> OrderBook) :
  (forall b, (forall l, l ∈ refs b -> L l) -> forall l, l ∈ refs (f b) -> L l) ->
  confined L (fun _ => True) (modify f).
Proof.
  intros Hf w [Hw1 Hw2]. simpl. split; [split|split].
  - apply Hf. exact Hw1.
  - exact Hw2.
  - reflexivity.
  - intros; exact I.
Qed.

Lemma refs_in b :
  (forall l, l ∈ refs b -> L l) <->
  index_in L (_order_id_to_order b) /\ index_in L (_order_id_to_unreflected_order b) /\
  queues_in L (_asks b) /\ queues_in L (_bids b).
Proof.
  split.
  - intros H. repeat split.
    + intros id l Hl. apply H, elem_of_refs. eauto.
    + intros id l Hl. apply H, elem_of_refs. eauto.
    + intros q Hq. apply Forall_forall. intros l Hl. apply H, elem_of_refs. eauto 7.
    + intros q Hq. apply Forall_forall. intros l Hl. apply H, elem_of_refs. eauto 7.
  - intros (H1 & H2 & H3 & H4) l Hl. apply elem_of_refs in Hl.
    destruct Hl as [[id Hl]|[[id Hl]|[(q & Hq & Hl)|(q & Hq & Hl)]]].
    + apply (H1 id l Hl).
    + apply (H2 id l Hl).
    + apply (proj1 (Forall_forall _ _) (H3 q Hq) l Hl).
    + apply (proj1 (Forall_forall _ _) (H4 q Hq) l Hl).
Qed.

Lemma confined_gets_tree (f : OrderBook -> RBTree.t) :
  (f = _asks \/ f = _bids) -> confined L (queues_in L) (gets f).
Proof.
  intros Hf. apply confined_gets. intros b Hb. apply refs_in in Hb.
  destruct Hf as [-> | ->]; tauto.
Qed.

Lemma confined_gets_index (f : OrderBook -> gmap string nat) :
  (f = _order_id_to_order \/ f = _order_id_to_unreflected_order) ->
  confined L (index_in L) (gets f).
Proof.
  intros Hf. apply confined_gets. intros b Hb. apply refs_in in Hb.
  destruct Hf as [-> | ->]; tauto.
Qed.

Lemma confined_set_asks_tree tr :
  queues_in L tr -> confined L (fun _ => True) (modify (set_asks_tree tr)).
Proof.
  intros Htr. apply confined_modify. intros b Hb. apply refs_in. apply refs_in in Hb.
  simpl. tauto.
Qed.

Lemma confined_set_bids_tree tr :
  queues_in L tr -> confined L (fun _ => True) (modify (set_bids_tree tr)).
Proof.
  intros Htr. apply confined_modify. intros b Hb. apply refs_in. apply refs_in in Hb.
  simpl. tauto.
Qed.

Lemma confined_set_order_id_to_order d :
  index_in L d -> confined L (fun _ => True) (modify (set_order_id_to_order d)).
Proof.
  intros Hd. apply confined_modify. intros b Hb. apply refs_in. apply refs_in in Hb.
  simpl. tauto.
Qed.

Lemma confined_set_order_id_to_unreflected_order d :
  index_in L d ->
  confined L (fun _ => True) (modify (set_order_id_to_unreflected_order d)).
Proof.
  intros Hd. apply confined_modify. intros b Hb. apply refs_in. apply refs_in in Hb.
  simpl. tauto.
Qed.

(** Writes of the book that refer to no object. *)
Lemma confined_modify_plain (f : OrderBook -> OrderBook) :
  (forall b, refs (f b) = refs b) -> confined L (fun _ => True) (modify f).
Proof. intros Hf. apply confined_modify. intros b Hb l. rewrite Hf. apply Hb. Qed.

Lemma index_in_insert d id l :
  index_in L d -> L l -> index_in L (<[id := l]> d).
Proof.
  intros Hd Hl id' l' H. destruct (decide (id = id')) as [->|Hne].
  - rewrite lookup_insert_eq in H. congruence.
  - rewrite lookup_insert_ne in H by exact Hne. apply (Hd id' l' H).
Qed.

Lemma index_in_delete d id : index_in L d -> index_in L (delete id d).
Proof. intros Hd id' l' H. apply lookup_delete_Some in H as [_ H]. apply (Hd id' l' H). Qed.

(** The ladders. *)
Lemma confined_get (f : OrderBook -> RBTree.t) price :
  (f = _asks \/ f = _bids) ->
  confined L (fun r => forall q, r = Some q -> Forall L q)
    (let! tr := gets f in lift (RBTree.get price tr)).
Proof.
  intros Hf. eapply confined_bind; [apply confined_gets_tree; exact Hf|].
  intros tr Htr. apply confined_lift. intros a Ha q ->.
  apply Htr. apply (RBTree_get_queues _ _ _ Ha).
Qed.

Lemma confined_insert price q tr :
  Forall L q -> queues_in L tr ->
  confined L (queues_in L) (lift (RBTree.insert price q tr) : M RBTree.t).
Proof.
  intros Hq Htr. apply confined_lift. intros tr' H q' Hq'.
  destruct (RBTree_insert_queues _ _ _ _ _ H Hq') as [->|H']; [exact Hq | apply Htr, H'].
Qed.

Lemma confined_remove_key price tr :
  queues_in L tr -> confined L (queues_in L) (lift (RBTree.remove price tr) : M RBTree.t).
Proof.
  intros Htr. apply confined_lift. intros tr' H q' Hq'.
  apply Htr. apply (RBTree_remove_queues _ _ _ _ H Hq').
Qed.

Lemma confined_get_asks price :
  confined L (fun r => forall q, r = Some q -> Forall L q) (get_asks price).
Proof. apply confined_get. left. reflexivity. Qed.

Lemma confined_get_bids price :
  confined L (fun r => forall q, r = Some q -> Forall L q) (get_bids price).
Proof. apply confined_get. right. reflexivity. Qed.

Lemma confined_set_asks price q :
  Forall L q -> confined L (fun _ => True) (set_asks price q).
Proof.
  intros Hq. unfold set_asks.
  eapply confined_bind; [apply confined_gets_tree; left; reflexivity|]. intros tr Htr.
  eapply confined_bind; [apply (confined_insert price q tr Hq Htr)|]. intros tr' Htr'.
  apply confined_set_asks_tree. exact Htr'.
Qed.

Lemma confined_set_bids price q :
  Forall L q -> confined L (fun _ => True) (set_bids price q).
Proof.
  intros Hq. unfold set_bids.
  eapply confined_bind; [apply confined_gets_tree; right; reflexivity|]. intros tr Htr.
  eapply confined_bind; [apply (confined_insert price q tr Hq Htr)|]. intros tr' Htr'.
  apply confined_set_bids_tree. exact Htr'.
Qed.

Lemma confined_remove_asks price : confined L (fun _ => True) (remove_asks price).
Proof.
  unfold remove_asks.
  eapply confined_bind; [apply confined_gets_tree; left; reflexivity|]. intros tr Htr.
  eapply confined_bind; [apply (confined_remove_key price tr Htr)|]. intros tr' Htr'.
  apply confined_set_asks_tree. exact Htr'.
Qed.

Lemma confined_remove_bids price : confined L (fun _ => True) (remove_bids price).
Proof.
  unfold remove_bids.
  eapply confined_bind; [apply confined_gets_tree; right; reflexivity|]. intros tr Htr.
  eapply confined_bind; [apply (confined_remove_key price tr Htr)|]. intros tr' Htr'.
  apply confined_set_bids_tree. exact Htr'.
Qed.

Lemma confined_best (f : OrderBook -> RBTree.t) (best : RBTree.t -> Result (option Decimal)) :
  confined L (fun _ => True) (let! tr := gets f in lift (best tr)).
Proof.
  eapply confined_bind; [apply (confined_gets (fun _ => True)); intros; exact I|].
  intros tr _. apply confined_lift. intros; exact I.
Qed.

Lemma confined_del_order id : confined L (fun _ => True) (del_order id).
Proof.
  unfold del_order.
  eapply confined_bind; [apply confined_gets_index; left; reflexivity|]. intros d Hd.
  destruct (d !! id); [|apply confined_raise].
  apply confined_set_order_id_to_order, index_in_delete, Hd.
Qed.

Lemma confined_del_unreflected id : confined L (fun _ => True) (del_unreflected id).
Proof.
  unfold del_unreflected.
  eapply confined_bind; [apply confined_gets_index; right; reflexivity|]. intros d Hd.
  destruct (d !! id); [|apply confined_raise].
  apply confined_set_order_id_to_unreflected_order, index_in_delete, Hd.
Qed.

(** The hooks write no object. *)
Ltac hook :=
  repeat first
    [ apply confined_logging
    | apply confined_raise
    | apply confined_ret; exact I
    | eapply confined_bind; [apply confined_logging | intros _ _]
    | match goal with |- confined _ _ (if ?c then _ else _) => destruct c end
    | match goal with |- confined _ _ (match ?c with _ => _ end) => destruct c end ].

Lemma confined_Order_repr o : confined L (fun _ => True) (Order_repr o).
Proof. unfold Order_repr. hook. Qed.

Lemma confined_on_received order ty : confined L (fun _ => True) (on_received order ty).
Proof.
  unfold on_received. eapply confined_bind; [apply confined_deref|]. intros o _. hook.
Qed.

Lemma confined_on_add order : confined L (fun _ => True) (on_add order).
Proof.
  unfold on_add. eapply confined_bind; [apply confined_deref|]. intros o _. hook.
Qed.

Lemma confined_on_remove order size reason :
  confined L (fun _ => True) (on_remove order size reason).
Proof.
  unfold on_remove. eapply confined_bind; [apply confined_deref|]. intros o _. hook.
Qed.

Lemma confined_on_match maker : confined L (fun _ => True) (on_match maker).
Proof.
  unfold on_match, get_bid, get_ask.
  eapply confined_bind; [apply confined_best|]. intros bid _.
  eapply confined_bind; [apply confined_best|]. intros ask _. hook.
Qed.

Lemma confined_on_change order : confined L (fun _ => True) (on_change order).
Proof.
  unfold on_change. eapply confined_bind; [apply confined_deref|]. intros o _.
  eapply confined_bind with (Q := fun _ => True).
  { destruct (decide (Order.side o = SELL));
      [eapply confined_weaken; [apply confined_get_asks|intros; exact I]
      |eapply confined_weaken; [apply confined_get_bids|intros; exact I]]. }
  intros [q|] _; [|apply confined_raise].
  destruct (last q); [|apply confined_raise].
  eapply confined_bind; [apply confined_deref|]. intros lo _.
  eapply confined_bind; [apply confined_Order_repr|]. intros _ _. hook.
Qed.

(** The five operations. *)
Lemma confined_received order ty :
  L order -> confined L (fun _ => True) (received order ty).
Proof.
  intros Hl. unfold received.
  eapply confined_bind; [apply confined_deref|]. intros o _.
  eapply confined_bind; [apply confined_gets_index; right; reflexivity|]. intros d Hd.
  eapply confined_bind;
    [apply confined_set_order_id_to_unreflected_order, index_in_insert; assumption|].
  intros _ _. apply confined_on_received.
Qed.

Lemma confined_add order : L order -> confined L (fun _ => True) (add order).
Proof.
  intros Hl. unfold add.
  eapply confined_bind; [apply confined_deref|]. intros o _.
  eapply confined_bind with (Q := fun _ => True).
  { destruct (decide (Order.side o = BUY)).
    - eapply confined_bind; [apply confined_get_bids|]. intros [q|] Hq.
      + apply confined_set_bids. apply Forall_app. split; [apply Hq; reflexivity|].
        apply Forall_singleton. exact Hl.
      + apply confined_set_bids. apply Forall_singleton. exact Hl.
    - eapply confined_bind; [apply confined_get_asks|]. intros [q|] Hq.
      + apply confined_set_asks. apply Forall_app. split; [apply Hq; reflexivity|].
        apply Forall_singleton. exact Hl.
      + apply confined_set_asks. apply Forall_singleton. exact Hl. }
  intros _ _.
  eapply confined_bind; [apply confined_gets_index; left; reflexivity|]. intros d Hd.
  eapply confined_bind;
    [apply confined_set_order_id_to_order, index_in_insert; assumption|].
  intros _ _. apply confined_on_add.
Qed.

Lemma confined_without_id id q :
  Forall L q -> confined L (Forall L) (without_id id q).
Proof.
  induction q as [|l q IH]; intros Hq; simpl.
  - apply confined_ret. constructor.
  - apply Forall_cons in Hq as [Hl Hq].
    eapply confined_bind; [apply confined_deref|]. intros o _.
    eapply confined_bind; [apply (IH Hq)|]. intros r Hr.
    apply confined_ret. destruct (String.eqb _ _); [exact Hr|].
    apply Forall_cons. split; assumption.
Qed.

Lemma confined_remove_level get set rem price id :
  (forall p, confined L (fun r => forall q, r = Some q -> Forall L q) (get p)) ->
  (forall p q, Forall L q -> confined L (fun _ => True) (set p q)) ->
  (forall p, confined L (fun _ => True) (rem p)) ->
  confined L (fun _ => True) (remove_level get set rem price id).
Proof.
  intros Hget Hset Hrem. unfold remove_level.
  eapply confined_bind; [apply Hget|]. intros [q|] Hq; [|apply confined_ret; exact I].
  eapply confined_bind; [apply confined_without_id, Hq; reflexivity|]. intros q' Hq'.
  destruct (0 <? length q')%nat; [apply Hset, Hq' | apply Hrem].
Qed.

Lemma confined_remove id side price size reason :
  confined L (fun _ => True) (remove id side price size reason).
Proof.
  unfold remove.
  eapply confined_bind; [apply confined_gets_index; left; reflexivity|]. intros d Hd.
  destruct (d !! id) as [order|] eqn:E.
  - eapply confined_bind; [apply confined_deref|]. intros o _.
    eapply confined_bind with (Q := fun _ => True); [hook|]. intros _ _.
    eapply confined_bind with (Q := fun _ => True); [hook|]. intros _ _.
    eapply confined_bind with (Q := fun _ => True).
    { destruct (decide (side = BUY)).
      - apply confined_remove_level;
          [apply confined_get_bids | apply confined_set_bids | apply confined_remove_bids].
      - apply confined_remove_level;
          [apply confined_get_asks | apply confined_set_asks | apply confined_remove_asks]. }
    intros _ _.
    eapply confined_bind; [apply confined_del_order|]. intros _ _.
    apply confined_on_remove.
  - eapply confined_bind; [apply confined_gets_index; right; reflexivity|]. intros u Hu.
    destruct (u !! id); [|apply confined_logging].
    eapply confined_bind; [apply confined_logging|]. intros _ _.
    apply confined_del_unreflected.
Qed.

Lemma confined_match_head get set price size maker :
  (forall p, confined L (fun r => forall q, r = Some q -> Forall L q) (get p)) ->
  (forall p q, Forall L q -> confined L (fun _ => True) (set p q)) ->
  confined L (fun _ => True) (match_head get set price size maker).
Proof.
  intros Hget Hset. unfold match_head.
  eapply confined_bind; [apply Hget|]. intros [[|head rest]|] Hq;
    try (apply confined_ret; exact I).
  specialize (Hq _ eq_refl). apply Forall_cons in Hq as [Hhead Hrest].
  eapply confined_bind; [apply confined_deref|]. intros h _.
  destruct (String.eqb _ _); [|apply confined_raise].
  eapply confined_bind with (Q := fun _ => True); [|intros _ _; apply confined_ret; exact I].
  destruct (decide (Order.size h = Some size)); [apply Hset, Hrest|].
  destruct (Order.size h); [|apply confined_raise].
  eapply confined_bind; [apply confined_setattr, Hhead|]. intros _ _.
  apply Hset. apply Forall_cons. split; assumption.
Qed.

Lemma confined_match_taker size taker : confined L (fun _ => True) (match_taker size taker).
Proof.
  unfold match_taker.
  eapply confined_bind; [apply confined_gets_index; right; reflexivity|]. intros u Hu.
  destruct (u !! taker) as [t|] eqn:E; [|apply confined_logging].
  eapply confined_bind; [apply confined_deref|]. intros o _.
  destruct (Order.size o) as [s|].
  - destruct (s =? 0).
    + eapply confined_bind; [apply confined_del_unreflected|]. intros _ _.
      apply confined_logging.
    + eapply confined_bind; [apply confined_setattr, (Hu taker t E)|]. intros _ _.
      destruct (s - size <=? 0); [|apply confined_logging].
      eapply confined_bind; [apply confined_del_unreflected|]. intros _ _.
      apply confined_logging.
  - eapply confined_bind; [apply confined_del_unreflected|]. intros _ _.
    apply confined_logging.
Qed.

Lemma confined_match side price size maker taker :
  confined L (fun _ => True) (match_ side price size maker taker).
Proof.
  unfold match_.
  eapply confined_bind; [apply confined_gets_index; left; reflexivity|]. intros d Hd.
  eapply confined_bind with (Q := fun _ => True); [hook|]. intros _ _.
  eapply confined_bind; [apply confined_match_taker|]. intros _ _.
  eapply confined_bind with (Q := fun _ => True).
  { destruct (Side_eq_str side "buy").
    - apply confined_match_head; [apply confined_get_bids | apply confined_set_bids].
    - apply confined_match_head; [apply confined_get_asks | apply confined_set_asks]. }
  intros [|] _; [apply confined_on_match | apply confined_ret; exact I].
Qed.

Lemma confined_change id old new : confined L (fun _ => True) (change id old new).
Proof.
  unfold change.
  eapply confined_bind; [apply confined_gets_index; left; reflexivity|]. intros d Hd.
  destruct (d !! id) as [order|] eqn:E; [|apply confined_logging].
  eapply confined_bind; [apply confined_deref|]. intros o _.
  eapply confined_bind with (Q := fun _ => True); [hook|]. intros _ _.
  eapply confined_bind; [apply confined_setattr, (Hd id order E)|]. intros _ _.
  apply confined_on_change.
Qed.

(** The branches of the dispatch. *)
Ltac keys :=
  repeat (eapply confined_bind; [apply confined_getitem | intros ? _]).

Lemma confined_opened_order message time seq id size :
  confined L L (opened_order message time seq id size).
Proof.
  unfold opened_order.
  eapply confined_bind; [apply confined_gets_index; right; reflexivity|]. intros u Hu.
  destruct (u !! id) as [l|] eqn:E.
  - pose proof (Hu id l E) as Hl.
    do 3 (eapply confined_bind; [apply confined_setattr, Hl|]; intros _ _).
    eapply confined_bind; [apply confined_del_unreflected|]. intros _ _.
    apply confined_ret. exact Hl.
  - keys. apply confined_new_Order.
Qed.

Lemma confined_update_open message : confined L (fun _ => True) (update_open message).
Proof.
  unfold update_open. keys.
  eapply confined_bind; [apply confined_opened_order|]. intros order Hl.
  apply confined_add. exact Hl.
Qed.

Lemma confined_update_done message : confined L (fun _ => True) (update_done message).
Proof. unfold update_done. keys. apply confined_remove. Qed.

Lemma confined_update_match message : confined L (fun _ => True) (update_match message).
Proof. unfold update_match. keys. apply confined_match. Qed.

Lemma confined_update_change message : confined L (fun _ => True) (update_change message).
Proof. unfold update_change. keys. apply confined_change. Qed.

Lemma confined_update_received message :
  confined L (fun _ => True) (update_received message).
Proof.
  unfold update_received. keys. cbv zeta.
  eapply confined_bind with (Q := fun _ => True).
  { destruct (String.eqb _ "market"); [apply confined_ret; exact I|].
    destruct (String.eqb _ "limit"); [keys; apply confined_ret; exact I|].
    eapply confined_bind; [apply confined_Decimal_of_get|]. intros ? _.
    eapply confined_bind; [apply confined_Decimal_of_get|]. intros ? _.
    apply confined_ret. exact I. }
  intros price_size _. keys.
  eapply confined_bind; [apply confined_new_Order|]. intros order Hl.
  apply confined_received. exact Hl.
Qed.

Lemma confined_dispatch ty message : confined L (fun _ => True) (dispatch ty message).
Proof.
  unfold dispatch.
  destruct (String.eqb ty "open"); [apply confined_update_open|].
  destruct (_ && _); [apply confined_update_done|].
  destruct (String.eqb ty "match"); [apply confined_update_match|].
  destruct (String.eqb ty "change"); [apply confined_update_change|].
  destruct (String.eqb ty "received"); [apply confined_update_received|].
  apply confined_ret. exact I.
Qed.

Lemma confined_update_order_book message :
  confined L (fun _ => True) (update_order_book message).
Proof.
  unfold update_order_book. keys.
  eapply confined_bind; [apply (confined_gets (fun _ => True)); intros; exact I|].
  intros last _.
  destruct (_ <=? _); [apply confined_ret; exact I|].
  destruct (_ >? _).
  { eapply confined_bind; [apply (confined_gets (fun _ => True)); intros; exact I|].
    intros pid _. apply confined_raise. }
  keys. eapply confined_bind; [apply confined_dispatch|]. intros _ _.
  apply confined_modify_plain. intros b. reflexivity.
Qed.

Lemma confined_on_message message : confined L (fun _ => True) (on_message message).
Proof.
  unfold on_message.
  eapply confined_bind; [apply (confined_gets (fun _ => True)); intros; exact I|].
  intros [|] _; [|apply confined_update_order_book].
  eapply confined_bind; [apply (confined_gets (fun _ => True)); intros; exact I|].
  intros q _. apply confined_modify_plain. intros b. reflexivity.
Qed.

End Footprint.

(** A frame writes no order object but those its book refers to: an object
    that the book does not refer to is after the update what it was before,
    whatever the frame and the outcome. *)
Lemma on_message_footprint message w l o :
  heap w !! l = Some o ->
  l ∉ refs (self w) ->
  heap (snd (on_message message w)) !! l = Some o.
Proof.
  intros Ho Hl.
  set (L := fun l => l ∈ refs (self w) \/ (length (heap w) <= l)%nat).
  destruct (confined_on_message L message w) as (_ & H & _).
  { split; intros l' Hl'; [left|right]; exact Hl'. }
  rewrite H; [exact Ho|]. intros [H1|H1]; [exact (Hl H1)|].
  apply lookup_lt_Some in Ho. lia.
Qed.

(** ** One book at a time *)

Lemma keeps_world_bind {X A B} (proj : World -> X) (c : MM A) (k : A -> MM B) :
  keeps_world proj c -> (forall a, keeps_world proj (k a)) -> keeps_world proj (bind c k).
Proof.
  intros Hc Hk W. unfold bind. specialize (Hc W).
  destruct (c W) as [[a|e] W1]; simpl in *; [rewrite Hk; exact Hc | exact Hc].
Qed.

Lemma call_elsewhere {A} pid pid' (c : M A) :
  pid' <> pid -> keeps_world (elsewhere pid') (OrderBookManager.call pid c).
Proof.
  intros Hne W. unfold OrderBookManager.call.
  destruct (product_id_to_order_book W !! pid) as [b|]; [|reflexivity].
  destruct (c _) as [r w]. unfold elsewhere. simpl.
  rewrite lookup_insert_ne by congruence. reflexivity.
Qed.

Lemma fetch_order_book_snapshot_run W pid b :
  product_id_to_order_book W !! pid = Some b ->
  exists lg,
    OrderBookManager.fetch_order_book_snapshot pid W
    = (Ok tt,
       mkWorld (<[pid := set_pending true b]> (product_id_to_order_book W)) (ws W)
         (requests W ++ [pid]) (subscriptions W) (objects W) (records W ++ lg)).
Proof.
  intros Hb.
  unfold OrderBookManager.fetch_order_book_snapshot, bind, OrderBookManager.logging_,
    OrderBookManager.call, OrderBookManager.request. simpl.
  rewrite Hb. simpl. eexists. rewrite <- !(assoc_L (++)). reflexivity.
Qed.

Lemma manager_on_message_footprint W message pid b l o :
  Message.product_id message = Some pid ->
  product_id_to_order_book W !! pid = Some b ->
  objects W !! l = Some o ->
  l ∉ refs b ->
  objects (snd (OrderBookManager.on_message message W)) !! l = Some o.
Proof.
  intros Hpid Hb Ho Hl. unfold OrderBookManager.on_message. rewrite Hpid.
  unfold bind at 1. unfold OrderBookManager.get_order_book at 1. rewrite Hb.
  assert (exists W1 b1,
            (if bool_decide (snapshots b = []) && negb (pending_order_book_snapshot b)
             then OrderBookManager.fetch_order_book_snapshot pid
             else ret tt) W = (Ok tt, W1) /\
            product_id_to_order_book W1 !! pid = Some b1 /\
            refs b1 = refs b /\ objects W1 = objects W) as (W1 & b1 & E & Hb1 & Hr & Hobj).
  { destruct (_ && _).
    - destruct (fetch_order_book_snapshot_run W pid b Hb) as [lg E].
      eexists _, (set_pending true b). split; [exact E|]. simpl.
      split; [apply lookup_insert_eq|]. split; reflexivity.
    - exists W, b. repeat split; assumption || reflexivity. }
  rewrite (bind_Ok _ _ _ _ _ E), (call_run pid _ W1 b1 Hb1). simpl.
  apply (on_message_footprint message (book_of b1 W1)).
  - simpl. rewrite Hobj. exact Ho.
  - simpl. rewrite Hr. exact Hl.
Qed.

Lemma on_message_elsewhere W message pid :
  Message.product_id message <> Some pid ->
  elsewhere pid (snd (OrderBookManager.on_message message W)) = elsewhere pid W.
Proof.
  intros Hne. revert W.
  change (keeps_world (elsewhere pid) (OrderBookManager.on_message message)).
  unfold OrderBookManager.on_message.
  destruct (Message.product_id message) as [pid0|]; [|intros W; reflexivity].
  assert (pid <> pid0) as Hne' by congruence.
  apply keeps_world_bind; [intros W; reflexivity|intros [b|]]; [|intros W; reflexivity].
  apply keeps_world_bind; [|intros _; apply call_elsewhere; exact Hne'].
  destruct (bool_decide (snapshots b = []) && negb (pending_order_book_snapshot b));
    [|intros W; reflexivity].
  unfold OrderBookManager.fetch_order_book_snapshot.
  apply keeps_world_bind; [intros W; reflexivity|intros _].
  apply keeps_world_bind; [apply call_elsewhere; exact Hne'|intros _].
  intros W; reflexivity.
Qed.

(** X14.  A frame changes the book of its own product at most.  Whatever
    the frame and whatever the outcome, the book of any other registered
    product is what it was: its entry in the manager, with its ladders, indices,
    cursor, queue and flags, and, when it shares no order object with the
    book of the frame's product, every order object it refers to.  Handling a
    frame never subscribes and never touches the socket. *)
Theorem on_message_touches_one_book W message pid b :
  Message.product_id message <> Some pid ->
  product_id_to_order_book W !! pid = Some b ->
  (forall pid0 b0,
     Message.product_id message = Some pid0 ->
     product_id_to_order_book W !! pid0 = Some b0 ->
     forall l, l ∈ refs b -> l ∉ refs b0) ->
  let W' := snd (OrderBookManager.on_message message W) in
  product_id_to_order_book W' !! pid = Some b /\
  (forall l o, l ∈ refs b -> objects W !! l = Some o -> objects W' !! l = Some o) /\
  ws W' = ws W /\
  subscriptions W' = subscriptions W.
Proof.
  intros Hne Hb Hshare. cbv zeta.
  pose proof (on_message_elsewhere W message pid Hne) as E. unfold elsewhere in E.
  injection E as E1 E2 E3. rewrite E1, E2, E3.
  split; [exact Hb|]. split; [|split; reflexivity].
  intros l o Hl Ho.
  destruct (Message.product_id message) as [pid0|] eqn:Hpid;
    [|unfold OrderBookManager.on_message; rewrite Hpid; exact Ho].
  destruct (product_id_to_order_book W !! pid0) as [b0|] eqn:Hb0.
  - apply (manager_on_message_footprint W message pid0 b0 l o Hpid Hb0 Ho).
    apply (Hshare pid0 b0 eq_refl Hb0 l Hl).
  - unfold OrderBookManager.on_message. rewrite Hpid.
    unfold bind, OrderBookManager.get_order_book. rewrite Hb0. exact Ho.
Qed.

(** ** Registering a product *)

(** X15.  [init_order_book] registers the book before it subscribes.  On
    a socket that is not connected it raises, and the book stays
    registered without a subscription; in any later state that still holds
    the book, for instance once the socket is connected, [init_order_book]
    raises "already initialized" and changes nothing, so the product is
    never subscribed. *)
Theorem init_order_book_registers_first W pid :
  product_id_to_order_book W !! pid = None ->
  ws W = false ->
  let r := OrderBookManager.init_order_book pid W in
  fst r = Raise (Exception_text "Cannot subscribe because WS is disconnected") /\
  product_id_to_order_book (snd r) !! pid = Some (OrderBook_init pid) /\
  subscriptions (snd r) = subscriptions W /\
  forall W',
    product_id_to_order_book W' !! pid = product_id_to_order_book (snd r) !! pid ->
    OrderBookManager.init_order_book pid W'
    = (Raise (Exception_text "Product already initialized in OrderBookManager"), W').
Proof.
  intros Hb Hws. cbv zeta.
  assert (OrderBookManager.init_order_book pid W
          = (Raise (Exception_text "Cannot subscribe because WS is disconnected"),
             mkWorld (<[pid := OrderBook_init pid]> (product_id_to_order_book W)) (ws W)
               (requests W) (subscriptions W) (objects W) (records W))) as ->.
  { unfold OrderBookManager.init_order_book, bind, OrderBookManager.get_order_book.
    rewrite Hb. unfold OrderBookManager.subscribe. simpl. rewrite Hws. reflexivity. }
  cbn [fst snd product_id_to_order_book subscriptions].
  split; [reflexivity|]. split; [apply lookup_insert_eq|]. split; [reflexivity|].
  intros W' HW'. rewrite lookup_insert_eq in HW'.
  unfold OrderBookManager.init_order_book, bind, OrderBookManager.get_order_book.
  rewrite HW'. reflexivity.
Qed.

(** ** The socket and the response *)

Lemma manager_gap W message pid b seq :
  Message.product_id message = Some pid ->
  product_id_to_order_book W !! pid = Some b ->
  snapshots b <> [] ->
  pending_order_book_snapshot b = false ->
  Message.sequence message = Some seq ->
  seq > _sequence b + 1 ->
  exists e, OrderBookManager.on_message message W = (Raise e, W).
Proof.
  intros Hpid Hb Hsnap Hpend Hseq Hgap.
  rewrite (on_message_routed W message pid b Hpid Hb (or_introl Hsnap)).
  rewrite (call_run pid _ W b Hb).
  assert (on_message message (book_of b W)
          = (Raise (Exception_missing (product_id b) (seq - _sequence b) seq (_sequence b)),
             book_of b W)) as ->.
  { unfold on_message.
    rewrite (bind_Ok _ _ _ _ _
               (eq_refl : gets pending_order_book_snapshot (book_of b W) = (Ok _, _))).
    simpl. rewrite Hpend.
    apply (update_order_book_gap message (book_of b W) seq Hseq Hgap). }
  simpl. rewrite (with_book_same pid b W Hb). eexists. reflexivity.
Qed.

(** X16.  The socket handler swallows what the book raises.  On a live
    book, every frame numbered above the cursor plus one makes
    [update_order_book] raise; [handle_websocket_message] catches it and
    returns normally.  So after a lost frame, with every later frame
    numbered higher still, the handler goes on returning normally while the
    books, the orders and the requests stay what they were: no frame is
    applied and no snapshot is requested. *)
Theorem gap_frames_are_swallowed loads frames : forall C pid b,
  product_id_to_order_book (manager C) !! pid = Some b ->
  snapshots b <> [] ->
  pending_order_book_snapshot b = false ->
  Forall (fun frame =>
            exists text message seq,
              snd frame = Some text /\
              loads text = Some (JDict message) /\
              Message.product_id message = Some pid /\
              Message.sequence message = Some seq /\
              seq > _sequence b + 1) frames ->
  exists C',
    receive loads frames C = (Ok tt, C') /\
    product_id_to_order_book (manager C') = product_id_to_order_book (manager C) /\
    objects (manager C') = objects (manager C) /\
    requests (manager C') = requests (manager C).
Proof.
  induction frames as [|[now message] frames IH]; intros C pid b Hb Hsnap Hpend Hall.
  - exists C. repeat split; reflexivity.
  - apply Forall_cons in Hall as [(text & m & seq & Hmsg & Hloads & Hpid & Hseq & Hgap) Hall].
    simpl in Hmsg. subst message.
    destruct (manager_gap (manager C) m pid b seq Hpid Hb Hsnap Hpend Hseq Hgap)
      as [e E].
    assert (exists C1,
              handle_websocket_message loads now (Some text) C = (Ok tt, C1) /\
              product_id_to_order_book (manager C1) = product_id_to_order_book (manager C) /\
              objects (manager C1) = objects (manager C) /\
              requests (manager C1) = requests (manager C)) as (C1 & E1 & Hb1 & Ho1 & Hr1).
    { unfold handle_websocket_message, try_callback. rewrite Hloads, E.
      destruct (String.eqb text "HEARTBEAT"); eexists; repeat split; reflexivity. }
    destruct (IH C1 pid b) as (C' & E' & Hb' & Ho' & Hr');
      [rewrite Hb1; exact Hb | exact Hsnap | exact Hpend | exact Hall |].
    exists C'. split.
    { cbn [receive]. rewrite (bind_Ok _ _ _ _ _ E1). exact E'. }
    split; [rewrite Hb'; exact Hb1|]. split; [rewrite Ho'; exact Ho1|].
    rewrite Hr'. exact Hr1.
Qed.

(** X17.  A snapshot response whose body does not decode: the callback is
    called with no data and raises [TypeError] before it touches the book.
    The book stays pending, so every later frame of the product is queued
    and none is applied, and no snapshot is requested again. *)
Theorem failed_response_leaves_pending loads_book W pid b body messages :
  product_id_to_order_book W !! pid = Some b ->
  pending_order_book_snapshot b = true ->
  body ≫= loads_book = None ->
  Forall (fun message => Message.product_id message = Some pid) messages ->
  exists W1 W2,
    handle_response loads_book pid body W = (Raise TypeError, W1) /\
    product_id_to_order_book W1 = product_id_to_order_book W /\
    deliver messages W1 = (Ok tt, W2) /\
    product_id_to_order_book W2 !! pid
    = Some (set_message_queue (message_queue b ++ messages) b) /\
    requests W2 = requests W.
Proof.
  intros Hb Hp Hbody Hall.
  set (W0 := logged ERROR "Unable to parse response as json" (default "" body) W).
  assert (product_id_to_order_book W0 !! pid = Some b) as Hb0 by exact Hb.
  assert (handle_response loads_book pid body W = (Raise TypeError, W0)) as E1.
  { unfold handle_response. rewrite Hbody.
    erewrite bind_Ok; [|reflexivity]. fold W0.
    rewrite (call_run pid _ W0 b Hb0). simpl.
    rewrite (with_book_same pid b W0 Hb0). reflexivity. }
  pose proof (deliver_pending messages W0 pid b Hb0 Hp Hall) as E2.
  eexists W0, _. split; [exact E1|]. split; [reflexivity|]. split; [exact E2|].
  split; [apply lookup_insert_eq | reflexivity].
Qed.

(** ** A frame delivered twice *)

(** X18.  A frame that was applied is skipped when it is delivered
    again: the second update returns at once and leaves the state of the
    first. *)
Theorem duplicate_frame_is_skipped message w w1 :
  update_order_book message w = (Ok tt, w1) ->
  update_order_book message w1 = (Ok tt, w1).
Proof.
  intros E.
  destruct (Message.sequence message) as [seq|] eqn:Hseq.
  2:{ unfold update_order_book in E. rewrite Hseq in E. discriminate E. }
  destruct (Z_le_gt_dec seq (_sequence (self w))) as [Hle|Hgt].
  { rewrite (update_order_book_overlap message w seq Hseq Hle) in E.
    inversion E; subst. apply (update_order_book_overlap message w1 seq Hseq Hle). }
  destruct (Z_le_gt_dec seq (_sequence (self w) + 1)) as [Hle'|Hgt'].
  - assert (seq = _sequence (self w) + 1) as Hnext by lia.
    apply (update_order_book_overlap message w1 seq Hseq).
    rewrite (update_order_book_Ok_sequence message w seq w1 Hseq Hnext E). lia.
  - rewrite (update_order_book_gap message w seq Hseq Hgt') in E. discriminate E.
Qed.

(** ** [done] of an order that is not resting *)

Lemma update_done_in_order message w seq id side price :
  is_done message seq id side price ->
  seq = _sequence (self w) + 1 ->
  exists rs reason,
    update_order_book message w
    = (remove id (Side_of_string side) price rs reason >> modify (set_sequence seq)) w.
Proof.
  intros (Hty & Hseq & [t Ht] & Hid & [reason Hreason] & Hside & Hprice & [rs Hrs]) Hnext.
  exists rs, reason.
  rewrite (update_order_book_in_order message w seq "done" Hseq Hnext Hty).
  assert (dispatch "done" message = update_done message) as ->
    by (unfold dispatch; rewrite Hprice; reflexivity).
  unfold update_done. rewrite Hid, Hreason, Hprice, Hside, Hrs, Ht, Hseq. reflexivity.
Qed.

(** X19.  A [done] that carries a price, for an id that is not resting: a
    pending order of that id leaves the pending index, and nothing else
    changes but the cursor; an id that is neither resting nor pending is
    logged as unrecognized, and the cursor advances all the same.  The
    ladders are not looked at. *)
Theorem done_of_order_not_resting message w seq id side price :
  is_done message seq id side price ->
  seq = _sequence (self w) + 1 ->
  _order_id_to_order (self w) !! id = None ->
  update_order_book message w
  = (Ok tt,
     match _order_id_to_unreflected_order (self w) !! id with
     | Some _ =>
         mkMachine
           (set_sequence seq
              (set_order_id_to_unreflected_order
                 (delete id (_order_id_to_unreflected_order (self w))) (self w)))
           (heap w) (log w ++ [mkLog DEBUG "Removing unreflected" id])
     | None =>
         mkMachine (set_sequence seq (self w)) (heap w)
           (log w ++ [mkLog ERROR "Trying to remove unrecognized" id])
     end).
Proof.
  intros Hdone Hnext Hr.
  destruct (update_done_in_order message w seq id side price Hdone Hnext)
    as (rs & reason & ->).
  destruct (_order_id_to_unreflected_order (self w) !! id) as [l|] eqn:Hu.
  - assert (remove id (Side_of_string side) price rs reason w
            = (Ok tt,
               mkMachine
                 (set_order_id_to_unreflected_order
                    (delete id (_order_id_to_unreflected_order (self w))) (self w))
                 (heap w) (log w ++ [mkLog DEBUG "Removing unreflected" id]))) as E.
    { unfold remove.
      rewrite (bind_Ok _ _ _ _ _ (eq_refl : gets _order_id_to_order w = (Ok _, w))), Hr.
      rewrite (bind_Ok _ _ _ _ _
                 (eq_refl : gets _order_id_to_unreflected_order w = (Ok _, w))), Hu.
      erewrite bind_Ok; [|reflexivity].
      apply (del_unreflected_Some id l). exact Hu. }
    rewrite (bind_Ok _ _ _ _ _ E). reflexivity.
  - assert (remove id (Side_of_string side) price rs reason w
            = (Ok tt,
               mkMachine (self w) (heap w)
                 (log w ++ [mkLog ERROR "Trying to remove unrecognized" id]))) as E.
    { unfold remove.
      rewrite (bind_Ok _ _ _ _ _ (eq_refl : gets _order_id_to_order w = (Ok _, w))), Hr.
      rewrite (bind_Ok _ _ _ _ _
                 (eq_refl : gets _order_id_to_unreflected_order w = (Ok _, w))), Hu.
      reflexivity. }
    rewrite (bind_Ok _ _ _ _ _ E). reflexivity.
Qed.

(** ** [received] *)

Lemma received_new ty o w :
  ty = "market" \/ (is_Some (Order.size o) /\ is_Some (Order.price o)) ->
  received (length (heap w)) ty (mkMachine (self w) (heap w ++ [o]) (log w))
  = (Ok tt,
     mkMachine
       (set_order_id_to_unreflected_order
          (<[Order.order_id o := length (heap w)]>
             (_order_id_to_unreflected_order (self w)))
          (self w))
       (heap w ++ [o]) (log w ++ [mkLog DEBUG "Received" (Order.order_id o)])).
Proof.
  intros Hkind.
  set (w1 := mkMachine (self w) (heap w ++ [o]) (log w)).
  assert (heap w1 !! length (heap w) = Some o) as Ho
    by (apply list_lookup_middle; reflexivity).
  unfold received. rewrite (bind_Ok _ _ _ _ _ (deref_Some _ _ _ Ho)).
  rewrite (bind_Ok _ _ _ _ _
             (eq_refl : gets _order_id_to_unreflected_order w1 = (Ok _, w1))).
  erewrite bind_Ok; [|reflexivity].
  unfold on_received. erewrite bind_Ok; [|apply deref_Some; exact Ho].
  destruct Hkind as [->|([s Hs] & [p Hp])]; [reflexivity|].
  rewrite Hs, Hp. destruct (String.eqb ty "market"); reflexivity.
Qed.

(** X20.  A [received] frame of a limit or of a market order makes a new
    order object from the frame and registers it as pending under its id,
    in place of any pending order of that id.  The ladders and the resting
    index are not touched.  The order of a market frame has no price, and
    the size and the funds the frame carries, if any. *)
Theorem received_registers_pending message w seq ty t pid id sd :
  Message.type message = Some "received" ->
  Message.sequence message = Some seq ->
  seq = _sequence (self w) + 1 ->
  Message.order_type message = Some ty ->
  Message.time message = Some t ->
  Message.product_id message = Some pid ->
  Message.order_id message = Some id ->
  Message.side message = Some sd ->
  ty = "market" \/
  (ty = "limit" /\ is_Some (Message.price message) /\ is_Some (Message.size message)) ->
  update_order_book message w
  = (Ok tt,
     mkMachine
       (set_sequence seq
          (set_order_id_to_unreflected_order
             (<[id := length (heap w)]> (_order_id_to_unreflected_order (self w)))
             (self w)))
       (heap w ++ [Order.mk (Some t) seq pid id ty (Side_of_string sd)
                     (if String.eqb ty "market" then None else Message.price message)
                     (Message.size message) (Message.funds message)])
       (log w ++ [mkLog DEBUG "Received" id])).
Proof.
  intros Hty Hseq Hnext Hot Ht Hpid Hid Hsd Hkind.
  rewrite (update_order_book_in_order message w seq "received" Hseq Hnext Hty).
  change (dispatch "received" message) with (update_received message).
  set (o := Order.mk (Some t) seq pid id ty (Side_of_string sd)
              (if String.eqb ty "market" then None else Message.price message)
              (Message.size message) (Message.funds message)).
  assert (update_received message w
          = received (length (heap w)) ty (mkMachine (self w) (heap w ++ [o]) (log w)))
    as Eu.
  { unfold update_received. rewrite Hot, Ht, Hseq, Hpid, Hid, Hsd. cbn [getitem].
    rewrite bind_ret. unfold o.
    destruct Hkind as [->|(-> & [p Hp] & [s Hs])].
    - reflexivity.
    - simpl. rewrite Hp, Hs. reflexivity. }
  assert (ty = "market" \/ (is_Some (Order.size o) /\ is_Some (Order.price o))) as Hk.
  { destruct Hkind as [->|(-> & Hp & Hs)]; [left; reflexivity | right; split; assumption]. }
  rewrite (bind_Ok _ _ _ _ _ (eq_trans Eu (received_new ty o w Hk))). reflexivity.
Qed.

(** ** [change] *)

Lemma update_change_in_order message w seq id old new :
  is_change message seq id old new ->
  seq = _sequence (self w) + 1 ->
  update_order_book message w
  = (change id old new >> modify (set_sequence seq)) w.
Proof.
  intros (Hty & Hseq & [t Ht] & Hid & [p Hp] & [sd Hsd] & Hnew & Hold) Hnext.
  rewrite (update_order_book_in_order message w seq "change" Hseq Hnext Hty).
  change (dispatch "change" message) with (update_change message).
  unfold update_change. rewrite Ht, Hseq, Hid, Hp, Hsd, Hnew, Hold. reflexivity.
Qed.

Lemma change_known id old new w l o :
  _order_id_to_order (self w) !! id = Some l ->
  heap w !! l = Some o ->
  exists lg,
    change id old new w
    = on_change l
        (mkMachine (self w) (<[l := Order.with_size (Some new) o]> (heap w))
           (log w ++ lg)).
Proof.
  intros Hr Ho. unfold change.
  rewrite (bind_Ok _ _ _ _ _ (eq_refl : gets _order_id_to_order w = (Ok _, w))).
  rewrite Hr, (bind_Ok _ _ _ _ _ (deref_Some _ _ _ Ho)).
  destruct (decide (Order.size o = Some old)).
  - exists []. rewrite bind_ret.
    rewrite (bind_Ok _ _ _ _ _ (setattr_Some l _ o w Ho)), app_nil_r. reflexivity.
  - eexists. erewrite bind_Ok; [|reflexivity].
    erewrite bind_Ok; [|apply (setattr_Some l _ o); exact Ho]. reflexivity.
Qed.

(** X21.  A [change] of a resting order that is on its ladder sets the
    size of the order to [new_size], whether or not [old_size] is the size
    the order had, and changes nothing else but the cursor: the order keeps
    its place in its queue. *)
Theorem change_sets_the_size message w seq id old new l o p q :
  consistent w ->
  is_change message seq id old new ->
  seq = _sequence (self w) + 1 ->
  _order_id_to_order (self w) !! id = Some l ->
  heap w !! l = Some o ->
  Order.price o = Some p ->
  queue_at (Order.side o) p (self w) = Some q ->
  l ∈ q ->
  exists lg,
    update_order_book message w
    = (Ok tt,
       mkMachine (set_sequence seq (self w))
         (<[l := Order.with_size (Some new) o]> (heap w)) (log w ++ lg)).
Proof.
  intros C Hchange Hnext Hr Ho Hp Hq Hin.
  rewrite (update_change_in_order message w seq id old new Hchange Hnext).
  destruct (change_known id old new w l o Hr Ho) as [lg0 E0].
  set (o' := Order.with_size (Some new) o) in *.
  match type of E0 with _ = on_change _ ?st => set (w2 := st) in E0 end.
  assert (heap w2 !! l = Some o') as Ho2
    by (apply list_lookup_insert_eq; eapply lookup_lt_Some; exact Ho).
  destruct (queue_at_Some _ _ _ _ Hq) as (m & Hm & Hmq).
  destruct (last q) as [x|] eqn:Hlast;
    [|apply last_None in Hlast; subst q; inversion Hin].
  pose proof (last_Some_elem_of _ _ Hlast) as Hx.
  destruct (queued_resting w C _ p q x Hq Hx) as (ox & Hox & _ & Hpx & Hzx & _).
  assert (exists ox', heap w2 !! x = Some ox' /\
                      is_Some (Order.price ox') /\ is_Some (Order.size ox'))
    as (ox' & Hox' & Hpx' & Hzx').
  { destruct (decide (x = l)) as [->|Hne].
    - exists o'. split; [exact Ho2|]. split; [exists p; exact Hp | simpl; eauto].
    - exists ox. split; [|split; [rewrite Hpx; eauto | exact Hzx]].
      simpl. rewrite list_lookup_insert_ne by congruence. exact Hox. }
  assert (on_change l w2
          = (Ok tt, mkMachine (self w2) (heap w2)
                      (log w2 ++ [mkLog DEBUG "Change" (Order.order_id o')]))) as E1.
  { unfold on_change. rewrite (bind_Ok _ _ _ _ _ (deref_Some _ _ _ Ho2)).
    assert ((if decide (Order.side o' = SELL)
             then get_asks (Order.price o') else get_bids (Order.price o')) w2
            = (Ok (Some q), w2)) as E3.
    { change (Order.price o') with (Order.price o). rewrite Hp.
      change (Order.side o') with (Order.side o).
      rewrite <- Hmq. destruct (Order.side o); simpl.
      - apply (get_ladder BUY p w2 m Hm).
      - apply (get_ladder SELL p w2 m Hm). }
    rewrite (bind_Ok _ _ _ _ _ E3), Hlast.
    rewrite (bind_Ok _ _ _ _ _ (deref_Some _ _ _ Hox')).
    assert (Order_repr ox' w2 = (Ok tt, w2)) as E4.
    { unfold Order_repr. destruct (String.eqb (Order.order_type ox') "market");
        [reflexivity|].
      destruct Hpx' as [? ->], Hzx' as [? ->]. reflexivity. }
    rewrite (bind_Ok _ _ _ _ _ E4). reflexivity. }
  rewrite (bind_Ok _ _ _ _ _ (eq_trans E0 E1)).
  eexists. unfold w2. simpl. rewrite <- (assoc_L (++)). reflexivity.
Qed.

(** X22.  A [change] of a resting order whose level holds an empty queue,
    as an exact fill leaves it, raises [UnboundLocalError]: the log line of
    [on_change] prints the loop variable of a loop that did not run.  The
    new size is already written to the order, and the cursor is not
    advanced. *)
Theorem change_at_an_empty_level_raises message w seq id old new l o p :
  is_change message seq id old new ->
  seq = _sequence (self w) + 1 ->
  _order_id_to_order (self w) !! id = Some l ->
  heap w !! l = Some o ->
  Order.price o = Some p ->
  queue_at (Order.side o) p (self w) = Some [] ->
  exists w',
    update_order_book message w = (Raise UnboundLocalError, w') /\
    heap w' !! l = Some (Order.with_size (Some new) o) /\
    self w' = self w.
Proof.
  intros Hchange Hnext Hr Ho Hp Hq.
  rewrite (update_change_in_order message w seq id old new Hchange Hnext).
  destruct (change_known id old new w l o Hr Ho) as [lg0 E0].
  set (o' := Order.with_size (Some new) o) in *.
  match type of E0 with _ = on_change _ ?st => set (w2 := st) in E0 end.
  assert (heap w2 !! l = Some o') as Ho2
    by (apply list_lookup_insert_eq; eapply lookup_lt_Some; exact Ho).
  destruct (queue_at_Some _ _ _ _ Hq) as (m & Hm & Hmq).
  assert (on_change l w2 = (Raise UnboundLocalError, w2)) as E1.
  { unfold on_change. rewrite (bind_Ok _ _ _ _ _ (deref_Some _ _ _ Ho2)).
    assert ((if decide (Order.side o' = SELL)
             then get_asks (Order.price o') else get_bids (Order.price o')) w2
            = (Ok (Some []), w2)) as E3.
    { change (Order.price o') with (Order.price o). rewrite Hp.
      change (Order.side o') with (Order.side o).
      rewrite <- Hmq. destruct (Order.side o); simpl.
      - apply (get_ladder BUY p w2 m Hm).
      - apply (get_ladder SELL p w2 m Hm). }
    rewrite (bind_Ok _ _ _ _ _ E3). reflexivity. }
  exists w2. split; [apply bind_Raise; exact (eq_trans E0 E1)|].
  split; [exact Ho2 | reflexivity].
Qed.

(** ** [open] and [done], exactly *)


(** X25.  A [done] of a resting order, exactly.  The order leaves the
    resting index, and the level that the frame names, on the side and at
    the price of the frame, is rewritten without the orders of that id, or
    deleted when none is left; when the frame names a level that does not
    exist, no ladder is touched.  The queue that is kept keeps its order; the
    order objects are not changed. *)
Theorem done_removes_the_order message w seq id side price l o :
  consistent w ->
  is_done message seq id side price ->
  seq = _sequence (self w) + 1 ->
  _order_id_to_order (self w) !! id = Some l ->
  heap w !! l = Some o ->
  exists w' m,
    update_order_book message w = (Ok tt, w') /\
    ladder (Side_of_string side) (self w) = RBTree.Tree m /\
    heap w' = heap w /\
    self w'
    = set_sequence seq
        (set_order_id_to_order (delete id (_order_id_to_order (self w)))
           (match m !! price with
            | None => self w
            | Some q =>
                set_ladder (Side_of_string side)
                  (RBTree.Tree (relevel price (others id (heap w) q) m)) (self w)
            end)).
Proof.
  intros C Hdone Hnext Hr Ho.
  destruct (update_done_in_order message w seq id side price Hdone Hnext)
    as (rs & reason & ->).
  destruct (remove_resting id (Side_of_string side) price rs reason w l o C Hr Ho)
    as (w1 & m & lg & E & Hm & Eh & El & Es).
  eexists _, m. split; [rewrite (bind_Ok _ _ _ _ _ E); reflexivity|].
  split; [exact Hm|]. split; [exact Eh|]. simpl. rewrite Es. reflexivity.
Qed.

(** ** An exact fill and the [done] that follows it *)

Lemma queue_at_relevel_asks p q m p0 b :
  queue_at SELL p0 (set_ladder SELL (RBTree.Tree (relevel p q m)) b)
  = if decide (p0 = p) then (match q with [] => None | _ => Some q end) else m !! p0.
Proof.
  unfold queue_at. simpl. unfold relevel.
  destruct (decide (p0 = p)) as [->|Hne].
  - destruct q; [apply lookup_delete_eq | apply lookup_insert_eq].
  - destruct q; [apply lookup_delete_ne | apply lookup_insert_ne]; congruence.
Qed.

(** X26.  The [done] of the maker repairs what an exact fill leaves.  On
    a consistent book without empty queues that has a bid, in which every
    resting order is on its ladder, a match at [last_seq + 1] for the whole
    size of the head of an asks queue pops the maker and leaves it in the
    resting index; the [done] of the maker that follows, with its side and
    price, then removes it from the index and evicts the level if it is
    empty.  After the two frames the book is
    consistent, every resting order has exactly one ladder entry again, and
    no level holds an empty queue. *)
Theorem exact_fill_then_done_restores m1 m2 w seq maker taker side price size
    head rest h pb qb :
  consistent w ->
  resting_on_ladder w ->
  no_empty_queue w ->
  is_match m1 seq maker taker price size ->
  seq = _sequence (self w) + 1 ->
  queue_at SELL price (self w) = Some (head :: rest) ->
  heap w !! head = Some h ->
  Order.order_id h = maker ->
  Order.size h = Some size ->
  queue_at BUY pb (self w) = Some qb ->
  is_done m2 (seq + 1) maker side price ->
  Side_of_string side = SELL ->
  exists w1 w2,
    update_order_book m1 w = (Ok tt, w1) /\
    queue_at SELL price (self w1) = Some rest /\
    _order_id_to_order (self w1) !! maker = Some head /\
    update_order_book m2 w1 = (Ok tt, w2) /\
    _order_id_to_order (self w2) !! maker = None /\
    consistent w2 /\
    resting_on_ladder w2 /\
    no_empty_queue w2.
Proof.
  intros C R N Hmatch Hnext Hq Hh Hid Hs Hqb Hdone Hside.
  pose proof (exactly_one_on_ladder w C R) as L.
  (* the match *)
  destruct (update_match_in_order m1 w seq maker taker price size Hmatch Hnext)
    as [sd U].
  destruct (match_on_head sd price size maker taker w head rest h size C Hq Hh Hid Hs)
    as (w0 & ma & Ea & Eb & Er & Kseq & Kpid & Eh & Hma & E).
  rewrite decide_True in E by reflexivity.
  match type of E with _ = on_match _ ?st => set (w0' := st) in E end.
  destruct (queue_at_Some BUY pb (self w) _ Hqb) as (mb & Hmb & Hqb'). simpl in Hmb.
  assert (ma !! price = Some (head :: rest)) as Hqa
    by (unfold queue_at, ladder in Hq; rewrite Hma in Hq; exact Hq).
  assert (_bids (self w0') = RBTree.Tree mb) as Hb0 by (simpl; rewrite Eb; exact Hmb).
  rewrite (on_match_Ok maker w0' mb pb qb (<[price := rest]> ma) price rest Hb0 Hqb'
             eq_refl (lookup_insert_eq _ _ _)) in E.
  match type of E with _ = (_, ?st) => set (w0'' := st) in E end.
  set (w1 := mkMachine (set_sequence seq (self w0'')) (heap w0'') (log w0'')).
  assert (update_order_book m1 w = (Ok tt, w1)) as U1
    by (rewrite U, (bind_Ok _ _ _ _ _ E); reflexivity).
  assert (consistent w1) as C1.
  { apply (update_order_book_consistent m1 w w1 C); [|exact U1].
    destruct Hmatch as (Hty & _). split; rewrite Hty; discriminate. }
  assert (forall x, (exists id, _order_id_to_order (self w) !! id = Some x) ->
            heap w1 !! x = heap w !! x) as Hkeep.
  { intros x [id Hx]. apply (Eh x). intros id' Hid'.
    apply (pending_apart w C id' id x Hid' Hx). }
  assert (_order_id_to_order (self w) !! maker = Some head) as Hrm.
  { destruct (queued_resting w C SELL price _ head Hq) as (o & Ho & _ & _ & _ & Hr); [left|].
    rewrite Hh in Ho. inversion Ho; subst o. rewrite Hid in Hr. exact Hr. }
  assert (Order.side h = SELL /\ Order.price h = Some price) as [Hhs Hhp].
  { destruct (queued_resting w C SELL price _ head Hq) as (o & Ho & Hs' & Hp' & _); [left|].
    rewrite Hh in Ho. inversion Ho; subst o. split; assumption. }
  assert (_order_id_to_order (self w1) = _order_id_to_order (self w)) as Er1 by exact Er.
  assert (heap w1 !! head = Some h) as Hh1 by (rewrite Hkeep; eauto).
  assert (_asks (self w1) = RBTree.Tree (<[price := rest]> ma)) as Ha1 by reflexivity.
  assert (_bids (self w1) = _bids (self w)) as Eb1 by exact Eb.
  (* the done *)
  destruct (update_done_in_order m2 w1 (seq + 1) maker side price Hdone eq_refl)
    as (rs & reason & U2).
  assert (_order_id_to_order (self w1) !! maker = Some head) as Hrm1
    by (rewrite Er1; exact Hrm).
  destruct (remove_resting maker (Side_of_string side) price rs reason w1 head h C1 Hrm1 Hh1)
    as (w2' & m' & lg & E2 & Hm' & Eh2 & _ & Es2).
  rewrite Hside in Hm', Es2. change (ladder SELL (self w1)) with (_asks (self w1)) in Hm'.
  rewrite Ha1 in Hm'. inversion Hm'; subst m'.
  rewrite lookup_insert_eq in Es2.
  assert (NoDup (head :: rest)) as Hnd by (apply (queued_once w C SELL price _ Hq)).
  apply NoDup_cons in Hnd as [Hnotin Hnd].
  assert (others maker (heap w1) rest = rest) as Hothers.
  { unfold others. clear Es2 E2.
    assert (forall x, x ∈ rest -> Order.order_id <$> heap w1 !! x <> Some maker) as Hall.
    { intros x Hx Hx'.
      destruct (queued_resting w C SELL price _ x Hq) as (o & Ho & _ & _ & _ & Hr);
        [right; exact Hx|].
      rewrite Hkeep in Hx' by eauto. rewrite Ho in Hx'. simpl in Hx'.
      inversion Hx' as [Hx'']. rewrite Hx'' in Hr. rewrite Hrm in Hr.
      inversion Hr; subst x. contradiction. }
    revert Hall. clear. induction rest as [|x rest IH]; intros Hall; [reflexivity|].
    rewrite filter_cons, decide_True by (apply Hall; left).
    f_equal. apply IH. intros y Hy. apply Hall. right. exact Hy. }
  rewrite Hothers in Es2.
  set (w2 := mkMachine (set_sequence (seq + 1) (self w2')) (heap w2') (log w2')).
  assert (update_order_book m2 w1 = (Ok tt, w2)) as U2'
    by (rewrite U2, (bind_Ok _ _ _ _ _ E2); reflexivity).
  assert (consistent w2) as C2.
  { apply (update_order_book_consistent m2 w1 w2 C1); [|exact U2'].
    destruct Hdone as (Hty & _ & _ & Hoid & _ & Hsd & Hpr & _).
    split; rewrite Hty; [discriminate|]. intros _ id l o Hid' Hl Ho.
    rewrite Hoid in Hid'. inversion Hid'; subst id.
    rewrite Hrm1 in Hl. inversion Hl; subst l. rewrite Hh1 in Ho. inversion Ho; subst o.
    rewrite Hsd, Hpr, Hhp. simpl. rewrite Hside, Hhs. split; reflexivity. }
  assert (forall s p,
            queue_at s p (self w2)
            = match s with
              | BUY => queue_at BUY p (self w)
              | SELL =>
                  if decide (p = price)
                  then (match rest with [] => None | _ => Some rest end)
                  else queue_at SELL p (self w)
              end) as Hqueue.
  { intros s p. unfold w2. cbn [self]. rewrite Es2.
    destruct s.
    - change (queue_at BUY p
                (set_sequence (seq + 1)
                   (set_order_id_to_order (delete maker (_order_id_to_order (self w1)))
                      (set_ladder SELL
                         (RBTree.Tree (relevel price rest (<[price := rest]> ma)))
                         (self w1)))))
        with (match _bids (self w1) with
              | RBTree.Tree m => m !! p
              | RBTree.NoneKey _ => None
              end).
      rewrite Eb1. reflexivity.
    - change (queue_at SELL p
                (set_ladder SELL
                   (RBTree.Tree (relevel price rest (<[price := rest]> ma))) (self w1))
              = if decide (p = price)
                then (match rest with [] => None | _ => Some rest end)
                else queue_at SELL p (self w)).
      rewrite queue_at_relevel_asks.
      destruct (decide (p = price)); [reflexivity|].
      rewrite lookup_insert_ne by congruence.
      unfold queue_at. simpl. rewrite Hma. reflexivity. }
  exists w1, w2.
  split; [exact U1|].
  split; [unfold queue_at; simpl; apply lookup_insert_eq|].
  split; [exact Hrm1|].
  split; [exact U2'|].
  split; [unfold w2; cbn [self]; rewrite Es2;
          cbn [_order_id_to_order set_order_id_to_order set_sequence];
          apply lookup_delete_eq|].
  split; [exact C2|].
  split.
  - apply (on_ladder_exactly_one w2 C2).
    intros id l Hl. unfold w2 in Hl. cbn [self] in Hl. rewrite Es2 in Hl.
    cbn [_order_id_to_order set_order_id_to_order set_sequence] in Hl.
    apply lookup_delete_Some in Hl as [Hne Hl]. rewrite Er1 in Hl.
    destruct (L id l Hl) as (o & p & q & Ho & Hp & Hqo & Hin).
    assert (heap w2 !! l = Some o) as Ho2.
    { unfold w2. cbn [heap]. rewrite Eh2, Hkeep by eauto. exact Ho. }
    destruct (resting_named w C id l Hl) as (o' & Ho' & Hid' & _).
    rewrite Ho in Ho'. inversion Ho'; subst o'.
    exists o, p. rewrite Hqueue.
    destruct (Order.side o) eqn:Hso.
    + exists q. repeat split; assumption.
    + destruct (decide (p = price)) as [->|Hnp].
      * rewrite Hq in Hqo. inversion Hqo; subst q.
        apply elem_of_cons in Hin as [->|Hin].
        { rewrite Hh in Ho. inversion Ho; subst o. congruence. }
        exists rest. destruct rest; [inversion Hin|]. repeat split; assumption.
      * exists q. repeat split; assumption.
  - intros s p. rewrite Hqueue. destruct s; [apply N|].
    destruct (decide (p = price)); [destruct rest; discriminate | apply N].
Qed.

(** ** The socket and a live book *)

Lemma handle_live_frame loads now text message C pid b :
  loads text = Some (JDict message) ->
  Message.product_id message = Some pid ->
  product_id_to_order_book (manager C) !! pid = Some b ->
  snapshots b <> [] ->
  pending_order_book_snapshot b = false ->
  exists C',
    handle_websocket_message loads now (Some text) C = (Ok tt, C') /\
    product_id_to_order_book (manager C')
    = <[pid := self (snd (update_order_book message (book_of b (manager C))))]>
        (product_id_to_order_book (manager C)) /\
    objects (manager C') = heap (snd (update_order_book message (book_of b (manager C)))) /\
    requests (manager C') = requests (manager C).
Proof.
  intros Hloads Hpid Hb Hsnap Hpend.
  unfold handle_websocket_message, try_callback. rewrite Hloads.
  rewrite (on_message_routed (manager C) message pid b Hpid Hb (or_introl Hsnap)).
  rewrite (call_run pid _ (manager C) b Hb).
  assert (on_message message (book_of b (manager C))
          = update_order_book message (book_of b (manager C))) as ->.
  { unfold on_message.
    rewrite (bind_Ok _ _ _ _ _
               (eq_refl : gets pending_order_book_snapshot (book_of b (manager C))
                          = (Ok _, _))).
    simpl. rewrite Hpend. reflexivity. }
  destruct (update_order_book message (book_of b (manager C))) as [[[]|e] w1]; simpl.
  - eexists. repeat split; reflexivity.
  - destruct (String.eqb text "HEARTBEAT"); eexists; repeat split; reflexivity.
Qed.

(** X27.  The socket handler threads a live book through the frames.  For
    any frames of the product of a live book, [handle_websocket_message]
    returns normally on each, and the book state after them is the state
    reached by applying [update_order_book] frame by frame, each to the state
    the one before it left, whether it returned or raised: what an update
    had changed when it raised stays changed, and the frames after it are
    still applied.  The book stays live and nothing is requested. *)
Theorem socket_threads_the_book loads frames messages : forall C pid b,
  product_id_to_order_book (manager C) !! pid = Some b ->
  snapshots b <> [] ->
  pending_order_book_snapshot b = false ->
  Forall2 (fun frame message =>
             exists text,
               snd frame = Some text /\
               loads text = Some (JDict message) /\
               Message.product_id message = Some pid) frames messages ->
  exists C' b',
    receive loads frames C = (Ok tt, C') /\
    product_id_to_order_book (manager C') !! pid = Some b' /\
    core (book_of b' (manager C')) = core (absorb messages (book_of b (manager C))) /\
    snapshots b' = snapshots b /\
    pending_order_book_snapshot b' = false /\
    requests (manager C') = requests (manager C).
Proof.
  intros C pid b Hb Hsnap Hpend Hall.
  assert (forall w, core (book_of b (manager C)) = core w ->
            exists C' b',
              receive loads frames C = (Ok tt, C') /\
              product_id_to_order_book (manager C') !! pid = Some b' /\
              core (book_of b' (manager C')) = core (absorb messages w) /\
              snapshots b' = snapshots b /\
              pending_order_book_snapshot b' = false /\
              requests (manager C') = requests (manager C)) as H;
    [|apply (H _ eq_refl)].
  revert C b Hb Hsnap Hpend.
  induction Hall as [|[now frame] message frames messages
                       (text & Hframe & Hloads & Hpid) Hall IH];
    intros C b Hb Hsnap Hpend w Hcore.
  - exists C, b. repeat split; try assumption; reflexivity.
  - simpl in Hframe. subst frame.
    destruct (handle_live_frame loads now text message C pid b Hloads Hpid Hb Hsnap Hpend)
      as (C1 & E1 & Hb1 & Ho1 & Hr1).
    set (w1 := snd (update_order_book message (book_of b (manager C)))) in *.
    pose proof (update_order_book_keeps_bookkeeping message (book_of b (manager C))) as K.
    simpl in K. fold w1 in K. injection K as _ Kpend Ksnap.
    destruct (update_order_book_respects message (book_of b (manager C)) w Hcore)
      as [_ Hcore1]. fold w1 in Hcore1.
    destruct (IH C1 (self w1)) with (w := snd (update_order_book message w))
      as (C' & b' & E' & Hb' & Hc' & Hs' & Hp' & Hr').
    + rewrite Hb1. apply lookup_insert_eq.
    + change (snapshots (self w1) <> []). rewrite Ksnap. exact Hsnap.
    + change (pending_order_book_snapshot (self w1) = false).
      rewrite Kpend. exact Hpend.
    + rewrite <- Hcore1. unfold book_of, core. simpl. rewrite Ho1. reflexivity.
    + exists C', b'. split.
      { cbn [receive]. rewrite (bind_Ok _ _ _ _ _ E1). exact E'. }
      split; [exact Hb'|]. split; [exact Hc'|].
      split; [rewrite Hs'; exact Ksnap|]. split; [exact Hp'|].
      rewrite Hr'. exact Hr1.
Qed.

(** ** The theorems at work *)

Lemma asks_only_consistent :
  consistent (book_after asks_only) /\ on_ladder (book_after asks_only).
Proof.
  pose proof book_after_nil as H.
  snoc_open H (open_frame 0 "X" "sell" 1000 100).
  snoc_received H (received_frame 1 "T" "buy" 1000 100).
  exact H.
Qed.

Lemma one_ask_no_empty_queue : no_empty_queue (book_after one_ask).
Proof.
  intros side p. unfold queue_at.
  assert (_bids (self (book_after one_ask)) = RBTree.Tree {[900 := [0%nat]]}) as Eb
    by (vm_compute; reflexivity).
  assert (_asks (self (book_after one_ask)) = RBTree.Tree {[1000 := [1%nat]]}) as Ea
    by (vm_compute; reflexivity).
  destruct side; unfold ladder; rewrite ?Eb, ?Ea; intros H;
    apply lookup_singleton_Some in H as [_ H]; discriminate H.
Qed.

Lemma open_promotes_pending_witness :
  exists w',
    update_order_book (S5_open 202 "T") pending_T = (Ok tt, w') /\
    heap w' !! 1%nat
    = Some (Order.mk (Some 0) 202 "BTC-USD" "T" "limit" SELL (Some 999) (Some 100) None) /\
    _order_id_to_unreflected_order (self w') !! "T" = None /\
    _order_id_to_order (self w') !! "T" = Some 1%nat /\
    _asks (self w') = RBTree.Tree {[999 := [1%nat]]}.
Proof.
  destruct (open_promotes_pending (S5_open 202 "T") pending_T 202 0 "T" 100 1%nat
              S2_order_T 999 ∅) as (w' & E & Hh & Hu & Hr & Ha & _);
    try (vm_compute; reflexivity).
  exists w'. split; [exact E|].
  split; [rewrite Hh; vm_compute; reflexivity|].
  split; [rewrite Hu; vm_compute; reflexivity|].
  split; [rewrite Hr; vm_compute; reflexivity|].
  simpl in Ha. rewrite Ha. vm_compute. reflexivity.
Defined.

Lemma open_then_done_restores_witness :
  exists w1 w2 o,
    update_order_book (open_frame 3 "W" "sell" 1000 100) (book_after one_ask)
    = (Ok tt, w1) /\
    _order_id_to_order (self w1) !! "W" = Some (length (heap (book_after one_ask))) /\
    update_order_book (done_frame 4 "W" "sell" 1000 "canceled") w1 = (Ok tt, w2) /\
    self w2 = set_sequence (3 + 1) (self (book_after one_ask)) /\
    heap w2 = heap (book_after one_ask) ++ [o] /\
    Order.order_id o = "W".
Proof.
  apply (open_then_done_restores (open_frame 3 "W" "sell" 1000 100)
           (done_frame 4 "W" "sell" 1000 "canceled") (book_after one_ask)
           3 "W" "sell" 1000 100).
  - apply one_ask_consistent.
  - repeat split; try reflexivity; eexists; reflexivity.
  - vm_compute. reflexivity.
  - repeat split; try reflexivity; eexists; reflexivity.
  - vm_compute. reflexivity.
  - vm_compute. reflexivity.
  - vm_compute. discriminate.
Defined.

Lemma no_empty_queue_kept_witness :
  no_empty_queue
    (snd (update_order_book (done_frame 3 "Z" "buy" 900 "canceled") (book_after one_ask))).
Proof.
  apply (no_empty_queue_kept (done_frame 3 "Z" "buy" 900 "canceled") (book_after one_ask)).
  - vm_compute. discriminate.
  - apply one_ask_no_empty_queue.
Defined.

Lemma match_never_fills_a_bid_witness :
  bids_untouched (book_after one_ask)
    (snd (update_order_book (match_frame 3 "Z" "T" "buy" 900 50) (book_after one_ask))).
Proof.
  apply (match_never_fills_a_bid (match_frame 3 "Z" "T" "buy" 900 50) (book_after one_ask)).
  - reflexivity.
  - apply one_ask_consistent.
Defined.

Lemma match_without_bids_raises_witness :
  exists w',
    update_order_book (match_frame 2 "X" "T" "sell" 1000 100) (book_after asks_only)
    = (Raise ValueError, w') /\
    _sequence (self w') = _sequence (self (book_after asks_only)) /\
    (100 = 100 -> queue_at SELL 1000 (self w') = Some []) /\
    (100 <> 100 ->
     heap w' !! 0%nat = Some (Order.with_size (Some (100 - 100)) order_X0)) /\
    update_order_book (done_frame 3 "X" "sell" 1000 "filled") w'
    = (Raise (Exception_missing (product_id (self (book_after asks_only))) 2 (2 + 1) (2 - 1)),
       w').
Proof.
  apply (match_without_bids_raises (match_frame 2 "X" "T" "sell" 1000 100)
           (book_after asks_only) 2 "X" "T" 1000 100 0%nat [] order_X0 100
           (done_frame 3 "X" "sell" 1000 "filled")).
  - apply asks_only_consistent.
  - repeat split; try reflexivity; eexists; reflexivity.
  - vm_compute. reflexivity.
  - vm_compute. reflexivity.
  - vm_compute. reflexivity.
  - vm_compute. reflexivity.
  - reflexivity.
  - reflexivity.
  - reflexivity.
Defined.

Lemma match_fills_the_maker_witness :
  exists w',
    update_order_book (match_frame 3 "X" "T" "sell" 1000 40) (book_after one_ask)
    = (Ok tt, w') /\
    queue_at SELL 1000 (self w') = Some [1%nat] /\
    heap w' !! 1%nat = Some (Order.with_size (Some 60) order_X) /\
    _sequence (self w') = 3.
Proof.
  destruct (match_fills_the_maker (match_frame 3 "X" "T" "sell" 1000 40)
              (book_after one_ask) 3 "X" "T" 1000 40 1%nat [] order_X 100 900 [0%nat])
    as (w' & E & Hq & Hh & _ & _ & _ & Hs).
  - apply one_ask_consistent.
  - repeat split; try reflexivity; eexists; reflexivity.
  - vm_compute. reflexivity.
  - vm_compute. reflexivity.
  - vm_compute. reflexivity.
  - reflexivity.
  - reflexivity.
  - vm_compute. reflexivity.
  - exists w'. split; [exact E|]. split; [exact Hq|]. split; [exact Hh | exact Hs].
Defined.

Lemma match_fills_the_taker_witness :
  let w' := snd (update_order_book (match_frame 3 "X" "T" "sell" 1000 40)
                   (book_after one_ask)) in
  heap w' !! 2%nat = Some (Order.with_size (Some (100 - 40)) (order_T 2)) /\
  _order_id_to_unreflected_order (self w')
  = if 100 - 40 <=? 0
    then delete "T" (_order_id_to_unreflected_order (self (book_after one_ask)))
    else _order_id_to_unreflected_order (self (book_after one_ask)).
Proof.
  apply (match_fills_the_taker (match_frame 3 "X" "T" "sell" 1000 40)
           (book_after one_ask) 3 "X" "T" 1000 40 2%nat (order_T 2) 100).
  - apply one_ask_consistent.
  - repeat split; try reflexivity; eexists; reflexivity.
  - vm_compute. reflexivity.
  - vm_compute. reflexivity.
  - vm_compute. reflexivity.
  - reflexivity.
  - discriminate.
Defined.

Lemma KeyError_changes_nothing_witness :
  snd (update_order_book (match_without_time 202) pending_T) = pending_T.
Proof.
  apply (KeyError_changes_nothing (match_without_time 202) pending_T "time").
  vm_compute. reflexivity.
Defined.

Lemma snapshot_establishes_invariants_witness :
  exists w',
    apply_order_book_snapshot S5_snapshot (fresh "BTC-USD") = (Ok tt, w') /\
    consistent w' /\
    resting_on_ladder w' /\
    ladder_in_resting w' /\
    queued_at_most_once w' /\
    no_empty_queue w'.
Proof.
  apply (snapshot_establishes_invariants S5_snapshot (fresh "BTC-USD")).
  - intros id l H. simpl in H. rewrite lookup_empty in H. discriminate H.
  - apply (bool_decide_unpack _). vm_compute. reflexivity.
Defined.

Lemma pending_book_only_queues_witness :
  exists W',
    deliver [S5_received 53 "d"; S5_open 54 "d"] awaiting_world = (Ok tt, W') /\
    product_id_to_order_book W' !! "BTC-USD"
    = Some (set_message_queue
              (message_queue (self S5_awaiting)
               ++ [S5_received 53 "d"; S5_open 54 "d"])
              (self S5_awaiting)) /\
    (forall other, other <> "BTC-USD" ->
       product_id_to_order_book W' !! other
       = product_id_to_order_book awaiting_world !! other) /\
    requests W' = requests awaiting_world /\
    objects W' = objects awaiting_world /\
    records W' = records awaiting_world.
Proof.
  apply (pending_book_only_queues [S5_received 53 "d"; S5_open 54 "d"] awaiting_world
           "BTC-USD" (self S5_awaiting)).
  - reflexivity.
  - reflexivity.
  - repeat constructor.
Defined.

Lemma stale_snapshot_leaves_pending_witness :
  exists w',
    on_order_book_snapshot (Some (Snapshot.mk 40 [] [])) S5_awaiting
    = (Raise (Exception_missing (product_id (self S5_awaiting))
                (48 - Snapshot.sequence (Snapshot.mk 40 [] [])) 48
                (Snapshot.sequence (Snapshot.mk 40 [] []))), w') /\
    pending_order_book_snapshot (self w') = pending_order_book_snapshot (self S5_awaiting) /\
    snapshots (self w') = snapshots (self S5_awaiting) ++ [Snapshot.mk 40 [] []] /\
    message_queue (self w')
    = [S5_open 49 "a"; S5_received 50 "b"; S5_received 51 "c"; S5_open 52 "c"] /\
    _sequence (self w') = Snapshot.sequence (Snapshot.mk 40 [] []).
Proof.
  apply (stale_snapshot_leaves_pending (Snapshot.mk 40 [] []) S5_awaiting
           (S5_received 48 "a")
           [S5_open 49 "a"; S5_received 50 "b"; S5_received 51 "c"; S5_open 52 "c"] 48).
  - reflexivity.
  - reflexivity.
  - vm_compute. reflexivity.
Defined.

Lemma bootstrap_is_snapshot_then_witness :
  let run :=
    bootstrap (loads_book_always (Some S5_snapshot)) "BTC-USD"
      [S5_received 51 "c"; S5_open 52 "c"] (Some "book") no_books in
  let direct :=
    snapshot_then S5_snapshot [S5_received 51 "c"; S5_open 52 "c"]
      (mkMachine (OrderBook_init "BTC-USD") (objects no_books) []) in
  fst direct = Ok tt /\
  fst run = fst direct /\
  requests (snd run) = requests no_books ++ ["BTC-USD"] /\
  subscriptions (snd run) = subscriptions no_books ++ ["BTC-USD"] /\
  exists b,
    product_id_to_order_book (snd run) !! "BTC-USD" = Some b /\
    core (book_of b (snd run)) = core (snd direct) /\
    snapshots b = [S5_snapshot] /\
    (fst direct = Ok tt ->
     message_queue b = [] /\ pending_order_book_snapshot b = false).
Proof.
  cbv zeta. split; [vm_compute; reflexivity|].
  apply (bootstrap_is_snapshot_then (loads_book_always (Some S5_snapshot)) no_books
           "BTC-USD" (S5_received 51 "c") [S5_open 52 "c"] (Some "book") S5_snapshot).
  - reflexivity.
  - reflexivity.
  - repeat constructor.
  - reflexivity.
Defined.

Lemma on_message_touches_one_book_witness :
  let W' := snd (OrderBookManager.on_message (change_frame 301 "B" "buy" 1000 200 150)
                   two_books) in
  (product_id_to_order_book W' !! "ETH-USD" = Some ETH_book /\
   (forall l o, l ∈ refs ETH_book -> objects two_books !! l = Some o ->
      objects W' !! l = Some o) /\
   ws W' = ws two_books /\
   subscriptions W' = subscriptions two_books) /\
  refs ETH_book = [1%nat; 1%nat] /\
  objects two_books
  = [Order.mk None 300 "BTC-USD" "B" "limit" BUY (Some 1000) (Some 200) None;
     Order.mk None 70 "ETH-USD" "E" "limit" BUY (Some 2000) (Some 100) None] /\
  objects W'
  = [Order.mk None 300 "BTC-USD" "B" "limit" BUY (Some 1000) (Some 150) None;
     Order.mk None 70 "ETH-USD" "E" "limit" BUY (Some 2000) (Some 100) None].
Proof.
  cbv zeta. split; [|vm_compute; repeat split; reflexivity].
  apply (on_message_touches_one_book two_books (change_frame 301 "B" "buy" 1000 200 150)
           "ETH-USD" ETH_book).
  - discriminate.
  - vm_compute. reflexivity.
  - intros pid0 b0 Hp Hb0 l Hl Hl0. injection Hp as <-.
    vm_compute in Hb0. injection Hb0 as <-.
    replace (refs ETH_book) with [1%nat; 1%nat] in Hl by (vm_compute; reflexivity).
    assert (l = 1%nat) as ->.
    { apply elem_of_cons in Hl as [H|Hl]; [exact H|].
      apply list_elem_of_singleton in Hl. exact Hl. }
    vm_compute in Hl0. inversion Hl0 as [|? ? ? H]. inversion H as [|? ? ? H']. inversion H'.
Defined.

Lemma init_order_book_registers_first_witness :
  let r := OrderBookManager.init_order_book "BTC-USD" disconnected in
  fst r = Raise (Exception_text "Cannot subscribe because WS is disconnected") /\
  product_id_to_order_book (snd r) !! "BTC-USD" = Some (OrderBook_init "BTC-USD") /\
  subscriptions (snd r) = subscriptions disconnected /\
  forall W',
    product_id_to_order_book W' !! "BTC-USD"
    = product_id_to_order_book (snd r) !! "BTC-USD" ->
    OrderBookManager.init_order_book "BTC-USD" W'
    = (Raise (Exception_text "Product already initialized in OrderBookManager"), W').
Proof.
  apply (init_order_book_registers_first disconnected "BTC-USD"); reflexivity.
Defined.

Lemma gap_frames_are_swallowed_witness :
  exists C',
    receive (loads_always (JDict (S4_received 302 "X")))
      [(0, Some "frame"); (1, Some "frame")] live_client = (Ok tt, C') /\
    product_id_to_order_book (manager C') = product_id_to_order_book (manager live_client) /\
    objects (manager C') = objects (manager live_client) /\
    requests (manager C') = requests (manager live_client).
Proof.
  apply (gap_frames_are_swallowed (loads_always (JDict (S4_received 302 "X")))
           [(0, Some "frame"); (1, Some "frame")] live_client "BTC-USD" S4_book).
  - reflexivity.
  - discriminate.
  - reflexivity.
  - repeat constructor;
      (exists "frame", (S4_received 302 "X"), 302;
       repeat split; try reflexivity; vm_compute; reflexivity).
Defined.

Lemma failed_response_leaves_pending_witness :
  exists W1 W2,
    handle_response (loads_book_always None) "BTC-USD" (Some "<html>") awaiting_world
    = (Raise TypeError, W1) /\
    product_id_to_order_book W1 = product_id_to_order_book awaiting_world /\
    deliver [S5_received 53 "d"] W1 = (Ok tt, W2) /\
    product_id_to_order_book W2 !! "BTC-USD"
    = Some (set_message_queue
              (message_queue (self S5_awaiting) ++ [S5_received 53 "d"])
              (self S5_awaiting)) /\
    requests W2 = requests awaiting_world.
Proof.
  apply (failed_response_leaves_pending (loads_book_always None) awaiting_world
           "BTC-USD" (self S5_awaiting) (Some "<html>") [S5_received 53 "d"]).
  - reflexivity.
  - reflexivity.
  - reflexivity.
  - repeat constructor.
Defined.

Lemma duplicate_frame_is_skipped_witness :
  let w1 := snd (update_order_book (done_frame 3 "Z" "buy" 900 "canceled")
                   (book_after one_ask)) in
  update_order_book (done_frame 3 "Z" "buy" 900 "canceled") w1 = (Ok tt, w1).
Proof.
  cbv zeta.
  apply (duplicate_frame_is_skipped (done_frame 3 "Z" "buy" 900 "canceled")
           (book_after one_ask)).
  vm_compute. reflexivity.
Defined.

Lemma done_of_order_not_resting_witness :
  update_order_book (done_frame 3 "T" "buy" 1000 "canceled") (book_after one_ask)
  = (Ok tt,
     match _order_id_to_unreflected_order (self (book_after one_ask)) !! "T" with
     | Some _ =>
         mkMachine
           (set_sequence 3
              (set_order_id_to_unreflected_order
                 (delete "T" (_order_id_to_unreflected_order (self (book_after one_ask))))
                 (self (book_after one_ask))))
           (heap (book_after one_ask))
           (log (book_after one_ask) ++ [mkLog DEBUG "Removing unreflected" "T"])
     | None =>
         mkMachine (set_sequence 3 (self (book_after one_ask)))
           (heap (book_after one_ask))
           (log (book_after one_ask) ++ [mkLog ERROR "Trying to remove unrecognized" "T"])
     end).
Proof.
  apply (done_of_order_not_resting (done_frame 3 "T" "buy" 1000 "canceled")
           (book_after one_ask) 3 "T" "buy" 1000).
  - repeat split; try reflexivity; eexists; reflexivity.
  - vm_compute. reflexivity.
  - vm_compute. reflexivity.
Defined.

Lemma received_registers_pending_witness :
  exists w',
    update_order_book (received_frame 3 "U" "buy" 950 10) (book_after one_ask)
    = (Ok tt, w') /\
    _order_id_to_unreflected_order (self w') !! "U" = Some 3%nat /\
    heap w' !! 3%nat
    = Some (Order.mk (Some 0) 3 "BTC-USD" "U" "limit" BUY (Some 950) (Some 10) None).
Proof.
  eexists. split.
  - apply (received_registers_pending (received_frame 3 "U" "buy" 950 10)
             (book_after one_ask) 3 "limit" 0 "BTC-USD" "U" "buy");
      [reflexivity | reflexivity | vm_compute; reflexivity | reflexivity | reflexivity
      | reflexivity | reflexivity | reflexivity |].
    right. split; [reflexivity|]. split; eexists; reflexivity.
  - split; vm_compute; reflexivity.
Defined.

Lemma change_sets_the_size_witness :
  exists lg,
    update_order_book (change_frame 3 "X" "sell" 1000 100 70) (book_after one_ask)
    = (Ok tt,
       mkMachine (set_sequence 3 (self (book_after one_ask)))
         (<[1%nat := Order.with_size (Some 70) order_X]> (heap (book_after one_ask)))
         (log (book_after one_ask) ++ lg)).
Proof.
  apply (change_sets_the_size (change_frame 3 "X" "sell" 1000 100 70)
           (book_after one_ask) 3 "X" 100 70 1%nat order_X 1000 [1%nat]).
  - apply one_ask_consistent.
  - repeat split; try reflexivity; eexists; reflexivity.
  - vm_compute. reflexivity.
  - vm_compute. reflexivity.
  - vm_compute. reflexivity.
  - reflexivity.
  - vm_compute. reflexivity.
  - left.
Defined.

Lemma change_at_an_empty_level_raises_witness :
  exists w',
    update_order_book (change_frame 4 "X" "sell" 1000 100 70) filled
    = (Raise UnboundLocalError, w') /\
    heap w' !! 1%nat = Some (Order.with_size (Some 70) order_X) /\
    self w' = self filled.
Proof.
  apply (change_at_an_empty_level_raises (change_frame 4 "X" "sell" 1000 100 70)
           filled 4 "X" 100 70 1%nat order_X 1000).
  - repeat split; try reflexivity; eexists; reflexivity.
  - vm_compute. reflexivity.
  - vm_compute. reflexivity.
  - vm_compute. reflexivity.
  - reflexivity.
  - vm_compute. reflexivity.
Defined.


Lemma done_removes_the_order_witness :
  exists w',
    update_order_book (done_frame 3 "X" "sell" 1000 "canceled") (book_after one_ask)
    = (Ok tt, w') /\
    _asks (self w') = RBTree.Tree ∅ /\
    _order_id_to_order (self w') !! "X" = None.
Proof.
  destruct (done_removes_the_order (done_frame 3 "X" "sell" 1000 "canceled")
              (book_after one_ask) 3 "X" "sell" 1000 1%nat order_X)
    as (w' & m & E & Hm & _ & Hs).
  - apply one_ask_consistent.
  - repeat split; try reflexivity; eexists; reflexivity.
  - vm_compute. reflexivity.
  - vm_compute. reflexivity.
  - vm_compute. reflexivity.
  - exists w'. split; [exact E|].
    assert (m = {[1000 := [1%nat]]}) as ->.
    { assert (ladder (Side_of_string "sell") (self (book_after one_ask))
              = RBTree.Tree {[1000 := [1%nat]]}) as Hm' by (vm_compute; reflexivity).
      rewrite Hm' in Hm. inversion Hm. reflexivity. }
    rewrite Hs. split; vm_compute; reflexivity.
Defined.

Lemma exact_fill_then_done_restores_witness :
  exists w1 w2,
    update_order_book full_fill (book_after one_ask) = (Ok tt, w1) /\
    queue_at SELL 1000 (self w1) = Some [] /\
    _order_id_to_order (self w1) !! "X" = Some 1%nat /\
    update_order_book (done_frame 4 "X" "sell" 1000 "filled") w1 = (Ok tt, w2) /\
    _order_id_to_order (self w2) !! "X" = None /\
    consistent w2 /\
    resting_on_ladder w2 /\
    no_empty_queue w2.
Proof.
  apply (exact_fill_then_done_restores full_fill (done_frame 4 "X" "sell" 1000 "filled")
           (book_after one_ask) 3 "X" "T" "sell" 1000 100 1%nat [] order_X 900 [0%nat]).
  - apply one_ask_consistent.
  - destruct one_ask_consistent as [C L]. apply (on_ladder_exactly_one _ C L).
  - apply one_ask_no_empty_queue.
  - repeat split; try reflexivity; eexists; reflexivity.
  - vm_compute. reflexivity.
  - vm_compute. reflexivity.
  - vm_compute. reflexivity.
  - reflexivity.
  - reflexivity.
  - vm_compute. reflexivity.
  - repeat split; try reflexivity; eexists; reflexivity.
  - reflexivity.
Defined.

Lemma socket_threads_the_book_witness :
  let frames := [(0, Some "open X"); (1, Some "match X"); (2, Some "received Y")] in
  let w0 := book_of S4_book (manager live_client) in
  let w := absorb threaded.*2 w0 in
  (exists C' b',
     receive (loads_table threaded) frames live_client = (Ok tt, C') /\
     product_id_to_order_book (manager C') !! "BTC-USD" = Some b' /\
     core (book_of b' (manager C')) = core w /\
     snapshots b' = snapshots S4_book /\
     pending_order_book_snapshot b' = false /\
     requests (manager C') = requests (manager live_client)) /\
  fst (update_order_book (open_frame 301 "X" "sell" 1000 100) w0) = Ok tt /\
  fst (update_order_book (match_frame 302 "X" "T" "sell" 1000 40)
         (absorb [open_frame 301 "X" "sell" 1000 100] w0)) = Raise ValueError /\
  heap w !! 0%nat
  = Some (Order.mk (Some 0) 301 "BTC-USD" "X" "limit" SELL (Some 1000) (Some 60) None) /\
  _order_id_to_unreflected_order (self w) !! "Y" = Some 1%nat /\
  _sequence (self w) = 302.
Proof.
  cbv zeta. split; [|vm_compute; repeat split; reflexivity].
  apply (socket_threads_the_book (loads_table threaded)
           [(0, Some "open X"); (1, Some "match X"); (2, Some "received Y")]
           threaded.*2 live_client "BTC-USD" S4_book).
  - reflexivity.
  - discriminate.
  - reflexivity.
  - repeat constructor; eexists; repeat split; reflexivity.
Defined.
